(** * gowatcher: a polling file watcher

    A shallow embedding of the snapshot tree (data_type.go), the filters,
    the tree builder, the diff pass and the forwarding loop of the watcher
    (watcher.go), followed by the properties of the specification.

    Conventions of the embedding.
    - [os.FileInfo] is the closed record of data_type.go's [fileInfo].
    - A compiled [*regexp.Regexp] is represented by its [MatchString]
      function.
    - The operating system is an oracle [FS] giving the results of
      [filepath.Abs], [os.Lstat] and [ioutil.ReadDir]; it is fixed during
      one call of the tree builder and during one diff pass.
    - A Go map is an association list with unique keys.  Go leaves the
      iteration order of [range] over a map unspecified; the model iterates
      in list order, and no statement below depends on that order.  The
      nil map that [Close] leaves in [fileTrees] is the empty list with
      the flag [fileTreesNil] set.
    - A [*FileNode] that may be [nil] is an [option FileNode].  The diff
      pass mutates nodes in place and returns either the same pointer or
      [nil]; the model returns the mutated node.
    - The recursive functions take a [fuel] bound on the recursion depth. *)

From Stdlib Require Import ZArith List String Ascii Bool Lia.
Import ListNotations.
Local Open Scope string_scope.
Local Open Scope list_scope.
Local Open Scope Z_scope.
#[local] Set Warnings "-register-all".

(* ================================================================= *)
(** ** Data model (data_type.go) *)

Inductive Op := Create | Write | Remove | Chmod.

Definition Op_eqb (a b : Op) : bool :=
  match a, b with
  | Create, Create | Write, Write | Remove, Remove | Chmod, Chmod => true
  | _, _ => false
  end.

(** [os.FileInfo], with the accessors of [fileInfo]. *)
Record FileInfo := mkInfo {
  Name : string;
  Size : Z;
  Mode : Z;        (* os.FileMode, a uint32 *)
  ModTime : Z;     (* time.Time, compared with != *)
  IsDir : bool
}.

(** [os.ModeSymlink = 1 << (32 - 1 - 4)]. *)
Definition ModeSymlink : Z := Z.shiftl 1 27.

Record Event := mkEvent {
  ev_op : Op;
  ev_path : string;
  ev_info : FileInfo
}.

Inductive FileNode := mkNode {
  Path : string;
  Info : FileInfo;
  ignored : bool;
  recursive : bool;
  Children : list (string * option FileNode)
}.

Definition ChildMap := list (string * option FileNode).

(** Go map operations on association lists. *)
Section GoMap.
Context {V : Type}.

Fixpoint map_get (k : string) (m : list (string * V)) : option V :=
    match m with
    | [] => None
    | (k', v) :: t => if String.eqb k k' then Some v else map_get k t
    end.

  (** [m[k] = v]: overwrite in place, or add a new key. *)
Fixpoint map_set (k : string) (v : V) (m : list (string * V))
    : list (string * V) :=
    match m with
    | [] => [(k, v)]
    | (k', v') :: t =>
        if String.eqb k k' then (k', v) :: t else (k', v') :: map_set k v t
    end.

  (** [delete(m, k)]. *)
Fixpoint map_delete (k : string) (m : list (string * V))
    : list (string * V) :=
    match m with
    | [] => []
    | (k', v') :: t =>
        if String.eqb k k' then map_delete k t else (k', v') :: map_delete k t
    end.

Definition map_keys (m : list (string * V)) : list string := map fst m.
End GoMap.

Fixpoint str_mem (k : string) (l : list string) : bool :=
  match l with
  | [] => false
  | x :: t => String.eqb k x || str_mem k t
  end.

Fixpoint str_remove (k : string) (l : list string) : list string :=
  match l with
  | [] => []
  | x :: t => if String.eqb k x then str_remove k t else x :: str_remove k t
  end.

(** [newNode]: a fresh node has an empty children map and is ignored when
    asked to be or when the entry is a symbolic link. *)
Definition newNode (path : string) (info : FileInfo) (rec : bool) (ign : bool)
  : FileNode :=
  {| Path := path;
     Info := info;
     ignored := ign || negb (Z.land (Mode info) ModeSymlink =? 0);
     recursive := rec;
     Children := [] |}.

Definition set_Info (n : FileNode) (i : FileInfo) : FileNode :=
  {| Path := Path n; Info := i; ignored := ignored n;
     recursive := recursive n; Children := Children n |}.

Definition set_Children (n : FileNode) (ch : ChildMap) : FileNode :=
  {| Path := Path n; Info := Info n; ignored := ignored n;
     recursive := recursive n; Children := ch |}.

Definition set_recursive (n : FileNode) (r : bool) : FileNode :=
  {| Path := Path n; Info := Info n; ignored := ignored n;
     recursive := r; Children := Children n |}.

(** The [for _, v := range node.Children] loop of [retrieveAllNodes];
    [None] is the nil-pointer panic on a nil child. *)
Definition retrieveChildren
    (retrieve : FileNode -> list (string * FileNode)
                -> option (list (string * FileNode)))
  : ChildMap -> list (string * FileNode) -> option (list (string * FileNode)) :=
  fix children (l : ChildMap) (files : list (string * FileNode)) :=
    match l with
    | [] => Some files
    | (_, None) :: _ => None
    | (_, Some v) :: t =>
        match retrieve v files with
        | None => None
        | Some files' => children t files'
        end
    end.

(** [FileNode.retrieveAllNodes]. *)
Fixpoint retrieveAllNodes (n : FileNode) (files : list (string * FileNode))
  : option (list (string * FileNode)) :=
  match n with
  | mkNode p _ _ _ ch =>
      retrieveChildren retrieveAllNodes ch (map_set p n files)
  end.

Definition FileNode_RetrieveAllNodes (n : FileNode)
  : option (list (string * FileNode)) :=
  retrieveAllNodes n [].

(* ================================================================= *)
(** ** Paths and the operating system *)

(** [filepath.Join] of a cleaned directory path other than the filesystem
    root and a directory entry's name. *)
Definition Join (dir name : string) : string :=
  (dir ++ "/" ++ name)%string.

Fixpoint has_slash (s : string) : bool :=
  match s with
  | EmptyString => false
  | String a t => Ascii.eqb a "/"%char || has_slash t
  end.

Fixpoint strip_slashes_rev (s : list ascii) : list ascii :=
  match s with
  | a :: t => if Ascii.eqb a "/"%char then strip_slashes_rev t else s
  | [] => []
  end.

Fixpoint last_element_rev (s : list ascii) (acc : list ascii) : list ascii :=
  match s with
  | [] => acc
  | a :: t => if Ascii.eqb a "/"%char then acc else last_element_rev t (a :: acc)
  end.

(** [filepath.Base]: the last element of the path, trailing separators
    removed; ["."] for the empty path, ["/"] for a path of separators. *)
Definition Base (path : string) : string :=
  match path with
  | EmptyString => "."
  | _ =>
      match strip_slashes_rev (rev (list_ascii_of_string path)) with
      | [] => "/"
      | r => string_of_list_ascii (last_element_rev r [])
      end
  end.

Inductive error :=
| ErrDurationTooShort
| ErrWatcherRunning
| ErrWatchedFileDeleted
| ErrWatchSymlink
| ErrOS (msg : string).

(** [isHiddenFile] of the non-Windows build: the error is always nil. *)
Definition isHiddenFile (path : string) : bool * option error :=
  (String.prefix "." (Base path), None).

Record FS := mkFS {
  Abs : string -> string + error;
  Lstat : string -> FileInfo + error;
  ReadDir : string -> list FileInfo + error
}.

(* ================================================================= *)
(** ** The watcher and its filters (watcher.go) *)

Definition Regexp := string -> bool.
Definition MatchString (r : Regexp) (s : string) : bool := r s.

(** The fields of [GoWatcher] that the modelled code reads or writes.
    A Go map can be nil: [fileTreesNil] says that [w.fileTrees] is the nil
    map, which reads as an empty map ([fileTrees] is then empty: a lookup
    finds nothing, a [range] has no iteration, a [delete] does nothing)
    and panics on a store. *)
Record GoWatcher := mkWatcher {
  running : bool;
  fileTrees : list (string * option FileNode);
  fileTreesNil : bool;
  nameFilters : list Regexp;
  nameIgnores : list Regexp;
  pathFilters : list Regexp;
  pathIgnores : list Regexp;
  ops : list Op;
  ignoreHidden : bool;
  maxEvents : Z
}.

Definition New : GoWatcher :=
  {| running := false; fileTrees := []; fileTreesNil := false;
     nameFilters := []; nameIgnores := [];
     pathFilters := []; pathIgnores := [];
     ops := []; ignoreHidden := false; maxEvents := 0 |}.

Definition set_fileTrees (w : GoWatcher) (t : list (string * option FileNode))
  : GoWatcher :=
  {| running := running w; fileTrees := t;
     fileTreesNil := fileTreesNil w;
     nameFilters := nameFilters w; nameIgnores := nameIgnores w;
     pathFilters := pathFilters w; pathIgnores := pathIgnores w;
     ops := ops w; ignoreHidden := ignoreHidden w; maxEvents := maxEvents w |}.

Definition set_running (w : GoWatcher) (b : bool) : GoWatcher :=
  {| running := b; fileTrees := fileTrees w;
     fileTreesNil := fileTreesNil w;
     nameFilters := nameFilters w; nameIgnores := nameIgnores w;
     pathFilters := pathFilters w; pathIgnores := pathIgnores w;
     ops := ops w; ignoreHidden := ignoreHidden w; maxEvents := maxEvents w |}.

Definition SetMaxEvents (w : GoWatcher) (delta : Z) : GoWatcher :=
  {| running := running w; fileTrees := fileTrees w;
     fileTreesNil := fileTreesNil w;
     nameFilters := nameFilters w; nameIgnores := nameIgnores w;
     pathFilters := pathFilters w; pathIgnores := pathIgnores w;
     ops := ops w; ignoreHidden := ignoreHidden w; maxEvents := delta |}.

(** The [for _, reg := range regs { if reg.MatchString(s) { return true } }]
    loop. *)
Fixpoint any_match (regs : list Regexp) (s : string) : bool :=
  match regs with
  | [] => false
  | reg :: t => if MatchString reg s then true else any_match t s
  end.

Definition shouldIgnore (w : GoWatcher) (name path : string) : bool :=
  if (List.length (nameIgnores w) =? 0)%nat && (List.length (pathIgnores w) =? 0)%nat
  then false
  else if any_match (nameIgnores w) name then true
  else if any_match (pathIgnores w) path then true
  else false.

Definition shouldNotice (w : GoWatcher) (name path : string) : bool :=
  if (List.length (nameFilters w) =? 0)%nat && (List.length (pathFilters w) =? 0)%nat
  then true
  else if any_match (nameFilters w) name then true
  else if any_match (pathFilters w) path then true
  else false.

(** The condition under which [AddPath] and [traverseTree] skip an entry. *)
Definition suppressed (w : GoWatcher) (name path : string) : bool :=
  shouldIgnore w name path || (ignoreHidden w && fst (isHiddenFile path)).

(* ================================================================= *)
(** ** Tree builder *)

(** The [for _, info := range infoList] loop of [traverseTree]; [build] is
    the recursive call.  [None] means that the fuel ran out. *)
Fixpoint traverseEntries
    (build : string -> bool -> option (option FileNode * option error))
    (w : GoWatcher) (path : string) (rec : bool)
    (infoList : list FileInfo) (childMap : ChildMap)
  : option (ChildMap + error) :=
  match infoList with
  | [] => Some (inl childMap)
  | info :: rest =>
      let name := Name info in
      let path' := Join path name in
      match isHiddenFile path' with
      | (_, Some err) => Some (inr err)
      | (isHidden, None) =>
          let shouldIgnore' := shouldIgnore w name path' in
          if shouldIgnore' || (ignoreHidden w && isHidden) then
            traverseEntries build w path rec rest childMap
          else if negb rec then
            traverseEntries build w path rec rest
              (map_set name (Some (newNode path' info false shouldIgnore'))
                 childMap)
          else if negb shouldIgnore' then
            match build path' true with
            | None => None
            | Some (child, _) =>
                traverseEntries build w path rec rest
                  (map_set name child childMap)
            end
          else traverseEntries build w path rec rest childMap
      end
  end.

(** [traverseTree] returns [(node, err)]; the outer [None] means that the
    fuel ran out. *)
Fixpoint traverseTree (fuel : nat) (w : GoWatcher) (fs : FS)
    (path : string) (rec : bool)
  : option (option FileNode * option error) :=
  match fuel with
  | O => None
  | S fuel' =>
      match Lstat fs path with
      | inr err => Some (None, Some err)
      | inl stat =>
          let node := newNode path stat rec (shouldIgnore w (Name stat) path) in
          if negb (IsDir stat) || ignored node then Some (Some node, None)
          else
            match ReadDir fs path with
            | inr err => Some (Some node, Some err)
            | inl infoList =>
                match traverseEntries (traverseTree fuel' w fs) w path rec
                        infoList [] with
                | None => None
                | Some (inr err) => Some (Some node, Some err)
                | Some (inl childMap) =>
                    Some (Some (set_Children node childMap), None)
                end
            end
      end
  end.

(** The result of a call that returns an error value and leaves the watcher
    in a new state, or dereferences a nil pointer, or stores into a nil
    map ([panic: assignment to entry in nil map]). *)
Inductive Call :=
| Returned (err : option error) (w : GoWatcher)
| NilDeref
| NilMapStore
| NoFuel.

Definition AddPath (fuel : nat) (w : GoWatcher) (fs : FS)
    (path : string) (rec : bool) : Call :=
  match Abs fs path with
  | inr err => Returned (Some err) w
  | inl path =>
      match Lstat fs path with
      | inr err => Returned (Some err) w
      | inl stat =>
          if negb (Z.land (Mode stat) ModeSymlink =? 0) then
            Returned (Some ErrWatchSymlink) w
          else
            match map_get path (fileTrees w) with
            | Some _ => Returned None w
            | None =>
                match isHiddenFile path with
                | (_, Some err) => Returned (Some err) w
                | (isHidden, None) =>
                    if shouldIgnore w (Name stat) path
                       || (ignoreHidden w && isHidden)
                    then Returned None w
                    else
                      match traverseTree fuel w fs path rec with
                      | None => NoFuel
                      | Some (None, _) => NilDeref
                      | Some (Some fileNode, Some err) => Returned (Some err) w
                      | Some (Some fileNode, None) =>
                          (* w.fileTrees[path] = fileNode *)
                          if fileTreesNil w then NilMapStore
                          else
                            Returned None
                              (set_fileTrees w
                                 (map_set path
                                    (Some (set_recursive fileNode true))
                                    (fileTrees w)))
                      end
                end
            end
      end
  end.

Definition RemovePath (w : GoWatcher) (fs : FS) (path : string)
  : option error * GoWatcher :=
  match Abs fs path with
  | inr err => (Some err, w)
  | inl path =>
      match map_get path (fileTrees w) with
      | Some _ => (None, set_fileTrees w (map_delete path (fileTrees w)))
      | None => (None, w)
      end
  end.

(** [GoWatcher.RetrieveAllNodes]; [None] is a nil-pointer panic. *)
Fixpoint RetrieveAllNodes_roots (roots : list (string * option FileNode))
    (files : list (string * FileNode)) : option (list (string * FileNode)) :=
  match roots with
  | [] => Some files
  | (_, None) :: _ => None
  | (_, Some v) :: t =>
      match FileNode_RetrieveAllNodes v with
      | None => None
      | Some c =>
          RetrieveAllNodes_roots t
            (fold_left (fun files kv => map_set (fst kv) (snd kv) files) c files)
      end
  end.

Definition RetrieveAllNodes (w : GoWatcher)
  : option (list (string * FileNode)) :=
  RetrieveAllNodes_roots (fileTrees w) [].

(* ================================================================= *)
(** ** One poll cycle: the forwarding loop of [Start] *)

(** Go's [int] is 64 bits wide on the supported platforms. *)
Definition int_wrap (z : Z) : Z := (z + 2 ^ 63) mod 2 ^ 64 - 2 ^ 63.
Definition max_int : Z := 2 ^ 63 - 1.

(** The channels and the counter that [Start] creates for one cycle:
    whether [cancel] is closed, [numEvents], the events received from [evt]
    and the events sent on the public [Event] channel, oldest first. *)
Record Cycle := mkCycle {
  cancel : bool;
  numEvents : Z;
  received : list Event;
  delivered : list Event
}.

Definition new_cycle : Cycle :=
  {| cancel := false; numEvents := 0; received := []; delivered := [] |}.

Fixpoint op_found (o : Op) (l : list Op) : bool :=
  match l with
  | [] => false
  | x :: t => Op_eqb o x || op_found o t
  end.

(** An event survives the filters of the [case event := <-evt] branch. *)
Definition survives (w : GoWatcher) (event : Event) : bool :=
  (if (0 <? List.length (ops w))%nat then op_found (ev_op event) (ops w)
   else true)
  && shouldNotice w (Name (ev_info event)) (ev_path event).

(** The [case event := <-evt] branch of the [select] in [Start]. *)
Definition forward (w : GoWatcher) (event : Event) (c : Cycle) : Cycle :=
  let rcv := received c ++ [event] in
  if (0 <? List.length (ops w))%nat && negb (op_found (ev_op event) (ops w))
  then {| cancel := cancel c; numEvents := numEvents c;
          received := rcv; delivered := delivered c |}
  else if negb (shouldNotice w (Name (ev_info event)) (ev_path event))
  then {| cancel := cancel c; numEvents := numEvents c;
          received := rcv; delivered := delivered c |}
  else
    let numEvents' := int_wrap (numEvents c + 1) in
    if (0 <? maxEvents w) && (maxEvents w <? numEvents')
    then {| cancel := true; numEvents := numEvents';
            received := rcv; delivered := delivered c |}
    else {| cancel := cancel c; numEvents := numEvents';
            received := rcv; delivered := delivered c ++ [event] |}.

(** What the [select] of the inner loop receives, in order. *)
Inductive Msg :=
| FromClose
| FromEvt (event : Event)
| FromDone.

Inductive Exit :=
| Waiting        (* blocked in the select *)
| BreakInner     (* the cycle is over *)
| ReturnNil.     (* Start returns *)

(** The [inner:] loop of [Start], entered with a fresh cycle. *)
Fixpoint inner (w : GoWatcher) (msgs : list Msg) (c : Cycle) : Exit * Cycle :=
  match msgs with
  | [] => (Waiting, c)
  | FromClose :: _ =>
      (ReturnNil,
       {| cancel := true; numEvents := numEvents c;
          received := received c; delivered := delivered c |})
  | FromEvt event :: rest =>
      let c' := forward w event c in
      if cancel c' then (BreakInner, c') else inner w rest c'
  | FromDone :: _ => (BreakInner, c)
  end.

(** The events of a message sequence that reach the [evt] branch before
    the loop is left by [done] or [close]. *)
Fixpoint events_before_exit (msgs : list Msg) : list Event :=
  match msgs with
  | FromEvt event :: rest => event :: events_before_exit rest
  | _ => []
  end.

(** The synchronous part of [Start]: the error it returns, if any, and the
    watcher state it leaves. Duration is an int64 count of nanoseconds. *)
Definition Nanosecond : Z := 1.

Definition Start_entry (w : GoWatcher) (d : Z) : option error * GoWatcher :=
  if d <? Nanosecond then (Some ErrDurationTooShort, w)
  else if running w then (Some ErrWatcherRunning, w)
  else (None, set_running w true).

(* ================================================================= *)
(** ** The diff pass *)

(** How a call of the diff goroutine ends: it returns, it stays blocked in
    a send on [evt] that nobody receives, it dereferences a nil pointer,
    or the model's fuel ran out. *)
Inductive Outcome (A : Type) :=
| Ret (a : A) (c : Cycle)
| Blocked (c : Cycle)
| Panic (c : Cycle)
| OutOfFuel.
Arguments Ret {A} a c.
Arguments Blocked {A} c.
Arguments Panic {A} c.
Arguments OutOfFuel {A}.

(** [select { case <-cancel: return node; case evt <- e: }]: the loop of
    [Start] stops receiving once it has closed [cancel]. *)
Definition select_send (w : GoWatcher) (e : Event) (c : Cycle) : option Cycle :=
  if cancel c then None else Some (forward w e c).

Definition send_if (differs : bool) (w : GoWatcher) (e : Event) (c : Cycle)
  : option Cycle :=
  if differs then select_send w e c else Some c.

(** The first loop of [pollNodeEvent], over the live directory entries.
    The result is [(returned, children, infoMap)]; [returned] says that
    the loop executed [return node]. *)
Fixpoint pollEntries
    (poll : option FileNode -> Cycle -> Outcome (option FileNode))
    (w : GoWatcher) (nodePath : string) (nodeRecursive : bool)
    (infoList : list FileInfo) (children : ChildMap) (infoMap : list string)
    (c : Cycle) : Outcome (bool * ChildMap * list string) :=
  match infoList with
  | [] => Ret (false, children, infoMap) c
  | info :: rest =>
      let name := Name info in
      let path := Join nodePath name in
      match isHiddenFile path with
      | (_, Some _) => Ret (true, children, infoMap) c
      | (isHidden, None) =>
          if ignoreHidden w && isHidden then
            pollEntries poll w nodePath nodeRecursive rest children infoMap c
          else
            match map_get name children with
            | Some None => Panic c
            | Some (Some child) =>
                if ignored child then
                  pollEntries poll w nodePath nodeRecursive rest
                    children infoMap c
                else
                  match poll (Some child) c with
                  | Ret r c' =>
                      pollEntries poll w nodePath nodeRecursive rest
                        (map_set name r children) (name :: infoMap) c'
                  | Blocked c' => Blocked c'
                  | Panic c' => Panic c'
                  | OutOfFuel => OutOfFuel
                  end
            | None =>
                let newChild :=
                  newNode path info nodeRecursive (shouldIgnore w name path) in
                let children' := map_set name (Some newChild) children in
                if ignored newChild then
                  pollEntries poll w nodePath nodeRecursive rest
                    children' infoMap c
                else
                  match select_send w (mkEvent Create path info) c with
                  | None => Ret (true, children', infoMap) c
                  | Some c1 =>
                      match poll (Some newChild) c1 with
                      | Ret r c2 =>
                          (* the result is dropped; [newChild] was updated
                             in place unless the call returned nil *)
                          let newChild' :=
                            match r with Some m => m | None => newChild end in
                          pollEntries poll w nodePath nodeRecursive rest
                            (map_set name (Some newChild') children')
                            (name :: infoMap) c2
                      | Blocked c' => Blocked c'
                      | Panic c' => Panic c'
                      | OutOfFuel => OutOfFuel
                      end
                  end
            end
      end
  end.

(** The second loop of [pollNodeEvent], over the children map: [todo] are
    the entries still to visit, [kept] the entries already visited that
    stay in the map. *)
Fixpoint sweepChildren
    (poll : option FileNode -> Cycle -> Outcome (option FileNode))
    (w : GoWatcher) (todo kept : ChildMap) (infoMap : list string)
    (c : Cycle) : Outcome (bool * ChildMap) :=
  match todo with
  | [] => Ret (false, kept) c
  | (k, None) :: rest => sweepChildren poll w rest kept infoMap c
  | (k, Some childNode) :: rest =>
      if str_mem k infoMap then
        match poll (Some childNode) c with
        | Ret r c' =>
            sweepChildren poll w rest (kept ++ [(k, r)])
              (str_remove k infoMap) c'
        | Blocked c' => Blocked c'
        | Panic c' => Panic c'
        | OutOfFuel => OutOfFuel
        end
      else if ignored childNode then
        sweepChildren poll w rest kept infoMap c
      else
        match select_send w
                (mkEvent Remove (Path childNode) (Info childNode)) c with
        | None => Ret (true, kept ++ rest) c
        | Some c' => sweepChildren poll w rest kept infoMap c'
        end
  end.

Fixpoint pollNodeEvent (fuel : nat) (w : GoWatcher) (fs : FS)
    (node : option FileNode) (c : Cycle) : Outcome (option FileNode) :=
  match fuel with
  | O => OutOfFuel
  | S fuel' =>
      match node with
      | None => Ret None c
      | Some node =>
          if ignored node then Ret (Some node) c
          else
            match Lstat fs (Path node) with
            | inr _ =>
                (* evt <- Event{Remove, ...} outside any select *)
                if cancel c then Blocked c
                else Ret None
                       (forward w (mkEvent Remove (Path node) (Info node)) c)
            | inl newInfo =>
                match send_if (negb (ModTime (Info node) =? ModTime newInfo))
                        w (mkEvent Write (Path node) newInfo) c with
                | None => Ret (Some node) c
                | Some c1 =>
                    match send_if (negb (Mode (Info node) =? Mode newInfo))
                            w (mkEvent Chmod (Path node) newInfo) c1 with
                    | None => Ret (Some node) c1
                    | Some c2 =>
                        let node1 := set_Info node newInfo in
                        if negb (IsDir newInfo) || negb (recursive node1)
                        then Ret (Some node1) c2
                        else
                          match ReadDir fs (Path node1) with
                          | inr _ => Ret (Some node1) c2
                          | inl infoList =>
                              match pollEntries (pollNodeEvent fuel' w fs) w
                                      (Path node1) (recursive node1)
                                      infoList (Children node1) [] c2 with
                              | Ret (true, children, _) c3 =>
                                  Ret (Some (set_Children node1 children)) c3
                              | Ret (false, children, infoMap) c3 =>
                                  match sweepChildren
                                          (pollNodeEvent fuel' w fs) w
                                          children [] infoMap c3 with
                                  | Ret (_, children') c4 =>
                                      Ret (Some (set_Children node1 children'))
                                        c4
                                  | Blocked c' => Blocked c'
                                  | Panic c' => Panic c'
                                  | OutOfFuel => OutOfFuel
                                  end
                              | Blocked c' => Blocked c'
                              | Panic c' => Panic c'
                              | OutOfFuel => OutOfFuel
                              end
                          end
                    end
                end
            end
      end
  end.

(** [pollEvents]: [w.fileTrees[k] = w.pollNodeEvent(v, evt, cancel)] for
    every root. *)
Fixpoint pollRoots (fuel : nat) (w : GoWatcher) (fs : FS)
    (todo : list (string * option FileNode)) (c : Cycle)
  : Outcome (list (string * option FileNode)) :=
  match todo with
  | [] => Ret [] c
  | (k, v) :: rest =>
      match pollNodeEvent fuel w fs v c with
      | Ret v' c' =>
          match pollRoots fuel w fs rest c' with
          | Ret rest' c'' => Ret ((k, v') :: rest') c''
          | Blocked c'' => Blocked c''
          | Panic c'' => Panic c''
          | OutOfFuel => OutOfFuel
          end
      | Blocked c' => Blocked c'
      | Panic c' => Panic c'
      | OutOfFuel => OutOfFuel
      end
  end.

Definition pollEvents (fuel : nat) (w : GoWatcher) (fs : FS) (c : Cycle)
  : Outcome GoWatcher :=
  match pollRoots fuel w fs (fileTrees w) c with
  | Ret roots c' => Ret (set_fileTrees w roots) c'
  | Blocked c' => Blocked c'
  | Panic c' => Panic c'
  | OutOfFuel => OutOfFuel
  end.

(** [Close]: a running watcher stops and drops its trees:
    [w.running = false; w.fileTrees = nil]. *)
Definition Close (w : GoWatcher) : GoWatcher :=
  if running w then
    {| running := false; fileTrees := []; fileTreesNil := true;
       nameFilters := nameFilters w; nameIgnores := nameIgnores w;
       pathFilters := pathFilters w; pathIgnores := pathIgnores w;
       ops := ops w; ignoreHidden := ignoreHidden w; maxEvents := maxEvents w |}
  else w.

(** The watcher states that the public operations can produce.  A
    configuration setter changes anything but the trees. *)
Inductive reachable : GoWatcher -> Prop :=
| reach_New : reachable New
| reach_configure (w w' : GoWatcher) :
    reachable w -> fileTrees w' = fileTrees w ->
    fileTreesNil w' = fileTreesNil w -> reachable w'
| reach_AddPath (w w' : GoWatcher) fuel fs path rec err :
    reachable w -> AddPath fuel w fs path rec = Returned err w' ->
    reachable w'
| reach_RemovePath (w : GoWatcher) fs path :
    reachable w -> reachable (snd (RemovePath w fs path))
| reach_Close (w : GoWatcher) :
    reachable w -> reachable (Close w)
| reach_pollEvents (w w' : GoWatcher) fuel fs c c' :
    reachable w -> pollEvents fuel w fs c = Ret w' c' -> reachable w'.

(* ================================================================= *)
(** ** Fuel *)

(** [fs_depth fs d path]: the directory tree below [path] has fewer than
    [d] levels, so [d] is enough fuel to walk it. *)
Fixpoint fs_depth (fs : FS) (d : nat) (path : string) : bool :=
  match d with
  | O => false
  | S d' =>
      match ReadDir fs path with
      | inl infoList =>
          forallb (fun info => fs_depth fs d' (Join path (Name info))) infoList
      | inr _ => true
      end
  end.

(** [tree_fits fs d n]: [d] is enough fuel to diff the snapshot tree [n]
    against [fs]. *)
Fixpoint tree_fits (fs : FS) (d : nat) (n : FileNode) : bool :=
  match d with
  | O => false
  | S d' =>
      fs_depth fs d (Path n)
      && forallb (fun kv => match snd kv with
                            | Some c => tree_fits fs d' c
                            | None => true
                            end) (Children n)
  end.

(* ================================================================= *)
(** ** A small filesystem for the examples

    [/d] holds a hidden file, a regular file, a symbolic link, a
    sub-directory with one file, and a file named [x]. *)

Definition ModeDir : Z := Z.shiftl 1 31.
Definition ex_file (name : string) (mtime : Z) : FileInfo :=
  mkInfo name 0 420 mtime false.
Definition ex_dir (name : string) (mtime : Z) : FileInfo :=
  mkInfo name 0 (ModeDir + 493) mtime true.
Definition ex_link (name : string) (mtime : Z) : FileInfo :=
  mkInfo name 0 (ModeSymlink + 511) mtime false.

Definition ex_enoent : error := ErrOS "no such file or directory".

Definition ex_fs : FS :=
  {| Abs := fun p => inl p;
     Lstat := fun p =>
       if String.eqb p "/d" then inl (ex_dir "d" 1)
       else if String.eqb p "/d/.h" then inl (ex_file ".h" 1)
       else if String.eqb p "/d/a.txt" then inl (ex_file "a.txt" 1)
       else if String.eqb p "/d/l" then inl (ex_link "l" 1)
       else if String.eqb p "/d/sub" then inl (ex_dir "sub" 1)
       else if String.eqb p "/d/sub/f" then inl (ex_file "f" 1)
       else if String.eqb p "/d/x" then inl (ex_file "x" 1)
       else inr ex_enoent;
     ReadDir := fun p =>
       if String.eqb p "/d" then
         inl [ex_file ".h" 1; ex_file "a.txt" 1; ex_link "l" 1;
              ex_dir "sub" 1; ex_file "x" 1]
       else if String.eqb p "/d/sub" then inl [ex_file "f" 1]
       else inr (ErrOS "not a directory") |}.

(** A watcher that excludes the name [x] and hidden files. *)
Definition ex_watcher : GoWatcher :=
  {| running := false; fileTrees := []; fileTreesNil := false;
     nameFilters := []; nameIgnores := [String.eqb "x"];
     pathFilters := []; pathIgnores := [];
     ops := []; ignoreHidden := true; maxEvents := 0 |}.

Definition ex_event (o : Op) (name : string) : Event :=
  mkEvent o (Join "/d" name) (ex_file name 1).

(** The tree that [AddPath "/d" false] builds with [ex_watcher]. *)
Definition ex_tree : FileNode :=
  mkNode "/d" (ex_dir "d" 1) false true
    [("a.txt", Some (mkNode "/d/a.txt" (ex_file "a.txt" 1) false false []));
     ("l", Some (mkNode "/d/l" (ex_link "l" 1) true false []));
     ("sub", Some (mkNode "/d/sub" (ex_dir "sub" 1) false false []))].

(** [ex_watcher] after [AddPath "/d" false]. *)
Definition ex_added : GoWatcher :=
  set_fileTrees ex_watcher [("/d", Some ex_tree)].

(** [ex_fs] after [a.txt] has been written. *)
Definition ex_fs_written : FS :=
  {| Abs := fun p => inl p;
     Lstat := fun p =>
       if String.eqb p "/d/a.txt" then inl (ex_file "a.txt" 2)
       else Lstat ex_fs p;
     ReadDir := fun p =>
       if String.eqb p "/d" then
         inl [ex_file ".h" 1; ex_file "a.txt" 2; ex_link "l" 1;
              ex_dir "sub" 1; ex_file "x" 1]
       else ReadDir ex_fs p |}.

(** [ex_fs] after the directory [new], holding the file [g], has been
    created in [/d]. *)
Definition ex_fs_grown : FS :=
  {| Abs := fun p => inl p;
     Lstat := fun p =>
       if String.eqb p "/d/new" then inl (ex_dir "new" 1)
       else if String.eqb p "/d/new/g" then inl (ex_file "g" 1)
       else Lstat ex_fs p;
     ReadDir := fun p =>
       if String.eqb p "/d" then
         inl [ex_file ".h" 1; ex_file "a.txt" 1; ex_link "l" 1;
              ex_dir "new" 1; ex_dir "sub" 1; ex_file "x" 1]
       else if String.eqb p "/d/new" then inl [ex_file "g" 1]
       else ReadDir ex_fs p |}.

(** Three events arrive in a cycle capped at two. *)
Definition ex_messages : list Msg :=
  [FromEvt (ex_event Create "a"); FromEvt (ex_event Write "b");
   FromEvt (ex_event Remove "c"); FromDone].

(** Three watched files with a cap of one event per cycle; at the next
    poll all three have been deleted. *)
Definition ex_leaf (path name : string) : FileNode :=
  mkNode path (ex_file name 1) false true [].

Definition ex_capped : GoWatcher :=
  {| running := true;
     fileTrees := [("/a", Some (ex_leaf "/a" "a"));
                   ("/b", Some (ex_leaf "/b" "b"));
                   ("/c", Some (ex_leaf "/c" "c"))];
     fileTreesNil := false;
     nameFilters := []; nameIgnores := [];
     pathFilters := []; pathIgnores := [];
     ops := []; ignoreHidden := false; maxEvents := 1 |}.

Definition ex_fs_gone : FS :=
  {| Abs := fun p => inl p;
     Lstat := fun p => inr ex_enoent;
     ReadDir := fun p => inr ex_enoent |}.

(* ================================================================= *)
(** ** Predicates on snapshot trees and event streams *)

(** [node_all P n]: [P] holds of [n] and of every node below it. *)
Inductive node_all (P : FileNode -> Prop) : FileNode -> Prop :=
| node_all_intro (n : FileNode) :
    P n ->
    Forall (fun kv => forall c, snd kv = Some c -> node_all P c) (Children n) ->
    node_all P n.

Definition children_all (P : FileNode -> Prop) (ch : ChildMap) : Prop :=
  Forall (fun kv => forall c, snd kv = Some c -> node_all P c) ch.

(** [subnode m n]: [m] is [n] or a node below [n]. *)
Inductive subnode (m : FileNode) : FileNode -> Prop :=
| subnode_self : subnode m m
| subnode_child (n c : FileNode) (k : string) :
    In (k, Some c) (Children n) -> subnode m c -> subnode m n.

(** [under q p]: the path [p] is [q] or lies below the directory [q]. *)
Definition under (q p : string) : Prop :=
  p = q \/ exists r, p = (q ++ "/" ++ r)%string.

(** The invariant of the data model: an ignored node has no children. *)
Definition ignored_leaf (n : FileNode) : Prop :=
  ignored n = true -> Children n = [].

(** The events that the diff pass can send while it visits node [n]. *)
Inductive emits (fs : FS) (n : FileNode) : Event -> Prop :=
| emits_Remove :
    emits fs n (mkEvent Remove (Path n) (Info n))
| emits_Write (i : FileInfo) :
    Lstat fs (Path n) = inl i ->
    ModTime (Info n) <> ModTime i ->
    emits fs n (mkEvent Write (Path n) i)
| emits_Chmod (i : FileInfo) :
    Lstat fs (Path n) = inl i ->
    Mode (Info n) <> Mode i ->
    emits fs n (mkEvent Chmod (Path n) i)
| emits_Create (i : FileInfo) (l : list FileInfo) :
    ReadDir fs (Path n) = inl l ->
    In i l ->
    emits fs n (mkEvent Create (Join (Path n) (Name i)) i).

(** The number of events of kind [o] for [path] in a stream. *)
Definition is_event (o : Op) (path : string) (e : Event) : bool :=
  Op_eqb (ev_op e) o && String.eqb (ev_path e) path.

Definition info_eqb (a b : FileInfo) : bool :=
  String.eqb (Name a) (Name b) && (Size a =? Size b) && (Mode a =? Mode b)
  && (ModTime a =? ModTime b) && Bool.eqb (IsDir a) (IsDir b).

(** The event [e] itself. *)
Definition is_exactly (e0 e : Event) : bool :=
  is_event (ev_op e0) (ev_path e0) e && info_eqb (ev_info e) (ev_info e0).

Definition count_sel (sel : Event -> bool) (l : list Event) : nat :=
  List.length (filter sel l).

Definition count_events (o : Op) (path : string) (l : list Event) : nat :=
  count_sel (is_event o path) l.

(** A children map as Go keeps it: distinct keys; and no nil child. *)
Definition map_ok (n : FileNode) : Prop :=
  NoDup (map_keys (Children n)) /\
  Forall (fun kv => snd kv <> None) (Children n).

(** The diff of [n] does not take the branch of a failed [Lstat]. *)
Definition statable (fs : FS) (n : FileNode) : Prop :=
  ignored n = true \/ exists i, Lstat fs (Path n) = inl i.

(** A filesystem that does not change under the pass: a directory lists
    every name once, and every listed entry can be stat'ed. *)
Definition fs_static (fs : FS) : Prop :=
  forall path infoList,
    ReadDir fs path = inl infoList ->
    NoDup (map Name infoList) /\
    forall info, In info infoList ->
                 exists i, Lstat fs (Join path (Name info)) = inl i.

(** What a complete pass needs of a child and leaves in a child. *)
Definition child_ready (fs : FS) (fuel : nat) (kv : string * option FileNode)
  : Prop :=
  forall ch, snd kv = Some ch ->
             tree_fits fs fuel ch = true /\ node_all map_ok ch.

(** A child that the first loop has diffed can be diffed again. *)
Definition diffed_statable (fs : FS) (infoMap : list string)
    (kv : string * option FileNode) : Prop :=
  str_mem (fst kv) infoMap = true ->
  forall ch, snd kv = Some ch -> statable fs ch.

(** A diff function that, with [cancel] open, returns and leaves it open;
    it returns nil only for a node whose [Lstat] fails. *)
Definition poll_returns (fs : FS) (fuel : nat)
    (poll : option FileNode -> Cycle -> Outcome (option FileNode)) : Prop :=
  forall n c,
    tree_fits fs fuel n = true -> node_all map_ok n -> cancel c = false ->
    exists r c',
      poll (Some n) c = Ret r c' /\ cancel c' = false /\
      match r with
      | Some n' =>
          tree_fits fs fuel n' = true /\ node_all map_ok n' /\ statable fs n'
      | None => ignored n = false /\ exists e, Lstat fs (Path n) = inr e
      end.

(** The child stored under a key of the directory [dir] holds only nodes
    whose paths lie at or below the entry of that name. *)
Definition keyed_under (dir : string) (kv : string * option FileNode) : Prop :=
  forall ch, snd kv = Some ch ->
             node_all (fun m => under (Join dir (fst kv)) (Path m)) ch.

(** [holds_after I Q o]: however the call ended, the cycle satisfies [I];
    a returned value satisfies [Q]; the call blocks only with [cancel]
    closed. *)
Definition holds_after (I : Cycle -> Prop) {A : Type} (Q : A -> Prop)
    (o : Outcome A) : Prop :=
  match o with
  | Ret a c => Q a /\ I c
  | Blocked c => cancel c = true /\ I c
  | Panic c => I c
  | OutOfFuel => True
  end.

(** A diff function maintains [P] on the tree and [I] on the cycle. *)
Definition poll_keeps (P : FileNode -> Prop) (I : Cycle -> Prop)
    (poll : option FileNode -> Cycle -> Outcome (option FileNode)) : Prop :=
  forall n c,
    node_all P n -> I c ->
    holds_after I (fun r => forall n', r = Some n' -> node_all P n')
      (poll (Some n) c).

(** A builder called on a path satisfying [Q] returns trees satisfying
    [P]. *)
Definition build_keeps (Q : string -> Prop) (P : FileNode -> Prop)
    (build : string -> bool -> option (option FileNode * option error))
  : Prop :=
  forall path rec n err,
    Q path -> build path rec = Some (Some n, err) -> node_all P n.

(** Every child that the builder records comes from an entry that is not
    suppressed, and the nodes below it have paths below that entry. *)
Definition built_child (w : GoWatcher) (path : string)
    (kv : string * option FileNode) : Prop :=
  suppressed w (fst kv) (Join path (fst kv)) = false /\
  forall c, snd kv = Some c ->
            node_all (fun m => under (Join path (fst kv)) (Path m)) c.

(* ================================================================= *)
(** ** Configuration setters (watcher.go) *)

Definition IgnoreHiddenFiles (w : GoWatcher) (ignore : bool) : GoWatcher :=
  {| running := running w; fileTrees := fileTrees w;
     fileTreesNil := fileTreesNil w;
     nameFilters := nameFilters w; nameIgnores := nameIgnores w;
     pathFilters := pathFilters w; pathIgnores := pathIgnores w;
     ops := ops w; ignoreHidden := ignore; maxEvents := maxEvents w |}.

Definition set_nameIgnores (w : GoWatcher) (l : list Regexp) : GoWatcher :=
  {| running := running w; fileTrees := fileTrees w;
     fileTreesNil := fileTreesNil w;
     nameFilters := nameFilters w; nameIgnores := l;
     pathFilters := pathFilters w; pathIgnores := pathIgnores w;
     ops := ops w; ignoreHidden := ignoreHidden w; maxEvents := maxEvents w |}.

Definition set_nameFilters (w : GoWatcher) (l : list Regexp) : GoWatcher :=
  {| running := running w; fileTrees := fileTrees w;
     fileTreesNil := fileTreesNil w;
     nameFilters := l; nameIgnores := nameIgnores w;
     pathFilters := pathFilters w; pathIgnores := pathIgnores w;
     ops := ops w; ignoreHidden := ignoreHidden w; maxEvents := maxEvents w |}.

Definition set_pathIgnores (w : GoWatcher) (l : list Regexp) : GoWatcher :=
  {| running := running w; fileTrees := fileTrees w;
     fileTreesNil := fileTreesNil w;
     nameFilters := nameFilters w; nameIgnores := nameIgnores w;
     pathFilters := pathFilters w; pathIgnores := l;
     ops := ops w; ignoreHidden := ignoreHidden w; maxEvents := maxEvents w |}.

Definition set_pathFilters (w : GoWatcher) (l : list Regexp) : GoWatcher :=
  {| running := running w; fileTrees := fileTrees w;
     fileTreesNil := fileTreesNil w;
     nameFilters := nameFilters w; nameIgnores := nameIgnores w;
     pathFilters := l; pathIgnores := pathIgnores w;
     ops := ops w; ignoreHidden := ignoreHidden w; maxEvents := maxEvents w |}.

Definition set_ops (w : GoWatcher) (l : list Op) : GoWatcher :=
  {| running := running w; fileTrees := fileTrees w;
     fileTreesNil := fileTreesNil w;
     nameFilters := nameFilters w; nameIgnores := nameIgnores w;
     pathFilters := pathFilters w; pathIgnores := pathIgnores w;
     ops := l; ignoreHidden := ignoreHidden w; maxEvents := maxEvents w |}.

(** [regexp.Compile], an oracle from the text of a pattern to the compiled
    pattern or an error. *)
Definition Compiler := string -> Regexp + error.

(** How a setter built on [regexp.MustCompile] ends: it returns, or
    [MustCompile] panics and leaves the watcher with the patterns appended
    so far. *)
Inductive Setter :=
| Configured (w : GoWatcher)
| CompilePanic (w : GoWatcher).

Fixpoint IgnoreName (compile : Compiler) (w : GoWatcher) (s : list string)
  : Setter :=
  match s with
  | [] => Configured w
  | a :: t =>
      match compile a with
      | inr _ => CompilePanic w
      | inl re => IgnoreName compile (set_nameIgnores w (nameIgnores w ++ [re])) t
      end
  end.

Fixpoint FilterName (compile : Compiler) (w : GoWatcher) (s : list string)
  : Setter :=
  match s with
  | [] => Configured w
  | a :: t =>
      match compile a with
      | inr _ => CompilePanic w
      | inl re => FilterName compile (set_nameFilters w (nameFilters w ++ [re])) t
      end
  end.

Fixpoint IgnorePath (fs : FS) (compile : Compiler) (w : GoWatcher)
    (s : list string) : option error * GoWatcher :=
  match s with
  | [] => (None, w)
  | a :: t =>
      match Abs fs a with
      | inr err => (Some err, w)
      | inl absPath =>
          match compile absPath with
          | inr err => (Some err, w)
          | inl re =>
              IgnorePath fs compile
                (set_pathIgnores w (pathIgnores w ++ [re])) t
          end
      end
  end.

Fixpoint FilterPath (fs : FS) (compile : Compiler) (w : GoWatcher)
    (s : list string) : option error * GoWatcher :=
  match s with
  | [] => (None, w)
  | a :: t =>
      match Abs fs a with
      | inr err => (Some err, w)
      | inl absPath =>
          match compile absPath with
          | inr err => (Some err, w)
          | inl re =>
              FilterPath fs compile
                (set_pathFilters w (pathFilters w ++ [re])) t
          end
      end
  end.

(** [w.ops[op] = struct{}{}] on the set of operations, kept as a list
    without repetition. *)
Definition ops_insert (m : list Op) (op : Op) : list Op :=
  if op_found op m then m else m ++ [op].

(** [FilterOps] starts from a fresh map. *)
Definition FilterOps (w : GoWatcher) (l : list Op) : GoWatcher :=
  set_ops w (fold_left ops_insert l []).

(* ================================================================= *)
(** ** Names of operations (data_type.go) *)

(** The constants [Create], [Write], [Remove], [Chmod] of type [Op], a
    [uint8], numbered by [iota]. *)
Definition Op_code (o : Op) : Z :=
  match o with Create => 0 | Write => 1 | Remove => 2 | Chmod => 3 end.

(** The map [ops] from operations to their names. *)
Definition ops_names : list (Z * string) :=
  [(Op_code Create, "CREATE"); (Op_code Write, "WRITE");
   (Op_code Remove, "REMOVE"); (Op_code Chmod, "CHMOD")].

Fixpoint names_get (e : Z) (m : list (Z * string)) : option string :=
  match m with
  | [] => None
  | (k, v) :: t => if e =? k then Some v else names_get e t
  end.

(** [Op.String] on the [uint8] value [e]. *)
Definition Op_String (e : Z) : string :=
  match names_get e ops_names with
  | Some op => op
  | None => "???"
  end.

(* ================================================================= *)
(** ** The wait group, Start, Wait and TriggerEvent (watcher.go) *)

(** The counter of the watcher's [sync.WaitGroup]; [New] adds one.  A
    [Done] that would make the counter negative panics. *)
Definition wg_New : Z := 1.

Definition wg_Done (wg : Z) : option Z :=
  if wg - 1 <? 0 then None else Some (wg - 1).

(** [Wait] returns when the counter is zero. *)
Definition Wait_returns (wg : Z) : bool := wg =? 0.

(** How [Start] gets to its polling loop: it returns an error, it panics
    in [w.wg.Done()] after it has set the running flag, or it polls. *)
Inductive Started :=
| StartError (err : error) (w : GoWatcher)
| StartPanic (w : GoWatcher)
| Polling (w : GoWatcher) (wg : Z).

Definition Start_prologue (w : GoWatcher) (wg : Z) (d : Z) : Started :=
  if d <? Nanosecond then StartError ErrDurationTooShort w
  else if running w then StartError ErrWatcherRunning w
  else
    let w' := set_running w true in
    match wg_Done wg with
    | None => StartPanic w'
    | Some wg' => Polling w' wg'
    end.

(** The [fileInfo] that [TriggerEvent] makes up for a nil [file]; [now] is
    [time.Now()]. *)
Definition triggered_info (now : Z) : FileInfo :=
  {| Name := "triggered event"; Size := 0; Mode := 0; ModTime := now;
     IsDir := false |}.

(** [TriggerEvent]: [None] while [Wait] blocks, otherwise the event sent on
    the public channel. *)
Definition TriggerEvent (wg : Z) (now : Z) (eventType : Op)
    (file : option FileInfo) : option Event :=
  if Wait_returns wg then
    Some (mkEvent eventType "-"
            (match file with Some f => f | None => triggered_info now end))
  else None.

(* ================================================================= *)
(** ** Further predicates on trees and filesystems *)

(** No node of the tree has a nil child. *)
Definition nil_free (n : FileNode) : Prop :=
  node_all (fun m => Forall (fun kv => snd kv <> None) (Children m)) n.

(** Every child of a children map is a nil-free tree. *)
Definition children_nil_free (ch : ChildMap) : Prop :=
  Forall (fun kv => exists c, snd kv = Some c /\ nil_free c) ch.

(** What a call [retrieve c files] of a tree lister does: it returns for a
    nil-free tree and for no other; the map it returns keeps the keys of
    [files], has the path of every node of [c] as a key, and holds under a
    key either what [files] held or a node of [c] with that path. *)
Definition lists_tree
    (retrieve : FileNode -> list (string * FileNode)
                -> option (list (string * FileNode)))
    (c : FileNode) : Prop :=
  forall files,
    (nil_free c -> exists files', retrieve c files = Some files') /\
    (forall files',
        retrieve c files = Some files' ->
        nil_free c /\
        (forall key, map_get key files <> None -> map_get key files' <> None) /\
        (forall m, subnode m c -> map_get (Path m) files' <> None) /\
        (forall key v,
            map_get key files' = Some v ->
            map_get key files = Some v \/ (subnode v c /\ Path v = key))).

(** The first loop of the diff pass visits the entry named [k] of the
    directory [dir]. *)
Definition visible (w : GoWatcher) (dir k : string) : bool :=
  negb (ignoreHidden w && fst (isHiddenFile (Join dir k))).

(** The node that the diff pass would create for a directory entry is an
    ignored one. *)
Definition enters_ignored (w : GoWatcher) (n : FileNode) (info : FileInfo)
  : Prop :=
  ignored (newNode (Join (Path n) (Name info)) info (recursive n)
             (shouldIgnore w (Name info) (Join (Path n) (Name info)))) = true.

(** A watched node is in step with the filesystem: its recorded
    modification time and mode are the current ones, and when the pass
    would list it, every visited entry either has a watched child or would
    enter as an ignored node, and every watched child is a visited entry
    of the listing. *)
Definition in_step (w : GoWatcher) (fs : FS) (n : FileNode) : Prop :=
  ignored n = false ->
  exists i,
    Lstat fs (Path n) = inl i /\
    ModTime (Info n) = ModTime i /\ Mode (Info n) = Mode i /\
    (IsDir i = true -> recursive n = true ->
     forall l, ReadDir fs (Path n) = inl l ->
       (forall info, In info l -> visible w (Path n) (Name info) = true ->
          (exists ch, In (Name info, Some ch) (Children n) /\
                      ignored ch = false) \/
          enters_ignored w n info) /\
       (forall k ch, In (k, Some ch) (Children n) -> ignored ch = false ->
          In k (map Name l) /\ visible w (Path n) k = true)).

(** A filesystem at rest: a directory lists every name once, and the
    entry it lists for a name is what [Lstat] returns for that path. *)
Definition fs_at_rest (fs : FS) : Prop :=
  forall path infoList,
    ReadDir fs path = inl infoList ->
    NoDup (map Name infoList) /\
    forall info, In info infoList ->
                 Lstat fs (Join path (Name info)) = inl info.

(** A snapshot tree ready for a silent pass with [fuel]. *)
Definition tree_in_step (w : GoWatcher) (fs : FS) (fuel : nat) (n : FileNode)
  : Prop :=
  node_all (in_step w fs) n /\ node_all map_ok n /\ tree_fits fs fuel n = true.

(** Every entry of a children map is a tree in step. *)
Definition children_in_step (w : GoWatcher) (fs : FS) (fuel : nat)
    (ch : ChildMap) : Prop :=
  Forall (fun kv => exists c, snd kv = Some c /\ tree_in_step w fs fuel c) ch.

(** Every root of the watcher is a tree in step. *)
Definition roots_in_step (w : GoWatcher) (fs : FS) (fuel : nat) : Prop :=
  children_in_step w fs fuel (fileTrees w).

(** The key holds a child that is not ignored. *)
Definition watched_key (ch : ChildMap) (k : string) : Prop :=
  exists c, In (k, Some c) ch /\ ignored c = false.

(** A diff function that, on a tree in step, returns the tree in step
    again and leaves the cycle as it found it. *)
Definition poll_silent (w : GoWatcher) (fs : FS) (fuel : nat)
    (poll : option FileNode -> Cycle -> Outcome (option FileNode)) : Prop :=
  forall n c,
    tree_in_step w fs fuel n ->
    exists n', poll (Some n) c = Ret (Some n') c /\
               tree_in_step w fs fuel n' /\ ignored n' = ignored n.

(** The entry would be recorded as an ignored node whatever the recursive
    flag: it matches an exclude pattern or is a symbolic link. *)
Definition excluded_or_link (w : GoWatcher) (dir : string) (info : FileInfo)
  : bool :=
  shouldIgnore w (Name info) (Join dir (Name info))
  || negb (Z.land (Mode info) ModeSymlink =? 0).

(** Every node below a root has a path at or below the root's key. *)
Definition roots_keyed (w : GoWatcher) : Prop :=
  Forall (fun kv => forall n, snd kv = Some n ->
                      node_all (fun m => under (fst kv) (Path m)) n)
    (fileTrees w).

(** The event is about a path at or below the key of a root. *)
Definition below_roots (roots : list (string * option FileNode)) (e : Event)
  : Prop :=
  exists k, In k (map_keys roots) /\ under k (ev_path e).

(** A root after a pass, against the root before it: the same key, and
    either nil or a node with the same path and flags. *)
Definition same_root (kv kv' : string * option FileNode) : Prop :=
  fst kv' = fst kv /\
  forall n', snd kv' = Some n' ->
             exists n, snd kv = Some n /\ Path n' = Path n /\
                       ignored n' = ignored n /\ recursive n' = recursive n.

(** The children of a node are stored under their file names: the child
    under key [k] has the path of the node joined with [k]. *)
Definition keyed_by_name (n : FileNode) : Prop :=
  Forall (fun kv => forall c, snd kv = Some c ->
                      Path c = Join (Path n) (fst kv)) (Children n).

(** An entry of the children map of the directory [dir]: a tree keyed by
    name whose root has the path of the entry. *)
Definition child_keyed (dir : string) (kv : string * option FileNode) : Prop :=
  forall c, snd kv = Some c ->
            Path c = Join dir (fst kv) /\ node_all keyed_by_name c.

(** A root is stored under its own path and is a tree keyed by name. *)
Definition root_keyed (kv : string * option FileNode) : Prop :=
  forall n, snd kv = Some n -> Path n = fst kv /\ node_all keyed_by_name n.

(** A diff function that returns trees keyed by name. *)
Definition poll_keyed
    (poll : option FileNode -> Cycle -> Outcome (option FileNode)) : Prop :=
  forall n c,
    node_all keyed_by_name n ->
    match poll (Some n) c with
    | Ret r _ =>
        forall n', r = Some n' -> Path n' = Path n /\ node_all keyed_by_name n'
    | _ => True
    end.

(** An ignored child stored under the name of a listed entry would enter
    as an ignored node again. *)
Definition stale_ok (w : GoWatcher) (fs : FS) (n : FileNode) : Prop :=
  forall l info ch,
    ReadDir fs (Path n) = inl l -> In info l ->
    In (Name info, Some ch) (Children n) -> ignored ch = true ->
    enters_ignored w n info.

(** The diff of the node lists its directory. *)
Definition listed (fs : FS) (n : FileNode) : Prop :=
  exists i l,
    Lstat fs (Path n) = inl i /\ IsDir i = true /\ recursive n = true /\
    ReadDir fs (Path n) = inl l.

(** A watched node whose directory the diff does not list has no
    children. *)
Definition unlisted_leaf (fs : FS) (n : FileNode) : Prop :=
  ignored n = false -> ~ listed fs n -> Children n = [].

(** A snapshot tree that a complete pass can bring in step. *)
Definition tree_ready (w : GoWatcher) (fs : FS) (fuel : nat) (n : FileNode)
  : Prop :=
  node_all map_ok n /\ tree_fits fs fuel n = true /\
  node_all keyed_by_name n /\ node_all (stale_ok w fs) n /\
  node_all (unlisted_leaf fs) n.

(** A diff function that brings a ready tree in step. *)
Definition poll_settles (w : GoWatcher) (fs : FS) (fuel : nat)
    (poll : option FileNode -> Cycle -> Outcome (option FileNode)) : Prop :=
  forall n c,
    cancel c = false -> tree_ready w fs fuel n -> ignored n = false ->
    (exists i, Lstat fs (Path n) = inl i) ->
    exists n' c',
      poll (Some n) c = Ret (Some n') c' /\ cancel c' = false /\
      tree_in_step w fs fuel n' /\ ignored n' = false.

(** A child of the directory node [D], listed as [l], that the pass has
    diffed: it is watched, in step, and a visited entry of the listing. *)
Definition diffed_child (w : GoWatcher) (fs : FS) (fuel : nat) (D : FileNode)
    (l : list FileInfo) (kv : string * option FileNode) : Prop :=
  exists ch,
    snd kv = Some ch /\ tree_in_step w fs fuel ch /\ ignored ch = false /\
    In (fst kv) (map Name l) /\ visible w (Path D) (fst kv) = true.

(** A child that the pass has not diffed yet: an ignored node that would
    enter ignored again, or a ready tree with the path of its entry. *)
Definition pending_child (w : GoWatcher) (fs : FS) (fuel : nat) (D : FileNode)
    (l : list FileInfo) (kv : string * option FileNode) : Prop :=
  exists ch,
    snd kv = Some ch /\
    ((ignored ch = true /\
      forall info, In info l -> Name info = fst kv -> enters_ignored w D info)
     \/
     (ignored ch = false /\ tree_ready w fs fuel ch /\
      Path ch = Join (Path D) (fst kv))).

(** The keys of [infoMap] are the children diffed so far. *)
Definition child_state (w : GoWatcher) (fs : FS) (fuel : nat) (D : FileNode)
    (l : list FileInfo) (infoMap : list string)
    (kv : string * option FileNode) : Prop :=
  if str_mem (fst kv) infoMap then diffed_child w fs fuel D l kv
  else pending_child w fs fuel D l kv.

(** The events received in [c'] after those of [c]. *)
Definition sent_between (c c' : Cycle) (l : list Event) : Prop :=
  received c' = received c ++ l.

(** [ex_fs] after [a.txt] has been deleted. *)
Definition ex_fs_shrunk : FS :=
  {| Abs := fun p => inl p;
     Lstat := fun p =>
       if String.eqb p "/d/a.txt" then inr ex_enoent else Lstat ex_fs p;
     ReadDir := fun p =>
       if String.eqb p "/d" then
         inl [ex_file ".h" 1; ex_link "l" 1; ex_dir "sub" 1; ex_file "x" 1]
       else ReadDir ex_fs p |}.

(** [/d] as a watcher that does not ignore hidden files has recorded its
    hidden file. *)
Definition ex_tree_hidden : FileNode :=
  mkNode "/d" (ex_dir "d" 1) false true
    [(".h", Some (mkNode "/d/.h" (ex_file ".h" 1) false false []))].

(** A compiler for the examples: a pattern of plain characters matches
    the strings that contain it, and an unclosed parenthesis does not
    compile. *)
Fixpoint contains (pat s : string) : bool :=
  String.prefix pat s
  || match s with
     | EmptyString => false
     | String _ t => contains pat t
     end.

Definition ex_compile : Compiler :=
  fun pat =>
    if String.eqb pat "(" then inr (ErrOS "missing closing )")
    else inl (contains pat).

(* ================================================================= *)
(** ** A file followed through a whole cycle *)

(** The node [m] does not record, for [path], a modification time other
    than that of [info]. *)
Definition up_to_date (path : string) (info : FileInfo) (m : FileNode)
  : Prop :=
  Path m = path -> ModTime (Info m) = ModTime info.

(** The children other than the one under the key [k] are trees of nodes
    satisfying [P]. *)
Definition others_all (P : FileNode -> Prop) (k : string) (ch : ChildMap)
  : Prop :=
  Forall (fun kv => fst kv <> k ->
                    forall c, snd kv = Some c -> node_all P c) ch.

(** [pass_reaches w fs f n]: the diff of the tree [n] comes to its node
    [f], and [f] is the only node of [n] with its path.  Every node above
    [f] is watched and recursive, is a directory on disk that lists the
    next node's key, and the hidden-file policy does not skip that key. *)
Inductive pass_reaches (w : GoWatcher) (fs : FS) (f : FileNode)
  : FileNode -> Prop :=
| reaches_node :
    children_all (fun m => Path m <> Path f) (Children f) ->
    pass_reaches w fs f f
| reaches_child (D ch : FileNode) (dinfo : FileInfo) (l : list FileInfo)
    (k : string) :
    ignored D = false -> recursive D = true ->
    Lstat fs (Path D) = inl dinfo -> IsDir dinfo = true ->
    ReadDir fs (Path D) = inl l -> In k (map Name l) ->
    visible w (Path D) k = true ->
    map_get k (Children D) = Some (Some ch) ->
    ignored ch = false ->
    Path D <> Path f ->
    others_all (fun m => Path m <> Path f) k (Children D) ->
    pass_reaches w fs f ch ->
    pass_reaches w fs f D.

(** [ex_fs] after [/d/sub/f] has been written. *)
Definition ex_fs_deep_written : FS :=
  {| Abs := fun p => inl p;
     Lstat := fun p =>
       if String.eqb p "/d/sub/f" then inl (ex_file "f" 2)
       else Lstat ex_fs p;
     ReadDir := fun p =>
       if String.eqb p "/d/sub" then inl [ex_file "f" 2]
       else ReadDir ex_fs p |}.

(** [ex_fs] after the hidden file [/d/.h] has been written. *)
Definition ex_fs_hidden_written : FS :=
  {| Abs := fun p => inl p;
     Lstat := fun p =>
       if String.eqb p "/d/.h" then inl (ex_file ".h" 2)
       else Lstat ex_fs p;
     ReadDir := fun p =>
       if String.eqb p "/d" then
         inl [ex_file ".h" 2; ex_file "a.txt" 1; ex_link "l" 1;
              ex_dir "sub" 1; ex_file "x" 1]
       else ReadDir ex_fs p |}.

(** The tree that [AddPath "/d" true] builds with [ex_watcher]. *)
Definition ex_tree_deep : FileNode :=
  mkNode "/d" (ex_dir "d" 1) false true
    [("a.txt", Some (ex_leaf "/d/a.txt" "a.txt"));
     ("l", Some (mkNode "/d/l" (ex_link "l" 1) true true []));
     ("sub", Some (mkNode "/d/sub" (ex_dir "sub" 1) false true
                     [("f", Some (ex_leaf "/d/sub/f" "f"))]))].

(** [ex_watcher] after [AddPath "/d" true]. *)
Definition ex_added_deep : GoWatcher :=
  set_fileTrees ex_watcher [("/d", Some ex_tree_deep)].

(* ################################################################# *)
(** * Properties *)

(* ================================================================= *)
(** ** Filters *)

Lemma any_match_exists (regs : list Regexp) (s : string) :
  any_match regs s = true <->
  exists reg, In reg regs /\ MatchString reg s = true.
Proof.
  induction regs as [|reg regs IH]; simpl.
  - split; [discriminate | intros [r [[] _]]].
  - destruct (MatchString reg s) eqn:E.
    + split; [intros _; exists reg; auto | reflexivity].
    + rewrite IH. split.
      * intros [r [Hin Hm]]. exists r. auto.
      * intros [r [[-> | Hin] Hm]]; [congruence | exists r; auto].
Qed.

Lemma shouldIgnore_true (w : GoWatcher) (name path : string) :
  shouldIgnore w name path = true <->
  any_match (nameIgnores w) name = true \/
  any_match (pathIgnores w) path = true.
Proof.
  unfold shouldIgnore.
  destruct (nameIgnores w) as [|r1 l1] eqn:E1;
    destruct (pathIgnores w) as [|r2 l2] eqn:E2; cbn [List.length Nat.eqb andb].
  - simpl. intuition discriminate.
  - change (any_match [] name) with false. cbv iota.
    destruct (any_match (r2 :: l2) path); intuition discriminate.
  - change (any_match [] path) with false.
    destruct (any_match (r1 :: l1) name); intuition discriminate.
  - destruct (any_match (r1 :: l1) name);
      destruct (any_match (r2 :: l2) path); intuition discriminate.
Qed.

Lemma shouldNotice_true (w : GoWatcher) (name path : string) :
  shouldNotice w name path = true <->
  (nameFilters w = [] /\ pathFilters w = []) \/
  any_match (nameFilters w) name = true \/
  any_match (pathFilters w) path = true.
Proof.
  unfold shouldNotice.
  destruct (nameFilters w) as [|r1 l1] eqn:E1;
    destruct (pathFilters w) as [|r2 l2] eqn:E2; cbn [List.length Nat.eqb andb].
  - intuition.
  - change (any_match [] name) with false. cbv iota.
    destruct (any_match (r2 :: l2) path); intuition congruence.
  - change (any_match [] path) with false.
    destruct (any_match (r1 :: l1) name); intuition congruence.
  - destruct (any_match (r1 :: l1) name);
      destruct (any_match (r2 :: l2) path); intuition congruence.
Qed.

(** C9. An entry is suppressed exactly when some name-exclude pattern
    matches its name, or some path-exclude pattern matches its path, or it
    is hidden (its base name starts with a dot) while the hidden-file
    policy is set; it is surfaced exactly when both include lists are
    empty, or some name-include pattern matches its name, or some
    path-include pattern matches its path. *)
Theorem filter_semantics (w : GoWatcher) (name path : string) :
  (suppressed w name path = true <->
     (exists reg, In reg (nameIgnores w) /\ MatchString reg name = true) \/
     (exists reg, In reg (pathIgnores w) /\ MatchString reg path = true) \/
     (ignoreHidden w = true /\ String.prefix "." (Base path) = true)) /\
  (shouldNotice w name path = true <->
     (nameFilters w = [] /\ pathFilters w = []) \/
     (exists reg, In reg (nameFilters w) /\ MatchString reg name = true) \/
     (exists reg, In reg (pathFilters w) /\ MatchString reg path = true)).
Proof.
  split.
  - unfold suppressed. rewrite orb_true_iff, andb_true_iff, shouldIgnore_true.
    rewrite !any_match_exists. simpl. tauto.
  - rewrite shouldNotice_true, !any_match_exists. tauto.
Qed.

(* ================================================================= *)
(** ** Start: synchronous errors *)

(** C8. [Start] returns [ErrDurationTooShort] exactly when the duration is
    below one nanosecond; with a valid duration it returns
    [ErrWatcherRunning] when the watcher is running; whenever it returns an
    error the watcher state is the one it was called with. *)
Theorem Start_entry_errors (w : GoWatcher) (d : Z) :
  (fst (Start_entry w d) = Some ErrDurationTooShort <-> d < 1) /\
  (1 <= d -> running w = true ->
   fst (Start_entry w d) = Some ErrWatcherRunning) /\
  (forall err, fst (Start_entry w d) = Some err -> snd (Start_entry w d) = w).
Proof.
  unfold Start_entry, Nanosecond.
  destruct (d <? 1) eqn:Hd; [apply Z.ltb_lt in Hd | apply Z.ltb_ge in Hd].
  - simpl. repeat split; auto; lia.
  - destruct (running w) eqn:Hr; simpl; repeat split;
      try congruence; try lia; discriminate.
Qed.

Lemma Start_entry_errors_witness :
  fst (Start_entry (set_running New true) 100) = Some ErrWatcherRunning.
Proof.
  apply (proj1 (proj2 (Start_entry_errors (set_running New true) 100)));
    [lia | reflexivity].
Defined.

(* ================================================================= *)
(** ** The forwarding loop and the event cap *)

Lemma forward_dropped (w : GoWatcher) (e : Event) (c : Cycle) :
  survives w e = false ->
  forward w e c =
  {| cancel := cancel c; numEvents := numEvents c;
     received := received c ++ [e]; delivered := delivered c |}.
Proof.
  unfold survives, forward. intros H.
  destruct (0 <? List.length (ops w))%nat; simpl in *.
  - destruct (op_found (ev_op e) (ops w)); simpl in *; [|reflexivity].
    rewrite H. reflexivity.
  - rewrite H. reflexivity.
Qed.

Lemma forward_counted (w : GoWatcher) (e : Event) (c : Cycle) :
  survives w e = true ->
  forward w e c =
  let numEvents' := int_wrap (numEvents c + 1) in
  if (0 <? maxEvents w) && (maxEvents w <? numEvents')
  then {| cancel := true; numEvents := numEvents';
          received := received c ++ [e]; delivered := delivered c |}
  else {| cancel := cancel c; numEvents := numEvents';
          received := received c ++ [e]; delivered := delivered c ++ [e] |}.
Proof.
  unfold survives, forward. intros H.
  apply andb_true_iff in H as [H1 H2]. rewrite H2.
  destruct (0 <? List.length (ops w))%nat; simpl in *.
  - rewrite H1. reflexivity.
  - reflexivity.
Qed.

Lemma int_wrap_small (z : Z) : - 2 ^ 63 <= z <= max_int -> int_wrap z = z.
Proof.
  unfold int_wrap, max_int. intros H.
  rewrite Z.mod_small; lia.
Qed.

Lemma inner_delivers (w : GoWatcher) (N : Z) :
  maxEvents w = N -> 0 < N ->
  forall (msgs : list Msg) (c : Cycle),
    cancel c = false ->
    numEvents c = Z.of_nat (List.length (delivered c)) ->
    numEvents c <= N ->
    (N < max_int \/ numEvents c + Z.of_nat (List.length msgs) <= max_int) ->
    let surviving := filter (survives w) (events_before_exit msgs) in
    delivered (snd (inner w msgs c)) =
      delivered c ++ firstn (Z.to_nat (N - numEvents c)) surviving /\
    (N - numEvents c < Z.of_nat (List.length surviving) ->
     cancel (snd (inner w msgs c)) = true /\
     fst (inner w msgs c) = BreakInner).
Proof.
  intros HN Hpos msgs.
  induction msgs as [|m msgs IH]; intros c Hc Hnum Hle Hbound; simpl.
  - rewrite firstn_nil, app_nil_r. split; [reflexivity | lia].
  - destruct m as [|e|]; simpl.
    + rewrite firstn_nil, app_nil_r. split; [reflexivity | lia].
    + destruct (survives w e) eqn:Hs.
      * rewrite (forward_counted w e c Hs). cbv zeta.
        rewrite int_wrap_small
          by (unfold max_int in *; cbn [List.length] in Hbound; lia).
        rewrite HN.
        replace (0 <? N) with true by (symmetry; apply Z.ltb_lt; lia).
        cbn [andb].
        destruct (N <? numEvents c + 1) eqn:Hcap;
          [apply Z.ltb_lt in Hcap | apply Z.ltb_ge in Hcap]; simpl.
        -- replace (N - numEvents c) with 0 by lia. simpl.
           rewrite app_nil_r. auto.
        -- rewrite Hc.
           set (c' := {| cancel := false; numEvents := numEvents c + 1;
                         received := received c ++ [e];
                         delivered := delivered c ++ [e] |}).
           destruct (IH c') as [IH1 IH2]; subst c'; simpl; auto.
           ++ rewrite length_app. simpl. lia.
           ++ cbn [List.length] in Hbound. lia.
           ++ simpl in IH1, IH2.
              replace (Z.to_nat (N - numEvents c))
                with (S (Z.to_nat (N - (numEvents c + 1)))) by lia.
              simpl. rewrite IH1, <- app_assoc. simpl.
              split; [reflexivity|]. intros Hlt. apply IH2. lia.
      * rewrite (forward_dropped w e c Hs). simpl. rewrite Hc.
        set (c' := {| cancel := false; numEvents := numEvents c;
                      received := received c ++ [e];
                      delivered := delivered c |}).
        destruct (IH c') as [IH1 IH2]; subst c'; simpl; auto.
        cbn [List.length] in Hbound. lia.
    + rewrite firstn_nil, app_nil_r. split; [reflexivity | lia].
Qed.

(** C1. With a cap [N > 0], whatever the diff pass sends on [evt] during a
    cycle, the events forwarded to the public channel are the first [N]
    events that survive the filters, so there are at most [N]; when an
    [(N+1)]-th surviving event is counted, [cancel] is closed, the loop is
    left, and that event and all later ones are withheld.  ([numEvents] is
    a 64-bit [int]: the cap is below [max_int], or the cycle has at most
    [max_int] messages.) *)
Theorem maxEvents_caps_cycle (w : GoWatcher) (N : Z) (msgs : list Msg) :
  maxEvents w = N -> 0 < N ->
  (N < max_int \/ Z.of_nat (List.length msgs) <= max_int) ->
  let surviving := filter (survives w) (events_before_exit msgs) in
  let c := snd (inner w msgs new_cycle) in
  delivered c = firstn (Z.to_nat N) surviving /\
  Z.of_nat (List.length (delivered c)) <= N /\
  (N < Z.of_nat (List.length surviving) ->
   cancel c = true /\ fst (inner w msgs new_cycle) = BreakInner).
Proof.
  intros HN Hpos Hbound surviving c.
  destruct (inner_delivers w N HN Hpos msgs new_cycle) as [H1 H2];
    simpl; auto; try lia.
  simpl in H1, H2. rewrite Z.sub_0_r in H1, H2.
  subst c surviving. rewrite H1. repeat split.
  - rewrite length_firstn. lia.
  - apply H2; assumption.
  - apply H2; assumption.
Qed.

(* ================================================================= *)
(** ** Association lists *)

Lemma children_all_map_set (P : FileNode -> Prop) (k : string)
    (v : option FileNode) (ch : ChildMap) :
  children_all P ch ->
  (forall c, v = Some c -> node_all P c) ->
  children_all P (map_set k v ch).
Proof.
  unfold children_all. intros Hch Hv.
  induction ch as [|[k' v'] t IH]; simpl.
  - constructor; [exact Hv | constructor].
  - inversion Hch; subst.
    destruct (String.eqb k k'); constructor; auto.
Qed.

Lemma children_all_map_get (P : FileNode -> Prop) (k : string)
    (c : FileNode) (ch : ChildMap) :
  children_all P ch ->
  map_get k ch = Some (Some c) ->
  node_all P c.
Proof.
  unfold children_all. intros Hch.
  induction ch as [|[k' v'] t IH]; simpl; [discriminate|].
  inversion Hch; subst.
  destruct (String.eqb k k'); auto.
  intros [= ->]. auto.
Qed.

Lemma children_all_app (P : FileNode -> Prop) (a b : ChildMap) :
  children_all P a -> children_all P b -> children_all P (a ++ b).
Proof. unfold children_all. intros. apply Forall_app. auto. Qed.

Lemma node_all_trivial (P : FileNode -> Prop) :
  (forall n, P n) -> forall n, node_all P n.
Proof.
  intros HP. fix IH 1. intros [p i ig r ch].
  constructor; [apply HP|]. simpl.
  induction ch as [|[k [c|]] t IHt]; constructor; try exact IHt.
  - intros c0 [= <-]. apply IH.
  - discriminate.
Qed.

Lemma node_all_head (P : FileNode -> Prop) (n : FileNode) :
  node_all P n -> P n.
Proof. inversion 1; assumption. Qed.

Lemma node_all_children (P : FileNode -> Prop) (n : FileNode) :
  node_all P n -> children_all P (Children n).
Proof. inversion 1; assumption. Qed.

(* ================================================================= *)
(** ** Invariants of a diff pass *)

(** A property [P] of nodes and a property [I] of the cycle's channels
    that every step of the pass maintains hold when the pass ends, however
    it ends. *)
Section PassInvariant.
Variable w : GoWatcher.
Variable fs : FS.
Variable P : FileNode -> Prop.
Variable I : Cycle -> Prop.

Hypothesis P_set_Info :
    forall n i,
      P n -> ignored n = false -> Lstat fs (Path n) = inl i ->
      P (set_Info n i).
Hypothesis P_set_Children :
    forall n ch, P n -> ignored n = false -> P (set_Children n ch).
Hypothesis P_newNode :
    forall n i l,
      P n -> ignored n = false ->
      ReadDir fs (Path n) = inl l -> In i l ->
      P (newNode (Join (Path n) (Name i)) i (recursive n)
           (shouldIgnore w (Name i) (Join (Path n) (Name i)))).
Hypothesis I_forward :
    forall n e c,
      P n -> ignored n = false -> emits fs n e ->
      cancel c = false -> I c -> I (forward w e c).

Lemma pollEntries_keeps poll (m : FileNode) (l : list FileInfo) :
    poll_keeps P I poll ->
    P m -> ignored m = false -> ReadDir fs (Path m) = inl l ->
    forall infoList children infoMap c,
      incl infoList l ->
      children_all P children -> I c ->
      holds_after I (fun r => children_all P (snd (fst r)))
        (pollEntries poll w (Path m) (recursive m)
           infoList children infoMap c).
Proof.
    intros Hpoll Pm Hm Hread infoList.
    induction infoList as [|info rest IH];
      intros children infoMap c Hincl Hch HI.
    - simpl. auto.
    - cbn [pollEntries isHiddenFile].
      assert (Hrest : incl rest l) by (intros x Hx; apply Hincl; right; auto).
      assert (Hin : In info l) by (apply Hincl; left; auto).
      destruct (ignoreHidden w &&
                String.prefix "." (Base (Join (Path m) (Name info)))).
      { apply IH; auto. }
      destruct (map_get (Name info) children) as [[child|]|] eqn:Hget.
      + destruct (ignored child); [apply IH; auto|].
        pose proof (Hpoll child c
                      (children_all_map_get _ _ _ _ Hch Hget) HI) as Hp.
        destruct (poll (Some child) c) as [r c'| | |]; simpl in Hp; auto.
        destruct Hp as [Hr HI']. apply IH; auto.
        apply children_all_map_set; auto.
      + simpl. exact HI.
      + set (newChild := newNode _ _ _ _).
        assert (Hnew : node_all P newChild).
        { constructor; [apply (P_newNode m info l); auto | constructor]. }
        assert (Hch' : children_all P
                         (map_set (Name info) (Some newChild) children)).
        { apply children_all_map_set; auto. intros c0 [= <-]. auto. }
        destruct (ignored newChild); [apply IH; auto|].
        unfold select_send. destruct (cancel c) eqn:Hc; simpl; auto.
        assert (HI1 : I (forward w
                           (mkEvent Create (Join (Path m) (Name info)) info) c)).
        { apply (I_forward m); auto. econstructor; eauto. }
        pose proof (Hpoll newChild _ Hnew HI1) as Hp.
        destruct (poll (Some newChild) _) as [r c'| | |]; simpl in Hp; auto.
        destruct Hp as [Hr HI']. apply IH; auto.
        apply children_all_map_set; auto.
        intros c0 [= <-]. destruct r; auto.
Qed.

Lemma sweepChildren_keeps poll :
    poll_keeps P I poll ->
    forall todo kept infoMap c,
      children_all P todo -> children_all P kept -> I c ->
      holds_after I (fun r => children_all P (snd r))
        (sweepChildren poll w todo kept infoMap c).
Proof.
    intros Hpoll todo.
    induction todo as [|[k [childNode|]] rest IH];
      intros kept infoMap c Htodo Hkept HI; simpl.
    - auto.
    - inversion Htodo as [|? ? Hhd Htl]; subst.
      assert (Hc : node_all P childNode) by (apply Hhd; reflexivity).
      destruct (str_mem k infoMap).
      + pose proof (Hpoll childNode c Hc HI) as Hp.
        destruct (poll (Some childNode) c) as [r c'| | |]; simpl in Hp; auto.
        destruct Hp as [Hr HI']. apply IH; auto.
        apply children_all_app; auto.
        constructor; [exact Hr | constructor].
      + destruct (ignored childNode) eqn:Hig; [apply IH; auto|].
        unfold select_send. destruct (cancel c) eqn:Hcan; simpl.
        * split; auto. apply children_all_app; auto.
        * apply IH; auto.
          apply (I_forward childNode); auto.
          -- apply node_all_head; auto.
          -- constructor.
    - inversion Htodo; subst. apply IH; auto.
Qed.

Lemma pollNodeEvent_keeps (fuel : nat) :
    poll_keeps P I (pollNodeEvent fuel w fs).
Proof.
    induction fuel as [|fuel IH]; intros n c Hn HI; simpl; [exact Logic.I|].
    pose proof (node_all_head _ _ Hn) as Pn.
    pose proof (node_all_children _ _ Hn) as Hch.
    destruct (ignored n) eqn:Hig; simpl.
    { split; auto. intros n' [= <-]. auto. }
    destruct (Lstat fs (Path n)) as [newInfo|err] eqn:Hstat.
    2:{ destruct (cancel c) eqn:Hc; simpl; auto.
        split; [discriminate|].
        apply (I_forward n); auto. constructor. }
    assert (Hsend : forall (b : bool) e c0,
               (b = true -> emits fs n e) -> I c0 ->
               match send_if b w e c0 with
               | None => True
               | Some c1 => I c1
               end).
    { intros b e c0 He HI0. unfold send_if, select_send.
      destruct b; auto. destruct (cancel c0) eqn:Hc0; auto.
      apply (I_forward n); auto. }
    pose proof (Hsend (negb (ModTime (Info n) =? ModTime newInfo))
                  (mkEvent Write (Path n) newInfo) c) as H1.
    destruct (send_if _ w (mkEvent Write (Path n) newInfo) c) as [c1|].
    2:{ simpl. split; auto. intros n' [= <-]. auto. }
    assert (HI1 : I c1).
    { apply H1; auto. intros Hb. apply negb_true_iff, Z.eqb_neq in Hb.
      constructor; auto. }
    pose proof (Hsend (negb (Mode (Info n) =? Mode newInfo))
                  (mkEvent Chmod (Path n) newInfo) c1) as H2.
    destruct (send_if _ w (mkEvent Chmod (Path n) newInfo) c1) as [c2|].
    2:{ simpl. split; auto. intros n' [= <-]. auto. }
    assert (HI2 : I c2).
    { apply H2; auto. intros Hb. apply negb_true_iff, Z.eqb_neq in Hb.
      constructor; auto. }
    assert (Pn1 : P (set_Info n newInfo)) by auto.
    assert (Hn1 : node_all P (set_Info n newInfo))
      by (constructor; auto).
    cbn [set_Info Path recursive Children ignored].
    destruct (negb (IsDir newInfo) || negb (recursive n)).
    { simpl. split; auto. intros n' [= <-]. auto. }
    destruct (ReadDir fs (Path n)) as [infoList|err] eqn:Hread.
    2:{ simpl. split; auto. intros n' [= <-]. auto. }
    pose proof (pollEntries_keeps _ (set_Info n newInfo) infoList IH Pn1 Hig
                  Hread infoList (Children n) [] c2 (incl_refl _) Hch HI2)
      as He.
    cbn [set_Info Path recursive] in He.
    destruct (pollEntries _ w (Path n) (recursive n) infoList (Children n) [] c2)
      as [[[returned children] infoMap] c3| | |]; simpl in He; auto.
    destruct He as [Hch3 HI3].
    assert (Hres : forall ch, children_all P ch ->
               forall n', Some (set_Children (set_Info n newInfo) ch) = Some n' ->
                          node_all P n').
    { intros ch Hc n' [= <-]. constructor; auto. }
    destruct returned.
    { simpl. split; [apply Hres|]; auto. }
    pose proof (sweepChildren_keeps _ IH children [] infoMap c3 Hch3
                  (Forall_nil _) HI3) as Hs.
    destruct (sweepChildren _ w children [] infoMap c3)
      as [[returned' children'] c4| | |]; simpl in Hs; auto.
    destruct Hs as [Hch4 HI4]. simpl. split; [apply Hres|]; auto.
Qed.
End PassInvariant.

Section PassInvariantRoots.
Variable w : GoWatcher.
Variable fs : FS.
Variable P : FileNode -> Prop.
Variable I : Cycle -> Prop.

Hypothesis poll_ok : forall fuel, poll_keeps P I (pollNodeEvent fuel w fs).

Lemma pollRoots_keeps (fuel : nat) :
    forall todo c,
      children_all P todo -> I c ->
      holds_after I (children_all P) (pollRoots fuel w fs todo c).
Proof.
    induction todo as [|[k v] rest IH]; intros c Htodo HI; simpl.
    - split; [constructor | assumption].
    - inversion Htodo as [|? ? Hhd Htl]; subst. simpl in Hhd.
      assert (Hv : holds_after I
                     (fun r => forall n', r = Some n' -> node_all P n')
                     (pollNodeEvent fuel w fs v c)).
      { destruct v as [n|].
        - apply poll_ok; auto.
        - destruct fuel; simpl; [exact Logic.I|].
          split; [discriminate | assumption]. }
      destruct (pollNodeEvent fuel w fs v c) as [v' c'| | |]; simpl in Hv; auto.
      destruct Hv as [Hv' HI'].
      specialize (IH c' Htl HI').
      destruct (pollRoots fuel w fs rest c') as [rest' c''| | |];
        simpl in IH |- *; auto.
      destruct IH as [Hrest HI'']. split; auto.
      constructor; auto.
Qed.

Lemma pollEvents_keeps (fuel : nat) (c c' : Cycle) (w' : GoWatcher) :
    fileTrees w = fileTrees w ->
    children_all P (fileTrees w) -> I c ->
    pollEvents fuel w fs c = Ret w' c' ->
    children_all P (fileTrees w') /\ I c'.
Proof.
    intros _ Hroots HI. unfold pollEvents.
    pose proof (pollRoots_keeps fuel (fileTrees w) c Hroots HI) as H.
    destruct (pollRoots fuel w fs (fileTrees w) c) as [roots c1| | |];
      try discriminate.
    intros [= <- <-]. exact H.
Qed.
End PassInvariantRoots.

Lemma node_all_subnode (P : FileNode -> Prop) (m n : FileNode) :
  subnode m n -> node_all P n -> P m.
Proof.
  induction 1 as [|n c k Hin Hsub IH]; intros Hn.
  - apply node_all_head; assumption.
  - apply IH. apply node_all_children in Hn.
    unfold children_all in Hn. rewrite Forall_forall in Hn.
    apply (Hn (k, Some c) Hin). reflexivity.
Qed.

(* ================================================================= *)
(** ** Invariants of the tree builder *)

Section BuildInvariant.
Variable w : GoWatcher.
Variable fs : FS.
Variable Q : string -> Prop.
Variable P : FileNode -> Prop.

Hypothesis Q_Join : forall path name, Q path -> Q (Join path name).
Hypothesis P_newNode :
    forall path info rec ign, Q path -> P (newNode path info rec ign).
Hypothesis P_set_Children :
    forall n ch, P n -> ignored n = false -> P (set_Children n ch).

Lemma traverseEntries_keeps build (path : string) (rec : bool) :
    build_keeps Q P build -> Q path ->
    forall infoList childMap r,
      children_all P childMap ->
      traverseEntries build w path rec infoList childMap = Some (inl r) ->
      children_all P r.
Proof.
    intros Hbuild Hq infoList.
    induction infoList as [|info rest IH]; intros childMap r Hch.
    - simpl. intros [= <-]. assumption.
    - cbn [traverseEntries isHiddenFile].
      destruct (shouldIgnore w (Name info) (Join path (Name info))
                || ignoreHidden w && _); [apply IH; assumption|].
      destruct (negb rec).
      + apply IH. apply children_all_map_set; auto.
        intros c [= <-]. constructor; [auto | constructor].
      + destruct (negb (shouldIgnore w (Name info) (Join path (Name info))));
          [|apply IH; assumption].
        destruct (build (Join path (Name info)) true) as [[child err]|] eqn:Hb;
          [|discriminate].
        apply IH. apply children_all_map_set; auto.
        intros c ->. apply (Hbuild _ _ _ _ (Q_Join _ _ Hq) Hb).
Qed.

Lemma traverseTree_keeps (fuel : nat) :
    build_keeps Q P (traverseTree fuel w fs).
Proof.
    induction fuel as [|fuel IH]; intros path rec n err Hq;
      [discriminate|].
    cbn [traverseTree].
    destruct (Lstat fs path) as [stat|e]; [|discriminate].
    set (node := newNode path stat rec (shouldIgnore w (Name stat) path)).
    assert (Hnode : node_all P node)
      by (constructor; [apply P_newNode; assumption | constructor]).
    destruct (negb (IsDir stat) || ignored node) eqn:Hleaf.
    { intros H; inversion H; subst; assumption. }
    apply orb_false_iff in Hleaf as [_ Hig].
    destruct (ReadDir fs path) as [infoList|e].
    2:{ intros H; inversion H; subst; assumption. }
    destruct (traverseEntries _ w path rec infoList []) as [[childMap|e]|] eqn:Ht;
      [| |discriminate].
    - intros H; inversion H; subst. constructor.
      + apply P_set_Children; [apply node_all_head|]; assumption.
      + simpl. eapply traverseEntries_keeps; eauto. constructor.
    - intros H; inversion H; subst; assumption.
Qed.
End BuildInvariant.

(* ================================================================= *)
(** ** Ignored nodes are leaves *)

Lemma ignored_leaf_poll_keeps (w : GoWatcher) (fs : FS) (fuel : nat) :
  poll_keeps ignored_leaf (fun _ => True) (pollNodeEvent fuel w fs).
Proof.
  apply pollNodeEvent_keeps; unfold ignored_leaf; simpl; auto; congruence.
Qed.

Lemma ignored_leaf_set_recursive (n : FileNode) (r : bool) :
  node_all ignored_leaf n -> node_all ignored_leaf (set_recursive n r).
Proof.
  intros Hn. constructor.
  - apply node_all_head in Hn. exact Hn.
  - apply node_all_children in Hn. exact Hn.
Qed.

Lemma children_all_map_delete (P : FileNode -> Prop) (k : string)
    (ch : ChildMap) :
  children_all P ch -> children_all P (map_delete k ch).
Proof.
  unfold children_all. induction 1 as [|[k' v'] t Hhd Htl IH]; simpl.
  - constructor.
  - destruct (String.eqb k k'); [assumption | constructor; assumption].
Qed.

Lemma reachable_ignored_leaf (w : GoWatcher) :
  reachable w -> children_all ignored_leaf (fileTrees w).
Proof.
  induction 1 as [|w w' _ IH Heq|w w' fuel fs path rec err _ IH Hadd
                  |w fs path _ IH|w _ IH|w w' fuel fs c c' _ IH Hpoll].
  - constructor.
  - rewrite Heq. assumption.
  - unfold AddPath in Hadd.
    destruct (Abs fs path) as [p|e]; [|injection Hadd as _ <-; assumption].
    destruct (Lstat fs p) as [stat|e]; [|injection Hadd as _ <-; assumption].
    destruct (negb _); [injection Hadd as _ <-; assumption|].
    destruct (map_get p (fileTrees w)); [injection Hadd as _ <-; assumption|].
    cbn [isHiddenFile] in Hadd.
    destruct (_ || _); [injection Hadd as _ <-; assumption|].
    destruct (traverseTree fuel w fs p rec) as [[[fileNode|] [e|]]|] eqn:Ht;
      try discriminate.
    + injection Hadd as _ <-; assumption.
    + destruct (fileTreesNil w); [discriminate|].
      injection Hadd as _ <-. simpl.
      apply children_all_map_set; [assumption|].
      intros c [= <-]. apply ignored_leaf_set_recursive.
      apply (traverseTree_keeps w fs (fun _ => True) ignored_leaf) in Ht;
        unfold ignored_leaf; simpl; auto; congruence.
  - unfold RemovePath. destruct (Abs fs path) as [p|e]; [|assumption].
    destruct (map_get p (fileTrees w)); [|assumption].
    simpl. apply children_all_map_delete. assumption.
  - unfold Close. destruct (running w); [constructor | assumption].
  - apply (pollEvents_keeps w fs ignored_leaf (fun _ => True)
             (ignored_leaf_poll_keeps w fs) fuel c c' w' eq_refl IH Logic.I
             Hpoll).
Qed.

(** C10. A node that is created is a leaf; in every reachable watcher state
    (after any sequence of additions, removals and diff passes) every node
    of every tree that is ignored has an empty children map; and the diff
    applied to an ignored node returns it unchanged, whatever the
    filesystem, with the cycle's channels untouched. *)
Theorem ignored_nodes_stay_leaves :
  (forall path info rec ign, Children (newNode path info rec ign) = []) /\
  (forall w k root n,
      reachable w -> In (k, Some root) (fileTrees w) -> subnode n root ->
      ignored n = true -> Children n = []) /\
  (forall fuel w fs n c,
      ignored n = true ->
      pollNodeEvent (S fuel) w fs (Some n) c = Ret (Some n) c).
Proof.
  split; [reflexivity | split].
  - intros w k root n Hreach Hin Hsub.
    apply reachable_ignored_leaf in Hreach.
    unfold children_all in Hreach. rewrite Forall_forall in Hreach.
    specialize (Hreach (k, Some root) Hin root eq_refl).
    exact (node_all_subnode ignored_leaf n root Hsub Hreach).
  - intros fuel w fs n c Hig. simpl. rewrite Hig. reflexivity.
Qed.

(* ================================================================= *)
(** ** The tree builder terminates *)

Lemma traverseEntries_total build (w : GoWatcher) (path : string) (rec : bool) :
  forall infoList childMap,
    (forall info, In info infoList ->
                  build (Join path (Name info)) true <> None) ->
    traverseEntries build w path rec infoList childMap <> None.
Proof.
  induction infoList as [|info rest IH]; intros childMap Hb.
  - discriminate.
  - assert (Hrest : forall i, In i rest -> build (Join path (Name i)) true <> None)
      by (intros i Hi; apply Hb; right; assumption).
    cbn [traverseEntries isHiddenFile].
    destruct (_ || _); [apply IH; assumption|].
    destruct (negb rec); [apply IH; assumption|].
    destruct (negb _); [|apply IH; assumption].
    destruct (build (Join path (Name info)) true) as [[child err]|] eqn:Hbuild.
    + apply IH; assumption.
    + exfalso. apply (Hb info); [left; reflexivity | assumption].
Qed.

Lemma traverseTree_total (w : GoWatcher) (fs : FS) (fuel : nat) :
  forall path rec,
    fs_depth fs fuel path = true ->
    traverseTree fuel w fs path rec <> None.
Proof.
  induction fuel as [|fuel IH]; intros path rec Hd; [discriminate|].
  cbn [traverseTree]. cbn [fs_depth] in Hd.
  destruct (Lstat fs path) as [stat|e]; [|discriminate].
  destruct (_ || _); [discriminate|].
  destruct (ReadDir fs path) as [infoList|e]; [|discriminate].
  rewrite forallb_forall in Hd.
  pose proof (traverseEntries_total (traverseTree fuel w fs) w path rec
                infoList [] (fun i Hi => IH _ true (Hd i Hi))) as Ht.
  destruct (traverseEntries _ w path rec infoList []) as [[childMap|e]|];
    [discriminate | discriminate | contradiction].
Qed.

Lemma traverseTree_root (w : GoWatcher) (fs : FS) (fuel : nat)
    (path : string) (rec : bool) (stat : FileInfo) :
  Lstat fs path = inl stat ->
  fs_depth fs fuel path = true ->
  exists node err,
    traverseTree fuel w fs path rec = Some (Some node, err) /\
    Path node = path /\ Info node = stat /\ recursive node = rec.
Proof.
  intros Hstat Hd.
  pose proof (traverseTree_total w fs fuel path rec Hd) as Ht.
  destruct fuel as [|fuel]; [discriminate|].
  cbn [traverseTree] in Ht |- *. rewrite Hstat in Ht |- *.
  destruct (_ || _); [eauto 6|].
  destruct (ReadDir fs path) as [infoList|e]; [|eauto 6].
  destruct (traverseEntries _ w path rec infoList []) as [[childMap|e]|];
    [eauto 6 | eauto 6 | contradiction].
Qed.

(* ================================================================= *)
(** ** AddPath *)

(** C7. [AddPath] works on the absolute form [p] of its argument and
    looks at the file before it looks at the watch set.
    - When the argument has no absolute form, or [Lstat] of [p] fails, it
      returns that error, also when [p] is a root.
    - When [p] is a symbolic link it returns [ErrWatchSymlink].
    - Otherwise it returns nil and leaves the watcher as it is when [p] is
      already a root, matches an exclude filter, or is hidden while hidden
      files are ignored.
    - Otherwise it runs the tree builder on [p].  A builder error is
      returned, nothing stored.  When the builder succeeds on a watcher
      whose root map is not nil (one that [Close] has not emptied), it
      returns nil with the built tree stored as the root [p].
    Whenever it returns an error the watcher is as it was. *)
Theorem AddPath_cases (fuel : nat) (w : GoWatcher) (fs : FS)
    (path : string) (rec : bool) :
  (forall e, Abs fs path = inr e ->
             AddPath fuel w fs path rec = Returned (Some e) w) /\
  forall p, Abs fs path = inl p ->
    (forall e, Lstat fs p = inr e ->
               AddPath fuel w fs path rec = Returned (Some e) w) /\
    forall stat, Lstat fs p = inl stat ->
      (Z.land (Mode stat) ModeSymlink <> 0 ->
       AddPath fuel w fs path rec = Returned (Some ErrWatchSymlink) w) /\
      (Z.land (Mode stat) ModeSymlink = 0 ->
       map_get p (fileTrees w) <> None \/ suppressed w (Name stat) p = true ->
       AddPath fuel w fs path rec = Returned None w) /\
      (Z.land (Mode stat) ModeSymlink = 0 ->
       map_get p (fileTrees w) = None ->
       suppressed w (Name stat) p = false ->
       fs_depth fs fuel p = true ->
       exists node err,
         traverseTree fuel w fs p rec = Some (Some node, err) /\
         Path node = p /\
         match err with
         | Some e => AddPath fuel w fs path rec = Returned (Some e) w
         | None =>
             fileTreesNil w = false ->
             AddPath fuel w fs path rec =
             Returned None
               (set_fileTrees w
                  (map_set p (Some (set_recursive node true)) (fileTrees w)))
         end).
Proof.
  unfold AddPath. split.
  { intros e ->. reflexivity. }
  intros p ->. split.
  { intros e ->. reflexivity. }
  intros stat Hstat. rewrite Hstat. cbn [isHiddenFile]. unfold suppressed.
  cbn [isHiddenFile fst]. repeat split.
  - intros Hsym. apply Z.eqb_neq in Hsym. rewrite Hsym. reflexivity.
  - intros Hsym Hor. apply Z.eqb_eq in Hsym. rewrite Hsym. cbn [negb].
    destruct (map_get p (fileTrees w)); [reflexivity|].
    destruct Hor as [Hor|Hor]; [congruence|]. rewrite Hor. reflexivity.
  - intros Hsym Hnew Hsup Hd. apply Z.eqb_eq in Hsym.
    rewrite Hsym, Hnew, Hsup. cbn [negb].
    destruct (traverseTree_root w fs fuel p rec stat Hstat Hd)
      as [node [err [Ht [Hp _]]]].
    exists node, err. rewrite Ht. repeat split; [assumption|].
    destruct err; [reflexivity|]. intros ->. reflexivity.
Qed.

(** C7 as stated fails: [/d] is already a root of [ex_added], but its
    file has been deleted, and [AddPath] of it returns the error of
    [Lstat], not nil. *)
Lemma AddPath_of_deleted_root_fails :
  map_get "/d" (fileTrees ex_added) = Some (Some ex_tree) /\
  AddPath 3 ex_added ex_fs_gone "/d" false = Returned (Some ex_enoent) ex_added /\
  AddPath 3 ex_added ex_fs_gone "/d" false <> Returned None ex_added.
Proof. repeat split. discriminate. Qed.

(** On a watcher that has been closed the store of a new root panics. *)
Lemma AddPath_after_Close (fuel : nat) (w : GoWatcher) (fs : FS)
    (path p : string) (rec : bool) (stat : FileInfo) :
  running w = true ->
  Abs fs path = inl p -> Lstat fs p = inl stat ->
  Z.land (Mode stat) ModeSymlink = 0 ->
  suppressed (Close w) (Name stat) p = false ->
  fs_depth fs fuel p = true ->
  match AddPath fuel (Close w) fs path rec with
  | Returned None _ | NilDeref | NoFuel => False
  | Returned (Some _) w' => w' = Close w
  | NilMapStore => True
  end.
Proof.
  intros Hrun Habs Hstat Hsym Hsup Hd. unfold AddPath.
  rewrite Habs, Hstat. apply Z.eqb_eq in Hsym. rewrite Hsym. cbn [negb].
  unfold suppressed in Hsup. cbn [isHiddenFile fst] in Hsup |- *.
  unfold Close at 1 2. rewrite Hrun. cbn [fileTrees map_get].
  fold (Close w). rewrite Hsup.
  destruct (traverseTree_root (Close w) fs fuel p rec stat Hstat Hd)
    as [node [err [Ht _]]].
  rewrite Ht. destruct err; [reflexivity|].
  unfold Close. rewrite Hrun. reflexivity.
Qed.

(** A nil root map holds no root, in every state that the public
    operations can produce. *)
Lemma reachable_nil_map_empty (w : GoWatcher) :
  reachable w -> fileTreesNil w = true -> fileTrees w = [].
Proof.
  induction 1 as [|w w' _ IH Heq Hnil|w w' fuel fs path rec err _ IH Hadd
                  |w fs path _ IH|w _ IH|w w' fuel fs c c' _ IH Hpoll].
  - discriminate.
  - rewrite Heq, Hnil. exact IH.
  - unfold AddPath in Hadd.
    destruct (Abs fs path) as [p|e]; [|injection Hadd as _ <-; assumption].
    destruct (Lstat fs p) as [stat|e]; [|injection Hadd as _ <-; assumption].
    destruct (negb _); [injection Hadd as _ <-; assumption|].
    destruct (map_get p (fileTrees w)); [injection Hadd as _ <-; assumption|].
    cbn [isHiddenFile] in Hadd.
    destruct (_ || _); [injection Hadd as _ <-; assumption|].
    destruct (traverseTree fuel w fs p rec) as [[[fileNode|] [e|]]|];
      try discriminate; [injection Hadd as _ <-; assumption|].
    destruct (fileTreesNil w) eqn:Hnil; [discriminate|].
    injection Hadd as _ <-. simpl. rewrite Hnil. discriminate.
  - unfold RemovePath. destruct (Abs fs path) as [p|e]; [|assumption].
    destruct (map_get p (fileTrees w)) eqn:Hget; [|assumption].
    simpl. intros Hnil. rewrite (IH Hnil) in Hget. discriminate.
  - unfold Close. destruct (running w); [reflexivity | assumption].
  - unfold pollEvents in Hpoll.
    destruct (pollRoots fuel w fs (fileTrees w) c) as [roots c1| | |] eqn:Hr;
      try discriminate.
    injection Hpoll as <- <-. simpl. intros Hnil.
    rewrite (IH Hnil) in Hr. simpl in Hr. injection Hr as <- _. reflexivity.
Qed.

Lemma AddPath_cases_witness :
  AddPath 3 ex_watcher ex_fs "/d" false =
  Returned None
    (set_fileTrees ex_watcher
       [("/d",
         Some (mkNode "/d" (ex_dir "d" 1) false true
                 [("a.txt", Some (mkNode "/d/a.txt" (ex_file "a.txt" 1)
                                    false false []));
                  ("l", Some (mkNode "/d/l" (ex_link "l" 1) true false []));
                  ("sub", Some (mkNode "/d/sub" (ex_dir "sub" 1)
                                  false false []))]))]).
Proof.
  destruct (AddPath_cases 3 ex_watcher ex_fs "/d" false) as [_ H].
  destruct (H "/d" eq_refl) as [_ H1].
  destruct (H1 (ex_dir "d" 1) eq_refl) as [_ [_ H2]].
  destruct (H2 eq_refl eq_refl eq_refl eq_refl) as [node [err [Ht [_ Hadd]]]].
  vm_compute in Ht. inversion Ht; subst. exact (Hadd eq_refl).
Defined.

(* ================================================================= *)
(** ** Cancellation in the diff pass *)

(** Every select that guards an emission takes the [cancel] branch once
    [cancel] is closed: a pass that runs after that sends nothing. *)
Lemma cancelled_pass_sends_nothing (w : GoWatcher) (fs : FS) (fuel : nat)
    (n : FileNode) (c : Cycle) :
  cancel c = true ->
  match pollNodeEvent fuel w fs (Some n) c with
  | Ret _ c' | Blocked c' | Panic c' => c' = c
  | OutOfFuel => True
  end.
Proof.
  intros Hc.
  pose proof (pollNodeEvent_keeps w fs (fun _ => True) (fun c' => c' = c))
    as H.
  pose proof (node_all_trivial (fun _ => True) (fun _ => Logic.I)) as Hall.
  specialize (H (fun _ _ _ _ _ => Logic.I) (fun _ _ _ _ => Logic.I)
                (fun _ _ _ _ _ _ _ => Logic.I)).
  assert (Hf : forall (n0 : FileNode) (e : Event) (c0 : Cycle),
             True -> ignored n0 = false -> emits fs n0 e ->
             cancel c0 = false -> c0 = c -> forward w e c0 = c)
    by (intros; subst; congruence).
  specialize (H Hf fuel n c (Hall n) eq_refl).
  destruct (pollNodeEvent fuel w fs (Some n) c); simpl in H; tauto.
Qed.

(** The [Remove] sent when [Lstat] fails on the visited node itself is not
    in a select: with [cancel] closed the call never returns. *)
Lemma Remove_of_visited_node_blocks (w : GoWatcher) (fs : FS) (fuel : nat)
    (n : FileNode) (c : Cycle) (err : error) :
  ignored n = false ->
  Lstat fs (Path n) = inr err ->
  cancel c = true ->
  pollNodeEvent (S fuel) w fs (Some n) c = Blocked c.
Proof.
  intros Hig Hstat Hc. simpl. rewrite Hig, Hstat, Hc. reflexivity.
Qed.

(** C2 (fails on the code).  With a cap of one event and three deleted
    roots, the first [Remove] is delivered, the second closes [cancel],
    and at the third root the diff goroutine blocks in the unguarded send
    of its [Remove] event instead of returning. *)
Theorem Remove_ignores_cancel :
  pollEvents 1 ex_capped ex_fs_gone new_cycle =
  Blocked
    {| cancel := true; numEvents := 2;
       received := [mkEvent Remove "/a" (ex_file "a" 1);
                    mkEvent Remove "/b" (ex_file "b" 1)];
       delivered := [mkEvent Remove "/a" (ex_file "a" 1)] |}.
Proof. vm_compute. reflexivity. Qed.

(* ================================================================= *)
(** ** Paths *)

Lemma str_app_assoc (a b c : string) :
  ((a ++ b) ++ c = a ++ (b ++ c))%string.
Proof. induction a as [|x a IH]; simpl; [reflexivity | rewrite IH; reflexivity]. Qed.

Lemma str_app_inv_head (a b c : string) :
  (a ++ b = a ++ c)%string -> b = c.
Proof. induction a as [|x a IH]; simpl; [auto | intros [= H]; auto]. Qed.

Lemma str_length_app (a b : string) :
  String.length (a ++ b) = (String.length a + String.length b)%nat.
Proof. induction a as [|x a IH]; simpl; [reflexivity | rewrite IH; reflexivity]. Qed.

Lemma has_slash_app (a b : string) :
  has_slash (a ++ b) = has_slash a || has_slash b.
Proof.
  induction a as [|x a IH]; simpl; [reflexivity|].
  rewrite IH, orb_assoc. reflexivity.
Qed.

Lemma Join_inj (dir a b : string) : Join dir a = Join dir b -> a = b.
Proof.
  unfold Join. intros H. apply str_app_inv_head in H.
  simpl in H. injection H. auto.
Qed.

Lemma Join_length (dir name : string) :
  String.length (Join dir name) = S (String.length dir + String.length name).
Proof. unfold Join. rewrite str_length_app. simpl. lia. Qed.

Lemma Join_neq_dir (dir name : string) : Join dir name <> dir.
Proof.
  intros H. apply (f_equal String.length) in H.
  rewrite Join_length in H. lia.
Qed.

Lemma under_refl (q : string) : under q q.
Proof. left. reflexivity. Qed.

Lemma under_Join (q p name : string) : under q p -> under q (Join p name).
Proof.
  intros [->|[r ->]]; right.
  - exists name. reflexivity.
  - exists (r ++ "/" ++ name)%string. unfold Join.
    rewrite !str_app_assoc. reflexivity.
Qed.

(** Two entries of one directory: the path of one lies at or below the
    path of the other only if they are the same entry. *)
Lemma under_sibling (dir k name : string) :
  has_slash name = false ->
  under (Join dir k) (Join dir name) -> name = k.
Proof.
  intros Hs [H|[r H]].
  - apply Join_inj in H. assumption.
  - unfold Join in H. rewrite !str_app_assoc in H.
    apply str_app_inv_head in H. simpl in H. injection H as H.
    rewrite H, has_slash_app in Hs. simpl in Hs.
    rewrite orb_true_r in Hs. discriminate.
Qed.

(* ================================================================= *)
(** ** What the tree builder records *)

Lemma Forall_map_set {V : Type} (R : string * V -> Prop) (k : string) (v : V)
    (m : list (string * V)) :
  Forall R m -> R (k, v) -> Forall R (map_set k v m).
Proof.
  intros Hm Hv. induction Hm as [|[k' v'] t Hhd Htl IH]; simpl.
  - constructor; [assumption | constructor].
  - destruct (String.eqb_spec k k') as [<-|Hne]; constructor; auto.
Qed.

Lemma map_get_In {V : Type} (k : string) (v : V) (m : list (string * V)) :
  map_get k m = Some v -> In (k, v) m.
Proof.
  induction m as [|[k' v'] t IH]; simpl; [discriminate|].
  destruct (String.eqb_spec k k') as [<-|Hne].
  - intros [= <-]. left. reflexivity.
  - intros H. right. auto.
Qed.

Lemma traverseTree_under (w : GoWatcher) (fs : FS) (root : string)
    (fuel : nat) :
  build_keeps (under root) (fun m => under root (Path m))
    (traverseTree fuel w fs).
Proof.
  apply traverseTree_keeps; simpl; auto using under_Join.
Qed.

Lemma traverseEntries_built (w : GoWatcher) (fs : FS) (fuel : nat)
    (path : string) (rec : bool) :
  forall infoList childMap r,
    Forall (built_child w path) childMap ->
    traverseEntries (traverseTree fuel w fs) w path rec infoList childMap
    = Some (inl r) ->
    Forall (built_child w path) r.
Proof.
  induction infoList as [|info rest IH]; intros childMap r Hch.
  - simpl. intros [= <-]. assumption.
  - cbn [traverseEntries isHiddenFile].
    destruct (shouldIgnore w (Name info) (Join path (Name info))
              || ignoreHidden w && _) eqn:Hsup; [apply IH; assumption|].
    destruct (negb rec).
    + apply IH. apply Forall_map_set; [assumption|].
      split; [exact Hsup|]. simpl. intros c [= <-].
      constructor; [apply under_refl | constructor].
    + destruct (negb (shouldIgnore w (Name info) (Join path (Name info))));
        [|apply IH; assumption].
      destruct (traverseTree fuel w fs (Join path (Name info)) true)
        as [[child err]|] eqn:Hb; [|discriminate].
      apply IH. apply Forall_map_set; [assumption|].
      split; [exact Hsup|]. simpl. intros c ->.
      apply (traverseTree_under w fs _ fuel _ _ _ _ (under_refl _) Hb).
Qed.

Lemma traverseTree_children_built (w : GoWatcher) (fs : FS) (fuel : nat)
    (path : string) (rec : bool) (n : FileNode) (err : option error) :
  traverseTree fuel w fs path rec = Some (Some n, err) ->
  Path n = path /\ Forall (built_child w path) (Children n).
Proof.
  destruct fuel as [|fuel]; [discriminate|]. cbn [traverseTree].
  destruct (Lstat fs path) as [stat|e]; [|discriminate].
  destruct (_ || _).
  { intros H; inversion H; subst. split; [reflexivity | constructor]. }
  destruct (ReadDir fs path) as [infoList|e].
  2:{ intros H; inversion H; subst. split; [reflexivity | constructor]. }
  destruct (traverseEntries _ w path rec infoList []) as [[childMap|e]|] eqn:Ht;
    [| |discriminate]; intros H; inversion H; subst.
  - split; [reflexivity|]. simpl.
    eapply traverseEntries_built; [|exact Ht]. constructor.
  - split; [reflexivity | constructor].
Qed.

Lemma FileNode_nested_ind (R : FileNode -> Prop) :
  (forall n,
      Forall (fun kv => forall c, snd kv = Some c -> R c) (Children n) -> R n) ->
  forall n, R n.
Proof.
  intros H. fix IH 1. intros [p i ig r ch].
  apply H. simpl.
  induction ch as [|[k [c|]] t IHt]; constructor; try exact IHt.
  - intros c0 [= <-]. apply IH.
  - discriminate.
Qed.

Lemma map_get_map_set {V : Type} (k k' : string) (v : V)
    (m : list (string * V)) :
  map_get k' (map_set k v m) =
  if String.eqb k' k then Some v else map_get k' m.
Proof.
  induction m as [|[k1 v1] t IH]; simpl.
  - reflexivity.
  - destruct (String.eqb_spec k k1) as [<-|Hne]; simpl.
    + destruct (String.eqb k' k); reflexivity.
    + rewrite IH. destruct (String.eqb_spec k' k1) as [->|Hne'].
      * destruct (String.eqb_spec k1 k); [congruence | reflexivity].
      * reflexivity.
Qed.

(** The keys that [retrieveAllNodes] adds are paths of nodes of the tree. *)
Lemma retrieveChildren_keys retrieve (ch : ChildMap) :
  Forall (fun kv => forall c, snd kv = Some c ->
            forall files files',
              retrieve c files = Some files' ->
              forall key,
                map_get key files' <> None ->
                map_get key files <> None \/
                exists m, subnode m c /\ Path m = key) ch ->
  forall files files',
    retrieveChildren retrieve ch files = Some files' ->
    forall key,
      map_get key files' <> None ->
      map_get key files <> None \/
      exists k c m, In (k, Some c) ch /\ subnode m c /\ Path m = key.
Proof.
  induction 1 as [|[k [c|]] t Hhd Htl IH]; intros files files' Hrun key Hkey.
  - injection Hrun as <-. auto.
  - simpl in Hrun.
    destruct (retrieve c files) as [files1|] eqn:Hc; [|discriminate].
    destruct (IH files1 files' Hrun key Hkey) as [H1|[k0 [c0 [m [Hin Hm]]]]].
    + destruct (Hhd c eq_refl files files1 Hc key H1) as [H0|[m [Hm Hp]]];
        [auto|].
      right. exists k, c, m. split; [left; reflexivity | auto].
    + right. exists k0, c0, m. split; [right; assumption | assumption].
  - discriminate.
Qed.

Lemma retrieveAllNodes_keys (n : FileNode) :
  forall files files',
    retrieveAllNodes n files = Some files' ->
    forall key,
      map_get key files' <> None ->
      map_get key files <> None \/ exists m, subnode m n /\ Path m = key.
Proof.
  induction n as [n IHn] using FileNode_nested_ind.
  intros files files' Hrun key Hkey.
  destruct n as [p i ig r ch]. cbn [retrieveAllNodes] in Hrun.
  set (n := mkNode p i ig r ch) in *.
  destruct (retrieveChildren_keys _ ch IHn _ _ Hrun key Hkey)
    as [H0|[k [c [m [Hin [Hm Hp]]]]]].
  - rewrite map_get_map_set in H0.
    destruct (String.eqb_spec key p) as [->|Hne]; [|auto].
    right. exists n. split; [constructor | reflexivity].
  - right. exists m. split; [|assumption].
    exact (subnode_child m n c k Hin Hm).
Qed.

(** C4 as stated fails: in [/d], built with the name [x] excluded and
    hidden files ignored, the entries [x] and [.h] match a filter, yet
    neither is a key of the children map. *)
Lemma excluded_entry_not_recorded :
  ~ (forall info n err,
        traverseTree 3 ex_watcher ex_fs "/d" true = Some (Some n, err) ->
        ReadDir ex_fs "/d" = inl
          [ex_file ".h" 1; ex_file "a.txt" 1; ex_link "l" 1;
           ex_dir "sub" 1; ex_file "x" 1] ->
        In info [ex_file ".h" 1; ex_file "x" 1] ->
        suppressed ex_watcher (Name info) (Join "/d" (Name info)) = true ->
        exists c, map_get (Name info) (Children n) = Some (Some c) /\
                  ignored c = true).
Proof.
  intros H.
  destruct (traverseTree 3 ex_watcher ex_fs "/d" true) as [[[n|] err]|] eqn:Ht;
    try (vm_compute in Ht; discriminate).
  destruct (H (ex_file "x" 1) n err eq_refl eq_refl
              (or_intror (or_introl eq_refl)) eq_refl) as [c [Hget _]].
  vm_compute in Ht. inversion Ht; subst. vm_compute in Hget. discriminate.
Qed.

(** C4, amended.  In a tree built by the tree builder for [path], an entry
    of the directory that matches an exclude filter, or is hidden while
    hidden files are ignored, is skipped: its name is not a key of the
    children map, no node of the tree has its path, and
    [RetrieveAllNodes] does not list it. *)
Theorem suppressed_entries_are_skipped (fuel : nat) (w : GoWatcher) (fs : FS)
    (path : string) (rec : bool) (n : FileNode) (err : option error)
    (infoList : list FileInfo) (info : FileInfo) :
  traverseTree fuel w fs path rec = Some (Some n, err) ->
  ReadDir fs path = inl infoList ->
  In info infoList ->
  has_slash (Name info) = false ->
  suppressed w (Name info) (Join path (Name info)) = true ->
  map_get (Name info) (Children n) = None /\
  (forall m, subnode m n -> Path m <> Join path (Name info)) /\
  (forall files,
      FileNode_RetrieveAllNodes n = Some files ->
      map_get (Join path (Name info)) files = None).
Proof.
  intros Ht _ _ Hslash Hsup.
  destruct (traverseTree_children_built w fs fuel path rec n err Ht)
    as [Hpath Hbuilt].
  rewrite Forall_forall in Hbuilt.
  assert (Hnodes : forall m, subnode m n -> Path m <> Join path (Name info)).
  { intros m Hm Heq. inversion Hm as [|n0 c k Hin Hsub]; subst.
    - apply (Join_neq_dir (Path n) (Name info)). symmetry. assumption.
    - destruct (Hbuilt _ Hin) as [Hk Hc]. simpl in Hk, Hc.
      pose proof (node_all_subnode _ m c Hsub (Hc c eq_refl)) as Hu.
      simpl in Hu. rewrite Heq in Hu.
      apply under_sibling in Hu; [|assumption].
      rewrite Hu in Hsup. congruence. }
  repeat split.
  - destruct (map_get (Name info) (Children n)) as [v|] eqn:Hget;
      [|reflexivity].
    apply map_get_In in Hget. destruct (Hbuilt _ Hget) as [Hk _].
    simpl in Hk. congruence.
  - exact Hnodes.
  - intros files Hfiles.
    destruct (map_get (Join path (Name info)) files) as [v|] eqn:Hget;
      [|reflexivity].
    unfold FileNode_RetrieveAllNodes in Hfiles.
    destruct (retrieveAllNodes_keys n [] files Hfiles
                (Join path (Name info))) as [H0|[m [Hm Hp]]].
    + rewrite Hget. discriminate.
    + simpl in H0. congruence.
    + exfalso. exact (Hnodes m Hm Hp).
Qed.

Lemma suppressed_entries_are_skipped_witness :
  map_get "x" (Children
     (mkNode "/d" (ex_dir "d" 1) false true
        [("a.txt", Some (mkNode "/d/a.txt" (ex_file "a.txt" 1) false true []));
         ("l", Some (mkNode "/d/l" (ex_link "l" 1) true true []));
         ("sub", Some (mkNode "/d/sub" (ex_dir "sub" 1) false true
                         [("f", Some (mkNode "/d/sub/f" (ex_file "f" 1)
                                        false true []))]))])) = None.
Proof.
  refine (proj1 (suppressed_entries_are_skipped 3 ex_watcher ex_fs "/d" true
                   _ None _ (ex_file "x" 1) eq_refl eq_refl _ eq_refl eq_refl)).
  simpl. auto 6.
Defined.

(* ================================================================= *)
(** ** A pass without cap or cancellation runs to completion *)

Lemma forward_received (w : GoWatcher) (e : Event) (c : Cycle) :
  received (forward w e c) = received c ++ [e].
Proof.
  unfold forward.
  repeat match goal with |- context [if ?b then _ else _] => destruct b end;
    reflexivity.
Qed.

Lemma forward_no_cap (w : GoWatcher) (e : Event) (c : Cycle) :
  maxEvents w <= 0 ->
  cancel (forward w e c) = cancel c /\
  delivered (forward w e c) =
  delivered c ++ (if survives w e then [e] else []).
Proof.
  intros Hcap.
  destruct (survives w e) eqn:Hs.
  - rewrite (forward_counted w e c Hs). cbv zeta.
    replace (0 <? maxEvents w) with false by (symmetry; apply Z.ltb_ge; lia).
    simpl. auto.
  - rewrite (forward_dropped w e c Hs). simpl. rewrite app_nil_r. auto.
Qed.

Lemma forward_keeps_open (w : GoWatcher) (e : Event) (c : Cycle) :
  maxEvents w <= 0 -> cancel c = false -> cancel (forward w e c) = false.
Proof. intros Hcap Hc. rewrite (proj1 (forward_no_cap w e c Hcap)). exact Hc. Qed.

Lemma map_keys_map_set {V : Type} (k : string) (v : V) (m : list (string * V)) :
  map_keys (map_set k v m) =
  if str_mem k (map_keys m) then map_keys m else map_keys m ++ [k].
Proof.
  unfold map_keys. induction m as [|[k' v'] t IH]; simpl; [reflexivity|].
  destruct (String.eqb k k'); simpl; [reflexivity|].
  rewrite IH. destruct (str_mem k (map fst t)); reflexivity.
Qed.

Lemma str_mem_In (k : string) (l : list string) :
  str_mem k l = true <-> In k l.
Proof.
  induction l as [|x t IH]; simpl; [split; [discriminate | tauto]|].
  rewrite orb_true_iff, IH, String.eqb_eq. intuition congruence.
Qed.

Lemma str_mem_not_In (k : string) (l : list string) :
  str_mem k l = false <-> ~ In k l.
Proof.
  rewrite <- str_mem_In. destruct (str_mem k l); intuition congruence.
Qed.

Lemma NoDup_map_set {V : Type} (k : string) (v : V) (m : list (string * V)) :
  NoDup (map_keys m) -> NoDup (map_keys (map_set k v m)).
Proof.
  intros Hm. rewrite map_keys_map_set.
  destruct (str_mem k (map_keys m)) eqn:Hk; [assumption|].
  apply str_mem_not_In in Hk.
  apply NoDup_app; [assumption | repeat constructor; simpl; tauto |].
  intros x Hx [<-|[]]. contradiction.
Qed.

(** Overwriting the value of a key in a map with distinct keys leaves the
    other entries as they are. *)
Lemma Forall_map_set_other {V : Type} (R : string * V -> Prop) (k : string)
    (v : V) (m : list (string * V)) :
  NoDup (map_keys m) ->
  R (k, v) ->
  (forall kv, In kv m -> fst kv <> k -> R kv) ->
  Forall R (map_set k v m).
Proof.
  unfold map_keys. intros Hnd Hv Hm.
  induction m as [|[k' v'] t IH]; simpl.
  - constructor; [assumption | constructor].
  - inversion Hnd as [|? ? Hnotin Hnd']; subst.
    destruct (String.eqb_spec k k') as [<-|Hne].
    + constructor; [assumption|].
      apply Forall_forall. intros [k1 v1] Hin. apply Hm; [right; assumption|].
      simpl. intros ->. apply Hnotin. apply (in_map fst _ _ Hin).
    + constructor.
      * apply Hm; [left; reflexivity | simpl; congruence].
      * apply IH; [assumption|]. intros kv Hin. apply Hm. right. assumption.
Qed.

Lemma str_mem_remove (k k' : string) (l : list string) :
  str_mem k' (str_remove k l) = true -> str_mem k' l = true.
Proof.
  induction l as [|x t IH]; simpl; [auto|].
  destruct (String.eqb k x); simpl.
  - intros H. rewrite (IH H). apply orb_true_r.
  - destruct (String.eqb k' x); simpl; auto.
Qed.

Lemma fs_depth_listed (fs : FS) (d : nat) (path : string)
    (infoList : list FileInfo) (info : FileInfo) :
  fs_depth fs (S d) path = true ->
  ReadDir fs path = inl infoList ->
  In info infoList ->
  fs_depth fs d (Join path (Name info)) = true.
Proof.
  simpl. intros Hd Hread Hin. rewrite Hread in Hd.
  rewrite forallb_forall in Hd. auto.
Qed.

Lemma tree_fits_newNode (fs : FS) (d : nat) (path : string) (info : FileInfo)
    (rec ign : bool) :
  fs_depth fs d path = true ->
  tree_fits fs d (newNode path info rec ign) = true /\
  node_all map_ok (newNode path info rec ign).
Proof.
  intros Hd. split.
  - destruct d; [discriminate|]. cbn [tree_fits newNode Path Children forallb].
    rewrite Hd. reflexivity.
  - constructor; [|constructor]. split; constructor.
Qed.

Lemma In_map_set {V : Type} (k : string) (v : V) (m : list (string * V))
    (kv : string * V) :
  In kv (map_set k v m) -> In kv m \/ kv = (k, v).
Proof.
  induction m as [|[k' v'] t IH]; simpl.
  - intros [<-|[]]. auto.
  - destruct (String.eqb_spec k k') as [<-|Hne]; simpl.
    + intros [<-|H]; auto.
    + intros [<-|H]; auto. destruct (IH H); auto.
Qed.

Section PassReturns.
Variable w : GoWatcher.
Variable fs : FS.
Hypothesis no_cap : maxEvents w <= 0.
Hypothesis static : fs_static fs.

Lemma pollEntries_returns (fuel : nat) poll (path : string) (rec : bool) :
    poll_returns fs fuel poll ->
    forall todo children infoMap c,
      (forall info, In info todo ->
         fs_depth fs fuel (Join path (Name info)) = true /\
         exists i, Lstat fs (Join path (Name info)) = inl i) ->
      NoDup (map Name todo) ->
      Forall (child_ready fs fuel) children ->
      NoDup (map_keys children) ->
      Forall (fun kv => snd kv = None -> ~ In (fst kv) (map Name todo))
        children ->
      Forall (diffed_statable fs infoMap) children ->
      cancel c = false ->
      exists children' infoMap' c',
        pollEntries poll w path rec todo children infoMap c
        = Ret (false, children', infoMap') c' /\
        cancel c' = false /\
        Forall (child_ready fs fuel) children' /\
        NoDup (map_keys children') /\
        Forall (diffed_statable fs infoMap') children'.
Proof.
    intros Hpoll todo.
    induction todo as [|info rest IH];
      intros children infoMap c Hinfo Hnames Hready Hkeys Hnil Hdiffed Hc.
    - simpl. eauto 10.
    - cbn [pollEntries isHiddenFile].
      assert (Hinfo' : forall i, In i rest ->
                fs_depth fs fuel (Join path (Name i)) = true /\
                exists i', Lstat fs (Join path (Name i)) = inl i')
        by (intros i Hi; apply Hinfo; right; assumption).
      destruct (Hinfo info (or_introl eq_refl)) as [Hdepth [i0 Hstat0]].
      cbn [map] in Hnames. inversion Hnames as [|? ? Hfresh Hnames']; subst.
      assert (Hnil' : Forall (fun kv => snd kv = None ->
                                        ~ In (fst kv) (map Name rest)) children).
      { eapply Forall_impl; [|exact Hnil]. cbn [map]. simpl. intros kv H Hn.
        specialize (H Hn). tauto. }
      destruct (ignoreHidden w && _); [apply IH; assumption|].
      destruct (map_get (Name info) children) as [[child|]|] eqn:Hget.
      + (* a child known from an earlier cycle *)
        destruct (ignored child) eqn:Hig; [apply IH; assumption|].
        pose proof Hready as Hchild. rewrite Forall_forall in Hchild.
        destruct (Hchild _ (map_get_In _ _ _ Hget) child eq_refl)
          as [Hfits Hok].
        destruct (Hpoll child c Hfits Hok Hc) as [r [c' [-> [Hc' Hr]]]].
        apply IH; auto.
        * apply Forall_map_set; [assumption|].
          intros ch Hch. simpl in Hch. subst r. tauto.
        * apply NoDup_map_set. assumption.
        * apply Forall_map_set; [assumption|]. simpl. intros _. assumption.
        * apply Forall_map_set_other; [assumption | |].
          -- intros _ ch Hch. simpl in Hch. subst r. tauto.
          -- intros kv Hin Hne Hmem. rewrite Forall_forall in Hdiffed.
             apply (Hdiffed kv Hin). simpl in Hmem.
             apply String.eqb_neq in Hne. rewrite Hne in Hmem. exact Hmem.
      + (* a nil child cannot be met *)
        exfalso. rewrite Forall_forall in Hnil.
        apply (Hnil _ (map_get_In _ _ _ Hget) eq_refl). left. reflexivity.
      + (* a new entry *)
        set (newChild := newNode _ info rec _).
        destruct (tree_fits_newNode fs fuel (Join path (Name info)) info rec
                    (shouldIgnore w (Name info) (Join path (Name info))) Hdepth)
          as [Hfits Hok].
        fold newChild in Hfits, Hok.
        assert (Hready1 : Forall (child_ready fs fuel)
                            (map_set (Name info) (Some newChild) children)).
        { apply Forall_map_set; [assumption|]. intros ch [= <-]. auto. }
        assert (Hkeys1 : NoDup (map_keys
                            (map_set (Name info) (Some newChild) children)))
          by (apply NoDup_map_set; assumption).
        assert (Hnil1 : Forall (fun kv => snd kv = None ->
                                          ~ In (fst kv) (map Name rest))
                          (map_set (Name info) (Some newChild) children)).
        { apply Forall_map_set; [assumption|]. simpl. discriminate. }
        destruct (ignored newChild) eqn:Hig.
        { apply IH; auto. apply Forall_map_set; [assumption|].
          intros _ ch [= <-]. left. assumption. }
        unfold select_send. rewrite Hc.
        pose proof (forward_keeps_open w
                      (mkEvent Create (Join path (Name info)) info) c no_cap Hc)
          as Hc1.
        destruct (Hpoll newChild _ Hfits Hok Hc1) as [r [c2 [-> [Hc2 Hr]]]].
        destruct r as [m|].
        2:{ destruct Hr as [_ [e He]]. subst newChild. simpl in He.
            congruence. }
        destruct Hr as [Hfits' [Hok' Hstat']].
        apply IH; auto.
        * apply Forall_map_set; [assumption|]. intros ch [= <-]. auto.
        * apply NoDup_map_set. assumption.
        * apply Forall_map_set; [assumption|]. simpl. discriminate.
        * apply Forall_map_set_other; [assumption | |].
          -- intros _ ch [= <-]. assumption.
          -- intros kv Hin Hne Hmem.
             destruct (In_map_set _ _ _ _ Hin) as [Hin'|Heq];
               [|subst kv; simpl in Hne; congruence].
             rewrite Forall_forall in Hdiffed.
             apply (Hdiffed kv Hin'). simpl in Hmem.
             apply String.eqb_neq in Hne. rewrite Hne in Hmem. exact Hmem.
Qed.

Lemma sweepChildren_returns (fuel : nat) poll :
    poll_returns fs fuel poll ->
    forall todo kept infoMap c,
      Forall (child_ready fs fuel) todo ->
      Forall (diffed_statable fs infoMap) todo ->
      Forall (fun kv => snd kv <> None /\ child_ready fs fuel kv) kept ->
      NoDup (map_keys (kept ++ todo)) ->
      cancel c = false ->
      exists kept' c',
        sweepChildren poll w todo kept infoMap c = Ret (false, kept') c' /\
        cancel c' = false /\
        Forall (fun kv => snd kv <> None /\ child_ready fs fuel kv) kept' /\
        NoDup (map_keys kept').
Proof.
    intros Hpoll todo.
    induction todo as [|[k [childNode|]] rest IH];
      intros kept infoMap c Hready Hdiffed Hkept Hkeys Hc.
    - simpl. rewrite app_nil_r in Hkeys. eauto 10.
    - inversion Hready as [|? ? Hhd Hrest]; subst.
      inversion Hdiffed as [|? ? Hdhd Hdrest]; subst.
      destruct (Hhd childNode eq_refl) as [Hfits Hok].
      assert (Hkeys' : NoDup (map_keys (kept ++ rest))).
      { unfold map_keys in *. rewrite map_app in *. simpl in Hkeys.
        apply NoDup_remove_1 in Hkeys. assumption. }
      cbn [sweepChildren].
      destruct (str_mem k infoMap) eqn:Hmem.
      + destruct (Hpoll childNode c Hfits Hok Hc) as [r [c' [-> [Hc' Hr]]]].
        destruct r as [m|].
        2:{ destruct Hr as [Hig [e He]].
            destruct (Hdhd Hmem childNode eq_refl) as [H|[i H]]; congruence. }
        apply IH; auto.
        * eapply Forall_impl; [|exact Hdrest].
          intros kv H Hm. apply H. apply (str_mem_remove k). assumption.
        * apply Forall_app. split; [assumption|].
          constructor; [|constructor]. split; [discriminate|].
          intros ch [= <-]. tauto.
        * rewrite <- app_assoc. unfold map_keys in Hkeys |- *.
          rewrite !map_app in Hkeys |- *. exact Hkeys.
      + destruct (ignored childNode); [apply IH; assumption|].
        unfold select_send. rewrite Hc.
        apply IH; auto. apply forward_keeps_open; assumption.
    - inversion Hready; inversion Hdiffed; subst.
      cbn [sweepChildren]. apply IH; auto.
      unfold map_keys in *. rewrite map_app in *. simpl in Hkeys.
      apply NoDup_remove_1 in Hkeys. assumption.
Qed.

Lemma pollNodeEvent_returns (fuel : nat) :
    poll_returns fs fuel (pollNodeEvent fuel w fs).
Proof.
    induction fuel as [|fuel IH]; intros n c Hfits Hok Hc; [discriminate|].
    cbn [tree_fits] in Hfits. apply andb_true_iff in Hfits as [Hdepth Hkids].
    rewrite forallb_forall in Hkids.
    pose proof (node_all_head _ _ Hok) as [Hnodup Hnonil].
    pose proof (node_all_children _ _ Hok) as Hch.
    assert (Hsame : tree_fits fs (S fuel) n = true).
    { cbn [tree_fits]. rewrite Hdepth. apply forallb_forall. exact Hkids. }
    cbn [pollNodeEvent].
    destruct (ignored n) eqn:Hig.
    { exists (Some n), c. repeat split; auto. left. assumption. }
    destruct (Lstat fs (Path n)) as [newInfo|e] eqn:Hstat.
    2:{ rewrite Hc. eexists None, _. repeat split; eauto.
        apply forward_keeps_open; assumption. }
    assert (Hsend : forall b e c0, cancel c0 = false ->
               exists c1, send_if b w e c0 = Some c1 /\ cancel c1 = false).
    { intros b e c0 Hc0. unfold send_if, select_send. destruct b; eauto.
      rewrite Hc0. eexists; split; [reflexivity|].
      apply forward_keeps_open; assumption. }
    destruct (Hsend (negb (ModTime (Info n) =? ModTime newInfo))
                (mkEvent Write (Path n) newInfo) c Hc) as [c1 [-> Hc1]].
    destruct (Hsend (negb (Mode (Info n) =? Mode newInfo))
                (mkEvent Chmod (Path n) newInfo) c1 Hc1) as [c2 [-> Hc2]].
    cbn [set_Info Path recursive Children].
    assert (Hres : forall ch,
               Forall (fun kv => snd kv <> None /\ child_ready fs fuel kv) ch ->
               NoDup (map_keys ch) ->
               tree_fits fs (S fuel)
                 (set_Children (set_Info n newInfo) ch) = true /\
               node_all map_ok (set_Children (set_Info n newInfo) ch) /\
               statable fs (set_Children (set_Info n newInfo) ch)).
    { intros ch Hall Hnd. rewrite Forall_forall in Hall. repeat split.
      - cbn [tree_fits set_Children set_Info Path Children]. rewrite Hdepth.
        apply forallb_forall. intros [k [v|]] Hin; [|reflexivity].
        apply (proj2 (Hall _ Hin) v eq_refl).
      - exact Hnd.
      - simpl. apply Forall_forall. intros kv Hin. apply (Hall _ Hin).
      - simpl. apply Forall_forall. intros kv Hin v Hv.
        apply (proj2 (Hall _ Hin) v Hv).
      - right. simpl. eauto. }
    assert (Hinit : Forall (fun kv => snd kv <> None /\ child_ready fs fuel kv)
                      (Children n)).
    { apply Forall_forall. intros [k v] Hin.
      rewrite Forall_forall in Hnonil. split; [apply (Hnonil _ Hin)|].
      intros ch Hv. simpl in Hv. subst v. split.
      - apply (Hkids _ Hin).
      - unfold children_all in Hch. rewrite Forall_forall in Hch.
        apply (Hch _ Hin). reflexivity. }
    assert (Hkeep : forall X : Prop, exists r c',
               Ret (Some (set_Info n newInfo)) c2 = Ret r c' /\
               cancel c' = false /\
               match r with
               | Some n' => tree_fits fs (S fuel) n' = true /\
                            node_all map_ok n' /\ statable fs n'
               | None => X
               end).
    { intros X. eexists _, _. split; [reflexivity|]. split; [assumption|].
      destruct (Hres (Children n) Hinit Hnodup) as [H1 [H2 H3]].
      destruct n; exact (conj H1 (conj H2 H3)). }
    destruct (negb (IsDir newInfo) || negb (recursive n)); [apply Hkeep|].
    destruct (ReadDir fs (Path n)) as [infoList|e] eqn:Hread; [|apply Hkeep].
    clear Hkeep.
    destruct (static _ _ Hread) as [Hnames Hstatable].
    destruct (pollEntries_returns fuel _ (Path n) (recursive n) IH
                infoList (Children n) [] c2) as [ch1 [im1 [c3 [-> [Hc3 H1]]]]];
      auto.
    { intros info Hin. split; [|auto].
      apply (fs_depth_listed fs fuel (Path n) infoList); assumption. }
    { eapply Forall_impl; [|exact Hinit]. intros kv [_ H]. exact H. }
    { eapply Forall_impl; [|exact Hnonil]. intros kv H Hn. contradiction. }
    { apply Forall_forall. intros kv _ H. discriminate. }
    destruct H1 as [Hready1 [Hkeys1 Hdiffed1]].
    destruct (sweepChildren_returns fuel _ IH ch1 [] im1 c3)
      as [ch2 [c4 [-> [Hc4 [Hkept2 Hkeys2]]]]]; auto.
    eexists _, _. split; [reflexivity|]. split; [assumption|].
    apply Hres; assumption.
Qed.
End PassReturns.

(* ================================================================= *)
(** ** Following one entry of a directory through a pass

    [dir] is the path of the directory node being diffed, [k0] the name of
    the entry that is followed, and the events counted are those of kind
    [op] for the path of that entry. *)

Lemma count_sel_app (sel : Event -> bool) (a b : list Event) :
  count_sel sel (a ++ b) = (count_sel sel a + count_sel sel b)%nat.
Proof. unfold count_sel. rewrite filter_app, length_app. reflexivity. Qed.

Lemma count_forward (w : GoWatcher) (sel : Event -> bool) (e : Event)
    (c : Cycle) :
  count_sel sel (received (forward w e c)) =
  (count_sel sel (received c) + if sel e then 1 else 0)%nat.
Proof.
  rewrite forward_received, count_sel_app. unfold count_sel at 2.
  simpl. destruct (sel e); reflexivity.
Qed.

Lemma emits_under (fs : FS) (q : string) (m : FileNode) (e : Event) :
  under q (Path m) -> emits fs m e -> under q (ev_path e).
Proof.
  intros Hu He. destruct He; simpl; auto using under_Join.
Qed.

Lemma map_get_app {V : Type} (k : string) (a b : list (string * V)) :
  map_get k (a ++ b) =
  match map_get k a with Some v => Some v | None => map_get k b end.
Proof.
  induction a as [|[k' v'] t IH]; simpl; [reflexivity|].
  destruct (String.eqb k k'); auto.
Qed.

Lemma str_mem_remove_other (k k' : string) (l : list string) :
  k' <> k -> str_mem k' (str_remove k l) = str_mem k' l.
Proof.
  intros Hne. induction l as [|x t IH]; simpl; [reflexivity|].
  destruct (String.eqb_spec k x) as [<-|Hx]; simpl.
  - rewrite IH. destruct (String.eqb_spec k' k); [contradiction | reflexivity].
  - rewrite IH. reflexivity.
Qed.

Section FollowEntry.
Variable w : GoWatcher.
Variable fs : FS.
Hypothesis no_cap : maxEvents w <= 0.

Variable dir : string.
Variable k0 : string.
Variable sel : Event -> bool.
Hypothesis k0_plain : has_slash k0 = false.
Hypothesis sel_path : forall e, sel e = true -> ev_path e = Join dir k0.

Let cnt (c : Cycle) : nat := count_sel sel (received c).

Lemma sibling_event (k : string) (e : Event) :
    k <> k0 -> under (Join dir k) (ev_path e) -> sel e = false.
Proof.
    intros Hne Hu. destruct (sel e) eqn:Hsel; [|reflexivity].
    exfalso. rewrite (sel_path e Hsel) in Hu.
    apply under_sibling in Hu; auto.
Qed.

  (** The diff of another entry's subtree sends no counted event. *)
Lemma sibling_poll (fuel : nat) (k : string) (a : nat) :
    k <> k0 ->
    poll_keeps (fun m => under (Join dir k) (Path m))
      (fun c => cancel c = false /\ cnt c = a)
      (pollNodeEvent fuel w fs).
Proof.
    intros Hne. apply pollNodeEvent_keeps; simpl; auto using under_Join.
    intros n e c Hu _ He Hc [_ Ha]. split.
    - apply forward_keeps_open; assumption.
    - unfold cnt in *. rewrite count_forward.
      rewrite (sibling_event k e Hne (emits_under fs _ n e Hu He)). lia.
Qed.

  (** First loop: entries other than [k0] leave alone the child stored
      under [k0], the counted events, and whether [k0] is in [infoMap]. *)
Lemma pollEntries_frame (fuel : nat) (rec : bool) :
    forall todo children infoMap c r c',
      ~ In k0 (map Name todo) ->
      Forall (keyed_under dir) children ->
      cancel c = false ->
      pollEntries (pollNodeEvent fuel w fs) w dir rec todo children infoMap c
      = Ret r c' ->
      fst (fst r) = false /\
      map_get k0 (snd (fst r)) = map_get k0 children /\
      str_mem k0 (snd r) = str_mem k0 infoMap /\
      Forall (keyed_under dir) (snd (fst r)) /\
      cancel c' = false /\ cnt c' = cnt c.
Proof.
    induction todo as [|info rest IH];
      intros children infoMap c r c' Hk0 Hkeyed Hc.
    - simpl. intros [= <- <-]. simpl. auto 10.
    - cbn [pollEntries isHiddenFile].
      assert (Hne : Name info <> k0) by (intros H; apply Hk0; left; assumption).
      assert (Hrest : ~ In k0 (map Name rest))
        by (intros H; apply Hk0; right; assumption).
      assert (Hne' : String.eqb k0 (Name info) = false)
        by (apply String.eqb_neq; congruence).
      destruct (ignoreHidden w && _); [apply IH; assumption|].
      destruct (map_get (Name info) children) as [[child|]|] eqn:Hget.
      + destruct (ignored child); [apply IH; assumption|].
        pose proof Hkeyed as Hchild. rewrite Forall_forall in Hchild.
        pose proof (sibling_poll fuel (Name info) (cnt c) Hne child c
                      (Hchild _ (map_get_In _ _ _ Hget) child eq_refl)
                      (conj Hc eq_refl)) as Hp.
        destruct (pollNodeEvent fuel w fs (Some child) c) as [r1 c1| | |];
          try discriminate.
        destruct Hp as [Hr1 [Hc1 Hcnt1]]. intros Hrun.
        destruct (IH _ _ _ _ _ Hrest
                    (Forall_map_set _ _ _ _ Hkeyed Hr1) Hc1 Hrun)
          as [H1 [H2 [H3 [H4 [H5 H6]]]]].
        rewrite map_get_map_set, Hne' in H2. simpl in H3. rewrite Hne' in H3.
        repeat split; auto. congruence.
      + discriminate.
      + set (newChild := newNode _ info rec _).
        assert (Hnew : node_all (fun m => under (Join dir (Name info)) (Path m))
                         newChild)
          by (constructor; [apply under_refl | constructor]).
        assert (Hkeyed1 : Forall (keyed_under dir)
                            (map_set (Name info) (Some newChild) children)).
        { apply Forall_map_set; [assumption|]. intros ch [= <-]. exact Hnew. }
        assert (Hget1 : map_get k0 (map_set (Name info) (Some newChild) children)
                        = map_get k0 children)
          by (rewrite map_get_map_set, Hne'; reflexivity).
        destruct (ignored newChild).
        { intros Hrun.
          destruct (IH _ _ _ _ _ Hrest Hkeyed1 Hc Hrun)
            as [H1 [H2 [H3 [H4 [H5 H6]]]]].
          repeat split; auto. congruence. }
        unfold select_send. rewrite Hc.
        set (c1 := forward w (mkEvent Create (Join dir (Name info)) info) c).
        assert (Hc1 : cancel c1 = false)
          by (apply forward_keeps_open; assumption).
        assert (Hcnt1 : cnt c1 = cnt c).
        { unfold cnt, c1. rewrite count_forward.
          rewrite (sibling_event (Name info)); [lia | assumption |].
          apply under_refl. }
        pose proof (sibling_poll fuel (Name info) (cnt c) Hne newChild c1 Hnew
                      (conj Hc1 Hcnt1)) as Hp.
        destruct (pollNodeEvent fuel w fs (Some newChild) c1) as [r2 c2| | |];
          try discriminate.
        destruct Hp as [Hr2 [Hc2 Hcnt2]]. intros Hrun.
        assert (Hkeyed2 : Forall (keyed_under dir)
                            (map_set (Name info)
                               (Some match r2 with
                                     | Some m => m
                                     | None => newChild
                                     end)
                               (map_set (Name info) (Some newChild) children))).
        { apply Forall_map_set; [assumption|]. intros ch [= <-].
          destruct r2; auto. }
        destruct (IH _ _ _ _ _ Hrest Hkeyed2 Hc2 Hrun)
          as [H1 [H2 [H3 [H4 [H5 H6]]]]].
        rewrite map_get_map_set, Hne' in H2. simpl in H3. rewrite Hne' in H3.
        repeat split; auto; congruence.
Qed.

Lemma pollEntries_app poll (rec : bool) :
    forall a b children infoMap c,
      pollEntries poll w dir rec (a ++ b) children infoMap c =
      match pollEntries poll w dir rec a children infoMap c with
      | Ret (false, children', infoMap') c' =>
          pollEntries poll w dir rec b children' infoMap' c'
      | o => o
      end.
Proof.
    induction a as [|info rest IH]; intros b children infoMap c.
    - reflexivity.
    - cbn [app pollEntries isHiddenFile].
      destruct (ignoreHidden w && _); [apply IH|].
      destruct (map_get (Name info) children) as [[child|]|]; [| reflexivity |].
      + destruct (ignored child); [apply IH|].
        destruct (poll (Some child) c); try reflexivity. apply IH.
      + destruct (ignored _); [apply IH|].
        destruct (select_send w _ c); [|reflexivity].
        destruct (poll _ _); try reflexivity. apply IH.
Qed.

Lemma first_occurrence (todo : list FileInfo) :
    In k0 (map Name todo) ->
    exists before info rest,
      todo = before ++ info :: rest /\ Name info = k0 /\
      ~ In k0 (map Name before).
Proof.
    induction todo as [|info rest IH]; simpl; [tauto|].
    destruct (String.eqb_spec (Name info) k0) as [Heq|Hne].
    - intros _. exists [], info, rest. simpl. auto.
    - intros [H|H]; [contradiction|].
      destruct (IH H) as [before [info' [rest' [-> [Hn Hb]]]]].
      exists (info :: before), info', rest'. simpl. intuition.
Qed.

  (** First loop: the run arrives at the entry [k0] with the child under
      [k0] and the counted events untouched. *)
Lemma pollEntries_reaches (fuel : nat) (rec : bool) :
    forall todo children infoMap c r c',
      In k0 (map Name todo) -> NoDup (map Name todo) ->
      Forall (keyed_under dir) children ->
      cancel c = false ->
      pollEntries (pollNodeEvent fuel w fs) w dir rec todo children infoMap c
      = Ret r c' ->
      exists info rest children1 infoMap1 c1,
        incl (info :: rest) todo /\ Name info = k0 /\
        ~ In k0 (map Name rest) /\
        map_get k0 children1 = map_get k0 children /\
        str_mem k0 infoMap1 = str_mem k0 infoMap /\
        Forall (keyed_under dir) children1 /\
        cancel c1 = false /\ cnt c1 = cnt c /\
        pollEntries (pollNodeEvent fuel w fs) w dir rec (info :: rest)
          children1 infoMap1 c1 = Ret r c'.
Proof.
    intros todo children infoMap c r c' Hin Hnd Hkeyed Hc Hrun.
    destruct (first_occurrence todo Hin)
      as [before [info [rest [-> [Hname Hbefore]]]]].
    rewrite pollEntries_app in Hrun.
    destruct (pollEntries _ w dir rec before children infoMap c)
      as [[[ret1 ch1] im1] c1| | |] eqn:Hb; try discriminate.
    destruct (pollEntries_frame fuel rec before children infoMap c _ c1
                Hbefore Hkeyed Hc Hb) as [H1 [H2 [H3 [H4 [H5 H6]]]]].
    simpl in H1, H2, H3, H4. subst ret1.
    exists info, rest, ch1, im1, c1. repeat split; auto.
    - apply incl_appr, incl_refl.
    - rewrite map_app in Hnd. cbn [map] in Hnd.
      apply NoDup_remove_2 in Hnd. rewrite Hname in Hnd.
      intros H. apply Hnd. apply in_or_app. right. assumption.
Qed.

  (** Second loop: the children before the entry [k0] are swept without
      touching what is kept under [k0] or the counted events. *)
Lemma sweepChildren_upto (fuel : nat) :
    forall before tail kept infoMap c r c',
      ~ In k0 (map_keys before) ->
      Forall (keyed_under dir) before ->
      cancel c = false ->
      sweepChildren (pollNodeEvent fuel w fs) w (before ++ tail) kept infoMap c
      = Ret r c' ->
      exists kept1 infoMap1 c1,
        sweepChildren (pollNodeEvent fuel w fs) w tail kept1 infoMap1 c1
        = Ret r c' /\
        map_get k0 kept1 = map_get k0 kept /\
        str_mem k0 infoMap1 = str_mem k0 infoMap /\
        cancel c1 = false /\ cnt c1 = cnt c.
Proof.
    induction before as [|[k [childNode|]] rest IH];
      intros tail kept infoMap c r c' Hk0 Hkeyed Hc.
    - simpl. intros Hrun. exists kept, infoMap, c. auto.
    - assert (Hne : k <> k0) by (intros H; apply Hk0; left; assumption).
      assert (Hrest : ~ In k0 (map_keys rest))
        by (intros H; apply Hk0; right; assumption).
      inversion Hkeyed as [|? ? Hhd Htl]; subst.
      cbn [app sweepChildren].
      destruct (str_mem k infoMap).
      + pose proof (sibling_poll fuel k (cnt c) Hne childNode c
                      (Hhd childNode eq_refl) (conj Hc eq_refl)) as Hp.
        destruct (pollNodeEvent fuel w fs (Some childNode) c) as [r1 c1| | |];
          try discriminate.
        destruct Hp as [_ [Hc1 Hcnt1]]. intros Hrun.
        destruct (IH _ _ _ _ _ _ Hrest Htl Hc1 Hrun)
          as [kept1 [im1 [c2 [H1 [H2 [H3 [H4 H5]]]]]]].
        exists kept1, im1, c2. repeat split; auto.
        * rewrite H2, map_get_app. simpl.
          destruct (String.eqb_spec k0 k); [congruence|].
          destruct (map_get k0 kept); reflexivity.
        * rewrite H3. apply str_mem_remove_other. congruence.
        * congruence.
      + destruct (ignored childNode) eqn:Hig; [apply IH; assumption|].
        unfold select_send. rewrite Hc. intros Hrun.
        set (e := mkEvent Remove (Path childNode) (Info childNode)) in *.
        assert (Hc1 : cancel (forward w e c) = false)
          by (apply forward_keeps_open; assumption).
        destruct (IH _ _ _ _ _ _ Hrest Htl Hc1 Hrun)
          as [kept1 [im1 [c2 [H1 [H2 [H3 [H4 H5]]]]]]].
        exists kept1, im1, c2. repeat split; auto.
        rewrite H5. unfold cnt. rewrite count_forward.
        rewrite (sibling_event k e Hne); [lia|]. simpl.
        apply (node_all_head _ _ (Hhd childNode eq_refl)).
    - inversion Hkeyed; subst. cbn [app sweepChildren]. apply IH; auto.
      intros H. apply Hk0. right. assumption.
Qed.

Lemma sweepChildren_frame (fuel : nat) :
    forall todo kept infoMap c r c',
      ~ In k0 (map_keys todo) ->
      Forall (keyed_under dir) todo ->
      cancel c = false ->
      sweepChildren (pollNodeEvent fuel w fs) w todo kept infoMap c = Ret r c' ->
      fst r = false /\ map_get k0 (snd r) = map_get k0 kept /\
      cancel c' = false /\ cnt c' = cnt c.
Proof.
    intros todo kept infoMap c r c' Hk0 Hkeyed Hc Hrun.
    rewrite <- (app_nil_r todo) in Hrun.
    destruct (sweepChildren_upto fuel todo [] kept infoMap c r c'
                Hk0 Hkeyed Hc Hrun) as [kept1 [im1 [c1 [H1 [H2 [H3 [H4 H5]]]]]]].
    simpl in H1. injection H1 as <- <-. simpl. auto.
Qed.
End FollowEntry.

Lemma map_get_split {V : Type} (k : string) (v : V) (m : list (string * V)) :
  map_get k m = Some v -> NoDup (map_keys m) ->
  exists before after,
    m = before ++ (k, v) :: after /\
    ~ In k (map_keys before) /\ ~ In k (map_keys after).
Proof.
  unfold map_keys. induction m as [|[k' v'] t IH]; simpl; [discriminate|].
  intros Hget Hnd. inversion Hnd as [|? ? Hfresh Hnd']; subst.
  destruct (String.eqb_spec k k') as [<-|Hne].
  - injection Hget as ->. exists [], t. simpl. auto.
  - destruct (IH Hget Hnd') as [before [after [-> [Hb Ha]]]].
    exists ((k', v') :: before), after. simpl. intuition.
Qed.

(** A directory node diffed with [cancel] open and no cap: the pass sends
    the node's own events, runs the first loop over the listing and then
    the second loop over the children. *)
Lemma dir_pass_runs (w : GoWatcher) (fs : FS) (fuel : nat) (D : FileNode)
    (c : Cycle) (dinfo : FileInfo) (l : list FileInfo) :
  maxEvents w <= 0 -> fs_static fs ->
  ignored D = false -> recursive D = true ->
  Lstat fs (Path D) = inl dinfo -> IsDir dinfo = true ->
  ReadDir fs (Path D) = inl l ->
  tree_fits fs (S fuel) D = true -> node_all map_ok D ->
  cancel c = false ->
  exists c2 ch1 im1 c3 ch2 c4,
    cancel c2 = false /\
    (forall sel, (forall e, sel e = true -> ev_path e <> Path D) ->
       count_sel sel (received c2) = count_sel sel (received c)) /\
    pollEntries (pollNodeEvent fuel w fs) w (Path D) true l (Children D) [] c2
    = Ret (false, ch1, im1) c3 /\
    NoDup (map_keys ch1) /\
    sweepChildren (pollNodeEvent fuel w fs) w ch1 [] im1 c3
    = Ret (false, ch2) c4 /\
    cancel c4 = false /\
    pollNodeEvent (S fuel) w fs (Some D) c
    = Ret (Some (set_Children (set_Info D dinfo) ch2)) c4.
Proof.
  intros no_cap static Hig Hrec Hstat Hdir Hread Hfits Hok Hc.
  cbn [tree_fits] in Hfits. apply andb_true_iff in Hfits as [Hdepth Hkids].
  rewrite forallb_forall in Hkids.
  pose proof (node_all_head _ _ Hok) as [Hnodup Hnonil].
  pose proof (node_all_children _ _ Hok) as Hch.
  assert (Hsend : forall b e c0,
             cancel c0 = false -> ev_path e = Path D ->
             exists c1, send_if b w e c0 = Some c1 /\ cancel c1 = false /\
                        forall sel,
                          (forall e, sel e = true -> ev_path e <> Path D) ->
                          count_sel sel (received c1)
                          = count_sel sel (received c0)).
  { intros b e c0 Hc0 He. unfold send_if, select_send.
    destruct b; [|eauto]. rewrite Hc0. eexists. split; [reflexivity|].
    split; [apply forward_keeps_open; assumption|].
    intros sel Hsel. rewrite count_forward.
    destruct (sel e) eqn:Hse; [|lia].
    exfalso. exact (Hsel e Hse He). }
  destruct (Hsend (negb (ModTime (Info D) =? ModTime dinfo))
              (mkEvent Write (Path D) dinfo) c Hc eq_refl)
    as [c1 [Hs1 [Hc1 Hcnt1]]].
  destruct (Hsend (negb (Mode (Info D) =? Mode dinfo))
              (mkEvent Chmod (Path D) dinfo) c1 Hc1 eq_refl)
    as [c2 [Hs2 [Hc2 Hcnt2]]].
  destruct (static _ _ Hread) as [Hnames Hstatable].
  destruct (pollEntries_returns w fs no_cap fuel _ (Path D) true
              (pollNodeEvent_returns w fs no_cap static fuel)
              l (Children D) [] c2) as [ch1 [im1 [c3 [Hrun1 [Hc3 H1]]]]];
    auto.
  { intros info Hin. split; [|auto].
    apply (fs_depth_listed fs fuel (Path D) l); assumption. }
  { apply Forall_forall. intros [k v] Hin ch Hv. simpl in Hv. subst v. split.
    - apply (Hkids _ Hin).
    - unfold children_all in Hch. rewrite Forall_forall in Hch.
      apply (Hch _ Hin). reflexivity. }
  { eapply Forall_impl; [|exact Hnonil]. intros kv H Hn. contradiction. }
  { apply Forall_forall. intros kv _ H. discriminate. }
  destruct H1 as [Hready1 [Hkeys1 Hdiffed1]].
  destruct (sweepChildren_returns w fs no_cap fuel _
              (pollNodeEvent_returns w fs no_cap static fuel) ch1 [] im1 c3)
    as [ch2 [c4 [Hrun2 [Hc4 [Hkept2 Hkeys2]]]]]; auto.
  exists c2, ch1, im1, c3, ch2, c4. repeat split; auto.
  - intros sel Hsel. rewrite Hcnt2, Hcnt1; auto.
  - cbn [pollNodeEvent]. rewrite Hig, Hstat, Hs1, Hs2.
    cbn [set_Info Path recursive Children]. rewrite Hdir, Hrec, Hread.
    cbn [negb orb]. rewrite Hrun1, Hrun2. reflexivity.
Qed.

(** What the diff of a node leaves as it is. *)
Lemma poll_header (w : GoWatcher) (fs : FS) (fuel : nat) (n n' : FileNode)
    (c c' : Cycle) :
  pollNodeEvent fuel w fs (Some n) c = Ret (Some n') c' ->
  Path n' = Path n /\ ignored n' = ignored n /\ recursive n' = recursive n.
Proof.
  destruct fuel as [|fuel]; [discriminate|]. cbn [pollNodeEvent].
  destruct (ignored n) eqn:Hig; [intros [= <- <-]; auto|].
  destruct (Lstat fs (Path n)) as [newInfo|e].
  2:{ destruct (cancel c); discriminate. }
  destruct (send_if _ w _ c) as [c1|]; [|intros [= <- <-]; auto].
  destruct (send_if _ w _ c1) as [c2|]; [|intros [= <- <-]; auto].
  cbn [set_Info Path recursive Children].
  destruct (_ || _); [intros [= <- <-]; auto|].
  destruct (ReadDir fs (Path n)); [|intros [= <- <-]; auto].
  destruct (pollEntries _ w _ _ _ _ _ c2) as [[[[|] ch] im] c3| | |];
    try discriminate; [intros [= <- <-]; auto|].
  destruct (sweepChildren _ w _ _ _ c3) as [[ret ch'] c4| | |];
    try discriminate. intros [= <- <-]; auto.
Qed.

Lemma poll_some (w : GoWatcher) (fs : FS) (fuel : nat) (n : FileNode)
    (i : FileInfo) (r : option FileNode) (c c' : Cycle) :
  Lstat fs (Path n) = inl i ->
  pollNodeEvent fuel w fs (Some n) c = Ret r c' ->
  exists n', r = Some n'.
Proof.
  intros Hstat. destruct fuel as [|fuel]; [discriminate|].
  cbn [pollNodeEvent]. rewrite Hstat.
  destruct (ignored n); [intros [= <- <-]; eauto|].
  destruct (send_if _ w _ c) as [c1|]; [|intros [= <- <-]; eauto].
  destruct (send_if _ w _ c1) as [c2|]; [|intros [= <- <-]; eauto].
  destruct (_ || _); [intros [= <- <-]; eauto|].
  destruct (ReadDir fs _); [|intros [= <- <-]; eauto].
  destruct (pollEntries _ w _ _ _ _ _ c2) as [[[[|] ch] im] c3| | |];
    try discriminate; [intros [= <- <-]; eauto|].
  destruct (sweepChildren _ w _ _ _ c3) as [[ret ch'] c4| | |];
    try discriminate. intros [= <- <-]; eauto.
Qed.

(** A property of the cycle that no send undoes holds from then on. *)
Section Monotone.
Variable w : GoWatcher.
Variable fs : FS.
Variable Seen : Cycle -> Prop.
Hypothesis Seen_forward : forall e c, Seen c -> Seen (forward w e c).

Lemma poll_monotone (fuel : nat) :
    poll_keeps (fun _ => True) Seen (pollNodeEvent fuel w fs).
Proof. apply pollNodeEvent_keeps; auto. Qed.

Lemma children_all_True (ch : ChildMap) : children_all (fun _ => True) ch.
Proof.
    apply Forall_forall. intros kv _ c0 _.
    apply node_all_trivial. auto.
Qed.

Lemma pollEntries_monotone (fuel : nat) (path : string) (rec : bool)
      (l todo : list FileInfo) (children : ChildMap) (infoMap : list string)
      r (c c' : Cycle) :
    ReadDir fs path = inl l -> incl todo l ->
    Seen c ->
    pollEntries (pollNodeEvent fuel w fs) w path rec todo children infoMap c
    = Ret r c' ->
    Seen c'.
Proof.
    intros Hread Hincl Hs Hrun.
    pose proof (pollEntries_keeps w fs (fun _ => True) Seen
                  (fun _ _ _ _ _ _ _ => Logic.I)
                  (fun n e c0 _ _ _ _ H => Seen_forward e c0 H)
                  (pollNodeEvent fuel w fs)
                  (mkNode path (mkInfo "" 0 0 0 true) false rec []) l
                  (poll_monotone fuel) Logic.I eq_refl Hread
                  todo children infoMap c Hincl (children_all_True _) Hs) as H.
    cbn [Path recursive] in H. rewrite Hrun in H. apply H.
Qed.

Lemma sweepChildren_monotone (fuel : nat) (todo kept : ChildMap)
      (infoMap : list string) r (c c' : Cycle) :
    Seen c ->
    sweepChildren (pollNodeEvent fuel w fs) w todo kept infoMap c = Ret r c' ->
    Seen c'.
Proof.
    intros Hs Hrun.
    pose proof (sweepChildren_keeps w fs (fun _ => True) Seen
                  (fun n e c0 _ _ _ _ H => Seen_forward e c0 H)
                  (pollNodeEvent fuel w fs) (poll_monotone fuel)
                  todo kept infoMap c (children_all_True _)
                  (children_all_True _) Hs) as H.
    rewrite Hrun in H. apply H.
Qed.
End Monotone.

(** The pass over a directory whose entry [k0] is diffed in the first
    loop, sending there one counted event and leaving under [k0] a child
    whose later diffs send no counted event. *)
Section FollowedPass.
Variable w : GoWatcher.
Variable fs : FS.
Hypothesis no_cap : maxEvents w <= 0.
Hypothesis static : fs_static fs.

Variable fuel : nat.
Variable D : FileNode.
Variable dinfo : FileInfo.
Variable l : list FileInfo.
Hypothesis D_watched : ignored D = false.
Hypothesis D_recursive : recursive D = true.
Hypothesis D_stat : Lstat fs (Path D) = inl dinfo.
Hypothesis D_dir : IsDir dinfo = true.
Hypothesis D_list : ReadDir fs (Path D) = inl l.
Hypothesis D_fits : tree_fits fs (S fuel) D = true.
Hypothesis D_ok : node_all map_ok D.
Hypothesis D_keyed : Forall (keyed_under (Path D)) (Children D).

Variable k0 : string.
Variable sel : Event -> bool.
Hypothesis k0_plain : has_slash k0 = false.
Hypothesis k0_listed : In k0 (map Name l).
Hypothesis sel_path :
    forall e, sel e = true -> ev_path e = Join (Path D) k0.

Let cnt (c : Cycle) : nat := count_sel sel (received c).

Variable Seen : Cycle -> Prop.
Hypothesis Seen_forward : forall e c, Seen c -> Seen (forward w e c).

Variable Quiet : FileNode -> Prop.
Hypothesis Quiet_poll :
    forall ch c r c',
      Quiet ch -> cancel c = false ->
      pollNodeEvent fuel w fs (Some ch) c = Ret r c' ->
      exists ch', r = Some ch' /\ Quiet ch' /\ cancel c' = false /\
                  cnt c' = cnt c.
Hypothesis first_diff :
    forall info rest children1 infoMap1 c1 r c',
      In info l -> Name info = k0 ->
      map_get k0 children1 = map_get k0 (Children D) ->
      Forall (keyed_under (Path D)) children1 ->
      cancel c1 = false ->
      pollEntries (pollNodeEvent fuel w fs) w (Path D) true (info :: rest)
        children1 infoMap1 c1 = Ret r c' ->
      exists children2 ch c2,
        pollEntries (pollNodeEvent fuel w fs) w (Path D) true rest
          children2 (k0 :: infoMap1) c2 = Ret r c' /\
        map_get k0 children2 = Some (Some ch) /\ Quiet ch /\
        Forall (keyed_under (Path D)) children2 /\
        cancel c2 = false /\ cnt c2 = S (cnt c1) /\ Seen c2.

Lemma followed_entry_pass (c : Cycle) :
    cancel c = false ->
    exists D' c',
      pollNodeEvent (S fuel) w fs (Some D) c = Ret (Some D') c' /\
      cancel c' = false /\ cnt c' = S (cnt c) /\ Seen c' /\
      exists ch, map_get k0 (Children D') = Some (Some ch) /\ Quiet ch.
Proof.
    intros Hc.
    destruct (dir_pass_runs w fs fuel D c dinfo l no_cap static D_watched
                D_recursive D_stat D_dir D_list D_fits D_ok Hc)
      as [c2 [ch1 [im1 [c3 [ch2 [c4 [Hc2 [Hself [Hrun1 [Hkeys1
            [Hrun2 [Hc4 Hrun]]]]]]]]]]]].
    assert (Hcnt2 : cnt c2 = cnt c).
    { apply Hself. intros e He. rewrite (sel_path e He).
      apply Join_neq_dir. }
    (* first loop *)
    destruct (pollEntries_reaches w fs no_cap (Path D) k0 sel k0_plain sel_path fuel true
                l (Children D) [] c2 _ c3 k0_listed
                (proj1 (static _ _ D_list)) D_keyed Hc2 Hrun1)
      as [info [rest [children1 [infoMap1 [c1 [Hincl [Hname [Hrest
            [Hget1 [_ [Hkeyed1 [Hc1 [Hcnt1 Hrun1']]]]]]]]]]]]].
    assert (Hin : In info l) by (apply Hincl; left; reflexivity).
    destruct (first_diff info rest children1 infoMap1 c1 _ c3
                Hin Hname Hget1 Hkeyed1 Hc1 Hrun1')
      as [children2 [ch [c2' [Hrun1'' [Hget2 [Hquiet [Hkeyed2 [Hc2'
            [Hcnt2' Hseen2]]]]]]]]].
    assert (Hseen3 : Seen c3).
    { apply (pollEntries_monotone w fs Seen Seen_forward fuel (Path D) true l
               rest children2 (k0 :: infoMap1) (false, ch1, im1) c2' c3
               D_list); auto.
      intros x Hx. apply Hincl. right. assumption. }
    destruct (pollEntries_frame w fs no_cap (Path D) k0 sel k0_plain sel_path fuel true
                rest children2 (k0 :: infoMap1) c2' _ c3 Hrest Hkeyed2 Hc2'
                Hrun1'') as [_ [Hget3 [Hmem3 [Hkeyed3 [Hc3 Hcnt3]]]]].
    simpl in Hget3, Hmem3, Hkeyed3. rewrite String.eqb_refl in Hmem3.
    simpl in Hmem3. rewrite Hget2 in Hget3.
    (* second loop *)
    destruct (map_get_split k0 _ ch1 Hget3 Hkeys1)
      as [before [after [-> [Hbefore Hafter]]]].
    apply Forall_app in Hkeyed3 as [Hkb Hka].
    pose proof (Forall_inv_tail Hka) as Hka'.
    destruct (sweepChildren_upto w fs no_cap (Path D) k0 sel k0_plain sel_path fuel
                before _ [] im1 c3 _ c4 Hbefore Hkb Hc3 Hrun2)
      as [kept1 [im2 [c5 [Hrun2' [Hkept1 [Hmem5 [Hc5 Hcnt5]]]]]]].
    cbn [sweepChildren] in Hrun2'. rewrite Hmem5, Hmem3 in Hrun2'.
    destruct (pollNodeEvent fuel w fs (Some ch) c5) as [r c6| | |] eqn:Hp;
      try discriminate.
    destruct (Quiet_poll ch c5 r c6 Hquiet Hc5 Hp)
      as [ch' [-> [Hquiet' [Hc6 Hcnt6]]]].
    destruct (sweepChildren_frame w fs no_cap (Path D) k0 sel k0_plain sel_path fuel
                after _ _ c6 _ c4 Hafter Hka' Hc6 Hrun2')
      as [_ [Hget4 [_ Hcnt4]]].
    simpl in Hget4. rewrite map_get_app, Hkept1 in Hget4. simpl in Hget4.
    rewrite String.eqb_refl in Hget4.
    exists (set_Children (set_Info D dinfo) ch2), c4.
    split; [exact Hrun|]. split; [exact Hc4|]. split.
    { unfold cnt in *. simpl in *. lia. }
    split.
    { exact (sweepChildren_monotone w fs Seen Seen_forward fuel _ _ _ _ c3 c4
               Hseen3 Hrun2). }
    exists ch'. simpl. auto.
Qed.
End FollowedPass.

(* ================================================================= *)
(** ** A written file *)

Lemma Op_eqb_eq (a b : Op) : Op_eqb a b = true <-> a = b.
Proof. destruct a, b; simpl; split; congruence. Qed.

Lemma info_eqb_eq (a b : FileInfo) : info_eqb a b = true <-> a = b.
Proof.
  unfold info_eqb. rewrite !andb_true_iff, String.eqb_eq, !Z.eqb_eq.
  rewrite Bool.eqb_true_iff. destruct a, b; simpl.
  split; [intros [[[[-> ->] ->] ->] ->]; reflexivity|].
  intros [= -> -> -> -> ->]. auto.
Qed.

Lemma is_exactly_eq (e0 e : Event) : is_exactly e0 e = true <-> e = e0.
Proof.
  unfold is_exactly, is_event.
  rewrite !andb_true_iff, Op_eqb_eq, String.eqb_eq, info_eqb_eq.
  destruct e0, e; simpl. split; [intros [[-> ->] ->]; reflexivity|].
  intros [= -> -> ->]. auto.
Qed.

Lemma count_sel_positive (sel : Event -> bool) (l : list Event) :
  (0 < count_sel sel l)%nat -> exists e, In e l /\ sel e = true.
Proof.
  unfold count_sel. induction l as [|x t IH]; simpl; [lia|].
  destruct (sel x) eqn:Hx; [eauto|].
  intros H. destruct (IH H) as [e [Hin He]]. eauto.
Qed.

Lemma is_event_sel (o : Op) (p : string) (e : Event) :
  is_event o p e = true -> ev_op e = o /\ ev_path e = p.
Proof.
  unfold is_event. rewrite andb_true_iff, Op_eqb_eq, String.eqb_eq. auto.
Qed.

Lemma is_exactly_sel (e0 e : Event) :
  is_exactly e0 e = true -> ev_op e = ev_op e0 /\ ev_path e = ev_path e0.
Proof. intros H. apply is_exactly_eq in H. subst. auto. Qed.

Lemma In_received_forward (w : GoWatcher) (e0 e : Event) (c : Cycle) :
  In e0 (received c) -> In e0 (received (forward w e c)).
Proof. rewrite forward_received. intros H. apply in_or_app. auto. Qed.

Lemma counted_once_In (e0 : Event) (a b : list Event) :
  count_sel (is_exactly e0) b = S (count_sel (is_exactly e0) a) -> In e0 b.
Proof.
  intros H. destruct (count_sel_positive (is_exactly e0) b) as [e [Hin He]];
    [lia|].
  apply is_exactly_eq in He. subst e. exact Hin.
Qed.

(** The diff of a node that is not a directory: a [Write] if the
    modification time differs, a [Chmod] if the mode differs, and the
    metadata replaced. *)
Lemma poll_file (w : GoWatcher) (fs : FS) (fuel : nat) (f : FileNode)
    (newInfo : FileInfo) (c : Cycle) :
  maxEvents w <= 0 ->
  ignored f = false -> Lstat fs (Path f) = inl newInfo ->
  IsDir newInfo = false -> cancel c = false ->
  exists c',
    pollNodeEvent (S fuel) w fs (Some f) c = Ret (Some (set_Info f newInfo)) c' /\
    cancel c' = false /\
    (ModTime (Info f) = ModTime newInfo -> Mode (Info f) = Mode newInfo ->
     c' = c) /\
    forall sel,
      (forall e, sel e = true -> ev_op e = Write) ->
      count_sel sel (received c') =
      (count_sel sel (received c) +
       if negb (ModTime (Info f) =? ModTime newInfo)%Z
          && sel (mkEvent Write (Path f) newInfo)
       then 1 else 0)%nat.
Proof.
  intros no_cap Hig Hstat Hdir Hc. cbn [pollNodeEvent].
  rewrite Hig, Hstat. unfold send_if, select_send.
  set (e1 := mkEvent Write (Path f) newInfo).
  set (e2 := mkEvent Chmod (Path f) newInfo).
  assert (Hchmod : forall c1, cancel c1 = false ->
            exists c',
              (if negb (Mode (Info f) =? Mode newInfo)
               then if cancel c1 then None else Some (forward w e2 c1)
               else Some c1) = Some c' /\
              cancel c' = false /\
              (Mode (Info f) = Mode newInfo -> c' = c1) /\
              forall sel, (forall e, sel e = true -> ev_op e = Write) ->
                          count_sel sel (received c') = count_sel sel (received c1)).
  { intros c1 Hc1. destruct (Z.eqb_spec (Mode (Info f)) (Mode newInfo));
      cbn [negb]; [eauto 6|].
    rewrite Hc1. eexists. split; [reflexivity|].
    split; [apply forward_keeps_open; assumption|]. split; [contradiction|].
    intros sel Hsel. rewrite count_forward.
    destruct (sel e2) eqn:H2; [|lia]. apply Hsel in H2. discriminate. }
  destruct (Z.eqb_spec (ModTime (Info f)) (ModTime newInfo)) as [Heq|Hne];
    cbn [negb andb].
  - destruct (Hchmod c Hc) as [c' [-> [Hc' [Hsame Hcnt]]]].
    cbn [set_Info Path recursive]. rewrite Hdir. cbn [negb orb].
    exists c'. repeat split; auto.
    intros sel Hsel. rewrite Hcnt; auto.
  - rewrite Hc.
    destruct (Hchmod (forward w e1 c) (forward_keeps_open w e1 c no_cap Hc))
      as [c' [-> [Hc' [_ Hcnt]]]].
    cbn [set_Info Path recursive]. rewrite Hdir. cbn [negb orb].
    exists c'. repeat split; auto; [contradiction|].
    intros sel Hsel. rewrite Hcnt, count_forward; auto.
Qed.

(* ================================================================= *)
(** ** A new directory entry *)

Lemma under_length (q p : string) :
  under q p -> (String.length q <= String.length p)%nat.
Proof.
  intros [->|[r ->]]; [lia|]. rewrite str_length_app. lia.
Qed.

Lemma NoDup_map_eq {A B : Type} (g : A -> B) (l : list A) (a b : A) :
  NoDup (map g l) -> In a l -> In b l -> g a = g b -> a = b.
Proof.
  induction l as [|x t IH]; simpl; [tauto|].
  intros Hnd Ha Hb Heq. inversion Hnd as [|? ? Hfresh Hnd']; subst.
  destruct Ha as [->|Ha], Hb as [->|Hb]; auto.
  - exfalso. apply Hfresh. rewrite Heq. apply in_map. assumption.
  - exfalso. apply Hfresh. rewrite <- Heq. apply in_map. assumption.
Qed.

Lemma keyed_under_fresh (dir : string) (info : FileInfo) (rec ign : bool)
    (children : ChildMap) :
  Forall (keyed_under dir) children ->
  Forall (keyed_under dir)
    (map_set (Name info)
       (Some (newNode (Join dir (Name info)) info rec ign)) children).
Proof.
  intros H. apply Forall_map_set; [assumption|]. intros ch [= <-].
  constructor; [apply under_refl | constructor].
Qed.

(** The diff of the subtree of an entry sends no [Create] for the entry
    itself. *)
Lemma subtree_poll (w : GoWatcher) (fs : FS) (target : string)
    (sel : Event -> bool) (fuel : nat) (a : nat) :
  maxEvents w <= 0 ->
  (forall e, sel e = true -> ev_op e = Create /\ ev_path e = target) ->
  poll_keeps (fun m => under target (Path m))
    (fun c => cancel c = false /\ count_sel sel (received c) = a)
    (pollNodeEvent fuel w fs).
Proof.
  intros no_cap Hsel. apply pollNodeEvent_keeps; simpl; auto using under_Join.
  intros n e c Hu _ He Hc [_ Ha]. split.
  - apply forward_keeps_open; assumption.
  - rewrite count_forward. destruct (sel e) eqn:Hse; [|lia].
    exfalso. destruct (Hsel e Hse) as [Hop Hpath].
    destruct He; try discriminate. simpl in Hpath.
    apply under_length in Hu.
    apply (f_equal String.length) in Hpath. rewrite Join_length in Hpath. lia.
Qed.

(** The diff creates nodes with the recursive flag of their parent. *)
Lemma recursive_poll (w : GoWatcher) (fs : FS) (fuel : nat) :
  poll_keeps (fun m => recursive m = true) (fun _ => True)
    (pollNodeEvent fuel w fs).
Proof. apply pollNodeEvent_keeps; simpl; auto. Qed.

Section NewEntry.
Variable w : GoWatcher.
Variable fs : FS.
Hypothesis no_cap : maxEvents w <= 0.
Hypothesis static : fs_static fs.

Variable fuel : nat.
Variable D : FileNode.
Variable dinfo : FileInfo.
Variable l : list FileInfo.
Hypothesis D_watched : ignored D = false.
Hypothesis D_recursive : recursive D = true.
Hypothesis D_stat : Lstat fs (Path D) = inl dinfo.
Hypothesis D_dir : IsDir dinfo = true.
Hypothesis D_list : ReadDir fs (Path D) = inl l.
Hypothesis D_fits : tree_fits fs (S fuel) D = true.
Hypothesis D_ok : node_all map_ok D.
Hypothesis D_keyed : Forall (keyed_under (Path D)) (Children D).

Variable info0 : FileInfo.
Hypothesis info0_plain : has_slash (Name info0) = false.
Hypothesis info0_listed : In info0 l.
Hypothesis info0_visible :
    ignoreHidden w
    && String.prefix "." (Base (Join (Path D) (Name info0))) = false.
Hypothesis info0_new : map_get (Name info0) (Children D) = None.

Let target : string := Join (Path D) (Name info0).
Let newChild : FileNode :=
    newNode target info0 true (shouldIgnore w (Name info0) target).

Lemma first_diff_entry (info : FileInfo) :
    In info l -> Name info = Name info0 -> info = info0.
Proof.
    intros Hin Hname.
    exact (NoDup_map_eq Name l info info0 (proj1 (static _ _ D_list))
             Hin info0_listed Hname).
Qed.

Section Watched.
Hypothesis newChild_watched : ignored newChild = false.

Variable sel : Event -> bool.
Hypothesis sel_Create :
      forall e, sel e = true -> ev_op e = Create /\ ev_path e = target.
Hypothesis sel_event : sel (mkEvent Create target info0) = true.

Variable Seen : Cycle -> Prop.
Hypothesis Seen_forward : forall e c, Seen c -> Seen (forward w e c).
Hypothesis Seen_inner :
      forall c2 r c3,
        cancel c2 = false ->
        pollNodeEvent fuel w fs (Some newChild) c2 = Ret r c3 -> Seen c3.

Lemma new_entry_counted (c : Cycle) :
      cancel c = false ->
      exists D' c',
        pollNodeEvent (S fuel) w fs (Some D) c = Ret (Some D') c' /\
        cancel c' = false /\
        count_sel sel (received c') = S (count_sel sel (received c)) /\
        Seen c' /\
        exists ch, map_get (Name info0) (Children D') = Some (Some ch) /\
                   ignored ch = false /\ Path ch = target /\
                   node_all (fun m => recursive m = true) ch.
Proof.
      intros Hc.
      destruct (proj2 (static _ _ D_list) info0 info0_listed) as [i0 Hstat0].
      fold target in Hstat0.
      destruct (followed_entry_pass w fs no_cap static fuel D dinfo l
                  D_watched D_recursive D_stat D_dir D_list D_fits D_ok D_keyed
                  (Name info0) sel info0_plain (in_map Name _ _ info0_listed)
                  (fun e H => proj2 (sel_Create e H))
                  Seen Seen_forward
                  (fun ch => ignored ch = false /\ Path ch = target /\
                             node_all (fun m => recursive m = true) ch /\
                             node_all (fun m => under target (Path m)) ch))
        with (c := c)
        as [D' [c' [Hrun [Hc' [Hcnt [Hseen [ch [Hget [H1 [H2 [H3 _]]]]]]]]]]];
        auto.
      - (* a later diff of the new child sends no Create for it *)
        intros ch c1 r c1' [Hig [Hp [Hr Hu]]] Hc1 Hrun.
        pose proof (subtree_poll w fs target sel fuel
                      (count_sel sel (received c1)) no_cap sel_Create
                      ch c1 Hu (conj Hc1 eq_refl)) as Hk.
        rewrite Hrun in Hk. destruct Hk as [Hk1 [Hk2 Hk3]].
        destruct (poll_some w fs fuel ch i0 r c1 c1') as [ch' ->]; auto;
          [congruence|].
        destruct (poll_header w fs fuel ch ch' c1 c1' Hrun) as [E1 [E2 E3]].
        pose proof (recursive_poll w fs fuel ch c1 Hr Logic.I) as Hrec.
        rewrite Hrun in Hrec. destruct Hrec as [Hrec _].
        exists ch'. split; [reflexivity|]. split; [|split; assumption].
        split; [congruence|]. split; [congruence|].
        split; [apply Hrec; reflexivity|].
        apply Hk1. reflexivity.
      - (* the first loop creates the child and sends the Create *)
        intros info rest children1 infoMap1 c1 r c1' Hin Hname Hget Hkeyed Hc1.
        rewrite (first_diff_entry info Hin Hname).
        cbn [pollEntries isHiddenFile].
        rewrite info0_visible, Hget, info0_new.
        fold target. fold newChild. rewrite newChild_watched.
        unfold select_send. rewrite Hc1.
        set (c2 := forward w (mkEvent Create target info0) c1).
        assert (Hc2 : cancel c2 = false)
          by (apply forward_keeps_open; assumption).
        assert (Hu : node_all (fun m => under target (Path m)) newChild)
          by (constructor; [apply under_refl | constructor]).
        pose proof (subtree_poll w fs target sel fuel
                      (count_sel sel (received c2)) no_cap sel_Create
                      newChild c2 Hu (conj Hc2 eq_refl)) as Hk.
        destruct (pollNodeEvent fuel w fs (Some newChild) c2)
          as [r2 c3| | |] eqn:Hp; try discriminate.
        destruct Hk as [Hk1 [Hk2 Hk3]].
        destruct (poll_some w fs fuel newChild i0 r2 c2 c3 Hstat0 Hp)
          as [m ->].
        destruct (poll_header w fs fuel newChild m c2 c3 Hp) as [E1 [E2 E3]].
        assert (Hrec : node_all (fun m0 => recursive m0 = true) m).
        { pose proof (recursive_poll w fs fuel newChild c2
                        (node_all_intro _ newChild eq_refl (Forall_nil _))
                        Logic.I) as Hrec.
          rewrite Hp in Hrec. apply Hrec. reflexivity. }
        intros Hrun.
        exists (map_set (Name info0) (Some m)
                  (map_set (Name info0) (Some newChild) children1)), m, c3.
        split; [exact Hrun|]. split.
        { rewrite map_get_map_set, String.eqb_refl. reflexivity. }
        split.
        { split; [rewrite E2; exact newChild_watched|].
          split; [rewrite E1; reflexivity|].
          split; [exact Hrec|].
          apply Hk1. reflexivity. }
        split.
        { apply Forall_map_set; [apply Forall_map_set; [assumption|]|].
          - intros ch0 [= <-]. exact Hu.
          - intros ch0 [= <-]. apply Hk1. reflexivity. }
        split; [assumption|]. split.
        { rewrite Hk3. unfold c2. rewrite count_forward, sel_event. lia. }
        apply (Seen_inner c2 (Some m) c3 Hc2 Hp).
      - exists D', c'. eauto 10.
Qed.
End Watched.

Section Ignored.
Hypothesis newChild_ignored : ignored newChild = true.

Variable sel : Event -> bool.
Hypothesis sel_path : forall e, sel e = true -> ev_path e = target.

Lemma ignored_entry_dropped (c : Cycle) :
      cancel c = false ->
      exists D' c',
        pollNodeEvent (S fuel) w fs (Some D) c = Ret (Some D') c' /\
        count_sel sel (received c') = count_sel sel (received c) /\
        map_get (Name info0) (Children D') = None.
Proof.
      intros Hc.
      destruct (dir_pass_runs w fs fuel D c dinfo l no_cap static D_watched
                  D_recursive D_stat D_dir D_list D_fits D_ok Hc)
        as [c2 [ch1 [im1 [c3 [ch2 [c4 [Hc2 [Hself [Hrun1 [Hkeys1
              [Hrun2 [Hc4 Hrun]]]]]]]]]]]].
      assert (Hcnt2 : count_sel sel (received c2) = count_sel sel (received c)).
      { apply Hself. intros e He. rewrite (sel_path e He).
        apply Join_neq_dir. }
      destruct (pollEntries_reaches w fs no_cap (Path D) (Name info0) sel
                  info0_plain sel_path fuel true
                  l (Children D) [] c2 _ c3 (in_map Name _ _ info0_listed)
                  (proj1 (static _ _ D_list)) D_keyed Hc2 Hrun1)
        as [info [rest [children1 [infoMap1 [c1 [Hincl [Hname [Hrest
              [Hget1 [Hmem1 [Hkeyed1 [Hc1 [Hcnt1 Hrun1']]]]]]]]]]]]].
      rewrite (first_diff_entry info (Hincl info (or_introl eq_refl)) Hname)
        in Hrun1'.
      cbn [pollEntries isHiddenFile] in Hrun1'.
      rewrite info0_visible, Hget1, info0_new in Hrun1'.
      fold target in Hrun1'. fold newChild in Hrun1'.
      rewrite newChild_ignored in Hrun1'.
      destruct (pollEntries_frame w fs no_cap (Path D) (Name info0) sel
                  info0_plain sel_path fuel true
                  rest _ infoMap1 c1 _ c3 Hrest
                  (keyed_under_fresh _ _ _ _ _ Hkeyed1)
                  Hc1 Hrun1') as [_ [Hget3 [Hmem3 [Hkeyed3 [Hc3 Hcnt3]]]]].
      simpl in Hget3, Hmem3, Hkeyed3.
      rewrite map_get_map_set, String.eqb_refl in Hget3.
      destruct (map_get_split (Name info0) _ ch1 Hget3 Hkeys1)
        as [before [after [-> [Hbefore Hafter]]]].
      apply Forall_app in Hkeyed3 as [Hkb Hka].
      pose proof (Forall_inv_tail Hka) as Hka'.
      destruct (sweepChildren_upto w fs no_cap (Path D) (Name info0) sel
                  info0_plain sel_path fuel
                  before _ [] im1 c3 _ c4 Hbefore Hkb Hc3 Hrun2)
        as [kept1 [im2 [c5 [Hrun2' [Hkept1 [Hmem5 [Hc5 Hcnt5]]]]]]].
      cbn [sweepChildren] in Hrun2'.
      rewrite Hmem5, Hmem3, Hmem1 in Hrun2'. cbn [str_mem] in Hrun2'.
      fold target in Hrun2'. fold newChild in Hrun2'.
      rewrite newChild_ignored in Hrun2'.
      destruct (sweepChildren_frame w fs no_cap (Path D) (Name info0) sel
                  info0_plain sel_path fuel
                  after _ _ c5 _ c4 Hafter Hka' Hc5 Hrun2')
        as [_ [Hget4 [_ Hcnt4]]].
      simpl in Hget4. rewrite Hkept1 in Hget4. simpl in Hget4.
      exists (set_Children (set_Info D dinfo) ch2), c4.
      split; [exact Hrun|]. split; [|exact Hget4].
      simpl in *. congruence.
Qed.
End Ignored.
End NewEntry.

(** The new child is diffed inside the pass that creates it: an entry of
    the new directory gets its [Create] event in that pass. *)
Lemma new_entry_expanded (w : GoWatcher) (fs : FS) (fuel : nat)
    (D : FileNode) (dinfo : FileInfo) (l : list FileInfo)
    (info0 : FileInfo) (c : Cycle)
    (i2 : FileInfo) (l2 : list FileInfo) (info2 : FileInfo) :
  maxEvents w <= 0 -> fs_static fs -> cancel c = false ->
  ignored D = false -> recursive D = true ->
  Lstat fs (Path D) = inl dinfo -> IsDir dinfo = true ->
  ReadDir fs (Path D) = inl l ->
  tree_fits fs (S fuel) D = true -> node_all map_ok D ->
  Forall (keyed_under (Path D)) (Children D) ->
  In info0 l -> has_slash (Name info0) = false ->
  ignoreHidden w
  && String.prefix "." (Base (Join (Path D) (Name info0))) = false ->
  map_get (Name info0) (Children D) = None ->
  let target := Join (Path D) (Name info0) in
  ignored (newNode target info0 true (shouldIgnore w (Name info0) target))
  = false ->
  Lstat fs target = inl i2 -> IsDir i2 = true ->
  ReadDir fs target = inl l2 -> In info2 l2 ->
  has_slash (Name info2) = false ->
  ignoreHidden w
  && String.prefix "." (Base (Join target (Name info2))) = false ->
  ignored (newNode (Join target (Name info2)) info2 true
             (shouldIgnore w (Name info2) (Join target (Name info2))))
  = false ->
  exists D' c',
    pollNodeEvent (S fuel) w fs (Some D) c = Ret (Some D') c' /\
    In (mkEvent Create (Join target (Name info2)) info2) (received c').
Proof.
  intros no_cap static Hc H1 H2 H3 H4 H5 H6 H7 H8 H9 H10 H11 H12 target Hig
    G1 G2 G3 G4 G5 G6 G7.
  set (newChild := newNode target info0 true
                     (shouldIgnore w (Name info0) target)) in *.
  set (e2 := mkEvent Create (Join target (Name info2)) info2).
  destruct (new_entry_counted w fs no_cap static fuel D dinfo l
              H1 H2 H3 H4 H5 H6 H7 H8 info0 H10 H9 H11 H12 Hig
              (is_event Create target) (is_event_sel _ _)) with
    (Seen := fun c0 : Cycle => In e2 (received c0)) (c := c)
    as [D2 [c2 [Hrun2 [_ [_ [Hseen _]]]]]]; auto.
  { unfold is_event. simpl. rewrite String.eqb_refl. reflexivity. }
  { intros e c0. apply In_received_forward. }
  { intros c0 r c3 Hc0 Hp. fold target in Hp. fold newChild in Hp.
    destruct fuel as [|fuel']; [discriminate|].
    assert (Hdepth : fs_depth fs (S fuel') target = true).
    { cbn [tree_fits] in H6. apply andb_true_iff in H6 as [H6 _].
      exact (fs_depth_listed fs (S fuel') (Path D) l info0 H6 H5 H9). }
    destruct (tree_fits_newNode fs (S fuel') target info0 true
                (shouldIgnore w (Name info0) target) Hdepth)
      as [Hfits Hok].
    destruct (new_entry_counted w fs no_cap static fuel' newChild i2 l2
                Hig eq_refl G1 G2 G3 Hfits Hok (Forall_nil _)
                info2 G5 G4 G6 eq_refl G7
                (is_exactly e2) (is_exactly_sel _)) with
      (Seen := fun _ : Cycle => True) (c := c0)
      as [N' [c3' [Hrun3 [_ [Hcnt3 _]]]]]; auto.
    { apply is_exactly_eq. reflexivity. }
    rewrite Hrun3 in Hp. injection Hp as _ <-.
    exact (counted_once_In _ _ _ Hcnt3). }
  exists D2, c2. auto.
Qed.

(** C3, amended.  A directory node with its recursive flag set is diffed
    with no cap and [cancel] open against a filesystem that stays as it is
    during the pass; [info0] is a live entry that has no child in the
    children map and that the hidden-file policy does not skip.  The diff
    creates a child whose ignored flag says whether the entry matches an
    exclude filter or is a symbolic link.
    - If that child is ignored, no [Create] event is sent for the entry and
      the second loop of the same pass drops the child again.
    - Otherwise exactly one [Create] event, carrying [info0], is sent for
      the entry; the child stays in the map with the directory's recursive
      flag; and the child is diffed in the same pass: when it is a
      directory, a [Create] event is sent for each of its entries that is
      neither hidden-skipped nor ignored. *)
Theorem new_entry_diffed (w : GoWatcher) (fs : FS) (fuel : nat)
    (D : FileNode) (dinfo : FileInfo) (l : list FileInfo)
    (info0 : FileInfo) (c : Cycle) :
  maxEvents w <= 0 -> fs_static fs -> cancel c = false ->
  ignored D = false -> recursive D = true ->
  Lstat fs (Path D) = inl dinfo -> IsDir dinfo = true ->
  ReadDir fs (Path D) = inl l ->
  tree_fits fs (S fuel) D = true -> node_all map_ok D ->
  Forall (keyed_under (Path D)) (Children D) ->
  In info0 l -> has_slash (Name info0) = false ->
  ignoreHidden w
  && String.prefix "." (Base (Join (Path D) (Name info0))) = false ->
  map_get (Name info0) (Children D) = None ->
  let target := Join (Path D) (Name info0) in
  let newChild :=
    newNode target info0 (recursive D) (shouldIgnore w (Name info0) target) in
  exists D' c',
    pollNodeEvent (S fuel) w fs (Some D) c = Ret (Some D') c' /\
    if ignored newChild then
      count_events Create target (received c') =
        count_events Create target (received c) /\
      map_get (Name info0) (Children D') = None
    else
      count_events Create target (received c') =
        S (count_events Create target (received c)) /\
      In (mkEvent Create target info0) (received c') /\
      (exists ch,
          map_get (Name info0) (Children D') = Some (Some ch) /\
          Path ch = target /\ ignored ch = false /\
          recursive ch = recursive D) /\
      forall i2 l2 info2,
        Lstat fs target = inl i2 -> IsDir i2 = true ->
        ReadDir fs target = inl l2 -> In info2 l2 ->
        has_slash (Name info2) = false ->
        ignoreHidden w
        && String.prefix "." (Base (Join target (Name info2))) = false ->
        ignored (newNode (Join target (Name info2)) info2 true
                   (shouldIgnore w (Name info2) (Join target (Name info2))))
        = false ->
        In (mkEvent Create (Join target (Name info2)) info2) (received c').
Proof.
  intros no_cap static Hc H1 H2 H3 H4 H5 H6 H7 H8 H9 H10 H11 H12 target newChild.
  subst newChild. rewrite H2.
  set (newChild := newNode target info0 true
                     (shouldIgnore w (Name info0) target)).
  destruct (ignored newChild) eqn:Hig.
  - (* excluded entry or symbolic link *)
    destruct (ignored_entry_dropped w fs no_cap static fuel D dinfo l
                H1 H2 H3 H4 H5 H6 H7 H8 info0 H10 H9 H11 H12 Hig
                (is_event Create target)
                (fun e H => proj2 (is_event_sel _ _ e H)) c Hc)
      as [D' [c' [Hrun [Hcnt Hget]]]].
    exists D', c'. auto.
  - (* watched entry *)
    destruct (new_entry_counted w fs no_cap static fuel D dinfo l
                H1 H2 H3 H4 H5 H6 H7 H8 info0 H10 H9 H11 H12 Hig
                (is_event Create target) (is_event_sel _ _)) with
      (Seen := fun _ : Cycle => True) (c := c)
      as [D' [c' [Hrun [_ [Hcnt [_ [ch [Hget [Hch1 [Hch2 Hch3]]]]]]]]]]; auto.
    { unfold is_event. simpl. rewrite String.eqb_refl. reflexivity. }
    destruct (new_entry_counted w fs no_cap static fuel D dinfo l
                H1 H2 H3 H4 H5 H6 H7 H8 info0 H10 H9 H11 H12 Hig
                (is_exactly (mkEvent Create target info0))
                (is_exactly_sel _)) with
      (Seen := fun _ : Cycle => True) (c := c)
      as [D1 [c1 [Hrun1 [_ [Hcnt1 _]]]]]; auto.
    { apply is_exactly_eq. reflexivity. }
    rewrite Hrun in Hrun1. injection Hrun1 as <- <-.
    exists D', c'. split; [exact Hrun|]. split; [exact Hcnt|].
    split; [exact (counted_once_In _ _ _ Hcnt1)|].
    pose proof (node_all_head _ _ Hch3) as Hrec. simpl in Hrec.
    split; [exists ch; auto|].
    intros i2 l2 info2 G1 G2 G3 G4 G5 G6 G7.
    destruct (new_entry_expanded w fs fuel D dinfo l info0 c i2 l2 info2
                no_cap static Hc H1 H2 H3 H4 H5 H6 H7 H8 H9 H10 H11 H12 Hig
                G1 G2 G3 G4 G5 G6 G7) as [D2 [c2 [Hrun2 Hseen]]].
    rewrite Hrun in Hrun2. injection Hrun2 as <- <-. exact Hseen.
Qed.

(* ================================================================= *)
(** ** Roots are recursive *)

Lemma Forall_map_delete {V : Type} (R : string * V -> Prop) (k : string)
    (m : list (string * V)) :
  Forall R m -> Forall R (map_delete k m).
Proof.
  induction 1 as [|[k' v'] t Hhd Htl IH]; simpl; [constructor|].
  destruct (String.eqb k k'); [assumption | constructor; assumption].
Qed.





(* ================================================================= *)
(** ** The examples satisfy the assumptions *)

Ltac listed_entries H :=
  simpl in H;
  repeat match type of H with
         | _ \/ _ => destruct H as [H|H]
         | False => contradiction
         end;
  subst.

Ltac static_directory H :=
  injection H as <-; split;
  [ repeat constructor; simpl; intuition discriminate
  | let info := fresh "info" in
    let Hin := fresh "Hin" in
    intros info Hin; listed_entries Hin; eexists; vm_compute; reflexivity ].

Lemma ex_fs_written_static : fs_static ex_fs_written.
Proof.
  intros path infoList H. cbn in H.
  destruct (String.eqb_spec path "/d") as [->|_]; [static_directory H|].
  destruct (String.eqb_spec path "/d/sub") as [->|_]; [static_directory H|].
  discriminate.
Qed.

Lemma ex_fs_grown_static : fs_static ex_fs_grown.
Proof.
  intros path infoList H. cbn in H.
  destruct (String.eqb_spec path "/d") as [->|_]; [static_directory H|].
  destruct (String.eqb_spec path "/d/new") as [->|_]; [static_directory H|].
  destruct (String.eqb_spec path "/d/sub") as [->|_]; [static_directory H|].
  discriminate.
Qed.

Lemma ex_tree_ok : node_all map_ok ex_tree.
Proof.
  assert (Hleaf : forall p i ig r, node_all map_ok (mkNode p i ig r [])).
  { intros. constructor; [split; constructor | constructor]. }
  constructor.
  - split.
    + repeat constructor; simpl; intuition discriminate.
    + repeat constructor; simpl; discriminate.
  - simpl.
    repeat (apply Forall_cons; [simpl; intros c [= <-]; apply Hleaf|]).
    apply Forall_nil.
Qed.

Lemma ex_tree_keyed : Forall (keyed_under "/d") (Children ex_tree).
Proof.
  simpl.
  repeat (apply Forall_cons;
          [intros ch [= <-]; constructor; [apply under_refl | constructor]|]).
  apply Forall_nil.
Qed.

Lemma ex_added_reachable : reachable ex_added.
Proof.
  apply (reach_AddPath ex_watcher ex_added 3 ex_fs "/d" false None).
  - apply (reach_configure New); [apply reach_New | reflexivity ..].
  - vm_compute. reflexivity.
Qed.

(* ================================================================= *)
(** ** The theorems at the examples *)

Lemma maxEvents_caps_cycle_witness :
  let c := snd (inner (SetMaxEvents New 2) ex_messages new_cycle) in
  delivered c = [ex_event Create "a"; ex_event Write "b"] /\
  Z.of_nat (List.length (delivered c)) <= 2 /\
  cancel c = true.
Proof.
  destruct (maxEvents_caps_cycle (SetMaxEvents New 2) 2 ex_messages eq_refl)
    as [H1 [H2 H3]]; [lia | left; unfold max_int; lia |].
  cbv zeta. split; [exact H1|]. split; [exact H2|].
  apply H3. vm_compute. reflexivity.
Defined.

Lemma new_entry_diffed_witness :
  exists D' c',
    pollNodeEvent 3 ex_watcher ex_fs_grown (Some ex_tree) new_cycle
    = Ret (Some D') c' /\
    count_events Create "/d/new" (received c') = 1%nat /\
    In (mkEvent Create "/d/new" (ex_dir "new" 1)) (received c') /\
    (exists ch, map_get "new" (Children D') = Some (Some ch) /\
                Path ch = "/d/new" /\ ignored ch = false /\
                recursive ch = true) /\
    In (mkEvent Create "/d/new/g" (ex_file "g" 1)) (received c').
Proof.
  destruct (new_entry_diffed ex_watcher ex_fs_grown 2 ex_tree (ex_dir "d" 1)
              [ex_file ".h" 1; ex_file "a.txt" 1; ex_link "l" 1;
               ex_dir "new" 1; ex_dir "sub" 1; ex_file "x" 1]
              (ex_dir "new" 1) new_cycle)
    as [D' [c' [Hrun H]]];
    try reflexivity.
  - exact ex_fs_grown_static.
  - exact ex_tree_ok.
  - exact ex_tree_keyed.
  - simpl. auto.
  - cbn in H. destruct H as [H1 [H2 [H3 H4]]].
    exists D', c'. split; [exact Hrun|]. split; [exact H1|].
    split; [exact H2|]. split; [exact H3|].
    apply (H4 (ex_dir "new" 1) [ex_file "g" 1] (ex_file "g" 1));
      try reflexivity.
    simpl. auto.
Defined.

(** C3 as stated fails: [x] is a live entry of [/d] that has no child in
    the children map and is not hidden, but it matches the name exclude
    filter: the pass sends no [Create] event for it. *)
Lemma excluded_entry_no_Create :
  map_get "x" (Children ex_tree) = None /\
  In (ex_file "x" 1)
    match ReadDir ex_fs "/d" with inl l => l | inr _ => [] end /\
  exists D' c',
    pollNodeEvent 3 ex_watcher ex_fs (Some ex_tree) new_cycle
    = Ret (Some D') c' /\
    count_events Create "/d/x" (received c') = 0%nat /\
    count_events Create "/d/x" (received c') <> 1%nat.
Proof.
  split; [reflexivity|]. split; [simpl; auto 6|].
  eexists _, _. split; [vm_compute; reflexivity|].
  split; [reflexivity | discriminate].
Qed.

Lemma ignored_nodes_stay_leaves_witness :
  Children (mkNode "/d/l" (ex_link "l" 1) true false []) = [] /\
  pollNodeEvent 1 ex_watcher ex_fs_gone
    (Some (mkNode "/d/l" (ex_link "l" 1) true false [])) new_cycle
  = Ret (Some (mkNode "/d/l" (ex_link "l" 1) true false [])) new_cycle.
Proof.
  destruct ignored_nodes_stay_leaves as [_ [H2 H3]]. split.
  - apply (H2 ex_added "/d" ex_tree).
    + exact ex_added_reachable.
    + left. reflexivity.
    + apply (subnode_child _ ex_tree
               (mkNode "/d/l" (ex_link "l" 1) true false []) "l");
        [right; left; reflexivity | apply subnode_self].
    + reflexivity.
  - apply H3. reflexivity.
Defined.


Lemma filter_semantics_witness :
  suppressed ex_watcher "x" "/d/x" = true /\
  suppressed ex_watcher ".h" "/d/.h" = true /\
  shouldNotice ex_watcher "a.txt" "/d/a.txt" = true.
Proof.
  split; [|split].
  - apply (proj1 (filter_semantics ex_watcher "x" "/d/x")).
    left. exists (String.eqb "x"). split; [left|]; reflexivity.
  - apply (proj1 (filter_semantics ex_watcher ".h" "/d/.h")).
    right. right. split; reflexivity.
  - apply (proj2 (filter_semantics ex_watcher "a.txt" "/d/a.txt")).
    left. split; reflexivity.
Defined.

(* ################################################################# *)
(** * Further properties of the code *)

(* ================================================================= *)
(** ** Configuration setters *)

Lemma any_match_app (a b : list Regexp) (s : string) :
  any_match (a ++ b) s = any_match a s || any_match b s.
Proof.
  induction a as [|r a IH]; simpl; [reflexivity|].
  destruct (MatchString r s); simpl; auto.
Qed.

Lemma shouldIgnore_any (w : GoWatcher) (name path : string) :
  shouldIgnore w name path =
  any_match (nameIgnores w) name || any_match (pathIgnores w) path.
Proof.
  unfold shouldIgnore.
  destruct (nameIgnores w) as [|r1 l1]; destruct (pathIgnores w) as [|r2 l2];
    simpl; try reflexivity;
    repeat match goal with
           | |- context [MatchString ?r ?s] => destruct (MatchString r s); simpl
           | |- context [any_match ?l ?s] => destruct (any_match l s); simpl
           end; reflexivity.
Qed.

Lemma shouldNotice_any (w : GoWatcher) (name path : string) :
  shouldNotice w name path =
  match nameFilters w, pathFilters w with
  | [], [] => true
  | _, _ => any_match (nameFilters w) name || any_match (pathFilters w) path
  end.
Proof.
  unfold shouldNotice.
  destruct (nameFilters w) as [|r1 l1]; destruct (pathFilters w) as [|r2 l2];
    simpl; try reflexivity;
    repeat match goal with
           | |- context [MatchString ?r ?s] => destruct (MatchString r s); simpl
           | |- context [any_match ?l ?s] => destruct (any_match l s); simpl
           end; reflexivity.
Qed.

(** The patterns that a setter has compiled from its arguments. *)
Lemma IgnoreName_Configured (compile : Compiler) (s : list string) :
  forall w w',
    IgnoreName compile w s = Configured w' ->
    exists res,
      Forall2 (fun a re => compile a = inl re) s res /\
      w' = set_nameIgnores w (nameIgnores w ++ res).
Proof.
  induction s as [|a t IH]; intros w w'; simpl.
  - intros [= <-]. exists []. split; [constructor|].
    rewrite app_nil_r. destruct w; reflexivity.
  - destruct (compile a) as [re|e] eqn:Hc; [|discriminate].
    intros H. destruct (IH _ _ H) as [res [Hres ->]].
    exists (re :: res). split; [constructor; assumption|].
    unfold set_nameIgnores. simpl. rewrite <- app_assoc. reflexivity.
Qed.

Lemma FilterName_Configured (compile : Compiler) (s : list string) :
  forall w w',
    FilterName compile w s = Configured w' ->
    exists res,
      Forall2 (fun a re => compile a = inl re) s res /\
      w' = set_nameFilters w (nameFilters w ++ res).
Proof.
  induction s as [|a t IH]; intros w w'; simpl.
  - intros [= <-]. exists []. split; [constructor|].
    rewrite app_nil_r. destruct w; reflexivity.
  - destruct (compile a) as [re|e] eqn:Hc; [|discriminate].
    intros H. destruct (IH _ _ H) as [res [Hres ->]].
    exists (re :: res). split; [constructor; assumption|].
    unfold set_nameFilters. simpl. rewrite <- app_assoc. reflexivity.
Qed.

(** X1. [IgnoreName] only adds: when it returns, an entry is excluded
    exactly when it was excluded before or its name matches one of the
    patterns just compiled; the snapshot trees are not touched. *)
Theorem IgnoreName_only_adds (compile : Compiler) (w w' : GoWatcher)
    (s : list string) :
  IgnoreName compile w s = Configured w' ->
  exists res,
    Forall2 (fun a re => compile a = inl re) s res /\
    fileTrees w' = fileTrees w /\
    forall name path,
      shouldIgnore w' name path =
      shouldIgnore w name path || any_match res name.
Proof.
  intros H. destruct (IgnoreName_Configured compile s w w' H) as [res [Hres ->]].
  exists res. split; [assumption|]. split; [reflexivity|].
  intros name path. rewrite !shouldIgnore_any. simpl.
  rewrite any_match_app.
  destruct (any_match (nameIgnores w) name), (any_match res name),
    (any_match (pathIgnores w) path); reflexivity.
Qed.

(** X2. [FilterName] without arguments changes nothing; with arguments,
    an event is noticed exactly when its name matches an old or a new
    name filter or its path matches a path filter: the first filter ends
    the notice-everything default, later ones only add. *)
Theorem FilterName_narrows_then_adds (compile : Compiler) (w w' : GoWatcher)
    (s : list string) :
  FilterName compile w s = Configured w' ->
  (s = [] -> w' = w) /\
  (s <> [] ->
   exists res,
     Forall2 (fun a re => compile a = inl re) s res /\
     forall name path,
       shouldNotice w' name path =
       any_match (nameFilters w) name || any_match res name
       || any_match (pathFilters w) path).
Proof.
  intros H. split.
  - intros ->. simpl in H. congruence.
  - intros Hs.
    destruct (FilterName_Configured compile s w w' H) as [res [Hres ->]].
    exists res. split; [assumption|]. intros name path.
    rewrite shouldNotice_any. simpl. rewrite any_match_app.
    destruct res as [|re res]; [inversion Hres; subst; contradiction|].
    destruct (nameFilters w); reflexivity.
Qed.

Lemma IgnoreName_only_adds_witness :
  exists res,
    Forall2 (fun a re => ex_compile a = inl re) ["~$"; ".swp"] res /\
    fileTrees (set_nameIgnores ex_watcher
                 [String.eqb "x"; contains "~$"; contains ".swp"]) = [] /\
    forall name path,
      shouldIgnore (set_nameIgnores ex_watcher
                      [String.eqb "x"; contains "~$"; contains ".swp"])
        name path =
      shouldIgnore ex_watcher name path || any_match res name.
Proof.
  exact (IgnoreName_only_adds ex_compile ex_watcher _ ["~$"; ".swp"] eq_refl).
Defined.

Lemma FilterName_narrows_then_adds_witness :
  exists res,
    Forall2 (fun a re => ex_compile a = inl re) ["abc.txt"] res /\
    forall name path,
      shouldNotice (set_nameFilters ex_watcher [contains "abc.txt"]) name path =
      any_match [] name || any_match res name || any_match [] path.
Proof.
  refine (proj2 (FilterName_narrows_then_adds ex_compile ex_watcher _
                   ["abc.txt"] eq_refl) _).
  discriminate.
Defined.

Lemma IgnorePath_added (fs : FS) (compile : Compiler) (s : list string) :
  forall w err w',
    IgnorePath fs compile w s = (err, w') ->
    exists res,
      w' = set_pathIgnores w (pathIgnores w ++ res) /\
      Forall2 (fun a re => exists p, Abs fs a = inl p /\ compile p = inl re)
        (firstn (List.length res) s) res /\
      match err with
      | None => List.length res = List.length s
      | Some e =>
          exists a, nth_error s (List.length res) = Some a /\
                    (Abs fs a = inr e \/
                     exists p, Abs fs a = inl p /\ compile p = inr e)
      end.
Proof.
  induction s as [|a t IH]; intros w err w'; simpl.
  - intros [= <- <-]. exists []. rewrite app_nil_r.
    split; [destruct w; reflexivity|]. split; [constructor | reflexivity].
  - destruct (Abs fs a) as [p|e] eqn:Ha.
    2:{ intros [= <- <-]. exists []. rewrite app_nil_r.
        split; [destruct w; reflexivity|]. split; [constructor|].
        exists a. simpl. auto. }
    destruct (compile p) as [re|e] eqn:Hc.
    2:{ intros [= <- <-]. exists []. rewrite app_nil_r.
        split; [destruct w; reflexivity|]. split; [constructor|].
        exists a. simpl. eauto. }
    intros H. destruct (IH _ _ _ H) as [res [-> [Hres Herr]]].
    exists (re :: res). split; [|split].
    + unfold set_pathIgnores. simpl. rewrite <- app_assoc. reflexivity.
    + simpl. constructor; eauto.
    + destruct err as [e|]; simpl; [exact Herr | congruence].
Qed.

(** X3. [IgnorePath] compiles the absolute form of each argument in turn
    and stops at the first that has no absolute form or does not compile,
    returning that error; the patterns compiled before it stay added.
    Whatever it returns, an entry is excluded afterwards exactly when it
    was excluded before or its path matches one of the added patterns. *)
Theorem IgnorePath_keeps_earlier_patterns (fs : FS) (compile : Compiler)
    (w w' : GoWatcher) (s : list string) (err : option error) :
  IgnorePath fs compile w s = (err, w') ->
  exists res,
    Forall2 (fun a re => exists p, Abs fs a = inl p /\ compile p = inl re)
      (firstn (List.length res) s) res /\
    match err with
    | None => List.length res = List.length s
    | Some e =>
        exists a, nth_error s (List.length res) = Some a /\
                  (Abs fs a = inr e \/
                   exists p, Abs fs a = inl p /\ compile p = inr e)
    end /\
    fileTrees w' = fileTrees w /\
    forall name path,
      shouldIgnore w' name path =
      shouldIgnore w name path || any_match res path.
Proof.
  intros H. destruct (IgnorePath_added fs compile s w err w' H)
    as [res [-> [Hres Herr]]].
  exists res. split; [assumption|]. split; [assumption|].
  split; [reflexivity|]. intros name path.
  rewrite !shouldIgnore_any. simpl. rewrite any_match_app.
  destruct (any_match (nameIgnores w) name), (any_match res path),
    (any_match (pathIgnores w) path); reflexivity.
Qed.

Lemma IgnorePath_keeps_earlier_patterns_witness :
  exists res,
    Forall2 (fun a re => exists p, Abs ex_fs a = inl p /\
                                   ex_compile p = inl re)
      (firstn (List.length res) ["/d/sub"; "("; "/d/x"]) res /\
    (exists a, nth_error ["/d/sub"; "("; "/d/x"] (List.length res) = Some a /\
               (Abs ex_fs a = inr (ErrOS "missing closing )") \/
                exists p, Abs ex_fs a = inl p /\
                          ex_compile p = inr (ErrOS "missing closing )"))) /\
    fileTrees (set_pathIgnores ex_watcher [contains "/d/sub"]) = [] /\
    forall name path,
      shouldIgnore (set_pathIgnores ex_watcher [contains "/d/sub"]) name path =
      shouldIgnore ex_watcher name path || any_match res path.
Proof.
  exact (IgnorePath_keeps_earlier_patterns ex_fs ex_compile ex_watcher _
           ["/d/sub"; "("; "/d/x"] (Some (ErrOS "missing closing )")) eq_refl).
Defined.

(** X4. A path given to [IgnorePath] is not added afterwards: when the
    pattern compiled from the absolute path matches that path, [AddPath]
    of it returns nil and leaves the watcher as it is. *)
Theorem ignored_path_is_not_added (fuel : nat) (fs : FS) (compile : Compiler)
    (w : GoWatcher) (path p : string) (re : Regexp) (stat : FileInfo)
    (rec : bool) :
  Abs fs path = inl p ->
  compile p = inl re ->
  MatchString re p = true ->
  Lstat fs p = inl stat ->
  Z.land (Mode stat) ModeSymlink = 0 ->
  IgnorePath fs compile w [path]
  = (None, set_pathIgnores w (pathIgnores w ++ [re])) /\
  AddPath fuel (set_pathIgnores w (pathIgnores w ++ [re])) fs path rec
  = Returned None (set_pathIgnores w (pathIgnores w ++ [re])).
Proof.
  intros Ha Hc Hm Hs Hmode. split.
  - simpl. rewrite Ha, Hc. reflexivity.
  - unfold AddPath. rewrite Ha, Hs, Hmode. simpl.
    destruct (map_get p (fileTrees w)); [reflexivity|].
    rewrite shouldIgnore_any. simpl. rewrite any_match_app. simpl.
    rewrite Hm. rewrite !orb_true_r. reflexivity.
Qed.

Lemma ignored_path_is_not_added_witness :
  IgnorePath ex_fs ex_compile New ["/d"]
  = (None, set_pathIgnores New (pathIgnores New ++ [contains "/d"])) /\
  AddPath 3 (set_pathIgnores New (pathIgnores New ++ [contains "/d"]))
    ex_fs "/d" false
  = Returned None (set_pathIgnores New (pathIgnores New ++ [contains "/d"])).
Proof.
  apply (ignored_path_is_not_added 3 ex_fs ex_compile New "/d" "/d"
           (contains "/d") (ex_dir "d" 1) false); reflexivity.
Defined.

Lemma op_found_app (o : Op) (a b : list Op) :
  op_found o (a ++ b) = op_found o a || op_found o b.
Proof.
  induction a as [|x a IH]; simpl; [reflexivity|].
  rewrite IH, orb_assoc. reflexivity.
Qed.

Lemma op_found_fold (o : Op) (l : list Op) :
  forall m,
    op_found o (fold_left ops_insert l m) = op_found o m || op_found o l.
Proof.
  induction l as [|x l IH]; intros m; simpl; [rewrite orb_false_r; reflexivity|].
  rewrite IH. unfold ops_insert.
  destruct (op_found x m) eqn:Hx.
  - destruct (Op_eqb o x) eqn:Hox; simpl; [|reflexivity].
    apply Op_eqb_eq in Hox. subst x. rewrite Hx. reflexivity.
  - rewrite op_found_app. simpl. rewrite orb_false_r, orb_assoc. reflexivity.
Qed.

Lemma ops_fold_nonempty (l : list Op) :
  forall m,
    (0 <? List.length (fold_left ops_insert l m))%nat =
    (0 <? List.length m)%nat || (0 <? List.length l)%nat.
Proof.
  induction l as [|x l IH]; intros m; simpl; [rewrite orb_false_r; reflexivity|].
  rewrite IH. unfold ops_insert.
  destruct (op_found x m) eqn:Hx.
  - destruct m; [discriminate|]. reflexivity.
  - rewrite length_app. simpl.
    replace (List.length m + 1)%nat with (S (List.length m)) by lia.
    simpl. rewrite !orb_true_r. reflexivity.
Qed.

(** X5. [FilterOps] replaces the set of operations: an earlier call is
    forgotten.  After [FilterOps l] an event passes the operation filter
    exactly when [l] is empty or holds its operation, and then it is
    noticed as before. *)
Theorem FilterOps_replaces (w : GoWatcher) (l0 l : list Op) (e : Event) :
  FilterOps (FilterOps w l0) l = FilterOps w l /\
  survives (FilterOps w l) e =
  (match l with [] => true | _ => op_found (ev_op e) l end)
  && shouldNotice w (Name (ev_info e)) (ev_path e).
Proof.
  split; [reflexivity|].
  unfold survives, FilterOps. cbn [ops set_ops].
  rewrite ops_fold_nonempty, op_found_fold. simpl.
  replace (shouldNotice (set_ops w (fold_left ops_insert l [])))
    with (shouldNotice w) by reflexivity.
  destruct l; reflexivity.
Qed.

Lemma FilterOps_replaces_witness :
  survives (FilterOps ex_watcher [Create; Create; Remove])
    (ex_event Write "a.txt") = false /\
  survives (FilterOps (FilterOps ex_watcher [Create]) []) (ex_event Write "a.txt")
  = true.
Proof.
  split.
  - rewrite (proj2 (FilterOps_replaces ex_watcher [] [Create; Create; Remove]
                      (ex_event Write "a.txt"))). reflexivity.
  - rewrite (proj1 (FilterOps_replaces ex_watcher [Create] []
                      (ex_event Write "a.txt"))).
    reflexivity.
Defined.

(* ================================================================= *)
(** ** Base names and hidden files *)

Lemma list_ascii_app (a b : string) :
  list_ascii_of_string (a ++ b)
  = list_ascii_of_string a ++ list_ascii_of_string b.
Proof. induction a as [|x a IH]; simpl; [reflexivity | rewrite IH; reflexivity]. Qed.

Lemma has_slash_list (s : string) :
  has_slash s = existsb (fun a => Ascii.eqb a "/"%char) (list_ascii_of_string s).
Proof. induction s as [|x s IH]; simpl; [reflexivity | rewrite IH; reflexivity]. Qed.

Lemma last_element_rev_upto (l1 l2 acc : list ascii) :
  existsb (fun a => Ascii.eqb a "/"%char) l1 = false ->
  last_element_rev (l1 ++ "/"%char :: l2) acc = rev l1 ++ acc.
Proof.
  revert acc. induction l1 as [|x t IH]; intros acc H; simpl; [reflexivity|].
  simpl in H. apply orb_false_iff in H as [Ha Ht]. rewrite Ha.
  rewrite IH by assumption. rewrite <- app_assoc. reflexivity.
Qed.

Lemma Base_Join (dir name : string) :
  name <> "" -> has_slash name = false -> Base (Join dir name) = name.
Proof.
  intros Hne Hs. unfold Base, Join.
  destruct (dir ++ "/" ++ name)%string eqn:E.
  { apply (f_equal String.length) in E. rewrite str_length_app in E.
    simpl in E. lia. }
  rewrite <- E. clear E.
  rewrite !list_ascii_app, !rev_app_distr. simpl.
  rewrite has_slash_list in Hs.
  assert (Hrev : existsb (fun a => Ascii.eqb a "/"%char)
                   (rev (list_ascii_of_string name)) = false).
  { apply not_true_is_false. intros H. apply existsb_exists in H as [c [Hc Hc']].
    apply in_rev in Hc. apply not_true_iff_false in Hs. apply Hs.
    apply existsb_exists. eauto. }
  destruct (rev (list_ascii_of_string name)) as [|c0 t] eqn:Er.
  { destruct name; [congruence|]. simpl in Er.
    apply (f_equal (@List.length ascii)) in Er. rewrite length_app in Er.
    simpl in Er. lia. }
  simpl in Hrev. apply orb_false_iff in Hrev as [Ha Ht].
  rewrite <- !app_assoc. cbn [app strip_slashes_rev]. rewrite Ha.
  cbn [last_element_rev]. rewrite Ha.
  rewrite last_element_rev_upto by assumption.
  replace (rev t ++ [c0]) with (rev (c0 :: t)) by reflexivity.
  rewrite <- Er, rev_involutive. apply string_of_list_ascii_of_string.
Qed.

(** X6. Whether a directory entry counts as hidden depends on its own
    name only: for a name that a directory listing can hold (not empty,
    without separator, neither ["."] nor [".."]), [isHiddenFile] of the
    joined path says whether the name starts with a dot, whatever the
    directory, and never returns an error.  So after
    [IgnoreHiddenFiles b] the tree builder skips the entry exactly when
    it is excluded or [b] is set and the name starts with a dot, and the
    diff pass visits it unless [b] is set and the name starts with a
    dot. *)
Theorem hidden_by_entry_name (w : GoWatcher) (b : bool) (dir name : string) :
  name <> "" -> has_slash name = false -> name <> "." -> name <> ".." ->
  isHiddenFile (Join dir name) = (String.prefix "." name, None) /\
  suppressed (IgnoreHiddenFiles w b) name (Join dir name)
  = shouldIgnore w name (Join dir name) || (b && String.prefix "." name) /\
  visible (IgnoreHiddenFiles w b) dir name
  = negb (b && String.prefix "." name).
Proof.
  intros Hne Hs _ _. unfold suppressed, visible, isHiddenFile.
  rewrite (Base_Join dir name Hne Hs). simpl. auto.
Qed.

Lemma hidden_by_entry_name_witness :
  isHiddenFile (Join "/home/.config" "app.toml") = (false, None) /\
  isHiddenFile (Join "/home/u" ".git") = (true, None).
Proof.
  split.
  - refine (proj1 (hidden_by_entry_name New true "/home/.config" "app.toml"
                     _ eq_refl _ _)); discriminate.
  - refine (proj1 (hidden_by_entry_name New true "/home/u" ".git"
                     _ eq_refl _ _)); discriminate.
Defined.

(* ================================================================= *)
(** ** Start, Close and the wait group *)

(** X7. A watcher polls at most once.  The first [Start] that passes its
    two checks brings the wait group to zero, which releases [Wait] and
    [TriggerEvent]; from then on no call of [Start] reaches the polling
    loop: it returns an error, or, when the watcher has been closed and the
    duration is valid, it sets the running flag and panics in
    [w.wg.Done()]. *)
Theorem Start_polls_once (w w1 : GoWatcher) (d wg1 : Z) :
  Start_prologue w wg_New d = Polling w1 wg1 ->
  running w1 = true /\
  Wait_returns wg_New = false /\ Wait_returns wg1 = true /\
  (forall now op file info,
      TriggerEvent wg_New now op file = None /\
      TriggerEvent wg1 now op (Some info) = Some (mkEvent op "-" info) /\
      TriggerEvent wg1 now op None
      = Some (mkEvent op "-" (triggered_info now))) /\
  forall w2 d2,
    match Start_prologue w2 wg1 d2 with
    | Polling _ _ => False
    | StartError err w2' => w2' = w2 /\ (d2 < Nanosecond \/ running w2 = true)
    | StartPanic w2' =>
        w2' = set_running w2 true /\ Nanosecond <= d2 /\ running w2 = false
    end /\
    (Nanosecond <= d2 ->
     Start_prologue (Close w2) wg1 d2 = StartPanic (set_running (Close w2) true)).
Proof.
  unfold Start_prologue.
  destruct (d <? Nanosecond) eqn:Hd; [discriminate|].
  destruct (running w) eqn:Hr; [discriminate|].
  simpl. intros [= <- <-]. repeat split.
  - destruct (d2 <? Nanosecond) eqn:Hd2.
    + apply Z.ltb_lt in Hd2. auto.
    + apply Z.ltb_ge in Hd2. destruct (running w2) eqn:Hr2; simpl; auto.
  - intros Hd2. apply Z.ltb_ge in Hd2. rewrite Hd2.
    unfold Close. destruct (running w2) eqn:Hr2; simpl; [reflexivity|].
    rewrite Hr2. reflexivity.
Qed.

Lemma Start_polls_once_witness :
  Start_prologue (Close (set_running ex_added true)) 0 100
  = StartPanic (set_running (Close (set_running ex_added true)) true).
Proof.
  refine (proj2 (proj2 (proj2 (proj2 (proj2
            (Start_polls_once ex_added (set_running ex_added true) 100 0
               eq_refl)))) (set_running ex_added true) 100) _).
  unfold Nanosecond. lia.
Defined.

(* ================================================================= *)
(** ** Names of operations *)

(** X8. [Op.String] names the four operations differently and prints
    ["???"] for every other value of the [uint8]. *)
Theorem Op_String_names (a b : Op) (e : Z) :
  (Op_String (Op_code a) = Op_String (Op_code b) -> a = b) /\
  Op_String (Op_code a) <> "???" /\
  ((forall o, Op_code o <> e) -> Op_String e = "???").
Proof.
  split; [|split].
  - destruct a, b; simpl; intros H; try reflexivity; discriminate.
  - destruct a; discriminate.
  - intros H. unfold Op_String, ops_names. simpl.
    destruct (e =? 0) eqn:E0; [apply Z.eqb_eq in E0; destruct (H Create); auto|].
    destruct (e =? 1) eqn:E1; [apply Z.eqb_eq in E1; destruct (H Write); auto|].
    destruct (e =? 2) eqn:E2; [apply Z.eqb_eq in E2; destruct (H Remove); auto|].
    destruct (e =? 3) eqn:E3; [apply Z.eqb_eq in E3; destruct (H Chmod); auto|].
    reflexivity.
Qed.

Lemma Op_String_names_witness : Op_String 10 = "???".
Proof.
  apply (proj2 (proj2 (Op_String_names Create Create 10))).
  intros o; destruct o; discriminate.
Defined.

(* ================================================================= *)
(** ** Adding and removing roots *)

Lemma map_get_map_delete {V : Type} (k k' : string) (m : list (string * V)) :
  map_get k' (map_delete k m) =
  if String.eqb k' k then None else map_get k' m.
Proof.
  induction m as [|[k1 v1] t IH]; simpl.
  - destruct (String.eqb k' k); reflexivity.
  - destruct (String.eqb_spec k k1) as [<-|Hne]; simpl.
    + rewrite IH. destruct (String.eqb k' k); reflexivity.
    + rewrite IH. destruct (String.eqb_spec k' k1) as [->|Hne'].
      * destruct (String.eqb_spec k1 k); [congruence | reflexivity].
      * reflexivity.
Qed.

Lemma map_delete_fresh {V : Type} (k : string) (m : list (string * V)) :
  map_get k m = None -> map_delete k m = m.
Proof.
  induction m as [|[k1 v1] t IH]; simpl; [reflexivity|].
  destruct (String.eqb k k1); [discriminate|].
  intros H. rewrite IH by assumption. reflexivity.
Qed.

Lemma map_delete_map_set {V : Type} (k : string) (v : V)
    (m : list (string * V)) :
  map_get k m = None -> map_delete k (map_set k v m) = m.
Proof.
  induction m as [|[k1 v1] t IH]; simpl.
  - rewrite String.eqb_refl. reflexivity.
  - destruct (String.eqb k k1) eqn:E; [discriminate|].
    intros H. simpl. rewrite E, IH by assumption. reflexivity.
Qed.

(** X9. [AddPath] of a path that it has already handled without error
    does nothing: whether the path was stored as a root or skipped, a
    second call returns nil and leaves the watcher as it is, so the
    recursive flag of a later call has no effect on an existing root. *)
Theorem AddPath_again_is_noop (fuel fuel' : nat) (w w' : GoWatcher) (fs : FS)
    (path : string) (rec rec' : bool) :
  AddPath fuel w fs path rec = Returned None w' ->
  AddPath fuel' w' fs path rec' = Returned None w'.
Proof.
  unfold AddPath.
  destruct (Abs fs path) as [p|e]; [|discriminate].
  destruct (Lstat fs p) as [stat|e]; [|discriminate].
  destruct (negb (Z.land (Mode stat) ModeSymlink =? 0)); [discriminate|].
  destruct (map_get p (fileTrees w)) as [v|] eqn:Hget.
  { intros [= <-]. rewrite Hget. reflexivity. }
  cbn [isHiddenFile].
  destruct (shouldIgnore w (Name stat) p || _) eqn:Hsup.
  { intros [= <-]. rewrite Hget, Hsup. reflexivity. }
  destruct (traverseTree fuel w fs p rec) as [[[n|] [e|]]|]; try discriminate.
  destruct (fileTreesNil w); [discriminate|].
  intros [= <-]. cbn [fileTrees set_fileTrees].
  rewrite map_get_map_set, String.eqb_refl. reflexivity.
Qed.

Lemma AddPath_again_is_noop_witness :
  AddPath 0 ex_added ex_fs "/d" true = Returned None ex_added.
Proof.
  apply (AddPath_again_is_noop 3 0 ex_watcher ex_added ex_fs "/d" false true).
  reflexivity.
Defined.

(** X10. [Remove] forgets one root and nothing else: it fails only when
    the path has no absolute form; otherwise the absolute path is no
    longer a key of the roots and every other key keeps its tree.  It
    undoes an [AddPath] of a path that was not a root. *)
Theorem Remove_forgets_one_root (fuel : nat) (w w1 : GoWatcher) (fs : FS)
    (path p : string) (rec : bool) :
  Abs fs path = inl p ->
  fst (RemovePath w fs path) = None /\
  map_get p (fileTrees (snd (RemovePath w fs path))) = None /\
  (forall k, k <> p ->
     map_get k (fileTrees (snd (RemovePath w fs path)))
     = map_get k (fileTrees w)) /\
  (map_get p (fileTrees w) = None ->
   AddPath fuel w fs path rec = Returned None w1 ->
   snd (RemovePath w1 fs path) = w).
Proof.
  intros Ha. unfold RemovePath. rewrite Ha.
  split; [destruct (map_get p (fileTrees w)); reflexivity|].
  split; [|split].
  - destruct (map_get p (fileTrees w)) eqn:Hget; simpl; [|assumption].
    rewrite map_get_map_delete, String.eqb_refl. reflexivity.
  - intros k Hk. destruct (map_get p (fileTrees w)) eqn:Hget; simpl;
      [|reflexivity].
    rewrite map_get_map_delete.
    destruct (String.eqb_spec k p); [contradiction | reflexivity].
  - intros Hfresh. unfold AddPath. rewrite Ha.
    destruct (Lstat fs p) as [stat|e]; [|discriminate].
    destruct (negb (Z.land (Mode stat) ModeSymlink =? 0)); [discriminate|].
    rewrite Hfresh. cbn [isHiddenFile].
    destruct (shouldIgnore w (Name stat) p || _).
    { intros [= <-]. rewrite Hfresh. reflexivity. }
    destruct (traverseTree fuel w fs p rec) as [[[n|] [e|]]|]; try discriminate.
    destruct (fileTreesNil w) eqn:Hnil; [discriminate|].
    intros [= <-]. cbn [fileTrees set_fileTrees].
    rewrite map_get_map_set, String.eqb_refl. simpl.
    rewrite map_delete_map_set by assumption. destruct w; reflexivity.
Qed.

Lemma Remove_forgets_one_root_witness :
  snd (RemovePath ex_added ex_fs "/d") = ex_watcher.
Proof.
  apply (proj2 (proj2 (proj2
           (Remove_forgets_one_root 3 ex_watcher ex_added ex_fs "/d" "/d" false
              eq_refl)))); reflexivity.
Defined.

(* ================================================================= *)
(** ** Listing the watched nodes *)

Lemma nil_free_children (n : FileNode) :
  nil_free n <-> children_nil_free (Children n).
Proof.
  unfold nil_free, children_nil_free. split.
  - intros H. pose proof (node_all_head _ _ H) as Hh.
    pose proof (node_all_children _ _ H) as Hc. unfold children_all in Hc.
    rewrite Forall_forall in *. intros [k [c|]] Hin.
    + exists c. split; [reflexivity|]. apply (Hc _ Hin). reflexivity.
    + exfalso. apply (Hh _ Hin). reflexivity.
  - intros H. rewrite Forall_forall in H. constructor.
    + apply Forall_forall. intros kv Hin.
      destruct (H _ Hin) as [c [-> _]]. discriminate.
    + apply Forall_forall. intros kv Hin c Hc.
      destruct (H _ Hin) as [c' [Hc' Hfree]].
      rewrite Hc in Hc'. injection Hc' as <-. exact Hfree.
Qed.

Lemma retrieveChildren_lists retrieve (ch : ChildMap) :
  Forall (fun kv => forall c, snd kv = Some c -> lists_tree retrieve c) ch ->
  forall files,
    (children_nil_free ch ->
     exists files', retrieveChildren retrieve ch files = Some files') /\
    (forall files',
        retrieveChildren retrieve ch files = Some files' ->
        children_nil_free ch /\
        (forall key, map_get key files <> None -> map_get key files' <> None) /\
        (forall k c m, In (k, Some c) ch -> subnode m c ->
                       map_get (Path m) files' <> None) /\
        (forall key v,
            map_get key files' = Some v ->
            map_get key files = Some v \/
            exists k c, In (k, Some c) ch /\ subnode v c /\ Path v = key)).
Proof.
  unfold children_nil_free.
  induction 1 as [|[k [c|]] t Hhd Htl IH]; intros files.
  - split.
    + intros _. exists files. reflexivity.
    + intros files' [= <-]. split; [constructor|]. split; [auto|].
      split; [intros ? ? ? []|]. auto.
  - specialize (Hhd c eq_refl files). destruct Hhd as [Htot Hpart]. split.
    + intros Hfree. inversion Hfree as [|? ? [c0 [Hc0 Hc0free]] Hrest]; subst.
      simpl in Hc0. injection Hc0 as <-.
      destruct (Htot Hc0free) as [files1 H1]. simpl. rewrite H1.
      apply (IH files1). assumption.
    + intros files'. simpl.
      destruct (retrieve c files) as [files1|] eqn:H1; [|discriminate].
      intros H2. destruct (Hpart files1 eq_refl) as [Hcfree [Hkeep [Hall Hval]]].
      destruct (proj2 (IH files1) files' H2)
        as [Htfree [Hkeep' [Hall' Hval']]].
      split; [constructor; [exists c; auto | assumption]|].
      split; [auto|]. split.
      * intros k0 c0 m [Heq|Hin] Hm.
        -- injection Heq as <- <-. auto.
        -- apply (Hall' k0 c0 m); assumption.
      * intros key v Hv. destruct (Hval' key v Hv) as [H|[k0 [c0 [Hin Hm]]]].
        -- destruct (Hval key v H) as [H0|Hm]; [auto|].
           right. exists k, c. split; [left; reflexivity | assumption].
        -- right. exists k0, c0. split; [right; assumption | assumption].
  - split.
    + intros Hfree. inversion Hfree as [|? ? [c0 [Hc0 _]] _]. discriminate.
    + simpl. discriminate.
Qed.

Lemma retrieveAllNodes_lists (n : FileNode) : lists_tree retrieveAllNodes n.
Proof.
  induction n as [n IHn] using FileNode_nested_ind.
  intros files. destruct n as [p i ig r ch].
  set (n := mkNode p i ig r ch) in *. cbn [Children] in IHn.
  pose proof (retrieveChildren_lists _ ch IHn (map_set p n files))
    as [Htot Hpart].
  split.
  - intros Hfree. apply nil_free_children in Hfree. apply Htot. exact Hfree.
  - intros files' Hrun. cbn [retrieveAllNodes] in Hrun. fold n in Hrun.
    destruct (Hpart files' Hrun) as [Hfree [Hkeep [Hall Hval]]].
    split; [apply nil_free_children; exact Hfree|]. split; [|split].
    + intros key Hkey. apply Hkeep. rewrite map_get_map_set.
      destruct (String.eqb key p); [discriminate | assumption].
    + intros m Hm. inversion Hm as [|n0 c k Hin Hsub]; subst.
      * apply Hkeep. rewrite map_get_map_set. simpl.
        rewrite String.eqb_refl. discriminate.
      * eauto.
    + intros key v Hv. destruct (Hval key v Hv) as [H|[k [c [Hin [Hm Hp]]]]].
      * rewrite map_get_map_set in H.
        destruct (String.eqb_spec key p) as [->|Hne]; [|auto].
        injection H as <-. right. split; [constructor | reflexivity].
      * right. split; [|assumption]. exact (subnode_child v n c k Hin Hm).
Qed.

(** X11. [FileNode.RetrieveAllNodes] returns exactly for a tree without a
    nil child and panics otherwise.  The keys of the map it returns are
    the paths of the nodes of the tree, and the value under a key is a
    node of the tree with that path. *)
Theorem FileNode_RetrieveAllNodes_lists_the_tree (n : FileNode) :
  (FileNode_RetrieveAllNodes n <> None <-> nil_free n) /\
  forall files,
    FileNode_RetrieveAllNodes n = Some files ->
    (forall key,
        map_get key files <> None <-> exists m, subnode m n /\ Path m = key) /\
    (forall key v,
        map_get key files = Some v -> subnode v n /\ Path v = key).
Proof.
  unfold FileNode_RetrieveAllNodes.
  destruct (retrieveAllNodes_lists n []) as [Htot Hpart]. split.
  - split.
    + intros H. destruct (retrieveAllNodes n []) as [files|] eqn:E;
        [|contradiction]. apply (Hpart files eq_refl).
    + intros H. destruct (Htot H) as [files ->]. discriminate.
  - intros files Hrun.
    destruct (Hpart files Hrun) as [_ [_ [Hall Hval]]]. split.
    + intros key. split.
      * intros Hkey. destruct (map_get key files) as [v|] eqn:Hv;
          [|contradiction].
        destruct (Hval key v Hv) as [H|H]; [discriminate|]. eauto.
      * intros [m [Hm <-]]. auto.
    + intros key v Hv. destruct (Hval key v Hv) as [H|H];
        [discriminate | assumption].
Qed.

Lemma FileNode_RetrieveAllNodes_lists_the_tree_witness :
  exists m, subnode m ex_tree /\ Path m = "/d/sub".
Proof.
  refine (proj1 (proj1 (proj2 (FileNode_RetrieveAllNodes_lists_the_tree ex_tree)
                          _ eq_refl) "/d/sub") _).
  simpl. discriminate.
Defined.

Lemma fold_map_set_keys {V : Type} (key : string) (c : list (string * V)) :
  forall files,
    map_get key
      (fold_left (fun files kv => map_set (fst kv) (snd kv) files) c files)
    <> None <->
    map_get key files <> None \/ map_get key c <> None.
Proof.
  induction c as [|[k v] t IH]; intros files; simpl.
  - tauto.
  - rewrite IH, map_get_map_set.
    destruct (String.eqb key k); [|tauto].
    split; intros _; [right|left]; discriminate.
Qed.

Lemma RetrieveAllNodes_roots_lists (roots : list (string * option FileNode)) :
  forall files,
    (children_nil_free roots ->
     exists files', RetrieveAllNodes_roots roots files = Some files') /\
    (forall files',
        RetrieveAllNodes_roots roots files = Some files' ->
        children_nil_free roots /\
        forall key,
          map_get key files' <> None <->
          map_get key files <> None \/
          exists k r m, In (k, Some r) roots /\ subnode m r /\ Path m = key).
Proof.
  unfold children_nil_free.
  induction roots as [|[k [r|]] t IH]; intros files.
  - split.
    + intros _. exists files. reflexivity.
    + intros files' [= <-]. split; [constructor|]. intros key. split; [auto|].
      intros [H|[k [r [m [[] _]]]]]. exact H.
  - pose proof (retrieveAllNodes_lists r []) as [Htot Hpart].
    split.
    + intros Hfree. inversion Hfree as [|? ? [c0 [Hc0 Hc0free]] Hrest]; subst.
      simpl in Hc0. injection Hc0 as <-.
      destruct (Htot Hc0free) as [c Hc]. simpl.
      unfold FileNode_RetrieveAllNodes. rewrite Hc. apply IH. assumption.
    + intros files'. simpl. unfold FileNode_RetrieveAllNodes.
      destruct (retrieveAllNodes r []) as [c|] eqn:Hc; [|discriminate].
      intros Hrun. destruct (Hpart c eq_refl) as [Hfree [_ [Hall Hval]]].
      destruct (proj2 (IH _) files' Hrun) as [Htfree Hkeys].
      split; [constructor; [exists r; auto | assumption]|].
      intros key. rewrite Hkeys, fold_map_set_keys. split.
      * intros [[H|H]|[k0 [r0 [m [Hin Hm]]]]].
        -- auto.
        -- right. destruct (map_get key c) as [v|] eqn:Hv; [|contradiction].
           destruct (Hval key v Hv) as [H0|H0]; [discriminate|].
           exists k, r, v. split; [left; reflexivity | assumption].
        -- right. exists k0, r0, m. split; [right; tauto | tauto].
      * intros [H|[k0 [r0 [m [[Heq|Hin] [Hm Hp]]]]]].
        -- auto.
        -- injection Heq as <- <-. left. right. subst key. auto.
        -- right. exists k0, r0, m. auto.
  - split.
    + intros Hfree. inversion Hfree as [|? ? [c0 [Hc0 _]] _]. discriminate.
    + simpl. discriminate.
Qed.

(** X12. [GoWatcher.RetrieveAllNodes] returns exactly when no root is nil
    and no node below a root has a nil child, and panics otherwise; the
    keys of the map it returns are the paths of the nodes of all roots. *)
Theorem RetrieveAllNodes_lists_the_roots (w : GoWatcher) :
  (RetrieveAllNodes w <> None <-> children_nil_free (fileTrees w)) /\
  forall files,
    RetrieveAllNodes w = Some files ->
    forall key,
      map_get key files <> None <->
      exists k r m,
        In (k, Some r) (fileTrees w) /\ subnode m r /\ Path m = key.
Proof.
  unfold RetrieveAllNodes.
  destruct (RetrieveAllNodes_roots_lists (fileTrees w) []) as [Htot Hpart].
  split.
  - split.
    + intros H. destruct (RetrieveAllNodes_roots (fileTrees w) [])
        as [files|] eqn:E; [|contradiction]. apply (Hpart files eq_refl).
    + intros H. destruct (Htot H) as [files ->]. discriminate.
  - intros files Hrun key. destruct (Hpart files Hrun) as [_ Hkeys].
    rewrite Hkeys. simpl. split; [intros [H|H]; [contradiction | exact H] | auto].
Qed.

Lemma RetrieveAllNodes_lists_the_roots_witness :
  exists k r m,
    In (k, Some r) (fileTrees ex_added) /\ subnode m r /\ Path m = "/d/a.txt".
Proof.
  refine (proj1 (proj2 (RetrieveAllNodes_lists_the_roots ex_added) _ eq_refl
                   "/d/a.txt") _).
  simpl. discriminate.
Defined.

(* ================================================================= *)
(** ** What a pass does to the roots *)

Lemma pollRoots_same_roots (w : GoWatcher) (fs : FS) (fuel : nat) :
  forall todo c roots' c',
    pollRoots fuel w fs todo c = Ret roots' c' ->
    Forall2 same_root todo roots'.
Proof.
  induction todo as [|[k v] rest IH]; intros c roots' c'; simpl.
  - intros [= <- <-]. constructor.
  - destruct (pollNodeEvent fuel w fs v c) as [v' c1| | |] eqn:Hv;
      try discriminate.
    destruct (pollRoots fuel w fs rest c1) as [rest' c2| | |] eqn:Hrest;
      try discriminate.
    intros [= <- <-]. constructor; [|eapply IH; eassumption].
    split; [reflexivity|]. simpl. intros n' ->.
    destruct v as [n|].
    + exists n. split; [reflexivity|]. eapply poll_header. eassumption.
    + destruct fuel; simpl in Hv; discriminate.
Qed.

(** X13. A pass that returns neither adds nor removes a root, and it
    changes no setting of the watcher.  Under each key it leaves nil or a
    node with the path, the ignored flag and the recursive flag that the
    root had before. *)
Theorem pass_keeps_the_roots (fuel : nat) (w w' : GoWatcher) (fs : FS)
    (c c' : Cycle) :
  pollEvents fuel w fs c = Ret w' c' ->
  w' = set_fileTrees w (fileTrees w') /\
  map_keys (fileTrees w') = map_keys (fileTrees w) /\
  Forall2 same_root (fileTrees w) (fileTrees w').
Proof.
  unfold pollEvents.
  destruct (pollRoots fuel w fs (fileTrees w) c) as [roots c1| | |] eqn:H;
    try discriminate.
  intros [= <- <-]. split; [reflexivity|].
  pose proof (pollRoots_same_roots w fs fuel _ _ _ _ H) as Hsame.
  split; [|exact Hsame]. simpl. unfold map_keys. clear H.
  induction Hsame as [|kv kv' t t' [Hk _] _ IH]; simpl; [reflexivity|].
  rewrite Hk, IH. reflexivity.
Qed.

Lemma pollRoots_monotone (w : GoWatcher) (fs : FS) (fuel : nat)
    (Seen : Cycle -> Prop) :
  (forall e c, Seen c -> Seen (forward w e c)) ->
  forall todo c roots' c',
    Seen c -> pollRoots fuel w fs todo c = Ret roots' c' -> Seen c'.
Proof.
  intros Hf. induction todo as [|[k v] rest IH]; intros c roots' c' Hs; simpl.
  - intros [= <- <-]. assumption.
  - destruct (pollNodeEvent fuel w fs v c) as [v' c1| | |] eqn:Hv;
      try discriminate.
    destruct (pollRoots fuel w fs rest c1) as [rest' c2| | |] eqn:Hrest;
      try discriminate.
    intros [= <- <-]. apply (IH c1 rest' c2); [|assumption].
    destruct v as [n|].
    + pose proof (poll_monotone w fs Seen Hf fuel n c
                    (node_all_trivial _ (fun _ => Logic.I) n) Hs) as H.
      rewrite Hv in H. apply H.
    + destruct fuel; simpl in Hv; [discriminate|].
      injection Hv as <- <-. assumption.
Qed.

Lemma pollRoots_deleted (w : GoWatcher) (fs : FS) (fuel : nat) (k : string)
    (n : FileNode) (err : error) :
  ignored n = false -> Lstat fs (Path n) = inr err ->
  forall todo c roots' c',
    map_get k todo = Some (Some n) ->
    pollRoots fuel w fs todo c = Ret roots' c' ->
    map_get k roots' = Some None /\
    In (mkEvent Remove (Path n) (Info n)) (received c').
Proof.
  intros Hig Hstat.
  induction todo as [|[k1 v] rest IH]; intros c roots' c'; simpl;
    [discriminate|].
  destruct (pollNodeEvent fuel w fs v c) as [v' c1| | |] eqn:Hv;
    try (intros _; discriminate).
  destruct (pollRoots fuel w fs rest c1) as [rest' c2| | |] eqn:Hrest;
    try (intros _; discriminate).
  destruct (String.eqb k k1) eqn:Hk.
  - intros [= ->] [= <- <-]. simpl. rewrite Hk.
    destruct fuel as [|fuel]; [discriminate|]. cbn [pollNodeEvent] in Hv.
    rewrite Hig, Hstat in Hv. destruct (cancel c); [discriminate|].
    injection Hv as <- <-. split; [reflexivity|].
    apply (pollRoots_monotone w fs (S fuel)
             (fun c0 => In (mkEvent Remove (Path n) (Info n)) (received c0))
             (fun e c0 => In_received_forward w _ e c0) rest
             (forward w (mkEvent Remove (Path n) (Info n)) c) rest' c2);
      [|assumption].
    rewrite forward_received. apply in_or_app. right. left. reflexivity.
  - intros Hget [= <- <-]. simpl. rewrite Hk.
    apply (IH c1 rest' c2); assumption.
Qed.

(** X14. A root that has disappeared is not dropped by the pass: when
    [Lstat] fails on a watched root and the pass returns, a [Remove]
    event for the root has been sent and the root's key now holds nil.
    From then on [RetrieveAllNodes] panics, and [AddPath] of the same
    path, the file being back, returns nil without storing a tree. *)
Theorem deleted_root_stays_as_nil (fuel : nat) (w w' : GoWatcher) (fs : FS)
    (c c' : Cycle) (k : string) (n : FileNode) (err : error) :
  map_get k (fileTrees w) = Some (Some n) ->
  ignored n = false ->
  Lstat fs (Path n) = inr err ->
  pollEvents fuel w fs c = Ret w' c' ->
  In (mkEvent Remove (Path n) (Info n)) (received c') /\
  map_get k (fileTrees w') = Some None /\
  RetrieveAllNodes w' = None /\
  forall fuel2 fs2 path rec stat,
    Abs fs2 path = inl k -> Lstat fs2 k = inl stat ->
    Z.land (Mode stat) ModeSymlink = 0 ->
    AddPath fuel2 w' fs2 path rec = Returned None w'.
Proof.
  intros Hget Hig Hstat. unfold pollEvents.
  destruct (pollRoots fuel w fs (fileTrees w) c) as [roots c1| | |] eqn:H;
    try discriminate.
  intros [= <- <-].
  destruct (pollRoots_deleted w fs fuel k n err Hig Hstat _ _ _ _ Hget H)
    as [Hnil Hev].
  split; [exact Hev|]. split; [exact Hnil|]. split.
  - unfold RetrieveAllNodes. simpl.
    destruct (RetrieveAllNodes_roots roots []) as [files|] eqn:E;
      [|reflexivity].
    destruct (proj2 (RetrieveAllNodes_roots_lists roots []) files E)
      as [Hfree _].
    unfold children_nil_free in Hfree. rewrite Forall_forall in Hfree.
    destruct (Hfree _ (map_get_In _ _ _ Hnil)) as [r [Hr _]]. discriminate.
  - intros fuel2 fs2 path rec stat Ha Hs Hmode. unfold AddPath.
    rewrite Ha, Hs, Hmode. simpl. rewrite Hnil. reflexivity.
Qed.

Lemma deleted_root_stays_as_nil_witness :
  map_get "/b"
    (fileTrees
       (set_fileTrees (SetMaxEvents ex_capped 0)
          [("/a", None); ("/b", None); ("/c", None)])) = Some None.
Proof.
  refine (proj1 (proj2 (deleted_root_stays_as_nil 1 (SetMaxEvents ex_capped 0)
                          _ ex_fs_gone new_cycle _ "/b" (ex_leaf "/b" "b")
                          ex_enoent eq_refl eq_refl eq_refl _))).
  reflexivity.
Defined.

Lemma pass_keeps_the_roots_witness :
  map_keys [("/a", @None FileNode); ("/b", None); ("/c", None)]
  = map_keys (fileTrees (SetMaxEvents ex_capped 0)).
Proof.
  exact (proj1 (proj2 (pass_keeps_the_roots 1 (SetMaxEvents ex_capped 0)
                         (set_fileTrees (SetMaxEvents ex_capped 0)
                            [("/a", None); ("/b", None); ("/c", None)])
                         ex_fs_gone new_cycle _ eq_refl))).
Defined.

(* ================================================================= *)
(** ** Events are about watched paths *)

Lemma poll_below_key (w : GoWatcher) (fs : FS) (k : string)
    (I : Cycle -> Prop) (fuel : nat) :
  (forall e c, under k (ev_path e) -> I c -> I (forward w e c)) ->
  poll_keeps (fun m => under k (Path m)) I (pollNodeEvent fuel w fs).
Proof.
  intros HI. apply pollNodeEvent_keeps; simpl; auto using under_Join.
  intros n e c Hu _ He _ Hc. apply HI; [|assumption].
  apply (emits_under fs k n e); assumption.
Qed.

Lemma pollRoots_below (w : GoWatcher) (fs : FS) (fuel : nat)
    (roots : list (string * option FileNode)) (I : Cycle -> Prop) :
  (forall e c, below_roots roots e -> I c -> I (forward w e c)) ->
  forall todo c,
    incl (map_keys todo) (map_keys roots) ->
    Forall (fun kv => forall n, snd kv = Some n ->
                        node_all (fun m => under (fst kv) (Path m)) n) todo ->
    I c ->
    holds_after I
      (Forall (fun kv => forall n, snd kv = Some n ->
                           node_all (fun m => under (fst kv) (Path m)) n))
      (pollRoots fuel w fs todo c).
Proof.
  intros HI. induction todo as [|[k v] rest IH]; intros c Hincl Hkeyed Hc.
  - simpl. split; [constructor | assumption].
  - inversion Hkeyed as [|? ? Hhd Htl]; subst. simpl in Hhd.
    assert (Hk : In k (map_keys roots)) by (apply Hincl; left; reflexivity).
    assert (Hrest : incl (map_keys rest) (map_keys roots))
      by (intros x Hx; apply Hincl; right; assumption).
    cbn [pollRoots].
    assert (Hv : holds_after I
                   (fun r => forall n', r = Some n' ->
                               node_all (fun m => under k (Path m)) n')
                   (pollNodeEvent fuel w fs v c)).
    { destruct v as [n|].
      - apply (poll_below_key w fs k I fuel); auto.
        intros e c0 Hu. apply HI. exists k. auto.
      - destruct fuel; simpl; [exact Logic.I|].
        split; [discriminate | assumption]. }
    destruct (pollNodeEvent fuel w fs v c) as [v' c1| | |]; simpl in Hv; auto.
    destruct Hv as [Hv' Hc1].
    specialize (IH c1 Hrest Htl Hc1).
    destruct (pollRoots fuel w fs rest c1) as [rest' c2| | |];
      simpl in IH |- *; auto.
    destruct IH as [Hrest' Hc2]. split; [|assumption].
    constructor; assumption.
Qed.

Lemma reachable_roots_keyed (w : GoWatcher) : reachable w -> roots_keyed w.
Proof.
  unfold roots_keyed.
  induction 1 as [|w w' Hw IH Hsame|w w' fuel fs path rec err Hw IH Hadd
                  |w fs path Hw IH|w Hw IH|w w' fuel fs c c' Hw IH Hrun].
  - constructor.
  - rewrite Hsame. assumption.
  - unfold AddPath in Hadd.
    destruct (Abs fs path) as [p|e]; [|injection Hadd as _ <-; assumption].
    destruct (Lstat fs p) as [stat|e]; [|injection Hadd as _ <-; assumption].
    destruct (negb _); [injection Hadd as _ <-; assumption|].
    destruct (map_get p (fileTrees w)); [injection Hadd as _ <-; assumption|].
    cbn [isHiddenFile] in Hadd.
    destruct (_ || _); [injection Hadd as _ <-; assumption|].
    destruct (traverseTree fuel w fs p rec) as [[[n|] [e|]]|] eqn:Ht;
      try discriminate; [injection Hadd as _ <-; assumption|].
    destruct (fileTreesNil w); [discriminate|]. injection Hadd as _ <-.
    cbn [fileTrees set_fileTrees]. apply Forall_map_set; [assumption|].
    simpl. intros n0 [= <-].
    pose proof (traverseTree_under w fs p fuel p rec n None (under_refl p) Ht)
      as Hn.
    constructor.
    + exact (node_all_head _ _ Hn).
    + exact (node_all_children _ _ Hn).
  - unfold RemovePath. destruct (Abs fs path) as [p|e]; [|assumption].
    destruct (map_get p (fileTrees w)); [|assumption].
    simpl. apply Forall_map_delete. assumption.
  - unfold Close. destruct (running w); [constructor | assumption].
  - unfold pollEvents in Hrun.
    pose proof (pollRoots_below w fs fuel (fileTrees w) (fun _ => True)
                  (fun _ _ _ _ => Logic.I) (fileTrees w) c
                  (incl_refl _) IH Logic.I) as H.
    destruct (pollRoots fuel w fs (fileTrees w) c) as [roots c1| | |];
      try discriminate.
    injection Hrun as <- <-. simpl in H |- *. apply H.
Qed.

(** X15. A pass reports watched paths only.  In every watcher state that
    the public operations can produce, however a pass ends, each event it
    has sent has a path that is the key of a root or lies below it. *)
Theorem pass_reports_watched_paths_only (w : GoWatcher) (fuel : nat) (fs : FS)
    (c : Cycle) :
  reachable w ->
  match pollEvents fuel w fs c with
  | Ret _ c' | Blocked c' | Panic c' =>
      exists l, sent_between c c' l /\ Forall (below_roots (fileTrees w)) l
  | OutOfFuel => True
  end.
Proof.
  intros Hw. unfold pollEvents.
  pose proof (pollRoots_below w fs fuel (fileTrees w)
                (fun c' => exists l, sent_between c c' l /\
                                     Forall (below_roots (fileTrees w)) l))
    as H.
  specialize (H (fun e c0 He Hc0 =>
                   match Hc0 with
                   | ex_intro _ l (conj Hl Hall) =>
                       ex_intro _ (l ++ [e])
                         (conj (eq_trans (forward_received w e c0)
                                  (eq_trans (f_equal (fun x => x ++ [e]) Hl)
                                     (eq_sym (app_assoc _ _ _))))
                            (proj2 (Forall_app _ _ _)
                               (conj Hall (Forall_cons _ He (Forall_nil _)))))
                   end)
                (fileTrees w) c (incl_refl _) (reachable_roots_keyed w Hw)).
  assert (H0 : exists l, sent_between c c l /\
                         Forall (below_roots (fileTrees w)) l).
  { exists []. split; [unfold sent_between; rewrite app_nil_r; reflexivity|].
    constructor. }
  specialize (H H0).
  destruct (pollRoots fuel w fs (fileTrees w) c) as [roots c1| | |];
    simpl in H |- *; tauto.
Qed.

Lemma pass_reports_watched_paths_only_witness :
  match pollEvents 2 ex_added ex_fs_written new_cycle with
  | Ret _ c' | Blocked c' | Panic c' =>
      exists l, sent_between new_cycle c' l /\
                Forall (below_roots (fileTrees ex_added)) l
  | OutOfFuel => True
  end.
Proof.
  exact (pass_reports_watched_paths_only ex_added 2 ex_fs_written new_cycle
           ex_added_reachable).
Defined.

(* ================================================================= *)
(** ** A pass over unchanged files *)

Lemma In_map_get {V : Type} (k : string) (v : V) (m : list (string * V)) :
  NoDup (map_keys m) -> In (k, v) m -> map_get k m = Some v.
Proof.
  unfold map_keys. induction m as [|[k1 v1] t IH]; simpl; [tauto|].
  intros Hnd [Heq|Hin]; inversion Hnd as [|? ? Hfresh Hnd']; subst.
  - injection Heq as -> ->. rewrite String.eqb_refl. reflexivity.
  - destruct (String.eqb_spec k k1) as [->|Hne]; [|auto].
    exfalso. apply Hfresh. apply (in_map fst _ _ Hin).
Qed.

Lemma map_get_None_In {V : Type} (k : string) (v : V) (m : list (string * V)) :
  map_get k m = None -> ~ In (k, v) m.
Proof.
  induction m as [|[k1 v1] t IH]; simpl; [tauto|].
  destruct (String.eqb_spec k k1) as [->|Hne]; [discriminate|].
  intros H [Heq|Hin]; [congruence | exact (IH H Hin)].
Qed.

Lemma In_map_set_other {V : Type} (k k' : string) (v v' : V)
    (m : list (string * V)) :
  In (k', v') m -> k' <> k -> In (k', v') (map_set k v m).
Proof.
  induction m as [|[k1 v1] t IH]; simpl; [tauto|].
  intros [Heq|Hin] Hne.
  - injection Heq as -> ->.
    destruct (String.eqb_spec k k') as [->|_]; [contradiction|].
    left. reflexivity.
  - destruct (String.eqb k k1); right; auto.
Qed.

Lemma In_map_set_same {V : Type} (k : string) (v : V) (m : list (string * V)) :
  In (k, v) (map_set k v m).
Proof.
  induction m as [|[k1 v1] t IH]; simpl; [auto|].
  destruct (String.eqb_spec k k1) as [->|Hne]; [left; reflexivity | right; auto].
Qed.

Lemma tree_in_step_ignored (w : GoWatcher) (fs : FS) (fuel : nat)
    (path : string) (info : FileInfo) (rec ign : bool) :
  fs_depth fs fuel path = true ->
  ignored (newNode path info rec ign) = true ->
  tree_in_step w fs fuel (newNode path info rec ign).
Proof.
  intros Hd Hig.
  destruct (tree_fits_newNode fs fuel path info rec ign Hd) as [Hfits Hok].
  split; [|split]; [|assumption|assumption].
  constructor; [|constructor]. intros H. congruence.
Qed.

Section SilentPass.
Variable w : GoWatcher.
Variable fs : FS.

Lemma pollEntries_silent (fuel : nat) poll (D : FileNode) :
    poll_silent w fs fuel poll ->
    forall todo children infoMap c,
      (forall info, In info todo ->
         fs_depth fs fuel (Join (Path D) (Name info)) = true) ->
      (forall info, In info todo ->
         visible w (Path D) (Name info) = true ->
         watched_key children (Name info) \/ enters_ignored w D info) ->
      children_in_step w fs fuel children ->
      NoDup (map_keys children) ->
      (forall k, watched_key children k ->
         str_mem k infoMap = true \/
         (In k (map Name todo) /\ visible w (Path D) k = true)) ->
      exists children' infoMap',
        pollEntries poll w (Path D) (recursive D) todo children infoMap c
        = Ret (false, children', infoMap') c /\
        children_in_step w fs fuel children' /\
        NoDup (map_keys children') /\
        (forall k, watched_key children' k -> str_mem k infoMap' = true) /\
        (forall k, watched_key children k <-> watched_key children' k).
Proof.
    intros Hpoll todo.
    induction todo as [|info rest IH];
      intros children infoMap c Hdepth Hentries Hstep Hkeys Hseen.
    - simpl. exists children, infoMap. split; [reflexivity|].
      split; [assumption|]. split; [assumption|]. split; [|tauto].
      intros k Hk. destruct (Hseen k Hk) as [H|[[] _]]. exact H.
    - cbn [pollEntries isHiddenFile].
      assert (Hdepth' : forall i, In i rest ->
                fs_depth fs fuel (Join (Path D) (Name i)) = true)
        by (intros i Hi; apply Hdepth; right; assumption).
      assert (Hvis : visible w (Path D) (Name info)
                     = negb (ignoreHidden w &&
                             String.prefix "."
                               (Base (Join (Path D) (Name info)))))
        by reflexivity.
      unfold children_in_step in Hstep.
      destruct (ignoreHidden w && _) eqn:Hhid; cbn [negb] in Hvis.
      { (* an entry that the pass does not visit *)
        apply IH; auto.
        - intros i Hi. apply Hentries. right. assumption.
        - intros k Hk. destruct (Hseen k Hk) as [H|[[<-|Hin] Hv]]; auto.
          congruence. }
      destruct (map_get (Name info) children) as [[child|]|] eqn:Hget.
      + destruct (ignored child) eqn:Hig.
        * (* an ignored child is left alone *)
          apply IH; auto.
          -- intros i Hi. apply Hentries. right. assumption.
          -- intros k Hk. destruct (Hseen k Hk) as [H|[[<-|Hin] Hv]]; auto.
             exfalso. destruct Hk as [ch [Hin Hch]].
             rewrite (In_map_get _ _ _ Hkeys Hin) in Hget. congruence.
        * (* a watched child is diffed, silently *)
          assert (Hchild : tree_in_step w fs fuel child).
          { rewrite Forall_forall in Hstep.
            destruct (Hstep _ (map_get_In _ _ _ Hget)) as [c0 [Hc0 H]].
            simpl in Hc0. injection Hc0 as <-. exact H. }
          destruct (Hpoll child c Hchild) as [child' [-> [Hchild' Hig']]].
          rewrite Hig in Hig'.
          assert (Hsame : forall k,
                     watched_key children k <->
                     watched_key
                       (map_set (Name info) (Some child') children) k).
          { intros k. split; intros [ch [Hin Hch]].
            - destruct (String.eqb_spec k (Name info)) as [->|Hne].
              + exists child'. split; [apply In_map_set_same | assumption].
              + exists ch. split; [apply In_map_set_other|]; assumption.
            - destruct (In_map_set _ _ _ _ Hin) as [Hin'|Heq].
              + exists ch. auto.
              + injection Heq as -> _. exists child.
                split; [apply map_get_In|]; assumption. }
          destruct (IH (map_set (Name info) (Some child') children)
                      (Name info :: infoMap) c)
            as [ch1 [im1 [Hrun [Hstep1 [Hkeys1 [Hseen1 Hsame1]]]]]]; auto.
          -- intros i Hi Hv.
             destruct (Hentries i (or_intror Hi) Hv) as [H|H]; [|auto].
             left. apply Hsame. assumption.
          -- apply Forall_map_set; [assumption|]. exists child'. auto.
          -- apply NoDup_map_set. assumption.
          -- intros k Hk. apply Hsame in Hk. simpl.
             destruct (String.eqb_spec k (Name info)) as [->|Hne]; [auto|].
             destruct (Hseen k Hk) as [H|[[Heq|Hin] Hv]]; auto;
               try congruence.
          -- exists ch1, im1. split; [exact Hrun|]. split; [assumption|].
             split; [assumption|]. split; [assumption|].
             intros k. rewrite Hsame. apply Hsame1.
      + (* no child is nil *)
        exfalso. rewrite Forall_forall in Hstep.
        destruct (Hstep _ (map_get_In _ _ _ Hget)) as [c0 [Hc0 _]].
        discriminate.
      + (* an entry without a child enters as an ignored node *)
        assert (Hnone : forall ch, ~ In (Name info, Some ch) children)
          by (intros ch; apply map_get_None_In; assumption).
        assert (Hig : enters_ignored w D info).
        { destruct (Hentries info (or_introl eq_refl)) as [[ch [Hin _]]|H];
            [congruence | | assumption].
          exfalso. exact (Hnone ch Hin). }
        unfold enters_ignored in Hig. rewrite Hig.
        set (newChild := newNode _ info (recursive D) _) in *.
        assert (Hsame : forall k,
                   watched_key children k <->
                   watched_key
                     (map_set (Name info) (Some newChild) children) k).
        { intros k. split; intros [ch [Hin Hch]].
          - exists ch. split; [|assumption]. apply In_map_set_other; auto.
            intros ->. exact (Hnone ch Hin).
          - destruct (In_map_set _ _ _ _ Hin) as [Hin'|Heq].
            + exists ch. auto.
            + injection Heq as _ ->. congruence. }
        destruct (IH (map_set (Name info) (Some newChild) children) infoMap c)
          as [ch1 [im1 [Hrun [Hstep1 [Hkeys1 [Hseen1 Hsame1]]]]]]; auto.
        * intros i Hi Hv.
          destruct (Hentries i (or_intror Hi) Hv) as [H|H]; [|auto].
          left. apply Hsame. assumption.
        * apply Forall_map_set; [assumption|]. exists newChild.
          split; [reflexivity|].
          apply tree_in_step_ignored; [|assumption].
          apply Hdepth. left. reflexivity.
        * apply NoDup_map_set. assumption.
        * intros k Hk. apply Hsame in Hk.
          destruct (Hseen k Hk) as [H|[[Heq|Hin] Hv]]; auto.
          exfalso. destruct Hk as [ch [Hin _]]. subst k. exact (Hnone ch Hin).
        * exists ch1, im1. split; [exact Hrun|]. split; [assumption|].
          split; [assumption|]. split; [assumption|].
          intros k. rewrite Hsame. apply Hsame1.
Qed.
Lemma watched_key_app (a b : ChildMap) (k : string) :
    watched_key (a ++ b) k <-> watched_key a k \/ watched_key b k.
Proof.
    unfold watched_key. split.
    - intros [ch [Hin Hch]]. apply in_app_or in Hin as [Hin|Hin]; eauto.
    - intros [[ch [Hin Hch]]|[ch [Hin Hch]]]; exists ch;
        (split; [apply in_or_app; auto | assumption]).
Qed.

Lemma sweepChildren_silent (fuel : nat) poll :
    poll_silent w fs fuel poll ->
    forall todo kept infoMap c,
      children_in_step w fs fuel todo ->
      children_in_step w fs fuel kept ->
      NoDup (map_keys (kept ++ todo)) ->
      (forall k, watched_key todo k -> str_mem k infoMap = true) ->
      exists kept',
        sweepChildren poll w todo kept infoMap c = Ret (false, kept') c /\
        children_in_step w fs fuel kept' /\
        NoDup (map_keys kept') /\
        (forall k, watched_key (kept ++ todo) k <-> watched_key kept' k).
Proof.
    intros Hpoll todo. unfold children_in_step.
    induction todo as [|[k [ch|]] rest IH];
      intros kept infoMap c Htodo Hkept Hkeys Hseen.
    - simpl. exists kept. rewrite app_nil_r in *. tauto.
    - inversion Htodo as [|? ? [c0 [Hc0 Hch]] Hrest]; subst.
      simpl in Hc0. injection Hc0 as <-.
      assert (Hfresh : ~ In k (map_keys rest)).
      { unfold map_keys in *. rewrite map_app in Hkeys. simpl in Hkeys.
        apply NoDup_remove_2 in Hkeys. intros H. apply Hkeys.
        apply in_or_app. auto. }
      cbn [sweepChildren].
      destruct (str_mem k infoMap) eqn:Hmem.
      + destruct (Hpoll ch c Hch) as [ch' [-> [Hch' Hig']]].
        destruct (IH (kept ++ [(k, Some ch')]) (str_remove k infoMap) c)
          as [kept' [Hrun [Hstep' [Hkeys' Hsame']]]]; auto.
        * apply Forall_app. split; [assumption|].
          constructor; [|constructor]. exists ch'. auto.
        * rewrite <- app_assoc. unfold map_keys in *.
          rewrite !map_app in *. exact Hkeys.
        * intros k2 Hk2. rewrite str_mem_remove_other.
          -- apply Hseen. destruct Hk2 as [c2 [Hin Hc2]].
             exists c2. split; [right|]; assumption.
          -- intros ->. apply Hfresh. destruct Hk2 as [c2 [Hin _]].
             apply (in_map fst _ _ Hin).
        * exists kept'. split; [exact Hrun|]. split; [assumption|].
          split; [assumption|]. intros k2. rewrite <- Hsame'.
          rewrite <- app_assoc. rewrite !watched_key_app.
          assert (Hone : watched_key ((k, Some ch) :: rest) k2 <->
                         watched_key ([(k, Some ch')] ++ rest) k2).
          { unfold watched_key. simpl. split.
            - intros [c2 [[Heq|Hin] Hc2]].
              + injection Heq as <- <-. exists ch'.
                split; [auto | congruence].
              + exists c2. auto.
            - intros [c2 [[Heq|Hin] Hc2]].
              + injection Heq as <- <-. exists ch.
                split; [auto | congruence].
              + exists c2. auto. }
          rewrite Hone, watched_key_app. tauto.
      + destruct (ignored ch) eqn:Hig.
        * destruct (IH kept infoMap c)
            as [kept' [Hrun [Hstep' [Hkeys' Hsame']]]]; auto.
          -- unfold map_keys in *. rewrite map_app in *. simpl in Hkeys.
             apply NoDup_remove_1 in Hkeys. assumption.
          -- intros k2 [c2 [Hin Hc2]]. apply Hseen. exists c2.
             split; [right|]; assumption.
          -- exists kept'. split; [exact Hrun|]. split; [assumption|].
             split; [assumption|]. intros k2. rewrite <- Hsame'.
             rewrite !watched_key_app. unfold watched_key. simpl. split.
             ++ intros [H|[c2 [[Heq|Hin] Hc2]]]; [auto | | eauto].
                injection Heq as <- <-. congruence.
             ++ intros [H|[c2 [Hin Hc2]]]; [auto | eauto].
        * exfalso. assert (H : str_mem k infoMap = true); [|congruence].
          apply Hseen. exists ch. split; [left; reflexivity | assumption].
    - inversion Htodo as [|? ? [c0 [Hc0 _]] _]. discriminate.
Qed.

Lemma set_Info_in_step (n : FileNode) (i : FileInfo) :
    Lstat fs (Path n) = inl i ->
    in_step w fs n -> in_step w fs (set_Info n i).
Proof.
    intros Hstat Hn Hig. destruct (Hn Hig) as [i' [Hi' [_ [_ Hdir]]]].
    rewrite Hstat in Hi'. injection Hi' as <-.
    exists i. split; [assumption|]. split; [reflexivity|].
    split; [reflexivity|]. exact Hdir.
Qed.

Lemma pollNodeEvent_silent (fuel : nat) :
    poll_silent w fs fuel (pollNodeEvent fuel w fs).
Proof.
    induction fuel as [|fuel IH]; intros n c [Hstep [Hok Hfits]];
      [discriminate|].
    pose proof Hfits as Hfits0.
    cbn [tree_fits] in Hfits. apply andb_true_iff in Hfits as [Hdepth Hkids].
    rewrite forallb_forall in Hkids.
    pose proof (node_all_head _ _ Hok) as [Hnodup Hnonil].
    pose proof (node_all_children _ _ Hok) as Hchok.
    pose proof (node_all_head _ _ Hstep) as Hn.
    pose proof (node_all_children _ _ Hstep) as Hch.
    cbn [pollNodeEvent].
    destruct (ignored n) eqn:Hig.
    { exists n. repeat split; assumption. }
    destruct (Hn Hig) as [i [Hstat [Htime [Hmode Hdir]]]].
    rewrite Hstat. rewrite Htime, Hmode, !Z.eqb_refl. cbn [negb send_if].
    cbn [set_Info Path recursive Children].
    assert (Hres : forall ch,
               children_in_step w fs fuel ch ->
               NoDup (map_keys ch) ->
               (forall k, watched_key (Children n) k <-> watched_key ch k) ->
               tree_in_step w fs (S fuel)
                 (set_Children (set_Info n i) ch)).
    { intros ch Hall Hnd Hsame. unfold children_in_step in Hall.
      rewrite Forall_forall in Hall. split; [|split].
      - constructor.
        + intros _. exists i. split; [assumption|].
          split; [reflexivity|]. split; [reflexivity|].
          cbn [set_Children set_Info Path recursive Children].
          intros Hd Hr l Hl. destruct (Hdir Hd Hr l Hl) as [H1 H2]. split.
          * intros info Hin Hv. destruct (H1 info Hin Hv) as [H|H]; [|auto].
            left. apply Hsame. exact H.
          * intros k c0 Hin Hc0. destruct (proj2 (Hsame k)) as [c1 [Hin1 Hc1]];
              [exists c0; auto|]. exact (H2 k c1 Hin1 Hc1).
        + simpl. apply Forall_forall. intros kv Hin c0 Hc0.
          destruct (Hall _ Hin) as [c1 [Hc1 [H _]]]. congruence.
      - constructor.
        + split; [exact Hnd|]. simpl. apply Forall_forall. intros kv Hin.
          destruct (Hall _ Hin) as [c1 [-> _]]. discriminate.
        + simpl. apply Forall_forall. intros kv Hin c0 Hc0.
          destruct (Hall _ Hin) as [c1 [Hc1 [_ [H _]]]]. congruence.
      - cbn [tree_fits set_Children set_Info Path Children]. rewrite Hdepth.
        apply forallb_forall. intros [k [v|]] Hin; [|reflexivity].
        destruct (Hall _ Hin) as [c1 [Hc1 [_ [_ H]]]]. simpl in Hc1.
        injection Hc1 as <-. exact H. }
    assert (Hinit : children_in_step w fs fuel (Children n)).
    { apply Forall_forall. intros [k v] Hin.
      rewrite Forall_forall in Hnonil.
      destruct v as [v|]; [|exfalso; apply (Hnonil _ Hin); reflexivity].
      exists v. split; [reflexivity|]. split; [|split].
      - unfold children_all in Hch. rewrite Forall_forall in Hch.
        apply (Hch _ Hin). reflexivity.
      - unfold children_all in Hchok. rewrite Forall_forall in Hchok.
        apply (Hchok _ Hin). reflexivity.
      - apply (Hkids _ Hin). }
    assert (Hkeep : exists n',
               Ret (Some (set_Info n i)) c = Ret (Some n') c /\
               tree_in_step w fs (S fuel) n' /\ ignored n' = false).
    { exists (set_Info n i). split; [reflexivity|]. split; [|exact Hig].
      pose proof (Hres (Children n) Hinit Hnodup (fun k => iff_refl _)) as H.
      destruct n; exact H. }
    destruct (IsDir i) eqn:Hd; [|exact Hkeep].
    destruct (recursive n) eqn:Hr; [|exact Hkeep].
    cbn [negb orb].
    destruct (ReadDir fs (Path n)) as [l|e] eqn:Hread; [|exact Hkeep].
    clear Hkeep. destruct (Hdir eq_refl eq_refl l eq_refl) as [H1 H2].
    destruct (pollEntries_silent fuel _ n IH l (Children n) [] c)
      as [ch1 [im1 [Hrun1 [Hstep1 [Hkeys1 [Hseen1 Hsame1]]]]]]; auto.
    { intros info Hin.
      apply (fs_depth_listed fs fuel (Path n) l); assumption. }
    { intros k [c0 [Hin Hc0]]. right. exact (H2 k c0 Hin Hc0). }
    rewrite Hr in Hrun1. rewrite Hrun1.
    destruct (sweepChildren_silent fuel _ IH ch1 [] im1 c)
      as [ch2 [Hrun2 [Hstep2 [Hkeys2 Hsame2]]]]; auto.
    { constructor. }
    rewrite Hrun2. eexists. split; [reflexivity|]. split; [|exact Hig].
    apply Hres; auto. intros k. rewrite Hsame1. apply Hsame2.
Qed.

Lemma pollRoots_silent (fuel : nat) :
    forall todo c,
      children_in_step w fs fuel todo ->
      exists roots',
        pollRoots fuel w fs todo c = Ret roots' c /\
        children_in_step w fs fuel roots'.
Proof.
    unfold children_in_step.
    induction todo as [|[k v] rest IH]; intros c Htodo; simpl.
    - exists []. split; [reflexivity | constructor].
    - inversion Htodo as [|? ? [n [Hn Hstep]] Hrest]; subst.
      simpl in Hn. subst v.
      destruct (pollNodeEvent_silent fuel n c Hstep) as [n' [-> [Hstep' _]]].
      destruct (IH c Hrest) as [rest' [-> Hrest']].
      exists ((k, Some n') :: rest'). split; [reflexivity|].
      constructor; [exists n'; auto | assumption].
Qed.
End SilentPass.

(** X16. No change, no event.  When every root is in step with the
    filesystem (each watched node records the current modification time
    and mode, and the watched children of a listed directory are its
    visited entries), a pass returns, sends nothing, leaves the channels
    of the cycle as they were whatever the cap and whether or not
    [cancel] is closed, and leaves every root in step, so that the next
    pass is silent as well. *)
Theorem pass_over_unchanged_files_is_silent (w : GoWatcher) (fs : FS)
    (fuel : nat) (c : Cycle) :
  roots_in_step w fs fuel ->
  exists w',
    pollEvents fuel w fs c = Ret w' c /\
    roots_in_step w' fs fuel /\
    map_keys (fileTrees w') = map_keys (fileTrees w).
Proof.
  intros Hroots. unfold pollEvents.
  destruct (pollRoots_silent w fs fuel (fileTrees w) c Hroots)
    as [roots' [Hrun Hstep]].
  rewrite Hrun. exists (set_fileTrees w roots'). split; [reflexivity|].
  split; [exact Hstep|]. simpl. unfold map_keys.
  pose proof (pollRoots_same_roots w fs fuel _ _ _ _ Hrun) as Hsame.
  clear Hrun Hstep Hroots.
  induction Hsame as [|kv kv' t t' [Hk _] _ IH]; simpl; [reflexivity|].
  rewrite Hk, IH. reflexivity.
Qed.

(* ================================================================= *)
(** ** The tree builder leaves a tree in step *)

Lemma set_recursive_same (n : FileNode) : set_recursive n (recursive n) = n.
Proof. destruct n; reflexivity. Qed.

Lemma traverseEntries_no_error build (w : GoWatcher) (path : string)
    (rec : bool) :
  forall infoList childMap e,
    traverseEntries build w path rec infoList childMap <> Some (inr e).
Proof.
  induction infoList as [|info rest IH]; intros childMap e; [discriminate|].
  cbn [traverseEntries isHiddenFile].
  destruct (_ || _); [apply IH|].
  destruct (negb rec); [apply IH|].
  destruct (negb _); [|apply IH].
  destruct (build (Join path (Name info)) true) as [[child err]|];
    [apply IH | discriminate].
Qed.

Lemma traverseTree_node (fuel : nat) (w : GoWatcher) (fs : FS)
    (path : string) (rec : bool) (stat : FileInfo) child err :
  Lstat fs path = inl stat ->
  traverseTree fuel w fs path rec = Some (child, err) ->
  exists n, child = Some n.
Proof.
  intros Hstat. destruct fuel as [|fuel]; [discriminate|].
  cbn [traverseTree]. rewrite Hstat.
  destruct (_ || _); [intros [= <- _]; eauto|].
  destruct (ReadDir fs path); [|intros [= <- _]; eauto].
  destruct (traverseEntries _ w path rec _ []) as [[childMap|e]|];
    [| |discriminate]; intros [= <- _]; eauto.
Qed.

Section BuildInStep.
Variable w : GoWatcher.
Variable fs : FS.
Hypothesis at_rest : fs_at_rest fs.

Lemma leaf_in_step (d : nat) (path : string) (info : FileInfo)
      (rec ign : bool) :
    Lstat fs path = inl info ->
    fs_depth fs d path = true ->
    (ignored (newNode path info rec ign) = false ->
     IsDir info = true -> rec = true ->
     forall l, ReadDir fs path <> inl l) ->
    tree_in_step w fs d (newNode path info rec ign).
Proof.
    intros Hstat Hd Hleaf.
    destruct (tree_fits_newNode fs d path info rec ign Hd) as [Hfits Hok].
    split; [|split]; [|assumption|assumption].
    constructor; [|constructor]. intros Hig.
    exists info. split; [exact Hstat|]. split; [reflexivity|].
    split; [reflexivity|]. cbn [newNode Path recursive Children].
    intros Hdir Hrec l Hl. exfalso. exact (Hleaf Hig Hdir Hrec l Hl).
Qed.

Lemma traverseEntries_in_step (fuel d : nat) (path : string) (rec : bool) :
    (forall p n err stat,
        traverseTree fuel w fs p true = Some (Some n, err) ->
        Lstat fs p = inl stat ->
        fs_depth fs d p = true ->
        tree_in_step w fs d n /\
        ignored n = (shouldIgnore w (Name stat) p
                     || negb (Z.land (Mode stat) ModeSymlink =? 0))) ->
    forall todo childMap r,
      NoDup (map Name todo) ->
      (forall info, In info todo ->
         Lstat fs (Join path (Name info)) = inl info /\
         fs_depth fs d (Join path (Name info)) = true) ->
      children_in_step w fs d childMap ->
      NoDup (map_keys childMap) ->
      (forall k, In k (map_keys childMap) -> ~ In k (map Name todo)) ->
      traverseEntries (traverseTree fuel w fs) w path rec todo childMap
      = Some (inl r) ->
      children_in_step w fs d r /\
      NoDup (map_keys r) /\
      (forall k ch, In (k, Some ch) childMap -> In (k, Some ch) r) /\
      (forall info, In info todo ->
         visible w path (Name info) = true ->
         watched_key r (Name info) \/ excluded_or_link w path info = true) /\
      (forall k, watched_key r k ->
         watched_key childMap k \/
         (In k (map Name todo) /\ visible w path k = true)).
Proof.
    intros Hbuild todo.
    induction todo as [|info rest IH];
      intros childMap r Hnames Hinfo Hstep Hkeys Hfresh.
    - simpl. intros [= <-]. split; [assumption|]. split; [assumption|].
      split; [auto|]. split; [intros info []|]. auto.
    - cbn [map] in Hnames. inversion Hnames as [|? ? Hnew Hnames']; subst.
      assert (Hinfo' : forall i, In i rest ->
                Lstat fs (Join path (Name i)) = inl i /\
                fs_depth fs d (Join path (Name i)) = true)
        by (intros i Hi; apply Hinfo; right; assumption).
      destruct (Hinfo info (or_introl eq_refl)) as [Hstat Hdepth].
      assert (Hfresh' : forall k, In k (map_keys childMap) ->
                                  ~ In k (map Name rest)).
      { intros k Hk Hin. apply (Hfresh k Hk). right. assumption. }
      assert (Hname : ~ In (Name info) (map_keys childMap)).
      { intros H. apply (Hfresh _ H). left. reflexivity. }
      cbn [traverseEntries isHiddenFile].
      assert (Hvis : visible w path (Name info)
                     = negb (ignoreHidden w &&
                             String.prefix "." (Base (Join path (Name info)))))
        by reflexivity.
      (* what the rest of the loop adds to a map that holds this entry *)
      assert (Hadd : forall child r0,
                 tree_in_step w fs d child ->
                 ignored child
                 = negb (Z.land (Mode info) ModeSymlink =? 0) ->
                 shouldIgnore w (Name info) (Join path (Name info)) = false ->
                 visible w path (Name info) = true ->
                 traverseEntries (traverseTree fuel w fs) w path rec rest
                   (map_set (Name info) (Some child) childMap) = Some (inl r0) ->
                 children_in_step w fs d r0 /\
                 NoDup (map_keys r0) /\
                 (forall k ch, In (k, Some ch) childMap -> In (k, Some ch) r0) /\
                 (forall i, In i (info :: rest) ->
                    visible w path (Name i) = true ->
                    watched_key r0 (Name i) \/
                    excluded_or_link w path i = true) /\
                 (forall k, watched_key r0 k ->
                    watched_key childMap k \/
                    (In k (map Name (info :: rest)) /\
                     visible w path k = true))).
      { intros child r0 Hchild Hig Hsi Hv Hrun.
        destruct (IH (map_set (Name info) (Some child) childMap) r0)
          as [H1 [H2 [H3 [H4 H5]]]]; auto.
        - apply Forall_map_set; [assumption|]. exists child. auto.
        - apply NoDup_map_set. assumption.
        - intros k Hk. rewrite map_keys_map_set in Hk.
          destruct (str_mem (Name info) (map_keys childMap)) eqn:Hm.
          + apply Hfresh'. assumption.
          + apply in_app_or in Hk as [Hk|[<-|[]]]; [auto | assumption].
        - split; [assumption|]. split; [assumption|]. split; [|split].
          + intros k ch Hin. apply H3. apply In_map_set_other; [assumption|].
            intros ->. apply Hname. apply (in_map fst _ _ Hin).
          + intros i [<-|Hi] Hvi; [|auto].
            destruct (ignored child) eqn:Hic.
            * right. unfold excluded_or_link. rewrite <- Hig.
              apply orb_true_r.
            * left. exists child. split; [|assumption].
              apply H3. apply In_map_set_same.
          + intros k Hk. destruct (H5 k Hk) as [[ch [Hin Hch]]|[Hin Hv']].
            * destruct (In_map_set _ _ _ _ Hin) as [Hin'|Heq].
              -- left. exists ch. auto.
              -- injection Heq as -> _. right. split; [left; reflexivity|].
                 assumption.
            * right. split; [right|]; assumption. }
      destruct (shouldIgnore w (Name info) (Join path (Name info))) eqn:Hsi;
        cbn [orb].
      { (* excluded: skipped *)
        intros Hrun.
        destruct (IH childMap r) as [H1 [H2 [H3 [H4 H5]]]]; auto.
        split; [assumption|]. split; [assumption|]. split; [assumption|].
        split.
        - intros i [<-|Hi] Hvi; [|auto]. right.
          unfold excluded_or_link. rewrite Hsi. reflexivity.
        - intros k Hk. destruct (H5 k Hk) as [H|[Hin Hv']]; [auto|].
          right. split; [right|]; assumption. }
      destruct (ignoreHidden w && _) eqn:Hhid; cbn [negb] in Hvis.
      { (* hidden: skipped *)
        intros Hrun.
        destruct (IH childMap r) as [H1 [H2 [H3 [H4 H5]]]]; auto.
        split; [assumption|]. split; [assumption|]. split; [assumption|].
        split.
        - intros i [<-|Hi] Hvi; [congruence | auto].
        - intros k Hk. destruct (H5 k Hk) as [H|[Hin Hv']]; [auto|].
          right. split; [right|]; assumption. }
      destruct rec; cbn [negb].
      + (* recursive: the child is built by the recursive call *)
        destruct (traverseTree fuel w fs (Join path (Name info)) true)
          as [[child err]|] eqn:Hb; [|discriminate].
        destruct (traverseTree_node fuel w fs _ true info child err Hstat Hb)
          as [n ->].
        destruct (Hbuild _ n err info Hb Hstat Hdepth) as [Hn Hig].
        rewrite Hsi in Hig.
        apply Hadd; [exact Hn | exact Hig | reflexivity | exact Hvis].
      + (* not recursive: the child is a fresh leaf *)
        apply Hadd; [|reflexivity | reflexivity | exact Hvis].
        apply leaf_in_step; auto. discriminate.
Qed.

Lemma traverseTree_in_step (fuel : nat) :
    forall d path rec n err stat,
      traverseTree fuel w fs path rec = Some (Some n, err) ->
      Lstat fs path = inl stat ->
      fs_depth fs d path = true ->
      (forall r, tree_in_step w fs d (set_recursive n r)) /\
      ignored n = (shouldIgnore w (Name stat) path
                   || negb (Z.land (Mode stat) ModeSymlink =? 0)).
Proof.
    induction fuel as [|fuel IH]; intros d path rec n err stat;
      [discriminate|].
    cbn [traverseTree]. intros Hrun Hstat Hd. rewrite Hstat in Hrun.
    set (node := newNode path stat rec (shouldIgnore w (Name stat) path)) in *.
    assert (Hleaf : forall r,
               (ignored node = false -> IsDir stat = true -> r = true ->
                forall l, ReadDir fs path <> inl l) ->
               tree_in_step w fs d (set_recursive node r)).
    { intros r H. apply (leaf_in_step d path stat r); assumption. }
    destruct (negb (IsDir stat) || ignored node) eqn:Hl.
    { injection Hrun as <- _. split; [|reflexivity].
      intros r. apply Hleaf. intros Hig Hdir _. exfalso.
      rewrite Hig, Hdir in Hl. discriminate. }
    apply orb_false_iff in Hl as [Hdir Hig]. apply negb_false_iff in Hdir.
    destruct (ReadDir fs path) as [infoList|e] eqn:Hread.
    2:{ injection Hrun as <- _. split; [|reflexivity].
        intros r. apply Hleaf. intros _ _ _ l. discriminate. }
    destruct (traverseEntries _ w path rec infoList []) as [[childMap|e]|] eqn:Ht;
      [| |discriminate].
    2:{ exfalso. exact (traverseEntries_no_error _ w path rec _ _ e Ht). }
    injection Hrun as <- _. split; [|reflexivity].
    destruct d as [|d]; [discriminate|].
    destruct (at_rest path infoList Hread) as [Hnames Hlstat].
    destruct (traverseEntries_in_step fuel d path rec) with
      (todo := infoList) (childMap := @nil (string * option FileNode))
      (r := childMap) as [H1 [H2 [_ [H4 H5]]]]; auto.
    { intros p n0 err0 stat0 Hb Hs Hdp.
      destruct (IH d p true n0 err0 stat0 Hb Hs Hdp) as [Hall Hig0].
      split; [|exact Hig0]. rewrite <- (set_recursive_same n0). apply Hall. }
    { intros info Hin. split; [auto|].
      apply (fs_depth_listed fs d path infoList); assumption. }
    { constructor. }
    { constructor. }
    unfold children_in_step in H1. rewrite Forall_forall in H1.
    intros r. split; [|split].
    - constructor.
      + intros _. exists stat. split; [exact Hstat|].
        split; [reflexivity|]. split; [reflexivity|].
        cbn [set_recursive set_Children Path recursive Children].
        intros _ _ l Hl. cbn [node newNode Path] in Hl.
        rewrite Hread in Hl. injection Hl as <-. split.
        * intros info Hin Hv. cbn [node newNode Path] in Hv |- *.
          destruct (H4 info Hin Hv) as [H|H]; [left; exact H|].
          right. exact H.
        * intros k ch Hin Hch. cbn [node newNode Path].
          destruct (H5 k) as [[c0 [[] _]]|H]; [exists ch; auto | exact H].
      + simpl. apply Forall_forall. intros kv Hin c0 Hc0.
        destruct (H1 _ Hin) as [c1 [Hc1 [H _]]]. congruence.
    - constructor.
      + split; [exact H2|]. simpl. apply Forall_forall. intros kv Hin.
        destruct (H1 _ Hin) as [c1 [-> _]]. discriminate.
      + simpl. apply Forall_forall. intros kv Hin c0 Hc0.
        destruct (H1 _ Hin) as [c1 [Hc1 [_ [H _]]]]. congruence.
    - cbn [tree_fits set_recursive set_Children Path Children].
      change (Path node) with path. rewrite Hd.
      apply forallb_forall. intros [k [v|]] Hin; [|reflexivity].
      destruct (H1 _ Hin) as [c1 [Hc1 [_ [_ H]]]]. simpl in Hc1.
      injection Hc1 as <-. exact H.
Qed.
End BuildInStep.

(** X17. On a filesystem at rest, [AddPath] stores a root that is in step
    with it: a watcher whose roots are in step stays so when a path is
    added, recursively or not, so that the passes that follow are silent
    until something changes. *)
Theorem AddPath_stores_a_root_in_step (fuel d : nat) (w w' : GoWatcher)
    (fs : FS) (path p : string) (rec : bool) :
  fs_at_rest fs ->
  Abs fs path = inl p ->
  fs_depth fs d p = true ->
  roots_in_step w fs d ->
  AddPath fuel w fs path rec = Returned None w' ->
  roots_in_step w' fs d.
Proof.
  intros Hrest Ha Hd Hroots. unfold AddPath. rewrite Ha.
  destruct (Lstat fs p) as [stat|e] eqn:Hstat; [|discriminate].
  destruct (negb _); [discriminate|].
  destruct (map_get p (fileTrees w)); [intros [= <-]; assumption|].
  cbn [isHiddenFile].
  destruct (_ || _); [intros [= <-]; assumption|].
  destruct (traverseTree fuel w fs p rec) as [[[n|] [e|]]|] eqn:Ht;
    try discriminate.
  destruct (fileTreesNil w); [discriminate|].
  intros [= <-].
  destruct (traverseTree_in_step w fs Hrest fuel d p rec n None stat Ht Hstat Hd)
    as [Hn _].
  unfold roots_in_step, children_in_step in *. cbn [fileTrees set_fileTrees].
  apply Forall_map_set; [exact Hroots|].
  exists (set_recursive n true). split; [reflexivity|]. apply Hn.
Qed.

Lemma ex_fs_at_rest : fs_at_rest ex_fs.
Proof.
  intros path infoList H. cbn in H.
  destruct (String.eqb_spec path "/d") as [->|_].
  { injection H as <-. split.
    - repeat constructor; simpl; intuition discriminate.
    - intros info Hin. listed_entries Hin; reflexivity. }
  destruct (String.eqb_spec path "/d/sub") as [->|_]; [|discriminate].
  injection H as <-. split.
  - repeat constructor; simpl; intuition discriminate.
  - intros info Hin. listed_entries Hin; reflexivity.
Qed.

Lemma ex_added_in_step : roots_in_step ex_added ex_fs 3.
Proof.
  destruct (traverseTree_in_step ex_watcher ex_fs ex_fs_at_rest 3 3 "/d" false
              (set_recursive ex_tree false) None (ex_dir "d" 1)
              eq_refl eq_refl eq_refl) as [H _].
  constructor; [|constructor]. exists ex_tree. split; [reflexivity|].
  exact (H true).
Qed.

Lemma pass_over_unchanged_files_is_silent_witness :
  exists w',
    pollEvents 3 ex_added ex_fs new_cycle = Ret w' new_cycle /\
    roots_in_step w' ex_fs 3 /\
    map_keys (fileTrees w') = map_keys (fileTrees ex_added).
Proof.
  exact (pass_over_unchanged_files_is_silent ex_added ex_fs 3 new_cycle
           ex_added_in_step).
Defined.

Lemma AddPath_stores_a_root_in_step_witness : roots_in_step ex_added ex_fs 3.
Proof.
  apply (AddPath_stores_a_root_in_step 3 3 ex_watcher ex_added ex_fs
           "/d" "/d" false ex_fs_at_rest eq_refl eq_refl).
  - constructor.
  - reflexivity.
Defined.

(* ================================================================= *)
(** ** The forwarding loop without a cap *)

Lemma inner_no_cap (w : GoWatcher) :
  maxEvents w <= 0 ->
  forall (msgs : list Msg) (c : Cycle),
    cancel c = false ->
    received (snd (inner w msgs c))
    = received c ++ events_before_exit msgs /\
    delivered (snd (inner w msgs c))
    = delivered c ++ filter (survives w) (events_before_exit msgs) /\
    (cancel (snd (inner w msgs c)) = true <->
     fst (inner w msgs c) = ReturnNil).
Proof.
  intros Hcap msgs.
  induction msgs as [|m msgs IH]; intros c Hc; simpl.
  - rewrite !app_nil_r, Hc. repeat split; discriminate.
  - destruct m as [|e|]; simpl.
    + rewrite !app_nil_r. repeat split; reflexivity.
    + destruct (forward_no_cap w e c Hcap) as [Hcan Hdel].
      rewrite Hcan, Hc.
      destruct (IH (forward w e c)) as [H1 [H2 H3]]; [congruence|].
      rewrite H1, H2, Hdel, forward_received, <- !app_assoc.
      split; [reflexivity|]. split; [|exact H3].
      destruct (survives w e); reflexivity.
    + rewrite !app_nil_r, Hc. repeat split; discriminate.
Qed.

(** X18. A cap below one is no cap.  With [maxEvents <= 0] the loop of
    [Start] forwards every event of the cycle that survives the filters,
    in order and however many there are, and it closes [cancel] only when
    it is told to close. *)
Theorem no_cap_forwards_every_event (w : GoWatcher) (msgs : list Msg) :
  maxEvents w <= 0 ->
  received (snd (inner w msgs new_cycle)) = events_before_exit msgs /\
  delivered (snd (inner w msgs new_cycle))
  = filter (survives w) (events_before_exit msgs) /\
  (cancel (snd (inner w msgs new_cycle)) = true <->
   fst (inner w msgs new_cycle) = ReturnNil).
Proof.
  intros Hcap. exact (inner_no_cap w Hcap msgs new_cycle eq_refl).
Qed.

Lemma no_cap_forwards_every_event_witness :
  delivered (snd (inner (SetMaxEvents ex_watcher (-1)) ex_messages new_cycle))
  = [ex_event Create "a"; ex_event Write "b"; ex_event Remove "c"].
Proof.
  refine (proj1 (proj2 (no_cap_forwards_every_event
                          (SetMaxEvents ex_watcher (-1)) ex_messages _))).
  simpl. lia.
Defined.

(* ================================================================= *)
(** ** The diff of a node that is not listed *)

(** X19. A watched node that is a file, or a directory that is not
    diffed recursively, is compared by its own metadata only.  With no
    cap and [cancel] open its diff sends a [Write] when the modification
    time differs, then a [Chmod] when the mode differs, each with the new
    metadata, and nothing else; it records the new metadata and keeps the
    children. *)
Theorem leaf_diff_sends_Write_then_Chmod (w : GoWatcher) (fs : FS)
    (fuel : nat) (n : FileNode) (newInfo : FileInfo) (c : Cycle) :
  maxEvents w <= 0 -> cancel c = false ->
  ignored n = false -> Lstat fs (Path n) = inl newInfo ->
  IsDir newInfo = false \/ recursive n = false ->
  exists c',
    pollNodeEvent (S fuel) w fs (Some n) c = Ret (Some (set_Info n newInfo)) c' /\
    cancel c' = false /\
    received c' =
    received c
    ++ (if ModTime (Info n) =? ModTime newInfo then []
        else [mkEvent Write (Path n) newInfo])
    ++ (if Mode (Info n) =? Mode newInfo then []
        else [mkEvent Chmod (Path n) newInfo]).
Proof.
  intros Hcap Hc Hig Hstat Hleaf. cbn [pollNodeEvent].
  rewrite Hig, Hstat. unfold send_if, select_send.
  assert (Hreturn : negb (IsDir newInfo) || negb (recursive n) = true).
  { destruct Hleaf as [-> | ->]; [reflexivity | apply orb_true_r]. }
  cbn [set_Info Path recursive]. rewrite Hreturn.
  destruct (ModTime (Info n) =? ModTime newInfo); cbn [negb].
  - destruct (Mode (Info n) =? Mode newInfo); cbn [negb].
    + exists c. rewrite !app_nil_r. auto.
    + rewrite Hc. eexists. split; [reflexivity|].
      split; [apply forward_keeps_open; assumption|].
      rewrite forward_received. reflexivity.
  - rewrite Hc.
    pose proof (forward_keeps_open w (mkEvent Write (Path n) newInfo) c
                  Hcap Hc) as Hc1.
    destruct (Mode (Info n) =? Mode newInfo); cbn [negb].
    + eexists. split; [reflexivity|]. split; [assumption|].
      rewrite forward_received. reflexivity.
    + rewrite Hc1. eexists. split; [reflexivity|].
      split; [apply forward_keeps_open; assumption|].
      rewrite !forward_received, <- app_assoc. reflexivity.
Qed.

Lemma leaf_diff_sends_Write_then_Chmod_witness :
  exists c',
    pollNodeEvent 1 ex_watcher ex_fs_written
      (Some (mkNode "/d/a.txt" (mkInfo "a.txt" 0 384 1 false) false false []))
      new_cycle
    = Ret (Some (mkNode "/d/a.txt" (ex_file "a.txt" 2) false false [])) c' /\
    cancel c' = false /\
    received c' =
    [mkEvent Write "/d/a.txt" (ex_file "a.txt" 2);
     mkEvent Chmod "/d/a.txt" (ex_file "a.txt" 2)].
Proof.
  refine (leaf_diff_sends_Write_then_Chmod ex_watcher ex_fs_written 0
            (mkNode "/d/a.txt" (mkInfo "a.txt" 0 384 1 false) false false [])
            (ex_file "a.txt" 2) new_cycle _ eq_refl eq_refl eq_refl
            (or_introl eq_refl)).
  simpl. lia.
Defined.

(* ================================================================= *)
(** ** An entry that has gone *)

(** The first loop passes over the entries that it does not visit. *)
Lemma pollEntries_visible_only poll (w : GoWatcher) (dir : string)
    (rec : bool) :
  forall todo children infoMap c,
    pollEntries poll w dir rec todo children infoMap c =
    pollEntries poll w dir rec
      (filter (fun info => visible w dir (Name info)) todo)
      children infoMap c.
Proof.
  induction todo as [|info rest IH]; intros children infoMap c;
    [reflexivity|].
  cbn [filter].
  assert (Hvis : visible w dir (Name info)
                 = negb (ignoreHidden w &&
                         String.prefix "." (Base (Join dir (Name info)))))
    by reflexivity.
  destruct (visible w dir (Name info)) eqn:Hv.
  - cbn [pollEntries isHiddenFile].
    destruct (ignoreHidden w && _); [discriminate|].
    destruct (map_get (Name info) children) as [[child|]|];
      [| reflexivity |].
    + destruct (ignored child); [apply IH|].
      destruct (poll (Some child) c); try reflexivity. apply IH.
    + destruct (ignored _); [apply IH|].
      destruct (select_send w _ c); [|reflexivity].
      destruct (poll _ _); try reflexivity. apply IH.
  - cbn [pollEntries isHiddenFile].
    destruct (ignoreHidden w && _); [apply IH | discriminate].
Qed.

Section RemovedEntry.
Variable w : GoWatcher.
Variable fs : FS.
Hypothesis no_cap : maxEvents w <= 0.
Hypothesis static : fs_static fs.

Variable fuel : nat.
Variable D : FileNode.
Variable dinfo : FileInfo.
Variable l : list FileInfo.
Hypothesis D_watched : ignored D = false.
Hypothesis D_recursive : recursive D = true.
Hypothesis D_stat : Lstat fs (Path D) = inl dinfo.
Hypothesis D_dir : IsDir dinfo = true.
Hypothesis D_list : ReadDir fs (Path D) = inl l.
Hypothesis D_fits : tree_fits fs (S fuel) D = true.
Hypothesis D_ok : node_all map_ok D.
Hypothesis D_keyed : Forall (keyed_under (Path D)) (Children D).

Variable k0 : string.
Variable ch : FileNode.
Hypothesis k0_plain : has_slash k0 = false.
Hypothesis k0_unvisited :
    In k0 (map Name l) -> visible w (Path D) k0 = false.
Hypothesis ch_child : map_get k0 (Children D) = Some (Some ch).
Hypothesis ch_watched : ignored ch = false.

Variable sel : Event -> bool.
Hypothesis sel_path : forall e, sel e = true -> ev_path e = Join (Path D) k0.
Hypothesis sel_event : sel (mkEvent Remove (Path ch) (Info ch)) = true.

Lemma removed_entry_counted (c : Cycle) :
    cancel c = false ->
    exists D' c',
      pollNodeEvent (S fuel) w fs (Some D) c = Ret (Some D') c' /\
      cancel c' = false /\
      count_sel sel (received c') = S (count_sel sel (received c)) /\
      map_get k0 (Children D') = None.
Proof.
    intros Hc.
    destruct (dir_pass_runs w fs fuel D c dinfo l no_cap static D_watched
                D_recursive D_stat D_dir D_list D_fits D_ok Hc)
      as [c2 [ch1 [im1 [c3 [ch2 [c4
            [Hc2 [Hcnt2 [Hrun1 [Hkeys1 [Hrun2 [Hc4 Hrun]]]]]]]]]]]].
    assert (Hhead : count_sel sel (received c2) = count_sel sel (received c)).
    { apply Hcnt2. intros e He Hp. rewrite (sel_path e He) in Hp.
      exact (Join_neq_dir _ _ Hp). }
    assert (Hskip : ~ In k0 (map Name
                               (filter (fun info =>
                                          visible w (Path D) (Name info)) l))).
    { intros H. apply in_map_iff in H as [info [Hname Hin]].
      apply filter_In in Hin as [Hin Hv]. rewrite Hname in Hv.
      rewrite k0_unvisited in Hv; [discriminate|].
      rewrite <- Hname. apply in_map. assumption. }
    rewrite pollEntries_visible_only in Hrun1.
    destruct (pollEntries_frame w fs no_cap (Path D) k0 sel k0_plain sel_path
                fuel true _ (Children D) [] c2 _ c3 Hskip D_keyed Hc2 Hrun1)
      as [_ [Hget1 [Hmem1 [Hkeyed1 [Hc3 Hcnt3]]]]].
    cbn [fst snd] in Hget1, Hmem1, Hkeyed1. rewrite ch_child in Hget1.
    destruct (map_get_split k0 (Some ch) ch1 Hget1 Hkeys1)
      as [before [after [-> [Hb Ha]]]].
    apply Forall_app in Hkeyed1 as [Hkb Hka].
    inversion Hka as [|? ? _ Hka']; subst.
    destruct (sweepChildren_upto w fs no_cap (Path D) k0 sel k0_plain sel_path
                fuel before ((k0, Some ch) :: after) [] im1 c3 _ c4
                Hb Hkb Hc3 Hrun2)
      as [kept1 [im2 [c5 [Hrun3 [Hget2 [Hmem2 [Hc5 Hcnt5]]]]]]].
    cbn [sweepChildren] in Hrun3. rewrite Hmem2, Hmem1 in Hrun3.
    cbn [str_mem] in Hrun3. rewrite ch_watched in Hrun3.
    unfold select_send in Hrun3. rewrite Hc5 in Hrun3.
    set (e0 := mkEvent Remove (Path ch) (Info ch)) in *.
    destruct (sweepChildren_frame w fs no_cap (Path D) k0 sel k0_plain sel_path
                fuel after kept1 im2 (forward w e0 c5) _ c4 Ha Hka'
                (forward_keeps_open w e0 c5 no_cap Hc5) Hrun3)
      as [_ [Hget4 [_ Hcnt4]]].
    exists (set_Children (set_Info D dinfo) ch2), c4.
    split; [exact Hrun|]. split; [exact Hc4|]. split.
    - rewrite Hcnt4, count_forward, sel_event, Hcnt5, Hcnt3, Hhead. lia.
    - cbn [set_Children Children]. cbn [snd] in Hget4.
      rewrite Hget4, Hget2. reflexivity.
Qed.
End RemovedEntry.

(** X20. With no cap, [cancel] open and a filesystem that stays as it is
    during the pass, a watched child whose name is no longer listed in
    its directory gets exactly one [Remove] event, which carries the
    metadata recorded for it, and the pass drops the child from the
    children map. *)
Theorem removed_entry_one_Remove (w : GoWatcher) (fs : FS) (fuel : nat)
    (D : FileNode) (dinfo : FileInfo) (l : list FileInfo)
    (k0 : string) (ch : FileNode) (c : Cycle) :
  maxEvents w <= 0 -> fs_static fs -> cancel c = false ->
  ignored D = false -> recursive D = true ->
  Lstat fs (Path D) = inl dinfo -> IsDir dinfo = true ->
  ReadDir fs (Path D) = inl l ->
  tree_fits fs (S fuel) D = true -> node_all map_ok D ->
  Forall (keyed_under (Path D)) (Children D) ->
  has_slash k0 = false -> ~ In k0 (map Name l) ->
  map_get k0 (Children D) = Some (Some ch) ->
  ignored ch = false -> Path ch = Join (Path D) k0 ->
  exists D' c',
    pollNodeEvent (S fuel) w fs (Some D) c = Ret (Some D') c' /\
    count_events Remove (Path ch) (received c') =
      S (count_events Remove (Path ch) (received c)) /\
    In (mkEvent Remove (Path ch) (Info ch)) (received c') /\
    map_get k0 (Children D') = None.
Proof.
  intros no_cap static Hc H1 H2 H3 H4 H5 H6 H7 H8 H9 H10 H11 H12 H13.
  assert (H10' : In k0 (map Name l) -> visible w (Path D) k0 = false)
    by (intros H; contradiction).
  destruct (removed_entry_counted w fs no_cap static fuel D dinfo l
              H1 H2 H3 H4 H5 H6 H7 H8 k0 ch H9 H10' H11 H12
              (is_event Remove (Path ch))) with (c := c)
    as [D' [c' [Hrun [_ [Hcnt Hget]]]]]; auto.
  { intros e He. apply is_event_sel in He. rewrite <- H13. apply He. }
  { unfold is_event. simpl. rewrite String.eqb_refl. reflexivity. }
  destruct (removed_entry_counted w fs no_cap static fuel D dinfo l
              H1 H2 H3 H4 H5 H6 H7 H8 k0 ch H9 H10' H11 H12
              (is_exactly (mkEvent Remove (Path ch) (Info ch))))
    with (c := c) as [D'' [c'' [Hrun' [_ [Hcnt' _]]]]]; auto.
  { intros e He. apply is_exactly_eq in He. subst e. simpl. auto. }
  { apply is_exactly_eq. reflexivity. }
  rewrite Hrun in Hrun'. injection Hrun' as <- <-.
  exists D', c'. split; [exact Hrun|]. split; [exact Hcnt|].
  split; [exact (counted_once_In _ _ _ Hcnt')|]. exact Hget.
Qed.

Lemma ex_fs_shrunk_static : fs_static ex_fs_shrunk.
Proof.
  intros path infoList H. cbn in H.
  destruct (String.eqb_spec path "/d") as [->|_]; [static_directory H|].
  destruct (String.eqb_spec path "/d/sub") as [->|_]; [static_directory H|].
  discriminate.
Qed.

Lemma removed_entry_one_Remove_witness :
  exists D' c',
    pollNodeEvent 3 ex_watcher ex_fs_shrunk (Some ex_tree) new_cycle
    = Ret (Some D') c' /\
    count_events Remove "/d/a.txt" (received c') = 1%nat /\
    In (mkEvent Remove "/d/a.txt" (ex_file "a.txt" 1)) (received c') /\
    map_get "a.txt" (Children D') = None.
Proof.
  apply (removed_entry_one_Remove ex_watcher ex_fs_shrunk 2%nat ex_tree
           (ex_dir "d" 1)
           [ex_file ".h" 1; ex_link "l" 1; ex_dir "sub" 1; ex_file "x" 1]
           "a.txt" (mkNode "/d/a.txt" (ex_file "a.txt" 1) false false [])
           new_cycle);
    try reflexivity.
  - exact ex_fs_shrunk_static.
  - exact ex_tree_ok.
  - exact ex_tree_keyed.
  - simpl. intuition discriminate.
Defined.

(* ================================================================= *)
(** ** Children are stored under their file names *)

Lemma keyed_node (n : FileNode) (ch : ChildMap) :
  Forall (child_keyed (Path n)) ch ->
  forall n', Path n' = Path n -> Children n' = ch ->
             node_all keyed_by_name n'.
Proof.
  intros Hch n' Hp Hc. rewrite Forall_forall in Hch. constructor.
  - unfold keyed_by_name. rewrite Hc, Hp. apply Forall_forall.
    intros kv Hin c Hkv. apply (Hch kv Hin c Hkv).
  - rewrite Hc. apply Forall_forall. intros kv Hin c Hkv.
    apply (Hch kv Hin c Hkv).
Qed.

Lemma keyed_children (n : FileNode) :
  node_all keyed_by_name n -> Forall (child_keyed (Path n)) (Children n).
Proof.
  intros H. pose proof (node_all_head _ _ H) as Hh.
  pose proof (node_all_children _ _ H) as Hc.
  unfold keyed_by_name in Hh. unfold children_all in Hc.
  rewrite Forall_forall in *. intros kv Hin c Hkv. split.
  - apply (Hh kv Hin c Hkv).
  - apply (Hc kv Hin c Hkv).
Qed.

Section KeyedPass.
Variable w : GoWatcher.
Variable fs : FS.

Lemma pollEntries_keyed poll (dir : string) (rec : bool) :
    poll_keyed poll ->
    forall todo children infoMap c,
      Forall (child_keyed dir) children ->
      match pollEntries poll w dir rec todo children infoMap c with
      | Ret r _ => Forall (child_keyed dir) (snd (fst r))
      | _ => True
      end.
Proof.
    intros Hpoll todo.
    induction todo as [|info rest IH]; intros children infoMap c Hch.
    - simpl. assumption.
    - cbn [pollEntries isHiddenFile].
      destruct (ignoreHidden w && _); [apply IH; assumption|].
      destruct (map_get (Name info) children) as [[child|]|] eqn:Hget;
        [| exact Logic.I |].
      + destruct (ignored child); [apply IH; assumption|].
        pose proof Hch as Hall. rewrite Forall_forall in Hall.
        destruct (Hall _ (map_get_In _ _ _ Hget) child eq_refl)
          as [Hpath Hkeyed]. simpl in Hpath.
        pose proof (Hpoll child c Hkeyed) as Hp.
        destruct (poll (Some child) c) as [r c'| | |]; try exact Logic.I.
        apply IH. apply Forall_map_set; [assumption|].
        intros c0 Hc0. simpl in Hc0 |- *.
        destruct (Hp c0 Hc0) as [Hp0 Hk0]. split; [congruence | assumption].
      + set (newChild := newNode _ info rec _).
        assert (Hnew : child_keyed dir (Name info, Some newChild)).
        { intros c0 [= <-]. split; [reflexivity|].
          constructor; constructor. }
        destruct (ignored newChild).
        { apply IH. apply Forall_map_set; assumption. }
        destruct (select_send w _ c) as [c1|]; simpl.
        2:{ apply Forall_map_set; assumption. }
        pose proof (Hpoll newChild c1 (proj2 (Hnew newChild eq_refl))) as Hp.
        destruct (poll (Some newChild) c1) as [r c2| | |]; try exact Logic.I.
        apply IH. apply Forall_map_set.
        * apply Forall_map_set; assumption.
        * intros c0 [= <-]. simpl. destruct r as [m|].
          -- destruct (Hp m eq_refl) as [Hp0 Hk0]. split; [|assumption].
             rewrite Hp0. reflexivity.
          -- apply (Hnew newChild eq_refl).
Qed.

Lemma sweepChildren_keyed poll (dir : string) :
    poll_keyed poll ->
    forall todo kept infoMap c,
      Forall (child_keyed dir) todo -> Forall (child_keyed dir) kept ->
      match sweepChildren poll w todo kept infoMap c with
      | Ret r _ => Forall (child_keyed dir) (snd r)
      | _ => True
      end.
Proof.
    intros Hpoll todo.
    induction todo as [|[k [childNode|]] rest IH];
      intros kept infoMap c Htodo Hkept; simpl.
    - assumption.
    - inversion Htodo as [|? ? Hhd Htl]; subst.
      destruct (Hhd childNode eq_refl) as [Hpath Hkeyed]. simpl in Hpath.
      destruct (str_mem k infoMap).
      + pose proof (Hpoll childNode c Hkeyed) as Hp.
        destruct (poll (Some childNode) c) as [r c'| | |]; try exact Logic.I.
        apply IH; [assumption|]. apply Forall_app. split; [assumption|].
        constructor; [|constructor]. intros c0 Hc0. simpl in Hc0 |- *.
        destruct (Hp c0 Hc0) as [Hp0 Hk0]. split; [congruence | assumption].
      + destruct (ignored childNode); [apply IH; assumption|].
        destruct (select_send w _ c) as [c1|]; simpl.
        * apply IH; assumption.
        * apply Forall_app. auto.
    - inversion Htodo; subst. apply IH; assumption.
Qed.

Lemma pollNodeEvent_keyed (fuel : nat) : poll_keyed (pollNodeEvent fuel w fs).
Proof.
    induction fuel as [|fuel IH]; intros n c Hn; [exact Logic.I|].
    cbn [pollNodeEvent].
    destruct (ignored n); [intros n' [= <-]; auto|].
    destruct (Lstat fs (Path n)) as [newInfo|e].
    2:{ destruct (cancel c); [exact Logic.I | discriminate]. }
    destruct (send_if _ w _ c) as [c1|]; [|intros n' [= <-]; auto].
    destruct (send_if _ w _ c1) as [c2|]; [|intros n' [= <-]; auto].
    cbn [set_Info Path recursive Children].
    pose proof (keyed_children n Hn) as Hch.
    assert (Hres : forall ch' n',
               Forall (child_keyed (Path n)) ch' ->
               Some (set_Children (set_Info n newInfo) ch') = Some n' ->
               Path n' = Path n /\ node_all keyed_by_name n').
    { intros ch' n' Hch' [= <-]. split; [reflexivity|].
      apply (keyed_node n ch'); auto. }
    assert (Hkeep : forall n', Some (set_Info n newInfo) = Some n' ->
                               Path n' = Path n /\ node_all keyed_by_name n').
    { intros n' [= <-]. split; [reflexivity|].
      apply (keyed_node n (Children n)); auto. }
    destruct (_ || _); [exact Hkeep|].
    destruct (ReadDir fs (Path n)) as [infoList|e]; [|exact Hkeep].
    pose proof (pollEntries_keyed _ (Path n) (recursive n) IH infoList
                  (Children n) [] c2 Hch) as He.
    destruct (pollEntries _ w (Path n) (recursive n) infoList (Children n) [] c2)
      as [[[returned children] infoMap] c3| | |]; try exact Logic.I.
    cbn [fst snd] in He.
    destruct returned; [intros n'; apply Hres; assumption|].
    pose proof (sweepChildren_keyed _ (Path n) IH children [] infoMap c3 He
                  (Forall_nil _)) as Hs.
    destruct (sweepChildren _ w children [] infoMap c3)
      as [[returned' children'] c4| | |]; try exact Logic.I.
    intros n'. apply Hres. exact Hs.
Qed.

Lemma pollRoots_keyed (fuel : nat) :
    forall todo c roots' c',
      Forall root_keyed todo ->
      pollRoots fuel w fs todo c = Ret roots' c' ->
      Forall root_keyed roots'.
Proof.
    induction todo as [|[k v] rest IH]; intros c roots' c' Htodo; simpl.
    - intros [= <- <-]. constructor.
    - inversion Htodo as [|? ? Hhd Htl]; subst.
      destruct (pollNodeEvent fuel w fs v c) as [v' c1| | |] eqn:Hv;
        try discriminate.
      destruct (pollRoots fuel w fs rest c1) as [rest' c2| | |] eqn:Hrest;
        try discriminate.
      intros [= <- <-]. constructor; [|eapply IH; eassumption].
      intros n' Hn'. simpl in Hn' |- *. subst v'.
      destruct v as [n|].
      + destruct (Hhd n eq_refl) as [Hp Hk]. simpl in Hp.
        pose proof (pollNodeEvent_keyed fuel n c Hk) as H.
        rewrite Hv in H. destruct (H n' eq_refl) as [Hp' Hk'].
        split; [congruence | assumption].
      + destruct fuel; simpl in Hv; discriminate.
Qed.

Lemma traverseEntries_keyed (fuel : nat) (path : string) (rec : bool) :
    (forall p r n err,
        traverseTree fuel w fs p r = Some (Some n, err) ->
        Path n = p /\ node_all keyed_by_name n) ->
    forall infoList childMap r,
      Forall (child_keyed path) childMap ->
      traverseEntries (traverseTree fuel w fs) w path rec infoList childMap
      = Some (inl r) ->
      Forall (child_keyed path) r.
Proof.
    intros Hbuild infoList.
    induction infoList as [|info rest IH]; intros childMap r Hch.
    - simpl. intros [= <-]. assumption.
    - cbn [traverseEntries isHiddenFile].
      destruct (_ || _); [apply IH; assumption|].
      destruct (negb rec).
      + apply IH. apply Forall_map_set; [assumption|].
        intros c [= <-]. split; [reflexivity|]. constructor; constructor.
      + destruct (negb _); [|apply IH; assumption].
        destruct (traverseTree fuel w fs (Join path (Name info)) true)
          as [[child err]|] eqn:Hb; [|discriminate].
        apply IH. apply Forall_map_set; [assumption|].
        intros c Hc. simpl in Hc. subst child.
        apply (Hbuild _ _ _ _ Hb).
Qed.

Lemma traverseTree_keyed (fuel : nat) :
    forall p r n err,
      traverseTree fuel w fs p r = Some (Some n, err) ->
      Path n = p /\ node_all keyed_by_name n.
Proof.
    induction fuel as [|fuel IH]; intros p r n err; [discriminate|].
    cbn [traverseTree].
    destruct (Lstat fs p) as [stat|e]; [|discriminate].
    set (node := newNode p stat r (shouldIgnore w (Name stat) p)).
    assert (Hnode : Path node = p /\ node_all keyed_by_name node).
    { split; [reflexivity|]. constructor; constructor. }
    destruct (_ || _); [intros H; inversion H; subst; assumption|].
    destruct (ReadDir fs p) as [infoList|e];
      [|intros H; inversion H; subst; assumption].
    destruct (traverseEntries _ w p r infoList []) as [[childMap|e]|] eqn:Ht;
      [| |discriminate]; intros H; inversion H; subst; [|assumption].
    split; [reflexivity|].
    apply (keyed_node node childMap); [|reflexivity|reflexivity].
    apply (traverseEntries_keyed fuel p r IH infoList [] childMap);
      [constructor | exact Ht].
Qed.
End KeyedPass.

Lemma reachable_roots_keyed_by_name (w : GoWatcher) :
  reachable w -> Forall root_keyed (fileTrees w).
Proof.
  induction 1 as [|w w' Hw IH Hsame|w w' fuel fs path rec err Hw IH Hadd
                  |w fs path Hw IH|w Hw IH|w w' fuel fs c c' Hw IH Hrun].
  - constructor.
  - rewrite Hsame. assumption.
  - unfold AddPath in Hadd.
    destruct (Abs fs path) as [p|e]; [|injection Hadd as _ <-; assumption].
    destruct (Lstat fs p) as [stat|e]; [|injection Hadd as _ <-; assumption].
    destruct (negb _); [injection Hadd as _ <-; assumption|].
    destruct (map_get p (fileTrees w)); [injection Hadd as _ <-; assumption|].
    cbn [isHiddenFile] in Hadd.
    destruct (_ || _); [injection Hadd as _ <-; assumption|].
    destruct (traverseTree fuel w fs p rec) as [[[n|] [e|]]|] eqn:Ht;
      try discriminate; [injection Hadd as _ <-; assumption|].
    destruct (fileTreesNil w); [discriminate|]. injection Hadd as _ <-.
    cbn [fileTrees set_fileTrees]. apply Forall_map_set; [assumption|].
    intros n0 [= <-]. destruct (traverseTree_keyed w fs fuel p rec n None Ht)
      as [Hp Hk].
    split; [exact Hp|]. apply (keyed_node n (Children n)).
    + apply keyed_children. assumption.
    + reflexivity.
    + reflexivity.
  - unfold RemovePath. destruct (Abs fs path) as [p|e]; [|assumption].
    destruct (map_get p (fileTrees w)); [|assumption].
    simpl. apply Forall_map_delete. assumption.
  - unfold Close. destruct (running w); [constructor | assumption].
  - unfold pollEvents in Hrun.
    destruct (pollRoots fuel w fs (fileTrees w) c) as [roots c1| | |] eqn:Hr;
      try discriminate.
    injection Hrun as <- <-. simpl.
    exact (pollRoots_keyed w fs fuel _ _ _ _ IH Hr).
Qed.

(** X21. Children are stored under their file names.  In every watcher
    state that the public operations can produce, a root is stored under
    its own path, and below it the child stored under the key [k] of a
    node has the path of that node joined with [k]. *)
Theorem nodes_are_keyed_by_file_name (w : GoWatcher) (key : string)
    (root n c : FileNode) (k : string) :
  reachable w ->
  In (key, Some root) (fileTrees w) ->
  subnode n root ->
  In (k, Some c) (Children n) ->
  Path root = key /\ Path c = Join (Path n) k.
Proof.
  intros Hw Hroot Hn Hc.
  pose proof (reachable_roots_keyed_by_name w Hw) as H.
  rewrite Forall_forall in H.
  destruct (H _ Hroot root eq_refl) as [Hp Hk]. split; [exact Hp|].
  pose proof (node_all_subnode _ n root Hn Hk) as Hkn.
  unfold keyed_by_name in Hkn. rewrite Forall_forall in Hkn.
  exact (Hkn _ Hc c eq_refl).
Qed.

Lemma nodes_are_keyed_by_file_name_witness :
  Path ex_tree = "/d" /\
  Path (mkNode "/d/sub" (ex_dir "sub" 1) false false []) = Join (Path ex_tree) "sub".
Proof.
  apply (nodes_are_keyed_by_file_name ex_added "/d" ex_tree ex_tree
           (mkNode "/d/sub" (ex_dir "sub" 1) false false []) "sub"
           ex_added_reachable).
  - left. reflexivity.
  - apply subnode_self.
  - simpl. auto.
Defined.

(* ================================================================= *)
(** ** A pass under the cap *)

Lemma pollRoots_cancelled (w : GoWatcher) (fs : FS) (fuel : nat) :
  forall todo c,
    cancel c = true ->
    match pollRoots fuel w fs todo c with
    | Ret _ c' | Blocked c' | Panic c' => c' = c
    | OutOfFuel => True
    end.
Proof.
  induction todo as [|[k v] rest IH]; intros c Hc; simpl; [reflexivity|].
  assert (Hv : match pollNodeEvent fuel w fs v c with
               | Ret _ c' | Blocked c' | Panic c' => c' = c
               | OutOfFuel => True
               end).
  { destruct v as [n|].
    - apply cancelled_pass_sends_nothing. assumption.
    - destruct fuel; simpl; auto. }
  destruct (pollNodeEvent fuel w fs v c) as [v' c1| | |]; auto.
  subst c1. specialize (IH c Hc).
  destruct (pollRoots fuel w fs rest c) as [rest' c2| | |]; auto.
Qed.

(** X22. Once [cancel] is closed the pass sends nothing more: however it
    ends, the channels of the cycle are as it found them. *)
Theorem cancelled_pass_is_silent (w : GoWatcher) (fs : FS) (fuel : nat)
    (c : Cycle) :
  cancel c = true ->
  match pollEvents fuel w fs c with
  | Ret _ c' | Blocked c' | Panic c' => c' = c
  | OutOfFuel => True
  end.
Proof.
  intros Hc. unfold pollEvents.
  pose proof (pollRoots_cancelled w fs fuel (fileTrees w) c Hc) as H.
  destruct (pollRoots fuel w fs (fileTrees w) c); exact H.
Qed.

Lemma cancelled_pass_is_silent_witness :
  match pollEvents 3 ex_added ex_fs_written
          {| cancel := true; numEvents := 2; received := []; delivered := [] |}
  with
  | Ret _ c' | Blocked c' | Panic c' =>
      c' = {| cancel := true; numEvents := 2; received := [];
              delivered := [] |}
  | OutOfFuel => True
  end.
Proof.
  exact (cancelled_pass_is_silent ex_added ex_fs_written 3
           {| cancel := true; numEvents := 2; received := []; delivered := [] |}
           eq_refl).
Defined.

Lemma forward_delivers_survivors (w : GoWatcher) (e : Event) (c : Cycle) :
  Forall (fun x => survives w x = true) (delivered c) ->
  incl (delivered c) (received c) ->
  Forall (fun x => survives w x = true) (delivered (forward w e c)) /\
  incl (delivered (forward w e c)) (received (forward w e c)).
Proof.
  intros Hs Hi.
  assert (Hi' : incl (delivered c) (received c ++ [e]))
    by (intros x Hx; apply in_or_app; left; auto).
  destruct (survives w e) eqn:He.
  - rewrite (forward_counted w e c He). cbv zeta.
    destruct (_ && _); simpl; [auto|]. split.
    + apply Forall_app. split; [assumption|]. constructor; [assumption|].
      constructor.
    + intros x Hx. apply in_app_or in Hx as [Hx|Hx]; apply in_or_app; auto.
  - rewrite (forward_dropped w e c He). simpl. auto.
Qed.

Lemma forward_under_cap (w : GoWatcher) (N : Z) (e : Event) (c : Cycle) :
  maxEvents w = N -> 0 < N < max_int ->
  cancel c = false ->
  numEvents c = Z.of_nat (List.length (delivered c)) ->
  Z.of_nat (List.length (delivered c)) <= N ->
  Z.of_nat (List.length (delivered (forward w e c))) <= N /\
  (cancel (forward w e c) = false ->
   numEvents (forward w e c)
   = Z.of_nat (List.length (delivered (forward w e c)))).
Proof.
  intros HN Hpos Hc Hnum Hle.
  destruct (survives w e) eqn:He.
  - rewrite (forward_counted w e c He). cbv zeta.
    rewrite int_wrap_small by (unfold max_int in *; lia).
    rewrite HN. replace (0 <? N) with true by (symmetry; apply Z.ltb_lt; lia).
    cbn [andb].
    destruct (N <? numEvents c + 1) eqn:Hcap;
      [apply Z.ltb_lt in Hcap | apply Z.ltb_ge in Hcap]; simpl.
    + split; [assumption | discriminate].
    + rewrite length_app. simpl. split; [lia|]. intros _. lia.
  - rewrite (forward_dropped w e c He). simpl. auto.
Qed.

(** X23. What a pass delivers.  However the pass ends, every event
    forwarded to the public channel was sent by the pass and passes the
    operation filter and the notice filter; with a cap [N] between one
    and the largest [int], at most [N] events are forwarded, whatever
    has changed on disk. *)
Theorem pass_delivers_filtered_under_cap (w : GoWatcher) (fs : FS)
    (fuel : nat) :
  match pollEvents fuel w fs new_cycle with
  | Ret _ c' | Blocked c' | Panic c' =>
      Forall (fun e => survives w e = true) (delivered c') /\
      incl (delivered c') (received c') /\
      (0 < maxEvents w < max_int ->
       Z.of_nat (List.length (delivered c')) <= maxEvents w)
  | OutOfFuel => True
  end.
Proof.
  set (I := fun c : Cycle =>
              Forall (fun e => survives w e = true) (delivered c) /\
              incl (delivered c) (received c) /\
              (0 < maxEvents w < max_int ->
               Z.of_nat (List.length (delivered c)) <= maxEvents w /\
               (cancel c = false ->
                numEvents c = Z.of_nat (List.length (delivered c))))).
  assert (Hpoll : forall fuel0,
             poll_keeps (fun _ => True) I (pollNodeEvent fuel0 w fs)).
  { intros fuel0. apply pollNodeEvent_keeps; auto.
    intros n e c _ _ _ Hc [Hs [Hi Hcap]].
    destruct (forward_delivers_survivors w e c Hs Hi) as [Hs' Hi'].
    split; [assumption|]. split; [assumption|].
    intros Hpos. destruct (Hcap Hpos) as [Hle Hnum].
    apply (forward_under_cap w (maxEvents w) e c); auto. }
  pose proof (pollRoots_keeps w fs (fun _ => True) I Hpoll fuel (fileTrees w)
                new_cycle (children_all_True _)) as H.
  assert (H0 : I new_cycle).
  { unfold I. simpl. split; [constructor|]. split; [intros x []|].
    intros Hpos. split; [lia | reflexivity]. }
  specialize (H H0). unfold pollEvents.
  destruct (pollRoots fuel w fs (fileTrees w) new_cycle) as [roots c1| | |];
    simpl in H; [| | |exact Logic.I].
  - destruct H as [_ [Hs [Hi Hcap]]]. repeat split; auto.
    intros Hpos. apply (Hcap Hpos).
  - destruct H as [_ [Hs [Hi Hcap]]]. repeat split; auto.
    intros Hpos. apply (Hcap Hpos).
  - destruct H as [Hs [Hi Hcap]]. repeat split; auto.
    intros Hpos. apply (Hcap Hpos).
Qed.

Lemma pass_delivers_filtered_under_cap_witness :
  Z.of_nat (List.length
              [mkEvent Remove "/a" (ex_file "a" 1)]) <= maxEvents ex_capped.
Proof.
  pose proof (pass_delivers_filtered_under_cap ex_capped ex_fs_gone 1) as H.
  simpl in H. apply (proj2 (proj2 H)). unfold max_int. simpl. lia.
Defined.

(* ================================================================= *)
(** ** What AddPath stores *)

Lemma traverseEntries_flat build (w : GoWatcher) (path : string) :
  forall infoList childMap r,
    Forall (fun kv => forall c, snd kv = Some c ->
                        Children c = [] /\ recursive c = false) childMap ->
    traverseEntries build w path false infoList childMap = Some (inl r) ->
    Forall (fun kv => forall c, snd kv = Some c ->
                        Children c = [] /\ recursive c = false) r.
Proof.
  induction infoList as [|info rest IH]; intros childMap r Hch.
  - simpl. intros [= <-]. assumption.
  - cbn [traverseEntries isHiddenFile].
    destruct (_ || _); [apply IH; assumption|]. cbn [negb].
    apply IH. apply Forall_map_set; [assumption|].
    intros c [= <-]. split; reflexivity.
Qed.

(** X24. A path added without the recursive flag is recorded one level
    deep: the root gets its recursive flag set all the same, and each of
    its children is a node without children whose recursive flag is off,
    so that the diff compares a sub-directory by its own metadata and
    does not list it. *)
Theorem AddPath_flat_records_one_level (fuel : nat) (w w' : GoWatcher)
    (fs : FS) (path p : string) (root c : FileNode) (k : string) :
  Abs fs path = inl p ->
  map_get p (fileTrees w) = None ->
  AddPath fuel w fs path false = Returned None w' ->
  map_get p (fileTrees w') = Some (Some root) ->
  In (k, Some c) (Children root) ->
  recursive root = true /\ Children c = [] /\ recursive c = false.
Proof.
  intros Ha Hfresh. unfold AddPath. rewrite Ha.
  destruct (Lstat fs p) as [stat|e]; [|discriminate].
  destruct (negb _); [discriminate|]. rewrite Hfresh. cbn [isHiddenFile].
  destruct (_ || _); [intros [= <-]; congruence|].
  destruct (traverseTree fuel w fs p false) as [[[n|] [e|]]|] eqn:Ht;
    try discriminate.
  destruct (fileTreesNil w); [discriminate|].
  intros [= <-]. cbn [fileTrees set_fileTrees].
  rewrite map_get_map_set, String.eqb_refl. intros [= <-].
  cbn [set_recursive Children recursive]. intros Hin.
  split; [reflexivity|].
  destruct fuel as [|fuel]; [discriminate|]. cbn [traverseTree] in Ht.
  destruct (Lstat fs p) as [stat'|e]; [|discriminate].
  destruct (_ || _); [injection Ht as <-; destruct Hin|].
  destruct (ReadDir fs p) as [infoList|e]; [|discriminate].
  destruct (traverseEntries _ w p false infoList []) as [[childMap|e]|] eqn:He;
    try discriminate.
  injection Ht as <-. cbn [set_Children Children] in Hin.
  pose proof (traverseEntries_flat _ w p infoList [] childMap
                (Forall_nil _) He) as H.
  rewrite Forall_forall in H. exact (H _ Hin c eq_refl).
Qed.

Lemma AddPath_flat_records_one_level_witness :
  recursive ex_tree = true /\
  Children (mkNode "/d/sub" (ex_dir "sub" 1) false false []) = [] /\
  recursive (mkNode "/d/sub" (ex_dir "sub" 1) false false []) = false.
Proof.
  apply (AddPath_flat_records_one_level 3 ex_watcher ex_added ex_fs "/d" "/d"
           ex_tree (mkNode "/d/sub" (ex_dir "sub" 1) false false []) "sub");
    try reflexivity.
  simpl. auto.
Defined.

(** X25. [AddPath] touches one root at most.  It changes no setting and
    no tree stored under another key than the absolute path, and a call
    that returns an error leaves the watcher exactly as it was. *)
Theorem AddPath_touches_one_root (fuel : nat) (w w' : GoWatcher) (fs : FS)
    (path : string) (rec : bool) (err : option error) :
  AddPath fuel w fs path rec = Returned err w' ->
  w' = set_fileTrees w (fileTrees w') /\
  (err <> None -> w' = w) /\
  forall p k,
    Abs fs path = inl p -> k <> p ->
    map_get k (fileTrees w') = map_get k (fileTrees w).
Proof.
  assert (Hsame : forall e, Returned e w = Returned err w' ->
                            w' = set_fileTrees w (fileTrees w') /\
                            (err <> None -> w' = w) /\
                            forall p k : string,
                              (Abs fs path = inl p) -> k <> p ->
                              map_get k (fileTrees w')
                              = map_get k (fileTrees w)).
  { intros e [= _ <-]. split; [destruct w; reflexivity | auto]. }
  unfold AddPath.
  destruct (Abs fs path) as [p|e] eqn:Ha; [|apply Hsame].
  destruct (Lstat fs p) as [stat|e]; [|apply Hsame].
  destruct (negb _); [apply Hsame|].
  destruct (map_get p (fileTrees w)); [apply Hsame|].
  cbn [isHiddenFile].
  destruct (_ || _); [apply Hsame|].
  destruct (traverseTree fuel w fs p rec) as [[[n|] [e|]]|];
    try discriminate; [apply Hsame|].
  destruct (fileTreesNil w); [discriminate|].
  intros [= <- <-]. split; [reflexivity|]. split; [congruence|].
  intros p0 k [= <-] Hk. cbn [fileTrees set_fileTrees].
  rewrite map_get_map_set.
  destruct (String.eqb_spec k p); [contradiction | reflexivity].
Qed.

Lemma AddPath_touches_one_root_witness :
  map_get "/e" (fileTrees ex_added) = map_get "/e" (fileTrees ex_watcher).
Proof.
  refine (proj2 (proj2 (AddPath_touches_one_root 3 ex_watcher ex_added ex_fs
                          "/d" false None eq_refl)) "/d" "/e" eq_refl _).
  discriminate.
Defined.

(* ================================================================= *)
(** ** A complete pass brings the snapshot in step *)

Lemma keys_map_set_old {V : Type} (k k' : string) (v : V)
    (m : list (string * V)) :
  In k (map_keys m) -> In k (map_keys (map_set k' v m)).
Proof.
  intros H. rewrite map_keys_map_set.
  destruct (str_mem k' (map_keys m)); [assumption|].
  apply in_or_app. auto.
Qed.

Lemma keys_map_set_new {V : Type} (k : string) (v : V) (m : list (string * V)) :
  In k (map_keys (map_set k v m)).
Proof.
  rewrite map_keys_map_set.
  destruct (str_mem k (map_keys m)) eqn:H.
  - apply str_mem_In. assumption.
  - apply in_or_app. right. left. reflexivity.
Qed.

Lemma tree_ready_newNode (w : GoWatcher) (fs : FS) (fuel : nat)
    (path : string) (info : FileInfo) (rec ign : bool) :
  fs_depth fs fuel path = true ->
  tree_ready w fs fuel (newNode path info rec ign).
Proof.
  intros Hd.
  destruct (tree_fits_newNode fs fuel path info rec ign Hd) as [Hfits Hok].
  split; [assumption|]. split; [assumption|].
  split; [constructor; constructor|].
  split; constructor; try constructor.
  intros l i ch _ _ [].
Qed.

Section SettlingPass.
Variable w : GoWatcher.
Variable fs : FS.
Hypothesis no_cap : maxEvents w <= 0.

Lemma child_state_other (fuel : nat) (D : FileNode) (l : list FileInfo)
      (name : string) (infoMap : list string) (kv : string * option FileNode) :
    fst kv <> name ->
    child_state w fs fuel D l infoMap kv ->
    child_state w fs fuel D l (name :: infoMap) kv.
Proof.
    unfold child_state. intros Hne H. simpl.
    apply String.eqb_neq in Hne. rewrite Hne. exact H.
Qed.

Lemma child_state_Some (fuel : nat) (D : FileNode) (l : list FileInfo)
      (infoMap : list string) (kv : string * option FileNode) :
    child_state w fs fuel D l infoMap kv -> exists ch, snd kv = Some ch.
Proof.
    unfold child_state, diffed_child, pending_child.
    destruct (str_mem (fst kv) infoMap); intros [ch [H _]]; eauto.
Qed.

Lemma pollEntries_settles (fuel : nat) poll (D : FileNode)
      (l : list FileInfo) :
    poll_settles w fs fuel poll ->
    (forall info, In info l ->
       Lstat fs (Join (Path D) (Name info)) = inl info) ->
    NoDup (map Name l) ->
    forall todo children infoMap c,
      incl todo l -> NoDup (map Name todo) ->
      (forall k, str_mem k infoMap = true -> ~ In k (map Name todo)) ->
      (forall info, In info todo ->
         fs_depth fs fuel (Join (Path D) (Name info)) = true) ->
      cancel c = false -> NoDup (map_keys children) ->
      Forall (child_state w fs fuel D l infoMap) children ->
      (forall k, str_mem k infoMap = true -> In k (map_keys children)) ->
      exists children' infoMap' c',
        pollEntries poll w (Path D) (recursive D) todo children infoMap c
        = Ret (false, children', infoMap') c' /\
        cancel c' = false /\ NoDup (map_keys children') /\
        Forall (child_state w fs fuel D l infoMap') children' /\
        (forall k, str_mem k infoMap' = true -> In k (map_keys children')) /\
        (forall info, In info todo ->
           visible w (Path D) (Name info) = true ->
           str_mem (Name info) infoMap' = true \/ enters_ignored w D info) /\
        (forall k, str_mem k infoMap = true -> str_mem k infoMap' = true).
Proof.
    intros Hpoll Hlstat Hnames todo.
    induction todo as [|info rest IH];
      intros children infoMap c Hincl Hnd Hdone Hdepth Hc Hkeys Hstate Hmem.
    - simpl. exists children, infoMap, c. repeat split; auto.
      all: try (intros info []).
    - assert (Hin : In info l) by (apply Hincl; left; reflexivity).
      assert (Hincl' : incl rest l)
        by (intros x Hx; apply Hincl; right; assumption).
      cbn [map] in Hnd. inversion Hnd as [|? ? Hname Hnd']; subst.
      assert (Hdepth' : forall i, In i rest ->
                fs_depth fs fuel (Join (Path D) (Name i)) = true)
        by (intros i Hi; apply Hdepth; right; assumption).
      assert (Hdone' : forall k, str_mem k infoMap = true ->
                                 ~ In k (map Name rest)).
      { intros k Hk Hr. apply (Hdone k Hk). right. assumption. }
      assert (Hnew : str_mem (Name info) infoMap = false).
      { destruct (str_mem (Name info) infoMap) eqn:E; [|reflexivity].
        exfalso. apply (Hdone _ E). left. reflexivity. }
      assert (Hstat := Hlstat info Hin).
      assert (Hd := Hdepth info (or_introl eq_refl)).
      (* what the rest of the loop gives once this entry is settled *)
      assert (Hnext : forall children1 infoMap1 c1,
                 cancel c1 = false -> NoDup (map_keys children1) ->
                 Forall (child_state w fs fuel D l infoMap1) children1 ->
                 (forall k, str_mem k infoMap1 = true ->
                            In k (map_keys children1)) ->
                 (forall k, str_mem k infoMap1 = true ->
                            str_mem k infoMap = true \/ k = Name info) ->
                 (forall k, str_mem k infoMap = true ->
                            str_mem k infoMap1 = true) ->
                 (visible w (Path D) (Name info) = true ->
                  str_mem (Name info) infoMap1 = true \/
                  enters_ignored w D info) ->
                 exists children' infoMap' c',
                   pollEntries poll w (Path D) (recursive D) rest
                     children1 infoMap1 c1
                   = Ret (false, children', infoMap') c' /\
                   cancel c' = false /\ NoDup (map_keys children') /\
                   Forall (child_state w fs fuel D l infoMap') children' /\
                   (forall k, str_mem k infoMap' = true ->
                              In k (map_keys children')) /\
                   (forall i, In i (info :: rest) ->
                      visible w (Path D) (Name i) = true ->
                      str_mem (Name i) infoMap' = true \/
                      enters_ignored w D i) /\
                   (forall k, str_mem k infoMap = true ->
                              str_mem k infoMap' = true)).
      { intros children1 infoMap1 c1 Hc1 Hk1 Hs1 Hm1 Hfrom Hto Hthis.
        destruct (IH children1 infoMap1 c1)
          as [ch' [im' [c' [Hrun [Hc' [Hk' [Hs' [Hm' [Hv' Hmono]]]]]]]]]; auto.
        { intros k Hk. destruct (Hfrom k Hk) as [H| ->]; auto. }
        exists ch', im', c'. split; [exact Hrun|]. split; [assumption|].
        split; [assumption|]. split; [assumption|]. split; [assumption|].
        split.
        - intros i [<-|Hi] Hvi; [|auto].
          destruct (Hthis Hvi) as [H|H]; auto.
        - intros k Hk. auto. }
      cbn [pollEntries isHiddenFile].
      assert (Hvis : visible w (Path D) (Name info)
                     = negb (ignoreHidden w &&
                             String.prefix "."
                               (Base (Join (Path D) (Name info)))))
        by reflexivity.
      destruct (ignoreHidden w && _) eqn:Hhid; cbn [negb] in Hvis.
      { apply Hnext; auto. intros H. congruence. }
      destruct (map_get (Name info) children) as [[child|]|] eqn:Hget.
      + (* a child known from an earlier pass *)
        pose proof Hstate as Hall. rewrite Forall_forall in Hall.
        pose proof (Hall _ (map_get_In _ _ _ Hget)) as Hchild.
        unfold child_state in Hchild. cbn [fst] in Hchild.
        rewrite Hnew in Hchild. destruct Hchild as [ch [Hch Hcase]].
        simpl in Hch. injection Hch as <-.
        destruct Hcase as [[Hig Hstale]|[Hig [Hready Hpath]]]; rewrite Hig.
        * apply Hnext; auto.
        * destruct (Hpoll child c Hc Hready Hig)
            as [child' [c1 [-> [Hc1 [Hstep' Hig']]]]].
          { exists info. simpl in Hpath. rewrite Hpath. exact Hstat. }
          apply Hnext; auto.
          -- apply NoDup_map_set. assumption.
          -- apply Forall_map_set_other; [assumption | |].
             ++ unfold child_state. simpl. rewrite String.eqb_refl. simpl.
                exists child'. cbn [fst snd]. split; [reflexivity|].
                split; [assumption|]. split; [assumption|].
                split; [apply in_map; assumption | assumption].
             ++ intros kv Hkv Hne. apply child_state_other; auto.
          -- intros k Hk. simpl in Hk.
             destruct (String.eqb k (Name info)) eqn:E.
             ++ apply String.eqb_eq in E. rewrite E. apply keys_map_set_new.
             ++ apply keys_map_set_old. apply Hmem. exact Hk.
          -- intros k Hk. simpl in Hk.
             destruct (String.eqb k (Name info)) eqn:E; [|auto].
             apply String.eqb_eq in E. auto.
          -- intros k Hk. simpl. rewrite Hk. apply orb_true_r.
          -- intros _. left. simpl. rewrite String.eqb_refl. reflexivity.
      + (* no child is nil *)
        exfalso. rewrite Forall_forall in Hstate.
        destruct (child_state_Some _ _ _ _ _
                    (Hstate _ (map_get_In _ _ _ Hget))) as [ch Hch].
        discriminate.
      + (* a new entry *)
        set (newChild := newNode _ info (recursive D) _).
        pose proof (tree_ready_newNode w fs fuel (Join (Path D) (Name info))
                      info (recursive D)
                      (shouldIgnore w (Name info) (Join (Path D) (Name info)))
                      Hd) as Hready.
        fold newChild in Hready.
        assert (Hold : forall kv,
                   In kv (map_set (Name info) (Some newChild) children) ->
                   fst kv <> Name info -> In kv children).
        { intros kv Hkv Hne. destruct (In_map_set _ _ _ _ Hkv) as [H|H];
            [assumption|]. subst kv. contradiction. }
        destruct (ignored newChild) eqn:Hig.
        * apply Hnext; auto.
          -- apply NoDup_map_set. assumption.
          -- apply Forall_map_set; [assumption|].
             unfold child_state. cbn [fst]. rewrite Hnew.
             exists newChild. split; [reflexivity|]. left.
             split; [assumption|]. intros i Hi Hn. simpl in Hn.
             assert (i = info)
               by (apply (NoDup_map_eq Name l); assumption).
             subst i. exact Hig.
          -- intros k Hk. apply keys_map_set_old. auto.
        * unfold select_send. rewrite Hc.
          pose proof (forward_keeps_open w
                        (mkEvent Create (Join (Path D) (Name info)) info) c
                        no_cap Hc) as Hc1.
          destruct (Hpoll newChild _ Hc1 Hready Hig)
            as [m [c2 [-> [Hc2 [Hstep' Hig']]]]].
          { exists info. exact Hstat. }
          apply Hnext; auto.
          -- apply NoDup_map_set, NoDup_map_set. assumption.
          -- apply Forall_map_set_other;
               [apply NoDup_map_set; assumption | |].
             ++ unfold child_state. simpl. rewrite String.eqb_refl. simpl.
                exists m. cbn [fst snd]. split; [reflexivity|].
                split; [assumption|]. split; [assumption|].
                split; [apply in_map; assumption | assumption].
             ++ intros kv Hkv Hne. apply child_state_other; auto.
                rewrite Forall_forall in Hstate. auto.
          -- intros k Hk. simpl in Hk.
             destruct (String.eqb k (Name info)) eqn:E.
             ++ apply String.eqb_eq in E. rewrite E. apply keys_map_set_new.
             ++ apply keys_map_set_old, keys_map_set_old. apply Hmem.
                exact Hk.
          -- intros k Hk. simpl in Hk.
             destruct (String.eqb k (Name info)) eqn:E; [|auto].
             apply String.eqb_eq in E. auto.
          -- intros k Hk. simpl. rewrite Hk. apply orb_true_r.
          -- intros _. left. simpl. rewrite String.eqb_refl. reflexivity.
Qed.
Lemma sweepChildren_settles (fuel : nat) poll (D : FileNode)
      (l : list FileInfo) :
    poll_silent w fs fuel poll ->
    forall todo kept infoMap c,
      cancel c = false ->
      NoDup (map_keys (kept ++ todo)) ->
      Forall (child_state w fs fuel D l infoMap) todo ->
      Forall (diffed_child w fs fuel D l) kept ->
      exists kept' c',
        sweepChildren poll w todo kept infoMap c = Ret (false, kept') c' /\
        cancel c' = false /\ NoDup (map_keys kept') /\
        Forall (diffed_child w fs fuel D l) kept' /\
        (forall k,
            In k (map_keys kept) \/
            (In k (map_keys todo) /\ str_mem k infoMap = true) ->
            In k (map_keys kept')).
Proof.
    intros Hpoll todo.
    induction todo as [|[k [ch|]] rest IH];
      intros kept infoMap c Hc Hkeys Hstate Hkept.
    - simpl. exists kept, c. rewrite app_nil_r in Hkeys.
      split; [reflexivity|]. split; [assumption|]. split; [assumption|].
      split; [assumption|]. intros k [H|[[] _]]. exact H.
    - inversion Hstate as [|? ? Hhd Hrest]; subst.
      assert (Hfresh : ~ In k (map_keys rest)).
      { unfold map_keys in *. rewrite map_app in Hkeys. simpl in Hkeys.
        apply NoDup_remove_2 in Hkeys. intros H. apply Hkeys.
        apply in_or_app. auto. }
      assert (Hkeys' : NoDup (map_keys (kept ++ rest))).
      { unfold map_keys in *. rewrite map_app in *. simpl in Hkeys.
        apply NoDup_remove_1 in Hkeys. assumption. }
      unfold child_state in Hhd. cbn [fst] in Hhd.
      cbn [sweepChildren].
      destruct (str_mem k infoMap) eqn:Hmem.
      + (* diffed in the first loop: diffed again, silently *)
        destruct Hhd as [ch0 [Hch0 [Hstep [Hig [Hl Hv]]]]].
        simpl in Hch0. injection Hch0 as <-.
        destruct (Hpoll ch c Hstep) as [ch' [-> [Hstep' Hig']]].
        destruct (IH (kept ++ [(k, Some ch')]) (str_remove k infoMap) c)
          as [kept' [c' [Hrun [Hc' [Hk' [Hd' Hin']]]]]]; auto.
        * rewrite <- app_assoc. unfold map_keys in *.
          rewrite !map_app in *. exact Hkeys.
        * rewrite Forall_forall in Hrest |- *. intros kv Hkv.
          specialize (Hrest kv Hkv). unfold child_state in *.
          rewrite str_mem_remove_other; [assumption|].
          intros Heq. apply Hfresh. rewrite <- Heq.
          apply (in_map fst _ _ Hkv).
        * apply Forall_app. split; [assumption|].
          constructor; [|constructor]. exists ch'. cbn [fst snd].
          split; [reflexivity|]. split; [assumption|].
          split; [congruence|]. auto.
        * exists kept', c'. split; [exact Hrun|]. split; [assumption|].
          split; [assumption|]. split; [assumption|].
          intros k0 Hk0. apply Hin'. unfold map_keys in *.
          rewrite map_app. simpl.
          destruct Hk0 as [H|[[<-|H] Hm]].
          -- left. apply in_or_app. auto.
          -- left. apply in_or_app. right. left. reflexivity.
          -- right. split; [assumption|].
             rewrite str_mem_remove_other; [assumption|].
             intros ->. contradiction.
      + (* not diffed: an ignored node, or an entry that has gone *)
        assert (Hdrop : forall c1, cancel c1 = false ->
                  exists kept' c',
                    sweepChildren poll w rest kept infoMap c1
                    = Ret (false, kept') c' /\
                    cancel c' = false /\ NoDup (map_keys kept') /\
                    Forall (diffed_child w fs fuel D l) kept' /\
                    (forall k0,
                        In k0 (map_keys kept) \/
                        (In k0 (map_keys ((k, Some ch) :: rest)) /\
                         str_mem k0 infoMap = true) ->
                        In k0 (map_keys kept'))).
        { intros c1 Hc1.
          destruct (IH kept infoMap c1)
            as [kept' [c' [Hrun [Hc' [Hk' [Hd' Hin']]]]]]; auto.
          exists kept', c'. split; [exact Hrun|]. split; [assumption|].
          split; [assumption|]. split; [assumption|].
          intros k0 [H|[Hin Hm]]; [auto|].
          unfold map_keys in Hin. simpl in Hin.
          destruct Hin as [Heq|Hin]; [subst k0; congruence | auto]. }
        destruct (ignored ch); [apply Hdrop; assumption|].
        unfold select_send. rewrite Hc. apply Hdrop.
        apply forward_keeps_open; assumption.
    - inversion Hstate as [|? ? Hhd Hrest]; subst.
      destruct (child_state_Some _ _ _ _ _ Hhd) as [ch Hch]. discriminate.
Qed.

Hypothesis at_rest : fs_at_rest fs.

Lemma pollNodeEvent_settles (fuel : nat) :
    poll_settles w fs fuel (pollNodeEvent fuel w fs).
Proof.
    induction fuel as [|fuel IH];
      intros n c Hc [Hok [Hfits [Hkeyed [Hstale Hleaf]]]] Hig [i Hstat];
      [discriminate|].
    cbn [tree_fits] in Hfits. apply andb_true_iff in Hfits as [Hdepth Hkids].
    rewrite forallb_forall in Hkids.
    pose proof (node_all_head _ _ Hok) as [Hnodup Hnonil].
    pose proof (node_all_children _ _ Hok) as Hchok.
    pose proof (node_all_head _ _ Hkeyed) as Hkn.
    pose proof (node_all_children _ _ Hkeyed) as Hchk.
    pose proof (node_all_head _ _ Hstale) as Hsn.
    pose proof (node_all_children _ _ Hstale) as Hchs.
    pose proof (node_all_head _ _ Hleaf) as Hln.
    pose proof (node_all_children _ _ Hleaf) as Hchl.
    cbn [pollNodeEvent]. rewrite Hig, Hstat.
    assert (Hsend : forall b e c0, cancel c0 = false ->
               exists c1, send_if b w e c0 = Some c1 /\ cancel c1 = false).
    { intros b e c0 Hc0. unfold send_if, select_send. destruct b; eauto.
      rewrite Hc0. eexists; split; [reflexivity|].
      apply forward_keeps_open; assumption. }
    destruct (Hsend (negb (ModTime (Info n) =? ModTime i))
                (mkEvent Write (Path n) i) c Hc) as [c1 [-> Hc1]].
    destruct (Hsend (negb (Mode (Info n) =? Mode i))
                (mkEvent Chmod (Path n) i) c1 Hc1) as [c2 [-> Hc2]].
    cbn [set_Info Path recursive Children].
    (* the node as the pass returns it *)
    assert (Hres : forall ch,
               children_in_step w fs fuel ch ->
               NoDup (map_keys ch) ->
               (IsDir i = true -> recursive n = true ->
                forall l, ReadDir fs (Path n) = inl l ->
                  (forall info, In info l ->
                     visible w (Path n) (Name info) = true ->
                     watched_key ch (Name info) \/ enters_ignored w n info) /\
                  (forall k c0, In (k, Some c0) ch -> ignored c0 = false ->
                     In k (map Name l) /\ visible w (Path n) k = true)) ->
               tree_in_step w fs (S fuel)
                 (set_Children (set_Info n i) ch)).
    { intros ch Hall Hnd Hclause. unfold children_in_step in Hall.
      rewrite Forall_forall in Hall. split; [|split].
      - constructor.
        + intros _. exists i. split; [assumption|].
          split; [reflexivity|]. split; [reflexivity|]. exact Hclause.
        + simpl. apply Forall_forall. intros kv Hin c0 Hc0.
          destruct (Hall _ Hin) as [c3 [Hc3 [H _]]]. congruence.
      - constructor.
        + split; [exact Hnd|]. simpl. apply Forall_forall. intros kv Hin.
          destruct (Hall _ Hin) as [c3 [-> _]]. discriminate.
        + simpl. apply Forall_forall. intros kv Hin c0 Hc0.
          destruct (Hall _ Hin) as [c3 [Hc3 [_ [H _]]]]. congruence.
      - cbn [tree_fits set_Children set_Info Path Children]. rewrite Hdepth.
        apply forallb_forall. intros [k [v|]] Hin; [|reflexivity].
        destruct (Hall _ Hin) as [c3 [Hc3 [_ [_ H]]]]. simpl in Hc3.
        injection Hc3 as <-. exact H. }
    (* a node that is not listed *)
    assert (Hkeep : ~ listed fs n ->
               exists n' c',
                 Ret (Some (set_Info n i)) c2 = Ret (Some n') c' /\
                 cancel c' = false /\
                 tree_in_step w fs (S fuel) n' /\ ignored n' = false).
    { intros Hnot. exists (set_Info n i), c2. split; [reflexivity|].
      split; [assumption|]. split; [|exact Hig].
      pose proof (Hln Hig Hnot) as Hnil.
      pose proof (Hres [] (Forall_nil _) (NoDup_nil _)) as H.
      replace (set_Info n i) with (set_Children (set_Info n i) [])
        by (destruct n; simpl in *; subst; reflexivity).
      apply H. intros Hd Hr l Hl. exfalso. apply Hnot.
      exists i, l. auto. }
    destruct (IsDir i) eqn:Hd.
    2:{ apply Hkeep. intros [i' [l' [H1 [H2 _]]]]. congruence. }
    destruct (recursive n) eqn:Hr.
    2:{ apply Hkeep. intros [i' [l' [_ [_ [H3 _]]]]]. congruence. }
    cbn [negb orb].
    destruct (ReadDir fs (Path n)) as [l|e] eqn:Hread.
    2:{ apply Hkeep. intros [i' [l' [_ [_ [_ H4]]]]]. congruence. }
    clear Hkeep. destruct (at_rest _ _ Hread) as [Hnames Hlstat].
    (* the children before the pass *)
    assert (Hinit : Forall (child_state w fs fuel n l []) (Children n)).
    { apply Forall_forall. intros [k v] Hin. unfold child_state. cbn [str_mem].
      rewrite Forall_forall in Hnonil.
      destruct v as [v|]; [|exfalso; apply (Hnonil _ Hin); reflexivity].
      exists v. split; [reflexivity|]. cbn [fst].
      destruct (ignored v) eqn:Hv.
      - left. split; [reflexivity|]. intros info Hinfo Hname. subst k.
        apply (Hsn l info v); auto.
      - right. split; [reflexivity|]. split.
        + unfold children_all in *. rewrite Forall_forall in *.
          split; [apply (Hchok _ Hin); reflexivity|].
          split; [apply (Hkids _ Hin)|].
          split; [apply (Hchk _ Hin); reflexivity|].
          split; [apply (Hchs _ Hin)|apply (Hchl _ Hin)]; reflexivity.
        + unfold keyed_by_name in Hkn. rewrite Forall_forall in Hkn.
          apply (Hkn _ Hin v eq_refl). }
    destruct (pollEntries_settles fuel _ n l IH Hlstat Hnames
                l (Children n) [] c2)
      as [ch1 [im1 [c3 [Hrun1 [Hc3 [Hk1 [Hs1 [Hm1 [Hv1 _]]]]]]]]]; auto.
    { apply incl_refl. }
    { intros k Hk. discriminate. }
    { intros info Hin.
      apply (fs_depth_listed fs fuel (Path n) l); assumption. }
    { intros k Hk. discriminate. }
    rewrite Hr in Hrun1. rewrite Hrun1.
    destruct (sweepChildren_settles fuel _ n l
                (pollNodeEvent_silent w fs fuel) ch1 [] im1 c3)
      as [ch2 [c4 [Hrun2 [Hc4 [Hk2 [Hd2 Hin2]]]]]]; auto.
    rewrite Hrun2. exists (set_Children (set_Info n i) ch2), c4.
    split; [reflexivity|].
    split; [assumption|]. split; [|exact Hig].
    rewrite Forall_forall in Hd2.
    apply Hres; auto.
    - apply Forall_forall. intros kv Hkv.
      destruct (Hd2 _ Hkv) as [c0 [Hc0 [Hstep _]]]. exists c0. auto.
    - intros _ _ l' Hl'. injection Hl' as <-. split.
      + intros info Hin Hv. destruct (Hv1 info Hin Hv) as [H|H]; [|auto].
        left. assert (Hkey : In (Name info) (map_keys ch2)).
        { apply Hin2. right. split; [apply Hm1|]; assumption. }
        unfold map_keys in Hkey. apply in_map_iff in Hkey as [kv [Hfst Hkv]].
        destruct (Hd2 _ Hkv) as [c0 [Hc0 [_ [Hig0 _]]]].
        exists c0. split; [|assumption].
        destruct kv as [k0 v0]. simpl in *. subst. assumption.
      + intros k c0 Hin Hc0.
        destruct (Hd2 _ Hin) as [c5 [Hc5 [_ [_ Hlv]]]]. exact Hlv.
Qed.
End SettlingPass.

(** X26. A complete pass brings the snapshot in step.  Take a filesystem
    at rest, no cap and [cancel] open, and a watched node that still
    exists whose tree is ready (children stored under their names, no nil
    child, an ignored child still ignorable, no children below a node
    that is not listed).  Then the diff of the node returns with [cancel]
    still open and leaves a tree in step with the filesystem: whatever it
    has just reported, a second diff in the same state sends nothing. *)
Theorem complete_pass_brings_in_step (w : GoWatcher) (fs : FS) (fuel : nat)
    (n : FileNode) (i : FileInfo) (c : Cycle) :
  maxEvents w <= 0 -> fs_at_rest fs -> cancel c = false ->
  tree_ready w fs fuel n -> ignored n = false ->
  Lstat fs (Path n) = inl i ->
  exists n' c',
    pollNodeEvent fuel w fs (Some n) c = Ret (Some n') c' /\
    cancel c' = false /\
    tree_in_step w fs fuel n' /\
    exists n'', pollNodeEvent fuel w fs (Some n') c' = Ret (Some n'') c'.
Proof.
  intros no_cap at_rest Hc Hready Hig Hstat.
  destruct (pollNodeEvent_settles w fs no_cap at_rest fuel n c Hc Hready Hig)
    as [n' [c' [Hrun [Hc' [Hstep _]]]]]; [eauto|].
  exists n', c'. split; [exact Hrun|]. split; [exact Hc'|].
  split; [exact Hstep|].
  destruct (pollNodeEvent_silent w fs fuel n' c' Hstep) as [n'' [H _]].
  exists n''. exact H.
Qed.

Lemma ex_fs_grown_at_rest : fs_at_rest ex_fs_grown.
Proof.
  intros path infoList H. cbn in H.
  destruct (String.eqb_spec path "/d") as [->|_].
  { injection H as <-. split.
    - repeat constructor; simpl; intuition discriminate.
    - intros info Hin. listed_entries Hin; reflexivity. }
  destruct (String.eqb_spec path "/d/new") as [->|_].
  { injection H as <-. split.
    - repeat constructor; simpl; intuition discriminate.
    - intros info Hin. listed_entries Hin; reflexivity. }
  destruct (String.eqb_spec path "/d/sub") as [->|_]; [|discriminate].
  injection H as <-. split.
  - repeat constructor; simpl; intuition discriminate.
  - intros info Hin. listed_entries Hin; reflexivity.
Qed.

Lemma ex_tree_ready : tree_ready ex_watcher ex_fs_grown 3 ex_tree.
Proof.
  split; [exact ex_tree_ok|]. split; [reflexivity|].
  assert (Hleaf : forall p i ig r,
             node_all keyed_by_name (mkNode p i ig r []) /\
             node_all (stale_ok ex_watcher ex_fs_grown) (mkNode p i ig r []) /\
             node_all (unlisted_leaf ex_fs_grown) (mkNode p i ig r [])).
  { intros. split; [|split].
    - constructor; [apply Forall_nil | apply Forall_nil].
    - constructor; [|apply Forall_nil]. intros l info ch _ _ [].
    - constructor; [|apply Forall_nil]. intros _ _. reflexivity. }
  split; [|split].
  - constructor.
    + unfold keyed_by_name. simpl.
      repeat (apply Forall_cons; [intros c [= <-]; reflexivity|]).
      apply Forall_nil.
    + simpl.
      repeat (apply Forall_cons; [simpl; intros c [= <-]; apply Hleaf|]).
      apply Forall_nil.
  - constructor.
    + intros l info ch Hread Hin Hch Hig. cbn in Hread. injection Hread as <-.
      simpl in Hch.
      destruct Hch as [Hch|[Hch|[Hch|[]]]]; injection Hch as Hname <-;
        try discriminate Hig.
      listed_entries Hin; try discriminate Hname. reflexivity.
    + simpl.
      repeat (apply Forall_cons; [simpl; intros c [= <-]; apply Hleaf|]).
      apply Forall_nil.
  - constructor.
    + intros _ Hnot. exfalso. apply Hnot.
      exists (ex_dir "d" 1),
        [ex_file ".h" 1; ex_file "a.txt" 1; ex_link "l" 1;
         ex_dir "new" 1; ex_dir "sub" 1; ex_file "x" 1].
      repeat split.
    + simpl.
      repeat (apply Forall_cons; [simpl; intros c [= <-]; apply Hleaf|]).
      apply Forall_nil.
Qed.

Lemma complete_pass_brings_in_step_witness :
  exists n' c',
    pollNodeEvent 3 ex_watcher ex_fs_grown (Some ex_tree) new_cycle
    = Ret (Some n') c' /\
    cancel c' = false /\
    tree_in_step ex_watcher ex_fs_grown 3 n' /\
    exists n'',
      pollNodeEvent 3 ex_watcher ex_fs_grown (Some n') c' = Ret (Some n'') c'.
Proof.
  apply (complete_pass_brings_in_step ex_watcher ex_fs_grown 3 ex_tree
           (ex_dir "d" 1) new_cycle).
  - simpl. lia.
  - exact ex_fs_grown_at_rest.
  - reflexivity.
  - exact ex_tree_ready.
  - reflexivity.
  - reflexivity.
Defined.

(* ================================================================= *)
(** ** A watched child that has become hidden *)

Lemma at_rest_static (fs : FS) : fs_at_rest fs -> fs_static fs.
Proof.
  intros H path infoList Hread. destruct (H path infoList Hread) as [Hn Hl].
  split; [assumption|]. intros info Hin. exists info. auto.
Qed.

(** X27. A watched child that the pass no longer visits is reported as
    removed.  When hidden files are ignored and a child is recorded under
    a hidden name (it was added before [IgnoreHiddenFiles] was called),
    then, with no cap, [cancel] open and a filesystem that stays as it is
    during the pass, the child gets exactly one [Remove] event and is
    deleted from the children map, whether or not the file still
    exists. *)
Theorem hidden_child_is_reported_removed (w : GoWatcher) (fs : FS)
    (fuel : nat) (D : FileNode) (dinfo : FileInfo) (l : list FileInfo)
    (k0 : string) (ch : FileNode) (c : Cycle) :
  maxEvents w <= 0 -> fs_static fs -> cancel c = false ->
  ignored D = false -> recursive D = true ->
  Lstat fs (Path D) = inl dinfo -> IsDir dinfo = true ->
  ReadDir fs (Path D) = inl l ->
  tree_fits fs (S fuel) D = true -> node_all map_ok D ->
  Forall (keyed_under (Path D)) (Children D) ->
  has_slash k0 = false ->
  ignoreHidden w = true -> fst (isHiddenFile (Join (Path D) k0)) = true ->
  map_get k0 (Children D) = Some (Some ch) ->
  ignored ch = false -> Path ch = Join (Path D) k0 ->
  exists D' c',
    pollNodeEvent (S fuel) w fs (Some D) c = Ret (Some D') c' /\
    count_events Remove (Path ch) (received c') =
      S (count_events Remove (Path ch) (received c)) /\
    In (mkEvent Remove (Path ch) (Info ch)) (received c') /\
    map_get k0 (Children D') = None.
Proof.
  intros no_cap static Hc H1 H2 H3 H4 H5 H6 H7 H8 H9 Hih Hhid H11 H12 H13.
  assert (H10 : In k0 (map Name l) -> visible w (Path D) k0 = false).
  { intros _. unfold visible. rewrite Hih, Hhid. reflexivity. }
  destruct (removed_entry_counted w fs no_cap static fuel D dinfo l
              H1 H2 H3 H4 H5 H6 H7 H8 k0 ch H9 H10 H11 H12
              (is_event Remove (Path ch))) with (c := c)
    as [D' [c' [Hrun [_ [Hcnt Hget]]]]]; auto.
  { intros e He. apply is_event_sel in He. rewrite <- H13. apply He. }
  { unfold is_event. simpl. rewrite String.eqb_refl. reflexivity. }
  destruct (removed_entry_counted w fs no_cap static fuel D dinfo l
              H1 H2 H3 H4 H5 H6 H7 H8 k0 ch H9 H10 H11 H12
              (is_exactly (mkEvent Remove (Path ch) (Info ch))))
    with (c := c) as [D'' [c'' [Hrun' [_ [Hcnt' _]]]]]; auto.
  { intros e He. apply is_exactly_eq in He. subst e. simpl. auto. }
  { apply is_exactly_eq. reflexivity. }
  rewrite Hrun in Hrun'. injection Hrun' as <- <-.
  exists D', c'. split; [exact Hrun|]. split; [exact Hcnt|].
  split; [exact (counted_once_In _ _ _ Hcnt')|]. exact Hget.
Qed.

Lemma hidden_child_is_reported_removed_witness :
  exists D' c',
    pollNodeEvent 3 ex_watcher ex_fs (Some ex_tree_hidden) new_cycle
    = Ret (Some D') c' /\
    count_events Remove "/d/.h" (received c') = 1%nat /\
    In (mkEvent Remove "/d/.h" (ex_file ".h" 1)) (received c') /\
    map_get ".h" (Children D') = None.
Proof.
  apply (hidden_child_is_reported_removed ex_watcher ex_fs 2%nat
           ex_tree_hidden (ex_dir "d" 1)
           [ex_file ".h" 1; ex_file "a.txt" 1; ex_link "l" 1;
            ex_dir "sub" 1; ex_file "x" 1]
           ".h" (mkNode "/d/.h" (ex_file ".h" 1) false false [])
           new_cycle);
    try reflexivity.
  - exact (at_rest_static ex_fs ex_fs_at_rest).
  - constructor.
    + split; [repeat constructor; simpl; tauto|].
      repeat constructor. simpl. discriminate.
    + simpl. apply Forall_cons; [|apply Forall_nil].
      simpl. intros c0 [= <-]. constructor; [split; constructor | constructor].
  - simpl. apply Forall_cons; [|apply Forall_nil].
    intros c0 [= <-]. constructor; [apply under_refl | constructor].
Defined.

(* ================================================================= *)
(** ** A written file, followed through the whole cycle

    The file is a node at any depth of one root.  The pass comes to it
    once for every time it diffs the directories above it, two times per
    level; the first diff sends the [Write] and records the new
    metadata, and every later diff finds the node up to date. *)

Lemma node_all_impl (P Q : FileNode -> Prop) :
  (forall m, P m -> Q m) -> forall n, node_all P n -> node_all Q n.
Proof.
  intros HPQ.
  apply (FileNode_nested_ind (fun n => node_all P n -> node_all Q n)).
  intros n IH Hn. constructor.
  - apply HPQ. exact (node_all_head _ _ Hn).
  - pose proof (node_all_children _ _ Hn) as Hch. unfold children_all in Hch.
    rewrite Forall_forall in *. intros kv Hin c Hc.
    apply (IH kv Hin c Hc). exact (Hch kv Hin c Hc).
Qed.

Lemma others_all_impl (P Q : FileNode -> Prop) (k : string) (ch : ChildMap) :
  (forall m, P m -> Q m) -> others_all P k ch -> others_all Q k ch.
Proof.
  intros HPQ H. unfold others_all in *. eapply Forall_impl; [|exact H].
  intros kv Hkv Hne c Hc. apply (node_all_impl P Q HPQ). auto.
Qed.

(** With distinct keys, the child under [k] and the other children make
    up the whole map. *)
Lemma others_all_all (P : FileNode -> Prop) (k : string) (ch : FileNode)
    (m : ChildMap) :
  NoDup (map_keys m) -> map_get k m = Some (Some ch) -> node_all P ch ->
  others_all P k m -> children_all P m.
Proof.
  intros Hnd Hget Hch Hothers. unfold children_all, others_all in *.
  rewrite Forall_forall in *. intros [k1 v1] Hin c Hc. simpl in Hc. subst v1.
  destruct (String.eqb_spec k1 k) as [->|Hne].
  - rewrite (In_map_get _ _ _ Hnd Hin) in Hget. injection Hget as ->.
    exact Hch.
  - exact (Hothers _ Hin Hne c eq_refl).
Qed.

Section WrittenBelow.
Variable w : GoWatcher.
Variable fs : FS.
Hypothesis no_cap : maxEvents w <= 0.
Hypothesis at_rest : fs_at_rest fs.

Variable target : string.
Variable newInfo : FileInfo.
Hypothesis target_stat : Lstat fs target = inl newInfo.

Variable sel : Event -> bool.
Hypothesis sel_Write :
    forall e, sel e = true -> ev_op e = Write /\ ev_path e = target.

Let cnt (c : Cycle) : nat := count_sel sel (received c).
Let current : FileNode -> Prop := up_to_date target newInfo.
Let open_at (a : nat) (c : Cycle) : Prop := cancel c = false /\ cnt c = a.

Lemma current_newNode (dir : string) (l : list FileInfo) (info : FileInfo)
    (rec ign : bool) :
    ReadDir fs dir = inl l -> In info l ->
    node_all current (newNode (Join dir (Name info)) info rec ign).
Proof.
    intros Hread Hin. constructor; [|constructor].
    intros Hp. simpl in Hp |- *.
    destruct (at_rest _ _ Hread) as [_ Hl]. specialize (Hl info Hin).
    rewrite Hp in Hl. congruence.
Qed.

Lemma current_forward (n : FileNode) (e : Event) (a : nat) (c : Cycle) :
    current n -> emits fs n e -> open_at a c -> open_at a (forward w e c).
Proof.
    intros Hn He [Hc Ha]. split; [apply forward_keeps_open; assumption|].
    unfold cnt in *. rewrite count_forward.
    destruct (sel e) eqn:Hs; [|lia]. exfalso.
    destruct (sel_Write e Hs) as [Hop Hpath].
    destruct He as [|i Hst Hne|i Hst Hne|i l0 Hr Hi]; simpl in *;
      try discriminate.
    apply Hne. rewrite Hpath in Hst.
    assert (i = newInfo) by congruence. subst i. exact (Hn Hpath).
Qed.

  (** The diff of a tree whose nodes are up to date sends no counted
      event and leaves the nodes up to date. *)
Lemma current_poll (fuel : nat) (a : nat) :
    poll_keeps current (open_at a) (pollNodeEvent fuel w fs).
Proof.
    apply pollNodeEvent_keeps.
    - intros n i _ _ Hstat Hp. simpl in Hp |- *. rewrite Hp in Hstat.
      congruence.
    - intros n ch Hn _. exact Hn.
    - intros n i l Hn _ Hread Hin.
      exact (node_all_head _ _ (current_newNode _ l i _ _ Hread Hin)).
    - intros n e c Hn _ He _ HI. exact (current_forward n e a c Hn He HI).
Qed.
  (** First loop: the entries other than [k] leave alone the child
      stored under [k] and the counted events, and the other children
      stay up to date. *)
Lemma pollEntries_others (fuel : nat) (dir : string) (rec : bool)
    (l : list FileInfo) (k : string) :
    ReadDir fs dir = inl l ->
    forall todo children infoMap c r c',
      ~ In k (map Name todo) -> incl todo l ->
      others_all current k children ->
      cancel c = false ->
      pollEntries (pollNodeEvent fuel w fs) w dir rec todo children infoMap c
      = Ret r c' ->
      map_get k (snd (fst r)) = map_get k children /\
      others_all current k (snd (fst r)) /\
      cancel c' = false /\ cnt c' = cnt c.
Proof.
    intros Hread.
    induction todo as [|info rest IH];
      intros children infoMap c r c' Hk Hincl Hothers Hc.
    - simpl. intros [= <- <-]. simpl. auto.
    - cbn [pollEntries isHiddenFile].
      assert (Hne : Name info <> k) by (intros H; apply Hk; left; assumption).
      assert (Hrest : ~ In k (map Name rest))
        by (intros H; apply Hk; right; assumption).
      assert (Hne' : String.eqb k (Name info) = false)
        by (apply String.eqb_neq; congruence).
      assert (Hin : In info l) by (apply Hincl; left; reflexivity).
      assert (Hincl' : incl rest l)
        by (intros x Hx; apply Hincl; right; assumption).
      assert (Hset : forall v children0,
                 others_all current k children0 ->
                 (forall ch, v = Some ch -> node_all current ch) ->
                 others_all current k (map_set (Name info) v children0)).
      { intros v children0 H0 Hv. apply Forall_map_set; [exact H0|].
        intros _ ch Hch. apply Hv. exact Hch. }
      destruct (ignoreHidden w && _); [apply IH; assumption|].
      destruct (map_get (Name info) children) as [[child|]|] eqn:Hget.
      + destruct (ignored child); [apply IH; assumption|].
        pose proof Hothers as Hchild. unfold others_all in Hchild.
        rewrite Forall_forall in Hchild.
        pose proof (current_poll fuel (cnt c) child c
                      (Hchild _ (map_get_In _ _ _ Hget) Hne child eq_refl)
                      (conj Hc eq_refl)) as Hp.
        destruct (pollNodeEvent fuel w fs (Some child) c) as [r1 c1| | |];
          try discriminate.
        destruct Hp as [Hr1 [Hc1 Hcnt1]]. intros Hrun.
        destruct (IH _ _ _ _ _ Hrest Hincl' (Hset r1 _ Hothers Hr1) Hc1 Hrun)
          as [H1 [H2 [H3 H4]]].
        rewrite map_get_map_set, Hne' in H1.
        repeat split; auto. congruence.
      + discriminate.
      + set (newChild := newNode _ info rec _).
        assert (Hnew : node_all current newChild)
          by (apply (current_newNode dir l); assumption).
        assert (Hothers1 : others_all current k
                             (map_set (Name info) (Some newChild) children)).
        { apply Hset; [assumption|]. intros ch [= <-]. exact Hnew. }
        assert (Hget1 : map_get k (map_set (Name info) (Some newChild) children)
                        = map_get k children)
          by (rewrite map_get_map_set, Hne'; reflexivity).
        destruct (ignored newChild).
        { intros Hrun.
          destruct (IH _ _ _ _ _ Hrest Hincl' Hothers1 Hc Hrun)
            as [H1 [H2 [H3 H4]]].
          repeat split; auto. congruence. }
        unfold select_send. rewrite Hc.
        set (c1 := forward w (mkEvent Create (Join dir (Name info)) info) c).
        assert (Hopen1 : open_at (cnt c) c1).
        { split; [apply forward_keeps_open; assumption|].
          unfold cnt, c1. rewrite count_forward.
          destruct (sel _) eqn:Hs; [|lia].
          apply sel_Write in Hs. destruct Hs as [Hs _]. discriminate. }
        pose proof (current_poll fuel (cnt c) newChild c1 Hnew Hopen1) as Hp.
        destruct (pollNodeEvent fuel w fs (Some newChild) c1) as [r2 c2| | |];
          try discriminate.
        destruct Hp as [Hr2 [Hc2 Hcnt2]]. intros Hrun.
        assert (Hothers2 : others_all current k
                             (map_set (Name info)
                                (Some match r2 with
                                      | Some m => m
                                      | None => newChild
                                      end)
                                (map_set (Name info) (Some newChild) children))).
        { apply Hset; [assumption|]. intros ch [= <-].
          destruct r2; auto. }
        destruct (IH _ _ _ _ _ Hrest Hincl' Hothers2 Hc2 Hrun)
          as [H1 [H2 [H3 H4]]].
        rewrite map_get_map_set, Hne' in H1.
        repeat split; auto; congruence.
Qed.
Variable f : FileNode.
Hypothesis f_path : Path f = target.
Hypothesis f_watched : ignored f = false.
Hypothesis f_file : IsDir newInfo = false.
Hypothesis f_written : ModTime (Info f) <> ModTime newInfo.
Hypothesis sel_event : sel (mkEvent Write target newInfo) = true.

Lemma elsewhere_current (m : FileNode) : Path m <> Path f -> current m.
Proof. intros Hne Hp. exfalso. apply Hne. congruence. Qed.

  (** The diff of a tree that leads to the file sends one counted event
      and leaves every node of the tree up to date. *)
Lemma reached_counted (n : FileNode) :
    pass_reaches w fs f n ->
    forall fuel c,
      tree_fits fs fuel n = true -> node_all map_ok n -> cancel c = false ->
      exists n' c',
        pollNodeEvent fuel w fs (Some n) c = Ret (Some n') c' /\
        cancel c' = false /\ cnt c' = S (cnt c) /\ node_all current n'.
Proof.
    induction 1 as [Hbelow
                   |D ch dinfo l k Hig Hrec Hstat Hdir Hread Hin Hvis Hget
                      Hch Hpath Hothers Hreach IH];
      intros fuel c Hfits Hok Hc;
      (destruct fuel as [|fuel]; [discriminate|]).
    - pose proof target_stat as Hst. rewrite <- f_path in Hst.
      destruct (poll_file w fs fuel f newInfo c no_cap f_watched Hst f_file Hc)
        as [c' [Hrun [Hc' [_ Hcnt]]]].
      exists (set_Info f newInfo), c'. split; [exact Hrun|].
      split; [exact Hc'|]. split.
      + unfold cnt. rewrite (Hcnt sel (fun e H => proj1 (sel_Write e H))).
        rewrite f_path, sel_event.
        destruct (Z.eqb_spec (ModTime (Info f)) (ModTime newInfo));
          [contradiction|]. simpl. lia.
      + constructor; [intros _; reflexivity|]. simpl.
        eapply Forall_impl; [|exact Hbelow].
        intros kv Hkv c0 Hc0.
        exact (node_all_impl _ _ elsewhere_current c0 (Hkv c0 Hc0)).
    - destruct (dir_pass_runs w fs fuel D c dinfo l no_cap
                  (at_rest_static fs at_rest) Hig Hrec Hstat Hdir Hread
                  Hfits Hok Hc)
        as [c2 [ch1 [im1 [c3 [ch2 [c4 [Hc2 [Hself [Hrun1 [Hkeys1
              [Hrun2 [Hc4 Hrun]]]]]]]]]]]].
      assert (Hcnt2 : cnt c2 = cnt c).
      { apply Hself. intros e He. destruct (sel_Write e He) as [_ ->].
        rewrite <- f_path. auto. }
      assert (Hothers0 : others_all current k (Children D))
        by exact (others_all_impl _ _ k _ elsewhere_current Hothers).
      (* first loop, up to the entry [k] *)
      destruct (first_occurrence k l Hin)
        as [before [info [rest [Hl [Hname Hbefore]]]]].
      assert (Hrest : ~ In k (map Name rest)).
      { destruct (at_rest _ _ Hread) as [Hnd _]. rewrite Hl in Hnd.
        rewrite map_app in Hnd. cbn [map] in Hnd.
        apply NoDup_remove_2 in Hnd. rewrite Hname in Hnd.
        intros H. apply Hnd. apply in_or_app. right. assumption. }
      rewrite Hl, pollEntries_app in Hrun1.
      destruct (pollEntries _ w (Path D) true before (Children D) [] c2)
        as [[[ret1 chb] imb] cb| | |] eqn:Hb; try discriminate.
      destruct (pollEntries_others fuel (Path D) true l k Hread before
                  (Children D) [] c2 _ cb Hbefore
                  ltac:(rewrite Hl; apply incl_appl, incl_refl)
                  Hothers0 Hc2 Hb) as [Hgetb [Hothersb [Hcb Hcntb]]].
      simpl in Hgetb, Hothersb.
      destruct ret1; [discriminate|].
      (* the entry [k] *)
      cbn [pollEntries isHiddenFile] in Hrun1.
      unfold visible in Hvis. cbn [isHiddenFile fst] in Hvis.
      rewrite Hname in Hrun1. apply negb_true_iff in Hvis.
      rewrite Hvis, Hgetb, Hget, Hch in Hrun1.
      assert (Hchin : In (k, Some ch) (Children D))
        by exact (map_get_In _ _ _ Hget).
      assert (Hfits' : tree_fits fs fuel ch = true).
      { cbn [tree_fits] in Hfits. apply andb_true_iff in Hfits as [_ Hkids].
        rewrite forallb_forall in Hkids. exact (Hkids _ Hchin). }
      assert (Hok' : node_all map_ok ch).
      { pose proof (node_all_children _ _ Hok) as Hk. unfold children_all in Hk.
        rewrite Forall_forall in Hk. exact (Hk _ Hchin ch eq_refl). }
      destruct (IH fuel cb Hfits' Hok' Hcb)
        as [ch' [ck [Hpoll [Hck [Hcntk Hcur]]]]].
      rewrite Hpoll in Hrun1.
      (* first loop, after the entry [k] *)
      destruct (pollEntries_others fuel (Path D) true l k Hread rest
                  (map_set k (Some ch') chb) (k :: imb) ck _ c3 Hrest
                  ltac:(rewrite Hl; apply incl_appr, incl_tl, incl_refl)
                  ltac:(apply Forall_map_set; [exact Hothersb|];
                        intros Hkk; exfalso; apply Hkk; reflexivity)
                  Hck Hrun1) as [Hget3 [Hothers3 [Hc3 Hcnt3]]].
      simpl in Hget3, Hothers3.
      rewrite map_get_map_set, String.eqb_refl in Hget3.
      (* second loop *)
      pose proof (others_all_all current k ch' ch1 Hkeys1 Hget3 Hcur Hothers3)
        as Hall1.
      pose proof (sweepChildren_keeps w fs current (open_at (cnt c3))
                    (fun n0 e c0 Hn _ He _ HI =>
                       current_forward n0 e (cnt c3) c0 Hn He HI)
                    _ (current_poll fuel (cnt c3)) ch1 [] im1 c3 Hall1
                    (Forall_nil _) (conj Hc3 eq_refl)) as Hs.
      rewrite Hrun2 in Hs. simpl in Hs. destruct Hs as [Hall2 [_ Hcnt4]].
      exists (set_Children (set_Info D dinfo) ch2), c4.
      split; [exact Hrun|]. split; [exact Hc4|]. split.
      + unfold cnt in *. lia.
      + constructor; [|exact Hall2].
        apply elsewhere_current. exact Hpath.
Qed.
  (** The roots that do not hold the file are diffed without a counted
      event. *)
Lemma pollRoots_current (fuel : nat) :
    forall todo c,
      Forall (child_ready fs (S fuel)) todo -> children_all current todo ->
      cancel c = false ->
      exists roots c',
        pollRoots (S fuel) w fs todo c = Ret roots c' /\
        cancel c' = false /\ cnt c' = cnt c.
Proof.
    induction todo as [|[k0 [r|]] rest IH]; intros c Hready Hcur Hc.
    - exists [], c. auto.
    - pose proof (Forall_inv Hready) as Hr. simpl in Hr.
      pose proof (Forall_inv_tail Hready) as Hready'.
      pose proof (Forall_inv Hcur) as Hcr. simpl in Hcr.
      pose proof (Forall_inv_tail Hcur) as Hcur'.
      destruct (Hr r eq_refl) as [Hfits Hok].
      destruct (pollNodeEvent_returns w fs no_cap (at_rest_static fs at_rest)
                  (S fuel) r c Hfits Hok Hc) as [r' [c1 [Hrun [Hc1 _]]]].
      pose proof (current_poll (S fuel) (cnt c) r c (Hcr r eq_refl)
                    (conj Hc eq_refl)) as Hp.
      rewrite Hrun in Hp. destruct Hp as [_ [_ Hcnt1]].
      destruct (IH c1 Hready' Hcur' Hc1) as [roots [c' [Hrest [Hc' Hcnt']]]].
      exists ((k0, r') :: roots), c'. cbn [pollRoots].
      rewrite Hrun, Hrest. repeat split; auto. congruence.
    - pose proof (Forall_inv_tail Hready) as Hready'.
      pose proof (Forall_inv_tail Hcur) as Hcur'.
      destruct (IH c Hready' Hcur' Hc) as [roots [c' [Hrest [Hc' Hcnt']]]].
      exists ((k0, None) :: roots), c'. cbn [pollRoots pollNodeEvent].
      rewrite Hrest. auto.
Qed.

  (** The pass over the roots, one of which leads to the file. *)
Lemma pollRoots_counted (fuel : nat) (K0 : string) (r0 : FileNode) :
    pass_reaches w fs f r0 ->
    forall before after c,
      Forall (child_ready fs (S fuel)) (before ++ (K0, Some r0) :: after) ->
      children_all current before -> children_all current after ->
      cancel c = false ->
      exists roots c',
        pollRoots (S fuel) w fs (before ++ (K0, Some r0) :: after) c
        = Ret roots c' /\
        cnt c' = S (cnt c).
Proof.
    intros Hreach.
    induction before as [|[k0 [r|]] rest IH];
      intros after c Hready Hcb Hca Hc; cbn [app] in *.
    - pose proof (Forall_inv Hready) as Hr. simpl in Hr.
      pose proof (Forall_inv_tail Hready) as Hready'.
      destruct (Hr r0 eq_refl) as [Hfits Hok].
      destruct (reached_counted r0 Hreach (S fuel) c Hfits Hok Hc)
        as [n' [c1 [Hrun [Hc1 [Hcnt1 _]]]]].
      destruct (pollRoots_current fuel after c1 Hready' Hca Hc1)
        as [roots [c' [Hrest [_ Hcnt']]]].
      exists ((K0, Some n') :: roots), c'. cbn [pollRoots].
      rewrite Hrun, Hrest. split; [reflexivity | congruence].
    - pose proof (Forall_inv Hready) as Hr. simpl in Hr.
      pose proof (Forall_inv_tail Hready) as Hready'.
      pose proof (Forall_inv Hcb) as Hcr. simpl in Hcr.
      pose proof (Forall_inv_tail Hcb) as Hcb'.
      destruct (Hr r eq_refl) as [Hfits Hok].
      destruct (pollNodeEvent_returns w fs no_cap (at_rest_static fs at_rest)
                  (S fuel) r c Hfits Hok Hc) as [r' [c1 [Hrun [Hc1 _]]]].
      pose proof (current_poll (S fuel) (cnt c) r c (Hcr r eq_refl)
                    (conj Hc eq_refl)) as Hp.
      rewrite Hrun in Hp. destruct Hp as [_ [_ Hcnt1]].
      destruct (IH after c1 Hready' Hcb' Hca Hc1) as [roots [c' [Hrest Hcnt']]].
      exists ((k0, r') :: roots), c'. cbn [pollRoots].
      rewrite Hrun, Hrest. split; [reflexivity | congruence].
    - pose proof (Forall_inv_tail Hready) as Hready'.
      pose proof (Forall_inv_tail Hcb) as Hcb'.
      destruct (IH after c Hready' Hcb' Hca Hc) as [roots [c' [Hrest Hcnt']]].
      exists ((k0, None) :: roots), c'. cbn [pollRoots pollNodeEvent].
      rewrite Hrest. auto.
Qed.

  (** The whole cycle. *)
Lemma written_file_counted (fuel : nat) (K0 : string) (r0 : FileNode)
    (c : Cycle) :
    cancel c = false ->
    Forall (child_ready fs fuel) (fileTrees w) ->
    NoDup (map_keys (fileTrees w)) ->
    map_get K0 (fileTrees w) = Some (Some r0) ->
    others_all (fun m => Path m <> Path f) K0 (fileTrees w) ->
    pass_reaches w fs f r0 ->
    exists w' c',
      pollEvents fuel w fs c = Ret w' c' /\ cnt c' = S (cnt c).
Proof.
    intros Hc Hready Hnd Hget Hothers Hreach.
    assert (Hfuel : exists fuel', fuel = S fuel').
    { rewrite Forall_forall in Hready.
      destruct (Hready _ (map_get_In _ _ _ Hget) r0 eq_refl) as [Hfits _].
      destruct fuel; [discriminate | eauto]. }
    destruct Hfuel as [fuel' ->].
    destruct (map_get_split K0 _ _ Hget Hnd)
      as [before [after [Heq [Hbefore Hafter]]]].
    rewrite Heq in Hothers, Hready. unfold others_all in Hothers.
    apply Forall_app in Hothers as [Hob Hoa].
    apply Forall_inv_tail in Hoa.
    assert (Hside : forall side,
               ~ In K0 (map_keys side) ->
               Forall (fun kv => fst kv <> K0 ->
                                 forall c0, snd kv = Some c0 ->
                                   node_all (fun m => Path m <> Path f) c0)
                 side ->
               children_all current side).
    { intros side Hk Ho. unfold children_all. rewrite Forall_forall in *.
      intros kv Hin c0 Hc0.
      apply (node_all_impl _ _ elsewhere_current).
      apply (Ho kv Hin); [|exact Hc0].
      intros Hk0. apply Hk. unfold map_keys. rewrite <- Hk0.
      apply in_map. exact Hin. }
    destruct (pollRoots_counted fuel' K0 r0 Hreach before after c Hready
                (Hside _ Hbefore Hob) (Hside _ Hafter Hoa) Hc)
      as [roots [c' [Hrun Hcnt]]].
    exists (set_fileTrees w roots), c'. unfold pollEvents.
    rewrite Heq, Hrun. auto.
Qed.
End WrittenBelow.

(** C5. A cycle with no cap and [cancel] open, on a filesystem that stays
    as it is during the cycle.  [f] is a watched node of the root [r0],
    at any depth, that the pass reaches, and no other node of the roots
    has its path.  When [f] is a file on disk whose modification time
    differs from the recorded one, the cycle returns and has sent exactly
    one [Write] event for the path of [f], which carries the new
    metadata, although the pass diffs the node in both loops of every
    directory above it. *)
Theorem written_file_one_Write (w : GoWatcher) (fs : FS) (fuel : nat)
    (c : Cycle) (K0 : string) (r0 f : FileNode) (newInfo : FileInfo) :
  maxEvents w <= 0 -> fs_at_rest fs -> cancel c = false ->
  Forall (child_ready fs fuel) (fileTrees w) ->
  NoDup (map_keys (fileTrees w)) ->
  map_get K0 (fileTrees w) = Some (Some r0) ->
  others_all (fun m => Path m <> Path f) K0 (fileTrees w) ->
  pass_reaches w fs f r0 ->
  ignored f = false -> Lstat fs (Path f) = inl newInfo ->
  IsDir newInfo = false -> ModTime (Info f) <> ModTime newInfo ->
  exists w' c',
    pollEvents fuel w fs c = Ret w' c' /\
    count_events Write (Path f) (received c') =
      S (count_events Write (Path f) (received c)) /\
    In (mkEvent Write (Path f) newInfo) (received c').
Proof.
  intros no_cap at_rest Hc Hready Hnd Hget Hothers Hreach Hig Hstat Hfile Hmod.
  destruct (written_file_counted w fs no_cap at_rest (Path f) newInfo Hstat
              (is_event Write (Path f))
              (fun e He => is_event_sel _ _ e He)
              f eq_refl Hig Hfile Hmod) with (fuel := fuel) (c := c)
              (K0 := K0) (r0 := r0)
    as [w' [c' [Hrun Hcnt]]]; auto.
  { unfold is_event. simpl. rewrite String.eqb_refl. reflexivity. }
  destruct (written_file_counted w fs no_cap at_rest (Path f) newInfo Hstat
              (is_exactly (mkEvent Write (Path f) newInfo))
              (fun e He => is_exactly_sel _ e He)
              f eq_refl Hig Hfile Hmod) with (fuel := fuel) (c := c)
              (K0 := K0) (r0 := r0)
    as [w2 [c2 [Hrun2 Hcnt2]]]; auto.
  { apply is_exactly_eq. reflexivity. }
  rewrite Hrun in Hrun2. injection Hrun2 as <- <-.
  exists w', c'. split; [exact Hrun|]. split; [exact Hcnt|].
  exact (counted_once_In _ _ _ Hcnt2).
Qed.

(** The fixtures: [AddPath "/d" true] builds [ex_tree_deep], and the
    pass comes to [/d/sub/f] through [/d] and [/d/sub]. *)
Lemma ex_added_deep_built :
  AddPath 3 ex_watcher ex_fs "/d" true = Returned None ex_added_deep.
Proof. reflexivity. Qed.

Lemma ex_fs_deep_written_at_rest : fs_at_rest ex_fs_deep_written.
Proof.
  intros path infoList H. cbn in H.
  destruct (String.eqb_spec path "/d/sub") as [->|_].
  { injection H as <-. split.
    - repeat constructor; simpl; intuition discriminate.
    - intros info Hin. listed_entries Hin; reflexivity. }
  destruct (String.eqb_spec path "/d") as [->|_]; [|discriminate].
  injection H as <-. split.
  - repeat constructor; simpl; intuition discriminate.
  - intros info Hin. listed_entries Hin; reflexivity.
Qed.

Lemma ex_tree_deep_ok : node_all map_ok ex_tree_deep.
Proof.
  assert (Hleaf : forall p n, node_all map_ok (ex_leaf p n)).
  { intros p n. constructor; [split; constructor | constructor]. }
  constructor.
  - split; [repeat constructor; simpl; intuition discriminate|].
    repeat constructor; simpl; discriminate.
  - simpl. repeat apply Forall_cons; try apply Forall_nil;
      simpl; intros c0 [= <-]; try apply Hleaf.
    + constructor; [split; constructor | constructor].
    + constructor.
      * split; [repeat constructor; simpl; tauto|].
        repeat constructor. simpl. discriminate.
      * simpl. apply Forall_cons; [|apply Forall_nil].
        simpl. intros c0 [= <-]. apply Hleaf.
Qed.

Lemma ex_tree_deep_reaches :
  pass_reaches ex_added_deep ex_fs_deep_written (ex_leaf "/d/sub/f" "f")
    ex_tree_deep.
Proof.
  assert (Hleaf : forall p n, p <> "/d/sub/f" ->
                              node_all (fun m => Path m <> "/d/sub/f")
                                (ex_leaf p n)).
  { intros p n Hp. constructor; [exact Hp | constructor]. }
  apply (reaches_child _ _ _ ex_tree_deep
           (mkNode "/d/sub" (ex_dir "sub" 1) false true
              [("f", Some (ex_leaf "/d/sub/f" "f"))])
           (ex_dir "d" 1)
           [ex_file ".h" 1; ex_file "a.txt" 1; ex_link "l" 1;
            ex_dir "sub" 1; ex_file "x" 1] "sub");
    try reflexivity.
  - simpl. auto 6.
  - simpl. discriminate.
  - unfold others_all. simpl. repeat apply Forall_cons; try apply Forall_nil;
      simpl; intros Hk c0 [= <-].
    + apply Hleaf. discriminate.
    + constructor; [simpl; discriminate | constructor].
    + contradiction.
  - apply (reaches_child _ _ _ _ (ex_leaf "/d/sub/f" "f") (ex_dir "sub" 1)
             [ex_file "f" 2] "f"); try reflexivity.
    + simpl. auto.
    + simpl. discriminate.
    + unfold others_all. simpl. apply Forall_cons; [|apply Forall_nil].
      simpl. intros Hk. contradiction.
    + apply reaches_node. constructor.
Qed.

Lemma written_file_one_Write_witness :
  exists w' c',
    pollEvents 3 ex_added_deep ex_fs_deep_written new_cycle = Ret w' c' /\
    count_events Write "/d/sub/f" (received c') = 1%nat /\
    In (mkEvent Write "/d/sub/f" (ex_file "f" 2)) (received c').
Proof.
  apply (written_file_one_Write ex_added_deep ex_fs_deep_written 3%nat
           new_cycle "/d" ex_tree_deep (ex_leaf "/d/sub/f" "f")
           (ex_file "f" 2));
    try reflexivity.
  - exact ex_fs_deep_written_at_rest.
  - apply Forall_cons; [|apply Forall_nil]. intros ch [= <-].
    split; [reflexivity | exact ex_tree_deep_ok].
  - repeat constructor. simpl. tauto.
  - unfold others_all. apply Forall_cons; [|apply Forall_nil].
    simpl. intros Hk. contradiction.
  - exact ex_tree_deep_reaches.
  - simpl. discriminate.
Defined.

(** C5 as stated fails.  [AddPath] accepts [/d] and then [/d/a.txt] as
    roots, so that the file is recorded twice: after it has been written,
    one cycle sends two [Write] events for its path.  And a hidden file
    that was recorded before hidden files were ignored is no longer
    visited: after it has been written the cycle sends no [Write] event
    for it. *)
Lemma written_file_not_one_Write :
  (exists w1 w2 w3 c',
      AddPath 3 ex_watcher ex_fs "/d" false = Returned None w1 /\
      AddPath 3 w1 ex_fs "/d/a.txt" false = Returned None w2 /\
      pollEvents 3 w2 ex_fs_written new_cycle = Ret w3 c' /\
      count_events Write "/d/a.txt" (received c') = 2%nat) /\
  (exists w1 r h w3 c',
      AddPath 3 (IgnoreHiddenFiles ex_watcher false) ex_fs "/d" false
      = Returned None w1 /\
      map_get "/d" (fileTrees w1) = Some (Some r) /\
      map_get ".h" (Children r) = Some (Some h) /\
      ignored h = false /\ Info h = ex_file ".h" 1 /\
      Lstat ex_fs_hidden_written (Path h) = inl (ex_file ".h" 2) /\
      pollEvents 3 (IgnoreHiddenFiles w1 true) ex_fs_hidden_written new_cycle
      = Ret w3 c' /\
      count_events Write "/d/.h" (received c') = 0%nat).
Proof.
  split.
  - do 4 eexists. split; [reflexivity|]. split; [reflexivity|].
    split; reflexivity.
  - do 5 eexists. split; [reflexivity|]. split; [reflexivity|].
    split; [reflexivity|]. repeat split.
Qed.
